(* ===== verification/_CoqProject ===== *)
-Q . S2P
Prelude.v
CString.v
Lookup.v
QueueIface.v
Queue.v
QueueTasks.v
QueuePool.v
Scheduler.v
Retrier.v
Configuration.v
ConfigurationReader.v
Main.v
DB.v
DBConnection.v
Logger.v
Statistics.v
GarbageCollector.v
WorkflowParameters.v
SocketQuerySAX2Handler.v
WorkflowInstances.v
NetworkInput.v
Locking.v
HandleConnection.v
Monitor.v
ProcessManager.v
PoolTasks.v
Calendar.v
Schedule.v
ScheduleSearch.v
ScheduleDescription.v
WorkflowSchedule.v
WorkflowScheduler.v
WorkflowSchedulerSafety.v
Status.v
Engine.v
Dom.v
TreeDom.v
Task.v
Registry.v
Memory.v
ExceptionMemory.v
Descriptions.v
RegistryMemory.v
WorkflowInstance.v
WorkflowExamples.v
TaskCommand.v
StdinPipe.v
WorkflowShape.v
TreeShape.v
WorkflowProgress.v
WorkflowRetry.v
WorkflowResume.v
WorkflowOrder.v
JobOrder.v
System.v
WorkflowErrors.v
SystemSafety.v
SystemProperties.v
SystemRefinement.v
SystemClients.v
