(* ===== verification/Prelude.v ===== *)
(** * A verification of evQueue core

    evQueue is an engine that executes workflows: XML documents whose jobs hold
    tasks, which are programs run on this host or through SSH.  This library
    models the C++ code of the repository ([src/*.cpp] and [src/include/*.h]) and
    proves what makes its parts correct; it also proves where they fail.

    ** The program

    A client sends an XML query on a socket ([handle_connection.cpp], parsed by
    [SocketQuerySAX2Handler.cpp]), or a schedule comes to its time
    ([WorkflowScheduler.cpp], [Schedule.cpp]); this makes a [WorkflowInstance],
    which walks its document and puts tasks in the queues of the [QueuePool].
    The forker of the [ProcessManager] takes them out, launches a process that
    executes the monitor ([evqueue_monitor.cpp]), and the gatherer receives the
    message that the monitor sends at the end and calls the instance back.  A task
    that failed waits for its retry in the [Retrier], whose events, like those
    of the workflow scheduler, are those of [Scheduler].  The configuration, the
    descriptions of tasks, workflows and retry schedules, the map of running
    instances, the counters and the database layer serve all of them.

    ** Files

    - [Prelude]: the outcomes of C++ functions ([Ret], [Throw] for the program's
      [Exception], [Undef] for undefined behaviour), their monad, arrays, 32-bit
      integers, tactics.  [CString]: C strings, [strtol], the [%d] of [sprintf].
      [Lookup]: the binary search that three classes share.
    - [Queue] ([Queue.cpp]): linked nodes, tail pointer and allocation.
      [QueueIface] is the class of what a queue promises; [QueuePool]
      ([QueuePool.cpp]) is written against it, with the identifiers of the tasks,
      the condition variable of the forker and its threads as a step relation.
      [QueueTasks] and [PoolTasks]: which tasks a queue and the pool hold.
    - [ProcessManager] ([ProcessManager.cpp]): the iterations of the forker and
      of the gatherer; its system adds the processes and the message queue to
      the pool.  [Monitor] ([evqueue_monitor.cpp]); [TaskCommand] composes it
      with the child process of [WorkflowInstance.cpp], and [StdinPipe] is the pipe
      through which that process gets its standard input.
    - [Scheduler] ([Scheduler.cpp]): the list of events, and its threads as a step
      relation: [thread_step] are the steps of the threads alone, which sleep until
      a signal or their time; [step] adds the callers, time and spurious wakeups.
      [Retrier] ([Retrier.cpp]) instantiates it.
    - [Configuration], [ConfigurationReader], [DB], [WorkflowParameters],
      [Statistics] (with [SequenceGenerator.cpp]), [GarbageCollector], [Logger]: the
      classes of these names.  [DBConnection]: the objects of [DB.cpp] with their
      handles and result sets.  [NetworkInput]: [NetworkInputSource.cpp] and
      [BinNetworkInputStream.cpp].  [Main]: [evqueue.cpp] and [tools.cpp].
    - [Task] ([Task.cpp]) and [Registry] ([Tasks.cpp], [Workflows.cpp],
      [RetrySchedules.cpp], [Workflow.cpp] and [RetrySchedule.cpp]): descriptions as
      values.  [Memory] is the heap of their strings and the class of what a
      description promises, [Descriptions] its three instances, [ExceptionMemory] the objects of
      [Exception.cpp] in the same heap, [RegistryMemory] the
      maps of objects in memory, which refine those of [Registry].
    - [SocketQuerySAX2Handler] (the handler, and the language of queries that it
      accepts), [HandleConnection], [WorkflowInstances]: a connection and the map of
      instances, with the threads that wait on it.
    - [Locking]: the mutexes that the operations of all classes take, the rounds of
      the retry threads, which may keep one, included.
    - [Calendar] (an interface for [localtime_r] and [mktime], and its instance
      at a fixed offset from UTC), [Schedule] ([Schedule.cpp]),
      [ScheduleSearch] and [ScheduleDescription] (its theorems).
      [WorkflowSchedule], [WorkflowScheduler] (the classes of these names) and
      [WorkflowSchedulerSafety] (the life of the schedules; the messages that an
      alarm writes to the log may throw there).
    - [Status]: the documents that describe the state of the components above.
      [Engine]: what the constructor and the destructor of an instance do to the
      map of instances, the workflow scheduler and the counters.
    - [Dom]: the interface of the XML library and of XPath, a parameter of
      [WorkflowInstance] ([WorkflowInstance.cpp]); [TreeDom]: a concrete
      instance, on which the examples of [WorkflowExamples] are computed.
      [WorkflowProgress] and [WorkflowRetry]: theorems on instances.
    - [WorkflowShape]: the jobs and the tasks of a document, and the class of what
      the XML library and XPath promise of a document with such a shape;
      [TreeShape]: [TreeDom] keeps the promise.  [WorkflowOrder]: what each
      operation of an instance does to the tasks of a shape, in a weakest
      precondition style; [JobOrder]: the invariant of a running workflow, started or
      resumed, and its theorems.  [WorkflowResume]: what a resumption does to a task
      that waits for its retry.
    - [System]: the instances, the pool, the forker, the processes, the gatherer and
      the retrier as one step relation, where an instance is deleted when an
      operation reported its end.  [System.step] is what the code means to do,
      [System.fault] what it does when a task is put in a queue whose tail is wrong,
      when no identifier is free, or when a resumed task has an unknown queue or an
      identifier that is 0 or taken; [System.run] tells whether a fault has happened,
      and the theorems are about the runs without one.  [SystemSafety]: its invariant; [SystemProperties]:
      the theorems, and an executable run.  [SystemRefinement]: each instance of this
      system behaves as in the system of one instance of [WorkflowProgress], so that
      the theorems of [JobOrder] hold in the engine.  [SystemClients]: the map of
      instances around it, with the destructors, the main program and the threads of
      connections, which keep a pointer to the instance that they have launched, read
      it and, in a synchronous launch, wait for its end.  [WorkflowErrors]: which exceptions leave constructors and operations.

    Definitions keep the names of the functions; a class is a record with the
    names of its fields, and a null pointer is [None].  Strings hold no NUL.  An
    [unsigned int] is an integer reduced modulo 2^32 ([u32]) where the code
    computes with it; signed overflow, indices out of bounds, null and dangling
    pointers and indeterminate values are [Undef], so that a theorem that gives
    [Ret] excludes them.

    ** Theorems

    - Data structures: the queue refines a FIFO specification as long as its
      dangling tail is not used; the configuration and the parameters refine maps;
      the events stay sorted and none is lost; the pool's counters agree with its
      table of identifiers; reading a printed configuration and parsing a printed
      schedule give them back.
    - Instances: the counters of running and retrying tasks are exact through any
      order of calls, so that the end is reported once, after which no call comes;
      a cancelled workflow drains; a retry schedule is followed to the letter.
      In a workflow without conditions, loops and computed inputs a job starts when,
      and only when, all the tasks of the job above have succeeded; the status of a
      task says who holds it; and a workflow that ends without a failure has
      completed all its jobs.
    - The engine as a whole: the counters of an instance are the numbers of its tasks
      that the other components hold, an instance is deleted exactly when nobody
      holds a task of it, and nobody calls a deleted one, in runs without a fault.
      Each instance in it is a run of the system of one instance, and the order of
      its jobs and the meaning of the statuses hold whatever the other components do.
      The map of instances gives clients the instances that live, and no other.
    - Memory: the descriptions of tasks, workflows and retry schedules, and the
      objects of the database, behave as values; what they allocate is freed once.
    - Composition: no wakeup of the forker is lost; the end of each process is
      handed to the instance and the node that it was launched for; the command
      that the monitor executes is the one of the task, and the remote shell reads
      its parameters back; every well-formed query is served; waiting clients are
      released; a due event fires; the schedules of the workflow scheduler are never
      used after their deletion; and operations that take the mutexes in order cannot
      block one another.  Each theorem names the conditions under which the code
      keeps the promise, and the theorems on errors show that it does not without.
    - Arithmetic and text: [QueryPrintf] stays in its buffer; the search for the
      next time of a schedule ends with a time that matches, and the earliest
      under a stated condition, at a fixed offset from UTC; the SAX handler accepts
      exactly the documents of a language of queries.
    - Exceptions: none of the program leaves an operation of an instance that holds
      its mutex, and a constructor that throws leaves nothing behind; those of the
      XML library do ([WorkflowErrors.library_exception_escapes]).
    - Errors: runs of the model, or general statements, that show deadlocks, null
      and dangling pointers, lost tasks and missed times; each is a behaviour of
      the code as it is written, and the theorems above name the condition that
      excludes it.

    ** Fuel

    [Schedule.get_next_time] recurses on dates: [GetNextTime_terminates] gives the
    fuel for each schedule and time.  [Schedule.read_level] consumes a character
    at least at each iteration, and its fuel is the length of the text plus one.
    The binary searches take the length of the array plus one, and
    [Lookup.binary_search_found] shows that it is enough.  The loop that writes a
    savepoint has one iteration more than the list of the queries that may fail.
    The loop of [ExecuteTask] on the identifiers runs once for each of them.

    ** What is not modelled

    The serialization and sending of the documents of [Status], sockets and the
    construction of threads only call libraries.  Connections to MySQL and the
    server itself are parameters.  Time zones with daylight saving time are an
    instance that [Calendar] leaves open.  A function reads the clock once in the
    model where the code reads it for each schedule that it loads.
    [Logger::Log], which throws when messages are also written to a database that
    does not answer ([Logger.Log_database_down]), is taken to return everywhere but
    in [WorkflowScheduler.alarm].  The assignment operators of descriptions end
    without a return ([Task.cpp], [Workflow.cpp], [RetrySchedule.cpp]); no caller uses
    their value, and [RegistryMemory.assign] returns as the compiled code is meant to.
    [ResetGlobalStatistics] and the fields that threads read without a mutex are
    atomic here.  In [System] what the constructors leave is a parameter, [built]:
    [WorkflowErrors.constructs] is what they do, and [SystemRefinement] asks that the
    documents that they leave have a shape.  The workflow scheduler starts instances
    there as the connections do; its slots are in [WorkflowScheduler]. *)

From Stdlib Require Export ZArith Lia Bool.
From Stdlib Require Export String Ascii.
From stdpp Require Export base tactics numbers option list gmap strings.

#[global] Set Default Goal Selector "!".

(** * Outcomes

    A C++ function returns, throws the program's [Exception], or runs into
    undefined behaviour: a null or dangling pointer is dereferenced, an array
    is read out of its bounds, an indeterminate value is used. *)

Record Exception : Type := mkException { context : string; error : string }.

Inductive outcome (A : Type) : Type :=
  | Ret (a : A)
  | Throw (e : Exception)
  | Undef.
Arguments Ret {A} a.
Arguments Throw {A} e.
Arguments Undef {A}.

#[export] Instance outcome_ret : MRet outcome := fun _ a => Ret a.
#[export] Instance outcome_bind : MBind outcome := fun _ _ k m =>
  match m with
  | Ret a => k a
  | Throw e => Throw e
  | Undef => Undef
  end.

(** A pointer or array access that is undefined behaviour when it misses. *)
Definition deref {A} (o : option A) : outcome A :=
  match o with
  | Some a => Ret a
  | None => Undef
  end.

Lemma bind_Ret {A B} (m : outcome A) (k : A -> outcome B) b :
  m ≫= k = Ret b <-> exists a, m = Ret a /\ k a = Ret b.
Proof.
  destruct m; simpl; split; try done.
  - eauto.
  - by intros (a' & [= <-] & H).
  - by intros (a' & ? & _).
  - by intros (a' & ? & _).
Qed.

Lemma deref_Ret {A} (o : option A) a : deref o = Ret a <-> o = Some a.
Proof. destruct o; simpl; split; congruence. Qed.

(** Turns hypotheses that say that a sequence of calls returned into the
    facts about each call. *)
Ltac inv_ret :=
  repeat match goal with
  | H : _ ≫= _ = Ret _ |- _ => apply bind_Ret in H as (? & ? & H)
  | H : deref _ = Ret _ |- _ => apply deref_Ret in H
  | H : Ret _ = Ret _ |- _ => injection H as H
  | H : Throw _ = Ret _ |- _ => discriminate H
  | H : Undef = Ret _ |- _ => discriminate H
  | H : (_, _) = (_, _) |- _ => injection H as H
  end; simplify_eq/=.

(** Steps through a sequence of calls whose results are known. *)
Ltac run_ret :=
  repeat match goal with
  | H : ?m = Ret _ |- context [?m] => rewrite H
  | |- context [Ret ?a ≫= ?k] => let r := eval cbv beta in (k a) in change (Ret a ≫= k) with r
  | H : ?o = Some _ |- context [deref ?o] => rewrite H
  | |- context [deref (Some ?a)] => change (deref (Some a)) with (Ret a)
  end; simpl.

(** Destructs the innermost scrutinee of a match or conditional. *)
Ltac break_match :=
  match goal with
  | |- context [match ?e with _ => _ end] =>
      lazymatch e with context [match _ with _ => _ end] => fail | _ => destruct e eqn:? end
  end.
Ltac break_match_hyp H :=
  match type of H with
  | context [match ?e with _ => _ end] =>
      lazymatch e with context [match _ with _ => _ end] => fail | _ => destruct e eqn:? end
  end.

(** * Machine integers

    [unsigned int] and [int] are 32 bits wide: the value of an arithmetic
    expression wraps around.  (Signed overflow is undefined behaviour in C++;
    where a signed sum can overflow, the model says so.) *)

Definition u32 (z : Z) : Z := (z mod 2 ^ 32)%Z.
Definition i32 (z : Z) : Z := ((z + 2 ^ 31) mod 2 ^ 32 - 2 ^ 31)%Z.

Lemma u32_range z : (0 <= u32 z < 2 ^ 32)%Z.
Proof. apply Z.mod_pos_bound. lia. Qed.

Lemma u32_small z : (0 <= z < 2 ^ 32)%Z -> u32 z = z.
Proof. apply Z.mod_small. Qed.

Lemma i32_small z : (- 2 ^ 31 <= z < 2 ^ 31)%Z -> i32 z = z.
Proof. intros. unfold i32. rewrite Z.mod_small; lia. Qed.

Lemma u32_idemp z : u32 (u32 z) = u32 z.
Proof. apply u32_small, u32_range. Qed.

Lemma u32_add_l a b : u32 (u32 a + b) = u32 (a + b).
Proof. unfold u32. by rewrite Zplus_mod_idemp_l. Qed.

Lemma u32_sub_l a b : u32 (u32 a - b) = u32 (a - b).
Proof. unfold u32. by rewrite Zminus_mod_idemp_l. Qed.

Create HintDb evq.
Create Rewrite HintDb evq.
#[export] Hint Resolve u32_range u32_small i32_small : evq.
#[export] Hint Rewrite @u32_idemp @u32_add_l @u32_sub_l : evq.

(** * References

    The engine passes workflow instances and XML nodes around as pointers and
    compares them with null; the components that only hold them see addresses. *)

Abbreviation wi_ref := positive (only parsing).
Abbreviation node_ref := positive (only parsing).

(** * Lists *)

Lemma filter_snoc {A} (P : A -> Prop) `{!forall x, Decision (P x)} (l : list A) x :
  filter P (l ++ [x]) = filter P l ++ (if decide (P x) then [x] else []).
Proof. rewrite filter_app. simpl. rewrite filter_cons, filter_nil. done. Qed.

Lemma NoDup_app_disjoint {A} (l k : list A) x : NoDup (l ++ k) -> x ∈ l -> x ∉ k.
Proof. intros (_ & H & _)%NoDup_app. apply H. Qed.

Lemma list_filter_fmap {A B} (f : A -> B) (P : B -> Prop) `{!forall x, Decision (P x)} (l : list A) :
  filter P (f <$> l) = f <$> filter (fun x => P (f x)) l.
Proof.
  induction l as [|x l IH]; [done|]. rewrite fmap_cons, !filter_cons, IH.
  by case_decide.
Qed.

(** An option that is computed to be [Some]. *)
Lemma is_some_check {A} (o : option A) : (if o then true else false) = true -> exists x, o = Some x.
Proof. destruct o; [eauto|done]. Qed.

(** * Arrays

    A C array is a list; reading or writing outside of it is undefined. *)

Definition in_bounds {A} (arr : list A) (i : Z) : bool :=
  ((0 <=? i) && (i <? Z.of_nat (List.length arr)))%Z.

Definition aget {A} (arr : list A) (i : Z) : outcome A :=
  if in_bounds arr i then deref (arr !! Z.to_nat i) else Undef.

Definition aset {A} (arr : list A) (i : Z) (v : A) : outcome (list A) :=
  if in_bounds arr i then Ret (<[Z.to_nat i := v]> arr) else Undef.

Lemma in_bounds_iff {A} (arr : list A) i :
  in_bounds arr i = true <-> (0 <= i < Z.of_nat (List.length arr))%Z.
Proof. unfold in_bounds. lia. Qed.

Lemma aget_Ret {A} (arr : list A) i v :
  aget arr i = Ret v <-> (0 <= i)%Z /\ arr !! Z.to_nat i = Some v.
Proof.
  unfold aget. destruct (in_bounds arr i) eqn:E.
  - apply in_bounds_iff in E. rewrite deref_Ret. intuition lia.
  - split; [done|]. intros [H1 H2%lookup_lt_Some].
    assert (in_bounds arr i = true) by (apply in_bounds_iff; lia). congruence.
Qed.

Lemma aset_Ret {A} (arr arr' : list A) i v :
  aset arr i v = Ret arr' <->
    (0 <= i < Z.of_nat (List.length arr))%Z /\ arr' = <[Z.to_nat i := v]> arr.
Proof.
  unfold aset. destruct (in_bounds arr i) eqn:E.
  - apply in_bounds_iff in E. split; [intros [= <-]; done|intros [_ ->]; done].
  - split; [done|]. intros [H%in_bounds_iff _]. congruence.
Qed.

#[export] Hint Rewrite @aget_Ret @aset_Ret : evq.

(** Counting the positions of a list where a test holds. *)
Definition count {A} (f : A -> bool) (l : list A) : Z :=
  Z.of_nat (List.length (List.filter f l)).

Lemma count_bound {A} (f : A -> bool) l : (0 <= count f l <= Z.of_nat (List.length l))%Z.
Proof. unfold count. pose proof (List.filter_length_le f l). lia. Qed.

Lemma count_insert {A} (f : A -> bool) (l : list A) i x y :
  l !! i = Some x ->
  (count f (<[i := y]> l) = count f l - Z.b2z (f x) + Z.b2z (f y))%Z.
Proof.
  unfold count. revert i. induction l as [|z l IH]; intros [|i] H; simplify_eq/=.
  - destruct (f x), (f y); simpl; lia.
  - specialize (IH i H). destruct (f z); simpl; lia.
Qed.

Lemma count_pos {A} (f : A -> bool) (l : list A) i x :
  l !! i = Some x -> f x = true -> (0 < count f l)%Z.
Proof.
  unfold count. revert i. induction l as [|z l IH]; intros [|i] H Hf; simplify_eq/=.
  - rewrite Hf. simpl. lia.
  - specialize (IH i H Hf). destruct (f z); simpl; lia.
Qed.

Lemma count_zero {A} (f : A -> bool) (l : list A) :
  (forall x, x ∈ l -> f x = false) -> count f l = 0%Z.
Proof.
  unfold count. induction l as [|z l IH]; intros H; [done|]. simpl.
  rewrite (H z) by left. apply IH. intros x Hx. apply H. by right.
Qed.
