(* ===== verification/CString.v ===== *)
(** C strings and the standard library functions the engine calls on them:
    [ctype.h] classes, [strcmp], [strcasecmp], [strtol], [atoi] and the
    [%d] conversion of [sprintf].  A C string is a [string] (the characters
    before the terminating NUL); a [char *] that walks along it is the list of
    the characters that are left. *)

From S2P Require Import Prelude.
From stdpp Require Export pretty.

Open Scope Z_scope.

(** * Characters ([ctype.h], C locale) *)

Definition code (c : ascii) : Z := Z.of_N (N_of_ascii c).

Definition isdigit (c : ascii) : bool := (48 <=? code c) && (code c <=? 57).
Definition isupper (c : ascii) : bool := (65 <=? code c) && (code c <=? 90).
Definition islower (c : ascii) : bool := (97 <=? code c) && (code c <=? 122).
Definition isalnum (c : ascii) : bool := isdigit c || isupper c || islower c.
Definition isspace (c : ascii) : bool :=
  (code c =? 32) || ((9 <=? code c) && (code c <=? 13)).
Definition tolower (c : ascii) : ascii :=
  if isupper c then ascii_of_N (N_of_ascii c + 32) else c.

Definition chars (s : string) : list ascii := list_ascii_of_string s.

Definition strlen (s : string) : Z := Z.of_nat (String.length s).

Lemma strlen_chars s : strlen s = Z.of_nat (List.length (chars s)).
Proof. unfold strlen. f_equal. induction s as [|c s IH]; simpl; [done|]. by rewrite IH. Qed.

Lemma strlen_app a b : strlen (a +:+ b) = strlen a + strlen b.
Proof.
  unfold strlen. rewrite <- Nat2Z.inj_add. f_equal.
  induction a as [|c a IH]; [done|]. simpl. by f_equal.
Qed.

(** * Comparisons *)

(** The sign of [strcmp]: the strings are compared as unsigned characters. *)
Definition strcmp (a b : string) : comparison := String.compare a b.

Fixpoint strcasecmp_eq (a b : list ascii) : bool :=
  match a, b with
  | [], [] => true
  | x :: a, y :: b => (code (tolower x) =? code (tolower y)) && strcasecmp_eq a b
  | _, _ => false
  end.

(** * Numbers *)

Fixpoint skip_spaces (l : list ascii) : list ascii :=
  match l with
  | c :: r => if isspace c then skip_spaces r else l
  | [] => []
  end.

(** Reads the digits at the front: the value so far, and whether there was one. *)
Fixpoint read_digits (acc : Z) (l : list ascii) : Z * list ascii :=
  match l with
  | c :: r => if isdigit c then read_digits (10 * acc + (code c - 48)) r else (acc, l)
  | [] => (acc, [])
  end.

Definition LONG_MAX : Z := 2 ^ 63 - 1.
Definition LONG_MIN : Z := - 2 ^ 63.

Definition clamp_long (z : Z) : Z := Z.max LONG_MIN (Z.min LONG_MAX z).

(** [strtol(p,&end,10)]: the value, and [Some end] when a number was read
    ([None] stands for [end == p]). *)
Definition strtol (l : list ascii) : Z * option (list ascii) :=
  let s := skip_spaces l in
  let '(neg, s) :=
    match s with
    | c :: r =>
        if code c =? 45 then (true, r) else if code c =? 43 then (false, r) else (false, s)
    | [] => (false, [])
    end in
  match s with
  | c :: _ =>
      if isdigit c then
        let '(v, e) := read_digits 0 s in
        (clamp_long (if (neg : bool) then - v else v), Some e)
      else (0, None)
  | [] => (0, None)
  end.

(** [atoi] is [(int)strtol(s,0,10)]. *)
Definition atoi (s : string) : Z := i32 (fst (strtol (chars s))).

(** The [%d] conversion. *)
Definition sprintf_d (z : Z) : string := pretty z.

(** * [strtol] reads what [%d] writes *)

Lemma digit_char x :
  (x < 10)%N -> isdigit (pretty_N_char x) = true /\ code (pretty_N_char x) - 48 = Z.of_N x /\
    isspace (pretty_N_char x) = false /\ code (pretty_N_char x) <> 45 /\ code (pretty_N_char x) <> 43.
Proof.
  intros H. assert (x = 0 \/ x = 1 \/ x = 2 \/ x = 3 \/ x = 4 \/ x = 5 \/ x = 6 \/ x = 7 \/
    x = 8 \/ x = 9)%N as Hx by lia.
  repeat destruct Hx as [->|Hx]; [by vm_compute..|]. subst. by vm_compute.
Qed.

Lemma read_digits_go x s :
  read_digits 0 (chars (pretty_N_go x s)) = read_digits (Z.of_N x) (chars s).
Proof.
  revert s. induction (N.lt_wf_0 x) as [x _ IH]; intros s.
  destruct (decide (x = 0)%N) as [->|Hx]; [by rewrite pretty_N_go_0|].
  rewrite pretty_N_go_step by lia. rewrite IH by (apply N.div_lt; lia).
  cbn [chars list_ascii_of_string read_digits].
  destruct (digit_char (x mod 10)) as (-> & -> & _); [by apply N.mod_lt|].
  f_equal. rewrite <- (N2Z.inj_mul 10), <- N2Z.inj_add. f_equal. symmetry. by apply N.div_mod.
Qed.

Lemma go_first_char x s :
  (0 < x)%N -> exists d r, chars (pretty_N_go x s) = pretty_N_char d :: r /\ (d < 10)%N.
Proof.
  revert s. induction (N.lt_wf_0 x) as [x _ IH]; intros s Hx. rewrite pretty_N_go_step by done.
  destruct (decide (x / 10 = 0)%N) as [E|E].
  - rewrite E, pretty_N_go_0. simpl. eexists _, _. split; [done|]. by apply N.mod_lt.
  - apply IH; [apply N.div_lt; lia|by apply N.neq_0_lt_0].
Qed.

Lemma pretty_N_digits (x : N) :
  (exists d r, chars (pretty x) = pretty_N_char d :: r /\ (d < 10)%N) /\
  read_digits 0 (chars (pretty x)) = (Z.of_N x, []).
Proof.
  unfold pretty, pretty_N. case_decide as E.
  - subst. split; [|done]. exists 0%N, []. done.
  - split; [apply go_first_char; lia|]. by rewrite read_digits_go.
Qed.

Lemma strtol_sprintf_d z :
  strtol (chars (sprintf_d z)) = (clamp_long z, Some []).
Proof.
  assert (Hpos : forall (x : N) c r, chars (pretty x) = c :: r -> isdigit c = true /\ isspace c = false /\
    code c <> 45 /\ code c <> 43).
  { intros x c r E. destruct (pretty_N_digits x) as [(d & r' & E' & Hd) _]. rewrite E' in E.
    injection E as <- <-. destruct (digit_char d Hd) as (? & _ & ? & ? & ?). done. }
  destruct z as [|p|p]; [done| |].
  - change (sprintf_d (Zpos p)) with (pretty (Npos p)).
    destruct (pretty_N_digits (Npos p)) as [(d & r & E & _) Hr].
    destruct (Hpos _ _ _ E) as (H1 & H2 & H3 & H4). unfold strtol. rewrite E in *.
    cbn [skip_spaces]. rewrite H2. apply Z.eqb_neq in H3, H4. rewrite H3, H4, H1, Hr. done.
  - change (chars (sprintf_d (Zneg p))) with (ascii_of_N 45 :: chars (pretty (Npos p))).
    destruct (pretty_N_digits (Npos p)) as [(d & r & E & _) Hr].
    destruct (Hpos _ _ _ E) as (H1 & _). unfold strtol.
    cbn [skip_spaces]. change (isspace (ascii_of_N 45)) with false. cbv iota.
    change (code (ascii_of_N 45) =? 45) with true. cbv iota. rewrite E in *. rewrite H1, Hr. done.
Qed.

Lemma read_digits_app acc l v r : read_digits acc l = (v, []) -> read_digits acc (l ++ r) = read_digits v r.
Proof.
  revert acc. induction l as [|c l IH]; intros acc; simpl; [intros [= ->]; done|].
  destruct (isdigit c); [apply IH|done].
Qed.

(** A number that another character follows. *)
Lemma strtol_sprintf_d_app z r :
  0 <= z <= LONG_MAX -> match r with c :: _ => isdigit c = false | [] => True end ->
  strtol (chars (sprintf_d z) ++ r) = (z, Some r).
Proof.
  intros Hz Hr. destruct (pretty_N_digits (Z.to_N z)) as [(d & r' & E & Hd) Hv].
  assert (Hs : chars (sprintf_d z) = chars (pretty (Z.to_N z))) by (destruct z; [done|done|lia]).
  rewrite Hs. destruct (digit_char d Hd) as (H1 & _ & H2 & H3 & H4). apply Z.eqb_neq in H3, H4.
  pose proof (read_digits_app 0 _ _ r Hv) as Ha. unfold strtol. rewrite E in *. cbn [app skip_spaces].
  rewrite H2, H3, H4, H1. cbn [app] in Ha. rewrite Ha.
  assert (read_digits (Z.of_N (Z.to_N z)) r = (z, r)) as ->.
  { rewrite Z2N.id by lia. destruct r as [|c r]; [done|]. cbn [read_digits]. by rewrite Hr. }
  unfold clamp_long, LONG_MIN. f_equal. lia.
Qed.

Lemma atoi_sprintf_d z : - 2 ^ 31 <= z < 2 ^ 31 -> atoi (sprintf_d z) = z.
Proof.
  intros Hz. unfold atoi. rewrite strtol_sprintf_d. cbn [fst].
  unfold clamp_long, LONG_MIN, LONG_MAX. rewrite i32_small; lia.
Qed.

(** * The width of a number *)

Lemma length_pretty_N_go (k : nat) x s :
  (x < 10 ^ N.of_nat k)%N -> (String.length (pretty_N_go x s) <= k + String.length s)%nat.
Proof.
  revert x s. induction k as [|k IH]; intros x s Hx.
  - assert (x = 0)%N as -> by (simpl in Hx; lia). by rewrite pretty_N_go_0.
  - destruct (decide (x = 0)%N) as [->|Hne]; [rewrite pretty_N_go_0; lia|].
    rewrite pretty_N_go_step by lia. etransitivity; [apply IH|simpl; lia].
    apply N.Div0.div_lt_upper_bound. rewrite Nat2N.inj_succ, N.pow_succ_r' in Hx. lia.
Qed.

Lemma strlen_sprintf_d_pos z : 0 <= z < 10 ^ 10 -> strlen (sprintf_d z) <= 10.
Proof.
  intros Hz. unfold strlen, sprintf_d. destruct z as [|p|p]; [simpl; lia| |lia].
  change (pretty (Z.pos p)) with (pretty (N.pos p)). unfold pretty, pretty_N. case_decide; [simpl; lia|].
  pose proof (length_pretty_N_go 10 (N.pos p) "" ltac:(lia)). simpl in *. lia.
Qed.

(** A 32-bit integer takes 11 characters at most. *)
Lemma strlen_sprintf_d z : - 2 ^ 31 <= z < 2 ^ 31 -> strlen (sprintf_d z) <= 11.
Proof.
  intros Hz. destruct (Z.leb_spec 0 z); [pose proof (strlen_sprintf_d_pos z); lia|].
  destruct z as [|p|p]; [lia..|]. pose proof (strlen_sprintf_d_pos (Z.pos p) ltac:(lia)) as Hp.
  unfold strlen, sprintf_d in *. change (pretty (Z.neg p)) with (String "-" (pretty (N.pos p))).
  change (pretty (Z.pos p)) with (pretty (N.pos p)) in Hp. simpl String.length. lia.
Qed.
