(* ===== verification/Lookup.v ===== *)
(** The binary search that three components repeat (the queue pool, the
    configuration and the workflow scheduler), as the loop it is, and its
    correctness over any totally ordered key type. *)

From S2P Require Import Prelude CString.

Open Scope Z_scope.

(** * Ordered keys *)

Class KeyOrder (K : Type) : Type := {
  kcompare : K -> K -> comparison;
  kcompare_eq : forall a b, kcompare a b = Eq <-> a = b;
  kcompare_antisym : forall a b, kcompare b a = CompOpp (kcompare a b);
  kcompare_trans : forall a b c, kcompare a b = Lt -> kcompare b c = Lt -> kcompare a c = Lt;
}.

Definition klt {K} `{KeyOrder K} (a b : K) : Prop := kcompare a b = Lt.

#[export] Instance Z_key : KeyOrder Z.
Proof.
  refine {| kcompare := Z.compare |}.
  - apply Z.compare_eq_iff.
  - intros. apply Z.compare_antisym.
  - intros a b c. rewrite !Z.compare_lt_iff. lia.
Defined.

Lemma string_compare_eq a b : String.compare a b = Eq <-> a = b.
Proof.
  split; [apply String.compare_eq_iff|intros ->].
  induction b as [|c b IH]; simpl; [done|].
  unfold Ascii.compare. by rewrite N.compare_refl.
Qed.

Lemma string_compare_trans a b c :
  String.compare a b = Lt -> String.compare b c = Lt -> String.compare a c = Lt.
Proof.
  revert b c. induction a as [|x a IH]; intros [|y b] [|z c]; simpl; try done.
  unfold Ascii.compare.
  destruct (N.compare_spec (N_of_ascii x) (N_of_ascii y)) as [E|E|E]; try done;
  destruct (N.compare_spec (N_of_ascii y) (N_of_ascii z)) as [F|F|F]; try done;
  intros H1 H2;
  destruct (N.compare_spec (N_of_ascii x) (N_of_ascii z)); try lia; eauto.
Qed.

#[export] Instance string_key : KeyOrder string.
Proof.
  refine {| kcompare := strcmp |}; unfold strcmp.
  - apply string_compare_eq.
  - intros. apply String.compare_antisym.
  - apply string_compare_trans.
Defined.

(** * The loop *)

Section search.
(** [cmp m] compares the entry at index [m] with the key; [None] is a read
    outside of the array. *)
Context (cmp : Z -> option comparison).

(** [while(begin<=end) { middle=(end+begin)/2; ... } return -1;] with [int]
    indices.  [Undef] is a read outside of the array, or no fuel left. *)
Fixpoint search_while (fuel : nat) (begin end_ : Z) : outcome Z :=
  match fuel with
  | O => Undef
  | S fuel =>
      if begin <=? end_ then
        let middle := Z.quot (i32 (end_ + begin)) 2 in
        c ← deref (cmp middle);
        match c with
        | Eq => Ret middle
        | Lt => search_while fuel (middle + 1) end_
        | Gt => search_while fuel begin (middle - 1)
        end
      else Ret (-1)
  end.

(** The same search as a [do ... while(begin<=end)] loop. *)
Fixpoint search_do (fuel : nat) (begin end_ : Z) : outcome Z :=
  match fuel with
  | O => Undef
  | S fuel =>
      let middle := Z.quot (i32 (end_ + begin)) 2 in
      c ← deref (cmp middle);
      match c with
      | Eq => Ret middle
      | Lt => if middle + 1 <=? end_ then search_do fuel (middle + 1) end_ else Ret (-1)
      | Gt => if begin <=? middle - 1 then search_do fuel begin (middle - 1) else Ret (-1)
      end
  end.

Lemma search_while_S fuel begin end_ :
  search_while (S fuel) begin end_ =
    if begin <=? end_ then
      c ← deref (cmp (Z.quot (i32 (end_ + begin)) 2));
      match c with
      | Eq => Ret (Z.quot (i32 (end_ + begin)) 2)
      | Lt => search_while fuel (Z.quot (i32 (end_ + begin)) 2 + 1) end_
      | Gt => search_while fuel begin (Z.quot (i32 (end_ + begin)) 2 - 1)
      end
    else Ret (-1).
Proof. done. Qed.

Lemma search_while_end fuel begin end_ :
  end_ < begin -> search_while (S fuel) begin end_ = Ret (-1).
Proof. intros ?. rewrite search_while_S. by rewrite (proj2 (Z.leb_gt _ _)). Qed.

(** On a non-empty range the two loops do the same. *)
Lemma search_do_while fuel begin end_ :
  begin <= end_ -> (end_ - begin < Z.of_nat fuel) ->
  - 2 ^ 31 <= 2 * begin -> 2 * end_ < 2 ^ 31 -> 0 <= begin ->
  search_do fuel begin end_ = search_while (S fuel) begin end_.
Proof.
  revert begin end_. induction fuel as [|fuel IH]; intros b e Hbe Hf Hlo Hhi H0; [lia|].
  rewrite search_while_S. cbn [search_do].
  rewrite (proj2 (Z.leb_le b e)) by lia.
  rewrite i32_small by lia.
  pose proof (Z.quot_lt_upper_bound (e + b) 2 (e + 1)).
  pose proof (Z.quot_le_lower_bound (e + b) 2 b).
  destruct (cmp _) as [[]|]; cbn [deref mbind outcome_bind]; try done.
  - destruct (Z.leb_spec (Z.quot (e + b) 2 + 1) e).
    + apply IH; lia.
    + by rewrite search_while_end by lia.
  - destruct (Z.leb_spec b (Z.quot (e + b) 2 - 1)).
    + apply IH; lia.
    + by rewrite search_while_end by lia.
Qed.
End search.

(** * Correctness *)

Section correctness.
Context {K : Type} `{KeyOrder K}.
Implicit Types (keys : list K) (key : K).

(** The sorted array every search assumes. *)
Definition sorted_keys keys : Prop :=
  forall i j a b, (i < j)%nat -> keys !! i = Some a -> keys !! j = Some b -> klt a b.

Definition entry_cmp keys key (m : Z) : option comparison :=
  if m <? 0 then None else (λ k, kcompare k key) <$> keys !! Z.to_nat m.

Definition binary_search keys key : outcome Z :=
  search_while (entry_cmp keys key) (S (S (List.length keys))) 0 (Z.of_nat (List.length keys) - 1).

Lemma klt_irrefl a : ~ klt a a.
Proof. unfold klt. rewrite (proj2 (kcompare_eq a a)); done. Qed.

Lemma kcompare_gt a b : kcompare a b = Gt -> klt b a.
Proof. unfold klt. intros E. by rewrite kcompare_antisym, E. Qed.

Lemma sorted_inj keys i j a :
  sorted_keys keys -> keys !! i = Some a -> keys !! j = Some a -> i = j.
Proof.
  intros Hs Hi Hj. destruct (Nat.lt_trichotomy i j) as [L|[E|L]]; [|done|].
  - destruct (klt_irrefl a). eauto.
  - destruct (klt_irrefl a). eauto.
Qed.

(** What a search answers on a sorted array. *)
Definition found keys key (r : Z) : Prop :=
  (0 <= r /\ keys !! Z.to_nat r = Some key) \/ (r = -1 /\ key ∉ keys).

Lemma found_unique keys key r r' :
  sorted_keys keys -> found keys key r -> found keys key r' -> r = r'.
Proof.
  intros Hs [[H1 H2]|[-> H2]] [[H3 H4]|[-> H4]]; try done.
  - pose proof (sorted_inj _ _ _ _ Hs H2 H4). lia.
  - destruct H4. eauto using list_elem_of_lookup_2.
  - destruct H2. eauto using list_elem_of_lookup_2.
Qed.

(** The invariant of the loop: the key, if it is there, is in the range that
    is left; every iteration reads inside of the array and the range shrinks. *)
Lemma search_while_found keys key fuel b e :
  sorted_keys keys -> 2 * Z.of_nat (List.length keys) < 2 ^ 31 ->
  0 <= b -> e < Z.of_nat (List.length keys) -> e - b + 1 < Z.of_nat fuel -> b <= e + 1 ->
  (forall i, keys !! i = Some key -> b <= Z.of_nat i <= e) ->
  exists r, search_while (entry_cmp keys key) fuel b e = Ret r /\ found keys key r.
Proof.
  intros Hs Hmax. revert b e. induction fuel as [|fuel IH]; intros b e Hb He Hf Hbe Hin; [lia|].
  rewrite search_while_S. destruct (Z.leb_spec b e) as [Hle|Hgt].
  2:{ exists (-1). split; [done|]. right. split; [done|].
      intros [i Hi]%list_elem_of_lookup_1. apply Hin in Hi. lia. }
  rewrite i32_small by lia.
  pose proof (Z.quot_lt_upper_bound (e + b) 2 (e + 1)) as U.
  pose proof (Z.quot_le_lower_bound (e + b) 2 b) as L.
  set (m := Z.quot (e + b) 2) in *.
  destruct (keys !! Z.to_nat m) as [k|] eqn:Hk.
  2:{ apply lookup_ge_None in Hk. lia. }
  assert (entry_cmp keys key m = Some (kcompare k key)) as ->.
  { unfold entry_cmp. rewrite (proj2 (Z.ltb_ge m 0)) by lia. by rewrite Hk. }
  cbn [deref mbind outcome_bind].
  assert (Hpos : forall i, keys !! i = Some key ->
            (klt k key -> m < Z.of_nat i) /\ (klt key k -> Z.of_nat i < m)).
  { intros i Hi. split; intros Hlt.
    - destruct (Z.lt_trichotomy m (Z.of_nat i)) as [?|[E|E]]; [done| |].
      + assert (i = Z.to_nat m) as -> by lia. simplify_eq. by apply klt_irrefl in Hlt.
      + assert (klt key k) as Hlt' by (eapply (Hs i (Z.to_nat m)); eauto; lia).
        unfold klt in *. by rewrite kcompare_antisym, Hlt in Hlt'.
    - destruct (Z.lt_trichotomy (Z.of_nat i) m) as [?|[E|E]]; [done| |].
      + assert (i = Z.to_nat m) as -> by lia. simplify_eq. by apply klt_irrefl in Hlt.
      + assert (klt k key) as Hlt' by (eapply (Hs (Z.to_nat m) i); eauto; lia).
        unfold klt in *. by rewrite kcompare_antisym, Hlt in Hlt'. }
  destruct (kcompare k key) eqn:Hc.
  - apply kcompare_eq in Hc as ->. exists m. split; [done|]. left. split; [lia|done].
  - apply IH; try lia. intros i Hi. destruct (Hpos i Hi) as [P _]. specialize (P Hc).
    apply Hin in Hi. lia.
  - apply kcompare_gt in Hc. apply IH; try lia. intros i Hi.
    destruct (Hpos i Hi) as [_ P]. specialize (P Hc). apply Hin in Hi. lia.
Qed.

Lemma binary_search_found keys key :
  sorted_keys keys -> 2 * Z.of_nat (List.length keys) < 2 ^ 31 ->
  exists r, binary_search keys key = Ret r /\ found keys key r.
Proof.
  intros Hs Hmax. apply search_while_found; try done; try lia.
  intros i Hi%lookup_lt_Some. lia.
Qed.
End correctness.

#[export] Hint Resolve binary_search_found found_unique : evq.
