(* ===== verification/QueueIface.v ===== *)
(** What a task queue promises to the pool of queues: the operations of
    [Queue.h] and the laws the pool relies on. *)

From S2P Require Import Prelude.

Open Scope Z_scope.

Class QueueImpl (Q : Type) : Type := {
  qi_EnqueueTask : wi_ref -> node_ref -> Q -> outcome Q;
  qi_DequeueTask : Q -> outcome (option (wi_ref * node_ref) * Q);
  qi_ExecuteTask : Q -> Q;
  qi_TerminateTask : Q -> Q;
  qi_CancelTasks : (wi_ref -> Z) -> Z -> Q -> outcome Q;
  qi_IsLocked : Q -> bool;
  qi_GetSize : Q -> Z;
  qi_GetRunningTasks : Q -> Z;
}.

Class QueueLaws (Q : Type) `{QueueImpl Q} : Prop := {
  (** Only [ExecuteTask] and [TerminateTask] change the count of running tasks. *)
  enqueue_running : forall w t q q',
    qi_EnqueueTask w t q = Ret q' -> qi_GetRunningTasks q' = qi_GetRunningTasks q;
  dequeue_running : forall q r q',
    qi_DequeueTask q = Ret (r, q') -> qi_GetRunningTasks q' = qi_GetRunningTasks q;
  cancel_running : forall GetInstanceID i q q',
    qi_CancelTasks GetInstanceID i q = Ret q' -> qi_GetRunningTasks q' = qi_GetRunningTasks q;
  execute_running : forall q,
    qi_GetRunningTasks (qi_ExecuteTask q) = u32 (qi_GetRunningTasks q + 1);
  terminate_running : forall q,
    qi_GetRunningTasks (qi_TerminateTask q) = u32 (qi_GetRunningTasks q - 1);
  (** A queue has a task to give exactly when it is not locked. *)
  dequeue_locked : forall q, qi_IsLocked q = true -> qi_DequeueTask q = Ret (None, q);
  dequeue_unlocked : forall q r q',
    qi_IsLocked q = false -> qi_DequeueTask q = Ret (r, q') -> is_Some r;
  (** What happens to a queue between two calls of [DequeueTask] does not lock it. *)
  enqueue_unlocked : forall w t q q',
    qi_GetSize q + 1 < 2 ^ 32 -> qi_EnqueueTask w t q = Ret q' ->
    qi_IsLocked q = false -> qi_IsLocked q' = false;
  cancel_unlocked : forall GetInstanceID i q q',
    qi_CancelTasks GetInstanceID i q = Ret q' -> qi_IsLocked q = false -> qi_IsLocked q' = false;
  terminate_unlocked : forall q,
    0 < qi_GetRunningTasks q < 2 ^ 32 -> qi_IsLocked q = false ->
    qi_IsLocked (qi_TerminateTask q) = false;
}.

(** The tasks that a queue holds, for the clients that account for them.
    [qi_ok] is what the implementation needs of its state, [qi_accepts] tells
    whether a task can be added without losing others. *)
Class QueueTasks (Q : Type) `{QueueImpl Q} : Type := {
  qi_tasks : Q -> list (wi_ref * node_ref);
  qi_ok : Q -> Prop;
  qi_accepts : Q -> bool;
}.

Class QueueTasksLaws (Q : Type) `{QueueTasks Q} : Prop := {
  tasks_enqueue : forall w t q,
    qi_ok q -> qi_accepts q = true -> qi_GetSize q + 1 < 2 ^ 32 ->
    exists q', qi_EnqueueTask w t q = Ret q' /\ qi_ok q' /\ qi_tasks q' ≡ₚ (w, t) :: qi_tasks q;
  tasks_dequeue : forall q, qi_ok q ->
    exists r q', qi_DequeueTask q = Ret (r, q') /\ qi_ok q' /\ qi_tasks q ≡ₚ option_list r ++ qi_tasks q';
  tasks_execute : forall q, qi_ok q -> qi_ok (qi_ExecuteTask q) /\ qi_tasks (qi_ExecuteTask q) = qi_tasks q;
  tasks_terminate : forall q, qi_ok q -> qi_ok (qi_TerminateTask q) /\ qi_tasks (qi_TerminateTask q) = qi_tasks q;
  tasks_cancel : forall GetInstanceID i q, qi_ok q ->
    exists q', qi_CancelTasks GetInstanceID i q = Ret q' /\ qi_ok q' /\ qi_tasks q' ≡ₚ qi_tasks q;
}.
