(* ===== verification/Queue.v ===== *)
(** [Queue.cpp]: one task queue, at the level of its pointers.  The nodes of
    the two linked lists (the tasks to run and the cancelled tasks) live in a
    store; following a null or dangling pointer is [Undef].  The second half
    relates the pointers to an abstract queue of two lists. *)

From S2P Require Import Prelude CString QueueIface.

Open Scope Z_scope.

(** * State *)

Definition QUEUE_NAME_MAX_LEN : Z := 64.

Abbreviation loc := nat (only parsing).

Record Task : Type := mkTask {
  workflow_instance : wi_ref;
  task : node_ref;
  next_task : option loc;
}.

(** The fields of class [Queue]; [store] holds the nodes that [new Task] made
    and [delete] did not free.  Addresses are not used twice, so that an access
    to a freed node is an error. *)
Record Queue : Type := mkQueue {
  name : string;
  id : Z;
  concurrency : Z;
  size : Z;
  running_tasks : Z;
  first_task : option loc;
  last_task : option loc;
  cancelled_tasks : option loc;
  store : gmap loc Task;
  next_loc : loc;
}.

Definition set_size (n : Z) (q : Queue) : Queue :=
  mkQueue (name q) (id q) (concurrency q) n (running_tasks q) (first_task q) (last_task q)
    (cancelled_tasks q) (store q) (next_loc q).
Definition set_running_tasks (n : Z) (q : Queue) : Queue :=
  mkQueue (name q) (id q) (concurrency q) (size q) n (first_task q) (last_task q)
    (cancelled_tasks q) (store q) (next_loc q).
Definition set_first_task (p : option loc) (q : Queue) : Queue :=
  mkQueue (name q) (id q) (concurrency q) (size q) (running_tasks q) p (last_task q)
    (cancelled_tasks q) (store q) (next_loc q).
Definition set_last_task (p : option loc) (q : Queue) : Queue :=
  mkQueue (name q) (id q) (concurrency q) (size q) (running_tasks q) (first_task q) p
    (cancelled_tasks q) (store q) (next_loc q).
Definition set_cancelled_tasks (p : option loc) (q : Queue) : Queue :=
  mkQueue (name q) (id q) (concurrency q) (size q) (running_tasks q) (first_task q)
    (last_task q) p (store q) (next_loc q).
Definition set_store (st : gmap loc Task) (q : Queue) : Queue :=
  mkQueue (name q) (id q) (concurrency q) (size q) (running_tasks q) (first_task q)
    (last_task q) (cancelled_tasks q) st (next_loc q).
Definition set_next_loc (l : loc) (q : Queue) : Queue :=
  mkQueue (name q) (id q) (concurrency q) (size q) (running_tasks q) (first_task q)
    (last_task q) (cancelled_tasks q) (store q) l.

(** * Memory accesses *)

Definition new_Task (w : wi_ref) (t : node_ref) (q : Queue) : loc * Queue :=
  (next_loc q, set_next_loc (S (next_loc q))
                 (set_store (<[next_loc q := mkTask w t None]> (store q)) q)).

Definition load (p : option loc) (q : Queue) : outcome Task :=
  l ← deref p; deref (store q !! l).

(** [p->next_task = nx]. *)
Definition store_next (p : option loc) (nx : option loc) (q : Queue) : outcome Queue :=
  l ← deref p;
  n ← deref (store q !! l);
  Ret (set_store (<[l := mkTask (workflow_instance n) (task n) nx]> (store q)) q).

Definition delete_Task (l : loc) (q : Queue) : Queue := set_store (delete l (store q)) q.

(** * Operations *)

Definition CheckQueueName (queue_name : string) : bool :=
  if QUEUE_NAME_MAX_LEN <? strlen queue_name then false
  else forallb (fun c => isalnum c || (code c =? 95) || (code c =? 45)) (chars queue_name).

(** The constructor; [t_queue] is the row (id, concurrency) that the database
    has for a queue name. *)
Definition Queue_new (t_queue : string -> option (Z * Z)) (nm : string) : outcome Queue :=
  if negb (CheckQueueName nm) then Throw (mkException "Queue" "Invalid queue name")
  else
    match t_queue nm with
    | None => Throw (mkException "Queue" "Unknown queue")
    | Some (queue_id, queue_concurrency) =>
        Ret (mkQueue nm (u32 queue_id) (u32 queue_concurrency) 0 0 None None None ∅ 0)
    end.

Definition EnqueueTask (w : wi_ref) (t : node_ref) (q : Queue) : outcome Queue :=
  let '(new_task, q) := new_Task w t q in
  match first_task q with
  | None =>
      let q := set_last_task (Some new_task) q in
      let q := set_first_task (Some new_task) q in
      Ret (set_size (u32 (size q + 1)) q)
  | Some _ =>
      q ← store_next (last_task q) (Some new_task) q;
      let q := set_last_task (Some new_task) q in
      Ret (set_size (u32 (size q + 1)) q)
  end.

Definition IsLocked (q : Queue) : bool :=
  match cancelled_tasks q with
  | Some _ => false
  | None => if (size q >? 0) && (running_tasks q <? concurrency q) then false else true
  end.

Definition DequeueTask (q : Queue) : outcome (option (wi_ref * node_ref) * Queue) :=
  if IsLocked q then Ret (None, q)
  else
    '(tmp, q) ← (match cancelled_tasks q with
                 | Some tmp =>
                     n ← load (Some tmp) q;
                     Ret (tmp, set_cancelled_tasks (next_task n) q)
                 | None =>
                     tmp ← deref (first_task q);
                     n ← load (Some tmp) q;
                     let q := set_first_task (next_task n) q in
                     Ret (tmp, set_size (u32 (size q - 1)) q)
                 end);
    n ← load (Some tmp) q;
    Ret (Some (workflow_instance n, task n), delete_Task tmp q).

Definition ExecuteTask (q : Queue) : Queue := set_running_tasks (u32 (running_tasks q + 1)) q.

Definition TerminateTask (q : Queue) : Queue := set_running_tasks (u32 (running_tasks q - 1)) q.

(** [Task **task] points to [first_task] or to the [next_task] of a node. *)
Inductive cell : Type := at_first_task | at_next_task (l : loc).

Definition load_cell (c : cell) (q : Queue) : outcome (option loc) :=
  match c with
  | at_first_task => Ret (first_task q)
  | at_next_task l => n ← load (Some l) q; Ret (next_task n)
  end.

Definition store_cell (c : cell) (p : option loc) (q : Queue) : outcome Queue :=
  match c with
  | at_first_task => Ret (set_first_task p q)
  | at_next_task l => store_next (Some l) p q
  end.

Section cancel.
Context (GetInstanceID : wi_ref -> Z).

(** The loop of [CancelTasks]; one unit of fuel per node it visits. *)
Fixpoint CancelTasks_loop (fuel : nat) (c : cell) (workflow_instance_id : Z) (q : Queue)
  : outcome Queue :=
  match fuel with
  | O => Undef
  | S fuel =>
      p ← load_cell c q;
      match p with
      | None => Ret q
      | Some tmp =>
          n ← load (Some tmp) q;
          if GetInstanceID (workflow_instance n) =? workflow_instance_id then
            q ← store_cell c (next_task n) q;
            q ← store_next (Some tmp) (cancelled_tasks q) q;
            let q := set_cancelled_tasks (Some tmp) q in
            let q := set_size (u32 (size q - 1)) q in
            CancelTasks_loop fuel c workflow_instance_id q
          else CancelTasks_loop fuel (at_next_task tmp) workflow_instance_id q
      end
  end.

Definition CancelTasks (workflow_instance_id : Z) (q : Queue) : outcome Queue :=
  CancelTasks_loop (S (base.size (store q))) at_first_task workflow_instance_id q.
End cancel.

Definition GetSize (q : Queue) : Z := size q.
Definition GetRunningTasks (q : Queue) : Z := running_tasks q.
Definition GetConcurrency (q : Queue) : Z := concurrency q.

(** * The abstract queue

    What a queue is for: tasks that wait in order, and cancelled tasks that are
    handed out first whatever the concurrency. *)

Abbreviation item := (wi_ref * node_ref)%type (only parsing).

Record spec : Type := mkSpec {
  pending : list item;
  cancelled : list item;
  running : Z;
  limit : Z;
}.

Definition spec_locked (a : spec) : bool :=
  match cancelled a, pending a with
  | _ :: _, _ => false
  | [], [] => true
  | [], _ :: _ => negb (running a <? limit a)
  end.

Definition spec_enqueue (w : wi_ref) (t : node_ref) (a : spec) : spec :=
  mkSpec (pending a ++ [(w, t)]) (cancelled a) (running a) (limit a).

Definition spec_dequeue (a : spec) : option item * spec :=
  match cancelled a, pending a with
  | x :: c, p => (Some x, mkSpec p c (running a) (limit a))
  | [], x :: p =>
      if running a <? limit a then (Some x, mkSpec p [] (running a) (limit a)) else (None, a)
  | [], [] => (None, a)
  end.

Definition spec_set_running (n : Z) (a : spec) : spec :=
  mkSpec (pending a) (cancelled a) n (limit a).

Section spec_cancel.
Context (GetInstanceID : wi_ref -> Z).

Definition of_instance (i : Z) (x : item) : bool := GetInstanceID x.1 =? i.

Definition spec_cancel (i : Z) (a : spec) : spec :=
  mkSpec (filter (fun x => of_instance i x = false) (pending a))
    (reverse (filter (fun x => of_instance i x = true) (pending a)) ++ cancelled a)
    (running a) (limit a).

(** The calls a queue receives, and what they answer. *)
Inductive call : Type :=
  | CEnqueue (w : wi_ref) (t : node_ref)
  | CDequeue
  | CExecute
  | CTerminate
  | CCancel (i : Z).

Definition spec_call (c : call) (a : spec) : option item * spec :=
  match c with
  | CEnqueue w t => (None, spec_enqueue w t a)
  | CDequeue => spec_dequeue a
  | CExecute => (None, spec_set_running (u32 (running a + 1)) a)
  | CTerminate => (None, spec_set_running (u32 (running a - 1)) a)
  | CCancel i => (None, spec_cancel i a)
  end.

Definition do_call (c : call) (q : Queue) : outcome (option item * Queue) :=
  match c with
  | CEnqueue w t => q ← EnqueueTask w t q; Ret (None, q)
  | CDequeue => DequeueTask q
  | CExecute => Ret (None, ExecuteTask q)
  | CTerminate => Ret (None, TerminateTask q)
  | CCancel i => q ← CancelTasks GetInstanceID i q; Ret (None, q)
  end.

Fixpoint spec_calls (cs : list call) (a : spec) : list (option item) * spec :=
  match cs with
  | [] => ([], a)
  | c :: cs =>
      let '(r, a) := spec_call c a in
      let '(rs, a) := spec_calls cs a in
      (r :: rs, a)
  end.

Fixpoint do_calls (cs : list call) (q : Queue) : outcome (list (option item) * Queue) :=
  match cs with
  | [] => Ret ([], q)
  | c :: cs =>
      '(r, q) ← do_call c q;
      '(rs, q) ← do_calls cs q;
      Ret (r :: rs, q)
  end.

(** A cancellation that takes the last task away while it leaves others: from then
    on, and until the list of tasks to run is empty, the tail pointer is wrong. *)
Definition cuts_tail (i : Z) (a : spec) : bool :=
  match last (pending a) with
  | Some x => of_instance i x && existsb (fun y => negb (of_instance i y)) (pending a)
  | None => false
  end.

Definition is_cut (c : call) (a : spec) (cut : bool) : bool :=
  match pending (spec_call c a).2 with
  | [] => false
  | _ :: _ => cut || match c with CCancel i => cuts_tail i a | _ => false end
  end.

Definition safe_call (c : call) (cut : bool) : bool :=
  match c with
  | CEnqueue _ _ => negb cut
  | _ => true
  end.

(** No task is enqueued while the tail pointer is wrong. *)
Fixpoint safe_calls (cs : list call) (a : spec) (cut : bool) : bool :=
  match cs with
  | [] => true
  | c :: cs => safe_call c cut && safe_calls cs (spec_call c a).2 (is_cut c a cut)
  end.
End spec_cancel.

(** * Representation *)

(** The nodes from [p] on are those at the addresses of [xs], and the last one
    points to [e]. *)
Fixpoint lseg (st : gmap loc Task) (p : option loc) (xs : list (loc * item)) (e : option loc)
  : Prop :=
  match xs with
  | [] => p = e
  | (l, (w, t)) :: r => p = Some l /\ exists nx, st !! l = Some (mkTask w t nx) /\ lseg st nx r e
  end.

(** The parts of a queue that stay true whatever it is asked to do: both lists
    are well formed and disjoint, and the size counts the tasks to run. *)
Record repr (q : Queue) (lp lc : list (loc * item)) : Prop := {
  repr_pending : lseg (store q) (first_task q) lp None;
  repr_cancelled : lseg (store q) (cancelled_tasks q) lc None;
  repr_nodup : NoDup (lp.*1 ++ lc.*1);
  repr_fresh : forall l, is_Some (store q !! l) -> (l < next_loc q)%nat;
  repr_size : size q = Z.of_nat (List.length lp);
  repr_bound : Z.of_nat (List.length lp) < 2 ^ 32;
}.

(** The tail pointer is only meaningful when it points to the last task. *)
Definition tail_ok (q : Queue) (lp : list (loc * item)) : Prop :=
  lp <> [] -> last_task q = fst <$> last lp.

Definition represents (q : Queue) (a : spec) : Prop :=
  exists lp lc, repr q lp lc /\ tail_ok q lp /\ lp.*2 = pending a /\ lc.*2 = cancelled a /\
    running_tasks q = running a /\ concurrency q = limit a.

(** The same when the tail pointer may be wrong. *)
Definition represents_cut (cut : bool) (q : Queue) (a : spec) : Prop :=
  exists lp lc, repr q lp lc /\ (cut = false -> tail_ok q lp) /\ lp.*2 = pending a /\ lc.*2 = cancelled a /\
    running_tasks q = running a /\ concurrency q = limit a.

Lemma represents_not_cut q a : represents q a <-> represents_cut false q a.
Proof. unfold represents, represents_cut. naive_solver. Qed.

(** * Lists of nodes *)

Lemma lseg_app st p xs ys e :
  lseg st p (xs ++ ys) e <-> exists m, lseg st p xs m /\ lseg st m ys e.
Proof.
  revert p. induction xs as [|[l [w t]] xs IH]; intros p; simpl.
  - naive_solver.
  - setoid_rewrite IH. naive_solver.
Qed.

Lemma lseg_frame st st' p xs e :
  lseg st p xs e -> (forall l, l ∈ xs.*1 -> st' !! l = st !! l) -> lseg st' p xs e.
Proof.
  revert p. induction xs as [|[l [w t]] xs IH]; intros p; simpl; [done|].
  intros (-> & nx & H & Hs) Hf. split; [done|]. exists nx. split.
  - rewrite Hf; [done|set_solver].
  - apply IH; [done|]. intros; apply Hf. set_solver.
Qed.

Lemma lseg_insert st p xs e l n :
  lseg st p xs e -> l ∉ xs.*1 -> lseg (<[l := n]> st) p xs e.
Proof.
  intros H Hl. eapply lseg_frame; [done|]. intros l' ?.
  apply lookup_insert_ne. congruence.
Qed.

Lemma lseg_delete st p xs e l : lseg st p xs e -> l ∉ xs.*1 -> lseg (delete l st) p xs e.
Proof.
  intros H Hl. eapply lseg_frame; [done|]. intros l' ?. apply lookup_delete_ne. congruence.
Qed.

Lemma lseg_dom st p xs e l : lseg st p xs e -> l ∈ xs.*1 -> is_Some (st !! l).
Proof.
  revert p. induction xs as [|[l' [w t]] xs IH]; intros p; simpl; [set_solver|].
  intros (-> & nx & H & Hs) [->|Hl]%elem_of_cons; [by eexists|eauto].
Qed.

(** Moves the end of a non-empty list to another address. *)
Lemma lseg_retarget st p xs l w t e e' :
  lseg st p (xs ++ [(l, (w, t))]) e -> l ∉ xs.*1 ->
  lseg (<[l := mkTask w t e']> st) p (xs ++ [(l, (w, t))]) e'.
Proof.
  rewrite !lseg_app. intros (m & H & -> & nx & Hl & ->) Hn.
  exists (Some l). split; [by apply lseg_insert|]. simpl. split; [done|].
  exists e'. by rewrite lookup_insert_eq.
Qed.

Lemma lseg_nil_inv st p xs : lseg st p xs None -> p = None -> xs = [].
Proof. destruct xs as [|[l [w t]] xs]; simpl; [done|]. intros [-> _]. done. Qed.

Lemma lseg_head st l xs : lseg st (Some l) xs None -> exists w t xs', xs = (l, (w, t)) :: xs' /\
  exists nx, st !! l = Some (mkTask w t nx) /\ lseg st nx xs' None.
Proof. destruct xs as [|[l' [w t]] xs]; simpl; [done|]. intros [[= ->] H]. eauto. Qed.

#[export] Hint Resolve lseg_insert lseg_delete : evq.

Lemma store_next_Some l w t nx nx' q :
  store q !! l = Some (mkTask w t nx) ->
  store_next (Some l) nx' q = Ret (set_store (<[l := mkTask w t nx']> (store q)) q).
Proof. intros H. unfold store_next. simpl. by rewrite H. Qed.

Lemma load_Some l n q : store q !! l = Some n -> load (Some l) q = Ret n.
Proof. intros H. unfold load. simpl. by rewrite H. Qed.

Lemma repr_locs_length q lp lc : repr q lp lc -> (List.length lp <= base.size (store q))%nat.
Proof.
  intros H. pose proof (repr_nodup _ _ _ H) as (Hn & _ & _)%NoDup_app.
  rewrite <- (length_fmap fst lp), <- (size_list_to_set (C:=gset loc)) by done.
  rewrite <- (size_dom (store q)). apply subseteq_size.
  intros l Hl%elem_of_list_to_set. apply elem_of_dom.
  eapply lseg_dom; [apply (repr_pending _ _ _ H)|done].
Qed.

Section cancel_proofs.
Context (GetInstanceID : wi_ref -> Z).

Definition cell_after (kept : list (loc * item)) : cell :=
  match last kept with
  | None => at_first_task
  | Some x => at_next_task x.1
  end.

Lemma cell_after_snoc kept x : cell_after (kept ++ [x]) = at_next_task x.1.
Proof. unfold cell_after. by rewrite last_snoc. Qed.

Lemma load_cell_after q kept todo lc p :
  repr q (kept ++ todo) lc -> lseg (store q) (first_task q) kept p ->
  lseg (store q) p todo None ->
  load_cell (cell_after kept) q = Ret p.
Proof.
  intros _ Hk _. destruct kept as [|[l [w t]] kept _] using rev_ind.
  - simpl in Hk. by subst.
  - rewrite cell_after_snoc. apply lseg_app in Hk as (m & _ & -> & nx & Hl & ->).
    simpl. unfold load. simpl. by rewrite Hl.
Qed.

(** What is the same before and after the loop. *)
Definition same_rest (q q' : Queue) : Prop :=
  last_task q' = last_task q /\ running_tasks q' = running_tasks q /\
  concurrency q' = concurrency q /\ next_loc q' = next_loc q /\
  name q' = name q /\ id q' = id q.

#[export] Instance same_rest_preorder : PreOrder same_rest.
Proof.
  split; [by repeat split|]. unfold same_rest. intros q1 q2 q3. intuition congruence.
Qed.

(** Takes one task out of the list to run and puts it in front of the
    cancelled ones. *)
Definition cancel_one (kept : list (loc * item)) (l : loc) (nx : option loc) (q : Queue)
  : outcome Queue :=
  q ← store_cell (cell_after kept) nx q;
  q ← store_next (Some l) (cancelled_tasks q) q;
  Ret (set_size (u32 (size q - 1)) (set_cancelled_tasks (Some l) q)).

(** What the removal of one node leaves of the list, whatever becomes of the store. *)
Lemma repr_cut q kept l it todo lc :
  repr q (kept ++ (l, it) :: todo) lc ->
  (l ∉ kept.*1 /\ l ∉ todo.*1 /\ l ∉ lc.*1) /\
  NoDup ((kept ++ todo).*1 ++ ((l, it) :: lc).*1) /\
  u32 (size q - 1) = Z.of_nat (List.length (kept ++ todo)) /\
  Z.of_nat (List.length (kept ++ todo)) < 2 ^ 32.
Proof.
  intros [_ _ Hn _ Hsz Hbd]. rewrite fmap_app in Hn. simpl in Hn. split_and!.
  1-3: rewrite <- app_assoc in Hn; apply NoDup_app in Hn as (_ & D & (N & _)%NoDup_cons);
    try set_solver; intros Hin%D; set_solver.
  - rewrite fmap_app. simpl. rewrite <- !app_assoc in *. simpl in *.
    by rewrite <- (Permutation_middle (todo.*1)).
  - rewrite Hsz. rewrite !length_app in *. simpl in *. rewrite u32_small by lia. lia.
  - rewrite length_app in *. simpl in *. lia.
Qed.

Lemma cancel_first_repr q l w t nx todo lc :
  repr q ((l, (w, t)) :: todo) lc -> store q !! l = Some (mkTask w t nx) ->
  exists q', cancel_one [] l nx q = Ret q' /\ repr q' todo ((l, (w, t)) :: lc) /\ same_rest q q'.
Proof.
  intros H Hl. destruct (repr_cut q [] _ _ _ _ H) as ((_ & Nt & Nc) & Hnd & Hsz').
  destruct H as [(_ & nx' & Hl' & Ht) Hc _ Hfr _ _]. assert (nx' = nx) as -> by congruence.
  set (st1 := <[l := mkTask w t (cancelled_tasks q)]> (store q)).
  exists (set_size (u32 (size q - 1)) (set_cancelled_tasks (Some l)
            (set_store st1 (set_first_task nx q)))).
  split; [unfold cancel_one; simpl; by erewrite store_next_Some by done|].
  split; [|by repeat split].
  split; simpl; try done; try (by apply Hsz').
  - by apply lseg_insert.
  - split; [done|]. exists (cancelled_tasks q). unfold st1. rewrite lookup_insert_eq.
    split; [done|]. by apply lseg_insert.
  - intros l' [x Hx]. apply Hfr. unfold st1 in Hx.
    rewrite lookup_insert in Hx. case_decide; subst; by eexists.
Qed.

Lemma cancel_next_repr q kept lk wk tk l w t nx todo lc :
  repr q ((kept ++ [(lk, (wk, tk))]) ++ (l, (w, t)) :: todo) lc -> store q !! l = Some (mkTask w t nx) ->
  exists q', cancel_one (kept ++ [(lk, (wk, tk))]) l nx q = Ret q' /\
    repr q' ((kept ++ [(lk, (wk, tk))]) ++ todo) ((l, (w, t)) :: lc) /\ same_rest q q'.
Proof.
  intros H Hl. destruct (repr_cut q _ _ _ _ _ H) as ((Nk & Nt & Nc) & Hnd & Hsz').
  destruct H as [Hp Hc _ Hfr _ _].
  apply lseg_app in Hp as (m & Hk & -> & nx' & Hl' & Ht). assert (nx' = nx) as -> by congruence.
  apply lseg_app in Hk as (m & Hkk & -> & nk & Hlk & ->).
  assert (lk <> l) as Hne by set_solver.
  assert (lk ∉ kept.*1 /\ lk ∉ todo.*1 /\ lk ∉ lc.*1) as (Mk & Mt & Mc).
  { rewrite !fmap_app in Hnd. simpl in Hnd. rewrite <- !app_assoc in Hnd.
    apply NoDup_app in Hnd as (_ & D & (N & _)%NoDup_cons).
    split; [|set_solver]. intros Hin%D. set_solver. }
  set (st0 := <[lk := mkTask wk tk nx]> (store q)).
  set (st2 := <[l := mkTask w t (cancelled_tasks q)]> st0).
  assert (st0 !! l = Some (mkTask w t nx)) as Hl0 by (unfold st0; rewrite lookup_insert_ne; done).
  exists (set_size (u32 (size q - 1)) (set_cancelled_tasks (Some l) (set_store st2 q))).
  split.
  { unfold cancel_one. rewrite cell_after_snoc. simpl.
    erewrite store_next_Some by done. simpl. by erewrite store_next_Some by done. }
  split; [|by repeat split].
  split; simpl; try done; try (by apply Hsz').
  - apply lseg_app. exists nx. split.
    + apply lseg_insert; [|done]. eapply lseg_retarget; [|done].
      apply lseg_app. exists (Some lk). split; [done|]. simpl. eauto.
    + unfold st2, st0; auto with evq.
  - split; [done|]. exists (cancelled_tasks q). unfold st2. rewrite lookup_insert_eq.
    split; [done|]. unfold st0; auto with evq.
  - intros l' [x Hx]. apply Hfr. unfold st2, st0 in Hx.
    rewrite !lookup_insert in Hx. repeat case_decide; subst; by eexists.
Qed.

Lemma cancel_one_repr q kept l w t nx todo lc :
  repr q (kept ++ (l, (w, t)) :: todo) lc -> store q !! l = Some (mkTask w t nx) ->
  exists q', cancel_one kept l nx q = Ret q' /\
    repr q' (kept ++ todo) ((l, (w, t)) :: lc) /\ same_rest q q'.
Proof.
  destruct kept as [|[lk [wk tk]] kept _] using rev_ind;
    [apply cancel_first_repr|apply cancel_next_repr].
Qed.
End cancel_proofs.

Section refinement.
Context (GetInstanceID : wi_ref -> Z).

Abbreviation kept_of i xs := (filter (fun x => of_instance GetInstanceID i x.2 = false) xs).
Abbreviation taken_of i xs := (filter (fun x => of_instance GetInstanceID i x.2 = true) xs).

Lemma CancelTasks_loop_S fuel c i q :
  CancelTasks_loop GetInstanceID (S fuel) c i q =
    p ← load_cell c q;
    match p with
    | None => Ret q
    | Some tmp =>
        n ← load (Some tmp) q;
        if GetInstanceID (workflow_instance n) =? i then
          q ← store_cell c (next_task n) q;
          q ← store_next (Some tmp) (cancelled_tasks q) q;
          CancelTasks_loop GetInstanceID fuel c i
            (set_size (u32 (size q - 1)) (set_cancelled_tasks (Some tmp) q))
        else CancelTasks_loop GetInstanceID fuel (at_next_task tmp) i q
    end.
Proof. done. Qed.

Lemma CancelTasks_loop_repr fuel i q kept todo lc :
  repr q (kept ++ todo) lc -> (List.length todo < fuel)%nat ->
  exists q', CancelTasks_loop GetInstanceID fuel (cell_after kept) i q = Ret q' /\
    repr q' (kept ++ kept_of i todo) (reverse (taken_of i todo) ++ lc) /\ same_rest q q'.
Proof.
  revert fuel q kept lc. induction todo as [|[l [w t]] todo IH]; intros fuel q kept lc H Hf;
    (destruct fuel as [|fuel]; [simpl in Hf; lia|]); rewrite CancelTasks_loop_S.
  - pose proof (repr_pending _ _ _ H) as Hp.
    apply lseg_app in Hp as (m & Hk & ->).
    rewrite (load_cell_after _ _ _ _ _ H Hk) by done. simpl. exists q.
    by repeat split; apply H.
  - pose proof (repr_pending _ _ _ H) as Hp.
    apply lseg_app in Hp as (m & Hk & -> & nx & Hl & Ht).
    erewrite (load_cell_after _ _ _ _ _ H Hk); [|by split; eauto].
    simpl. erewrite load_Some by done. simpl.
    destruct (GetInstanceID w =? i) eqn:E.
    + edestruct cancel_one_repr as (q1 & Hq1 & H1 & S1); [done..|].
      unfold cancel_one in Hq1. inv_ret.
      edestruct (IH fuel) as (q' & Hq' & H' & S'); [eassumption|simpl in Hf; lia|].
      exists q'. split; [by run_ret|].
      split; [|by etrans].
      rewrite filter_cons_False, filter_cons_True, reverse_cons, <- app_assoc
        by (unfold of_instance; simpl; congruence). done.
    + rewrite filter_cons_True, filter_cons_False by (unfold of_instance; simpl; congruence).
      specialize (IH fuel q (kept ++ [(l, (w, t))]) lc).
      rewrite cell_after_snoc in IH. rewrite <- !app_assoc in IH. simpl in IH.
      apply IH; [done|simpl in Hf; lia].
Qed.

Lemma CancelTasks_repr i q lp lc :
  repr q lp lc ->
  exists q', CancelTasks GetInstanceID i q = Ret q' /\
    repr q' (kept_of i lp) (reverse (taken_of i lp) ++ lc) /\ same_rest q q'.
Proof.
  intros H. pose proof (repr_locs_length _ _ _ H).
  apply (CancelTasks_loop_repr _ i q [] lp lc H). lia.
Qed.

(** The tail pointer survives a cancellation that does not cut the tail. *)
Lemma kept_last i (lp : list (loc * item)) a :
  cuts_tail GetInstanceID i a = false -> lp.*2 = pending a -> kept_of i lp <> [] ->
  last (kept_of i lp) = last lp.
Proof.
  unfold cuts_tail. intros Hc Hp Hne. rewrite <- Hp in Hc. clear Hp.
  destruct lp as [|[l x] lp _] using rev_ind; [done|].
  rewrite filter_snoc in *. rewrite fmap_app in Hc. simpl in Hc.
  rewrite last_snoc in Hc. simpl in *. case_decide as E.
  - by rewrite !last_snoc.
  - rewrite app_nil_r in *. exfalso. apply not_false_is_true in E. rewrite E in Hc.
    simpl in Hc. assert (existsb (fun y => negb (of_instance GetInstanceID i y))
                           (lp.*2 ++ [x]) = true) as Hx; [|congruence].
    destruct (kept_of i lp) as [|[l' y] r] eqn:F; [done|].
    assert ((l', y) ∈ kept_of i lp) as Hin by (rewrite F; left).
    apply list_elem_of_filter in Hin as [Hy Hin]. simpl in Hy.
    apply existsb_exists. exists y. split; [|by rewrite Hy].
    apply list_elem_of_In, elem_of_app. left. apply list_elem_of_fmap. by exists (l', y).
Qed.

Lemma CancelTasks_represents cut i q a :
  represents_cut cut q a ->
  exists q', CancelTasks GetInstanceID i q = Ret q' /\
    represents_cut (is_cut GetInstanceID (CCancel i) a cut) q' (spec_cancel GetInstanceID i a).
Proof.
  intros (lp & lc & H & T & Hp & Hc & Hr & Hl).
  destruct (CancelTasks_repr i q lp lc H) as (q' & Hq' & H' & S1 & S2 & S3 & _).
  assert (Ep : (kept_of i lp).*2 = pending (spec_cancel GetInstanceID i a)).
  { simpl. by rewrite <- Hp, list_filter_fmap. }
  exists q'. split; [done|]. exists (kept_of i lp), (reverse (taken_of i lp) ++ lc).
  split_and!; simpl; [exact H'| |exact Ep| |congruence|congruence].
  - intros Hcut Hne. unfold is_cut in Hcut. cbn [spec_call snd] in Hcut. rewrite <- Ep in Hcut.
    destruct ((kept_of i lp).*2) as [|x r] eqn:E; [by apply fmap_nil_inv in E|].
    apply orb_false_iff in Hcut as [Hf Hcut]. rewrite S1, (kept_last i lp a) by done.
    apply T; [done|]. by intros ->.
  - rewrite fmap_app, fmap_reverse, Hc, <- Hp, list_filter_fmap. done.
Qed.
End refinement.

Section operations.
Lemma repr_fresh_loc q lp lc : repr q lp lc -> next_loc q ∉ lp.*1 /\ next_loc q ∉ lc.*1.
Proof.
  intros H. split; intros Hin.
  - eapply lseg_dom, (repr_fresh _ _ _ H) in Hin; [|apply (repr_pending _ _ _ H)]. lia.
  - eapply lseg_dom, (repr_fresh _ _ _ H) in Hin; [|apply (repr_cancelled _ _ _ H)]. lia.
Qed.

(** What a new node adds to the lists, whatever becomes of the store. *)
Lemma repr_extend q lp lc it :
  repr q lp lc -> Z.of_nat (List.length lp) + 1 < 2 ^ 32 ->
  NoDup ((lp ++ [(next_loc q, it)]).*1 ++ lc.*1) /\
  u32 (size q + 1) = Z.of_nat (List.length (lp ++ [(next_loc q, it)])) /\
  Z.of_nat (List.length (lp ++ [(next_loc q, it)])) < 2 ^ 32.
Proof.
  intros H Hb. destruct (repr_fresh_loc _ _ _ H) as [Fp Fc]. destruct H as [_ _ N _ S _]. split.
  - rewrite fmap_app. simpl. rewrite <- app_assoc. simpl.
    rewrite <- Permutation_middle. constructor; [set_solver|done].
  - rewrite S, length_app. simpl. rewrite u32_small by lia. lia.
Qed.

Lemma EnqueueTask_first w t q lc :
  repr q [] lc ->
  exists q', EnqueueTask w t q = Ret q' /\ repr q' [(next_loc q, (w, t))] lc /\
    last_task q' = Some (next_loc q) /\ running_tasks q' = running_tasks q /\ concurrency q' = concurrency q.
Proof.
  intros H. destruct (repr_extend q [] lc (w, t) H) as (HN & HS & HB); [simpl; lia|].
  destruct (repr_fresh_loc _ _ _ H) as [_ Fc]. destruct H as [P C _ F _ _].
  unfold EnqueueTask. simpl in P |- *. rewrite P. simpl.
  eexists. split; [done|]. split_and!; simpl; try done.
  split; simpl; try done.
  - split; [done|]. exists None. by rewrite lookup_insert_eq.
  - by apply lseg_insert.
  - intros l Hs. destruct (decide (l = next_loc q)) as [->|Hne]; [lia|].
    rewrite lookup_insert_ne in Hs by done. specialize (F l Hs). lia.
Qed.

Lemma EnqueueTask_last w t q lp l1 w1 t1 lc :
  repr q (lp ++ [(l1, (w1, t1))]) lc -> last_task q = Some l1 ->
  Z.of_nat (List.length (lp ++ [(l1, (w1, t1))])) + 1 < 2 ^ 32 ->
  exists q', EnqueueTask w t q = Ret q' /\ repr q' ((lp ++ [(l1, (w1, t1))]) ++ [(next_loc q, (w, t))]) lc /\
    last_task q' = Some (next_loc q) /\ running_tasks q' = running_tasks q /\ concurrency q' = concurrency q.
Proof.
  intros H Hlast Hb. destruct (repr_extend _ _ _ (w, t) H Hb) as (HN & HS & HB).
  destruct (repr_fresh_loc _ _ _ H) as [Fp Fc]. destruct H as [P C N F _ _].
  pose proof P as P'. apply lseg_app in P' as (m & P1 & -> & nx & Hl1 & ->).
  assert (l1 <> next_loc q) as Hne by set_solver.
  assert (l1 ∉ lp.*1 /\ l1 ∉ lc.*1) as [Nl Nc].
  { rewrite fmap_app in N. simpl in N. rewrite <- app_assoc in N. simpl in N.
    apply NoDup_app in N as (_ & D & (N & _)%NoDup_cons). split; [intros Hin%D|]; set_solver. }
  unfold EnqueueTask. simpl. destruct (first_task q) as [f|] eqn:Hf;
    [|by apply lseg_nil_inv in P; destruct lp].
  rewrite Hlast. simpl. erewrite store_next_Some; [|simpl; rewrite lookup_insert_ne by done; exact Hl1].
  simpl. eexists. split; [done|]. split_and!; simpl; try done. split; simpl; try done.
  - rewrite Hf. apply lseg_app. exists (Some (next_loc q)). split.
    + eapply lseg_retarget; [apply lseg_insert; [exact P|done]|done].
    + simpl. split; [done|]. exists None. split; [|done].
      rewrite lookup_insert_ne by done. by rewrite lookup_insert_eq.
  - apply lseg_insert; [by apply lseg_insert|done].
  - intros l Hs. destruct (decide (l = next_loc q)) as [->|Hnl]; [lia|].
    rewrite !lookup_insert in Hs. specialize (F l).
    repeat case_decide; subst; [specialize (F ltac:(eauto))| |specialize (F Hs)]; try lia; done.
Qed.

Lemma EnqueueTask_represents w t q a :
  represents q a -> Z.of_nat (List.length (pending a)) + 1 < 2 ^ 32 ->
  exists q', EnqueueTask w t q = Ret q' /\ represents q' (spec_enqueue w t a).
Proof.
  intros (lp & lc & H & T & Hp & Hc & Hr & Hl) Hb. rewrite <- Hp, length_fmap in Hb.
  assert (exists q', EnqueueTask w t q = Ret q' /\ repr q' (lp ++ [(next_loc q, (w, t))]) lc /\
    last_task q' = Some (next_loc q) /\ running_tasks q' = running_tasks q /\ concurrency q' = concurrency q)
    as (q' & E & H' & T' & Er & Ec).
  { destruct lp as [|[l1 [w1 t1]] lp _] using rev_ind; [by apply EnqueueTask_first|].
    apply EnqueueTask_last; [done| |done]. rewrite T, last_snoc; [done|]. by destruct lp. }
  exists q'. split; [done|]. eexists _, lc. split_and!; [exact H'| | |done|simpl; congruence|simpl; congruence].
  - intros _. by rewrite last_snoc.
  - by rewrite fmap_app, Hp.
Qed.
Lemma IsLocked_represents cut q a : represents_cut cut q a -> IsLocked q = spec_locked a.
Proof.
  intros (lp & lc & H & _ & Hp & Hc & Hr & Hl). destruct H as [P C _ _ Hs _].
  unfold IsLocked, spec_locked. rewrite <- Hp, <- Hc, Hs, Hr, Hl.
  destruct lc as [|[l2 [w2 t2]] lc]; simpl in C.
  - rewrite C. destruct lp; simpl; [done|]. by destruct (_ <? _).
  - destruct C as [-> _]. done.
Qed.

(** Taking the first node of the list to run away. *)
Lemma repr_pop_pending q l w t lp lc nx :
  repr q ((l, (w, t)) :: lp) lc -> store q !! l = Some (mkTask w t nx) ->
  repr (delete_Task l (set_size (u32 (size q - 1)) (set_first_task nx q))) lp lc.
Proof.
  intros [P C N F S B] Hl. simpl in P. destruct P as (_ & nx' & Hl' & P).
  assert (nx' = nx) as -> by congruence.
  simpl in N. apply NoDup_cons in N as [Nl N].
  simpl in S, B. split; simpl; try done.
  - apply lseg_delete; [done|]. set_solver.
  - apply lseg_delete; [done|]. set_solver.
  - intros l' [x [_ Hx]%lookup_delete_Some]. apply F. by eexists.
  - rewrite S, u32_small; lia.
  - lia.
Qed.

Lemma repr_pop_cancelled q l w t lp lc nx :
  repr q lp ((l, (w, t)) :: lc) -> store q !! l = Some (mkTask w t nx) ->
  repr (delete_Task l (set_cancelled_tasks nx q)) lp lc.
Proof.
  intros [P C N F S B] Hl. simpl in C. destruct C as (_ & nx' & Hl' & C).
  assert (nx' = nx) as -> by congruence.
  simpl in N. rewrite <- Permutation_middle in N. apply NoDup_cons in N as [Nl N].
  split; simpl; try done.
  - apply lseg_delete; [done|]. set_solver.
  - apply lseg_delete; [done|]. set_solver.
  - intros l' [x [_ Hx]%lookup_delete_Some]. apply F. by eexists.
Qed.

Lemma tail_ok_tail q q' x lp :
  tail_ok q (x :: lp) -> last_task q' = last_task q -> tail_ok q' lp.
Proof.
  unfold tail_ok. intros T E Hne. rewrite E, T by done.
  destruct lp; [done|]. by rewrite last_cons_cons.
Qed.

Lemma DequeueTask_represents cut q a :
  represents_cut cut q a ->
  exists q', DequeueTask q = Ret ((spec_dequeue a).1, q') /\ represents_cut cut q' (spec_dequeue a).2.
Proof.
  intros H. pose proof (IsLocked_represents cut q a H) as HL.
  destruct H as (lp & lc & H & T & Hp & Hc & Hr & Hl).
  unfold DequeueTask, spec_dequeue. rewrite HL. unfold spec_locked.
  pose proof (repr_cancelled _ _ _ H) as C. pose proof (repr_pending _ _ _ H) as P.
  destruct lc as [|[l [w t]] lc]; simpl in C; rewrite <- Hc, <- Hp; simpl.
  - destruct lp as [|[l [w t]] lp]; simpl.
    { exists q. split; [done|]. exists [], []. by split_and!. }
    destruct (running a <? limit a); simpl.
    2:{ exists q. split; [done|]. exists ((l, (w, t)) :: lp), []. by split_and!. }
    destruct P as (E & nx & Hn & P). rewrite C, E. simpl.
    erewrite load_Some by done. simpl. erewrite load_Some by done. simpl.
    eexists. split; [done|]. exists lp, [].
    split_and!; try done; [by eapply repr_pop_pending|intros Hcut; eapply tail_ok_tail; [by apply T|done]].
  - destruct C as (E & nx & Hn & C). rewrite E. simpl.
    erewrite load_Some by done. simpl. erewrite load_Some by done. simpl.
    eexists. split; [done|]. exists lp, lc.
    split_and!; try done; by eapply repr_pop_cancelled.
Qed.

Lemma set_running_represents cut n q a :
  represents_cut cut q a -> represents_cut cut (set_running_tasks n q) (spec_set_running n a).
Proof.
  intros (lp & lc & [P C N F S B] & T & Hp & Hc & Hr & Hl).
  exists lp, lc. by split_and!.
Qed.
End operations.

Section traces.
Context (GetInstanceID : wi_ref -> Z).

Lemma spec_call_length c a :
  (List.length (pending (spec_call GetInstanceID c a).2) <= S (List.length (pending a)))%nat.
Proof.
  destruct c; simpl; try lia.
  - rewrite length_app. simpl. lia.
  - unfold spec_dequeue. repeat case_match; simpl in *; subst; simpl in *;
      try congruence; try lia; simplify_eq/=; rewrite ?H0; simpl; lia.
  - etrans; [apply length_filter|lia].
Qed.

(** A tail pointer that was wrong does not matter once the list is empty. *)
Lemma represents_cut_weaken c cut q a :
  represents_cut cut q (spec_call GetInstanceID c a).2 -> (forall i, c <> CCancel i) ->
  represents_cut (is_cut GetInstanceID c a cut) q (spec_call GetInstanceID c a).2.
Proof.
  intros (lp & lc & H & T & Hp & Hr) Hc. exists lp, lc. split; [done|]. split; [|by rewrite <- Hp]. unfold is_cut.
  rewrite <- Hp. destruct lp as [|x lp]; [by intros _ []|]. destruct c; cbn; rewrite ?orb_false_r; try done. by destruct (Hc i).
Qed.

Lemma do_call_represents c cut q a :
  represents_cut cut q a -> safe_call c cut = true ->
  Z.of_nat (List.length (pending a)) + 1 < 2 ^ 32 ->
  exists q', do_call GetInstanceID c q = Ret ((spec_call GetInstanceID c a).1, q') /\
    represents_cut (is_cut GetInstanceID c a cut) q' (spec_call GetInstanceID c a).2.
Proof.
  intros H Hs Hb.
  assert (Hc : (forall i, c <> CCancel i) ->
    exists q', do_call GetInstanceID c q = Ret ((spec_call GetInstanceID c a).1, q') /\
      represents_cut cut q' (spec_call GetInstanceID c a).2).
  { intros Hc. destruct c as [w t| | | |i]; simpl in *.
    - apply negb_true_iff in Hs as ->. apply represents_not_cut in H.
      destruct (EnqueueTask_represents w t q a H Hb) as (q1 & -> & H1). exists q1. split; [done|by apply represents_not_cut].
    - by apply DequeueTask_represents.
    - pose proof H as (_ & _ & _ & _ & _ & _ & Hr & _).
      eexists. split; [done|]. unfold ExecuteTask. rewrite Hr. by apply set_running_represents.
    - pose proof H as (_ & _ & _ & _ & _ & _ & Hr & _).
      eexists. split; [done|]. unfold TerminateTask. rewrite Hr. by apply set_running_represents.
    - by destruct (Hc i). }
  destruct c as [w t| | | |i]; try (destruct Hc as (q' & E & H'); [done|]; exists q'; split; [done|by apply represents_cut_weaken]).
  destruct (CancelTasks_represents GetInstanceID cut i q a H) as (q' & E & H'). exists q'. split; [|exact H']. cbn [do_call]. by rewrite E.
Qed.

Lemma do_calls_represents cs cut q a :
  represents_cut cut q a -> safe_calls GetInstanceID cs a cut = true ->
  Z.of_nat (List.length (pending a)) + Z.of_nat (List.length cs) < 2 ^ 32 ->
  exists q' cut', do_calls GetInstanceID cs q = Ret ((spec_calls GetInstanceID cs a).1, q') /\
    represents_cut cut' q' (spec_calls GetInstanceID cs a).2.
Proof.
  revert cut q a. induction cs as [|c cs IH]; intros cut q a H Hs Hb; simpl in *; [eauto|].
  apply andb_true_iff in Hs as [Hs1 Hs2].
  destruct (do_call_represents c cut q a) as (q1 & E1 & H1); [done..|lia|].
  rewrite E1. simpl. pose proof (spec_call_length c a).
  destruct (IH (is_cut GetInstanceID c a cut) q1 (spec_call GetInstanceID c a).2) as (q2 & cut2 & E2 & H2); [done..|lia|].
  rewrite E2. simpl. destruct (spec_call _ _ _); simpl in *.
  destruct (spec_calls _ _ _); simpl in *. eauto.
Qed.
End traces.

(** * Cancelling the last task

    [CancelTasks] does not touch [last_task].  When it takes the last task of
    the list away, the tail pointer leads into the cancelled list. *)

Section cut_tail.
Context (GetInstanceID : wi_ref -> Z).

Lemma cuts_tail_split i q lp lc a :
  repr q lp lc -> lp.*2 = pending a -> cuts_tail GetInstanceID i a = true ->
  exists lp0 l w t, lp = lp0 ++ [(l, (w, t))] /\
    last (pending a) = Some (w, t) /\ of_instance GetInstanceID i (w, t) = true /\
    filter (fun x : loc * item => of_instance GetInstanceID i x.2 = false) lp0 <> [].
Proof.
  unfold cuts_tail. intros _ <- Hc.
  destruct lp as [|[l [w t]] lp _] using rev_ind; [done|].
  rewrite fmap_app in *. simpl in *. rewrite last_snoc in *.
  apply andb_true_iff in Hc as [Ht Hex].
  exists lp, l, w, t. split_and!; try done.
  apply existsb_exists in Hex as (y & Hy & Hf).
  apply list_elem_of_In, elem_of_app in Hy as [Hy|Hy].
  - apply list_elem_of_fmap in Hy as (z & -> & Hz).
    intros E. assert (z ∈ filter (fun x : loc * item => of_instance GetInstanceID i x.2 = false) lp)
      as Hin by (apply list_elem_of_filter; split; [by apply negb_true_iff|done]).
    rewrite E in Hin. set_solver.
  - apply list_elem_of_singleton in Hy as ->. by rewrite Ht in Hf.
Qed.

(** The state after such a cancellation: the tail pointer is the address of
    the task at the head of the cancelled list. *)
Lemma CancelTasks_cut i q a :
  represents q a -> cuts_tail GetInstanceID i a = true ->
  exists q1 lp1 lc1 l w t,
    CancelTasks GetInstanceID i q = Ret q1 /\ repr q1 lp1 ((l, (w, t)) :: lc1) /\
    lp1 <> [] /\ lp1.*2 = pending (spec_cancel GetInstanceID i a) /\
    last_task q1 = Some l /\ last (pending a) = Some (w, t).
Proof.
  intros (lp & lc & H & T & Hp & _) Hc.
  destruct (CancelTasks_repr GetInstanceID i q lp lc H) as (q1 & E1 & H1 & S1 & _).
  destruct (cuts_tail_split i q lp lc a H Hp Hc) as (lp0 & l & w & t & -> & Hlast & Ht & Hne).
  rewrite !filter_snoc in H1. simpl in H1.
  rewrite Ht, decide_False, decide_True in H1 by done.
  rewrite app_nil_r, reverse_snoc in H1. simpl in H1.
  eexists q1, _, _, l, w, t. split_and!; [done|exact H1|done| | |done].
  - simpl. rewrite <- Hp, list_filter_fmap, filter_snoc. simpl.
    by rewrite Ht, decide_False, app_nil_r by done.
  - rewrite S1, T by (by destruct lp0). by rewrite last_snoc.
Qed.
End cut_tail.

(** * The interface *)

#[export] Instance Queue_impl : QueueImpl Queue := {|
  qi_EnqueueTask := EnqueueTask;
  qi_DequeueTask := DequeueTask;
  qi_ExecuteTask := ExecuteTask;
  qi_TerminateTask := TerminateTask;
  qi_CancelTasks := CancelTasks;
  qi_IsLocked := IsLocked;
  qi_GetSize := GetSize;
  qi_GetRunningTasks := GetRunningTasks;
|}.

Lemma store_next_fields p nx q q' :
  store_next p nx q = Ret q' -> exists st, q' = set_store st q.
Proof. unfold store_next. intros H. inv_ret. by eexists. Qed.

Ltac inv_store_next :=
  match goal with
  | H : store_next _ _ _ = Ret _ |- _ => apply store_next_fields in H as [? ->]
  end.

Lemma store_cell_fields c nx q q' :
  store_cell c nx q = Ret q' ->
  running_tasks q' = running_tasks q /\ concurrency q' = concurrency q /\
  cancelled_tasks q' = cancelled_tasks q /\ size q' = size q.
Proof.
  destruct c; cbn [store_cell].
  - by intros [= <-].
  - intros [st ->]%store_next_fields. done.
Qed.

(** Whatever the store looks like, a cancellation leaves the queue as it was or
    puts something on the cancelled list. *)
Lemma CancelTasks_loop_fields GetInstanceID fuel c i q q' :
  CancelTasks_loop GetInstanceID fuel c i q = Ret q' ->
  running_tasks q' = running_tasks q /\ concurrency q' = concurrency q /\
  (q' = q \/ is_Some (cancelled_tasks q')).
Proof.
  revert c q. induction fuel as [|fuel IH]; intros c q; [done|].
  rewrite CancelTasks_loop_S. intros H. apply bind_Ret in H as (p & _ & H).
  destruct p as [l|]; [|inv_ret; auto].
  apply bind_Ret in H as (n & _ & H). case_match; [|eauto].
  apply bind_Ret in H as (q1 & (R1 & C1 & _)%store_cell_fields & H).
  apply bind_Ret in H as (q2 & [st ->]%store_next_fields & H).
  destruct (IH _ _ H) as (R & C & D). simpl in *. split_and!; [congruence..|].
  right. destruct D as [->|D]; [by eexists|done].
Qed.

#[export] Instance Queue_laws : QueueLaws Queue.
Proof.
  split; simpl.
  - unfold EnqueueTask. simpl. intros w t q q' H. case_match; inv_ret; [|done].
    by inv_store_next.
  - unfold DequeueTask. intros q r q' H. case_match; inv_ret; [done|].
    destruct x as [l q1]. inv_ret. case_match; inv_ret; done.
  - intros g i q q' H. by apply CancelTasks_loop_fields in H as (? & _).
  - done.
  - done.
  - unfold DequeueTask. intros q ->. done.
  - unfold DequeueTask. intros q r q' -> H. inv_ret. destruct x as [l q1]. inv_ret. by eexists.
  - unfold EnqueueTask, IsLocked, GetSize. simpl. intros w t q q' Hb H HL.
    assert (cancelled_tasks q' = cancelled_tasks q /\ size q' = u32 (size q + 1) /\
            running_tasks q' = running_tasks q /\ concurrency q' = concurrency q)
      as (-> & -> & -> & ->).
    { clear HL. destruct (first_task q); inv_ret; [|done]. by inv_store_next. }
    destruct (cancelled_tasks q); [done|].
    destruct (Z.gtb_spec (size q) 0); [|done]. rewrite u32_small by lia.
    rewrite (proj2 (Z.gtb_lt _ _)) by lia. done.
  - intros g i q q' H HL. apply CancelTasks_loop_fields in H as (_ & _ & [->|[l Hl]]); [done|].
    unfold IsLocked. by rewrite Hl.
  - unfold GetRunningTasks, IsLocked, TerminateTask. simpl. intros q Hr HL.
    destruct (cancelled_tasks q); [done|]. rewrite u32_small by lia.
    destruct (size q >? 0); simpl in *; [|done].
    destruct (Z.ltb_spec (running_tasks q) (concurrency q)); [|done].
    by rewrite (proj2 (Z.ltb_lt _ _)) by lia.
Qed.

(** * Properties *)

Definition empty_queue (nm : string) (i c : Z) : Queue :=
  mkQueue nm i c 0 0 None None None ∅ 0.

Lemma empty_represents nm i c : represents (empty_queue nm i c) (mkSpec [] [] 0 c).
Proof.
  exists [], []. split_and!; try done. split; simpl; try done.
  - constructor.
  - intros l [x Hx]. by rewrite lookup_empty in Hx.
Qed.

(** C1: On every sequence of fewer than 2^32 calls, cancellations of the
    last task included, in which no task is enqueued after a cancellation
    took away the last task and left others, until the queue is empty again:
    the linked lists of Queue.cpp, with their tail pointer and node
    allocation, return exactly what the two-list FIFO specification returns:
    cancelled tasks first, then pending tasks in order while the concurrency
    allows it. *)
Theorem Queue_refines GetInstanceID nm i c cs :
  safe_calls GetInstanceID cs (mkSpec [] [] 0 c) false = true ->
  Z.of_nat (List.length cs) < 2 ^ 32 ->
  exists q', do_calls GetInstanceID cs (empty_queue nm i c) =
    Ret ((spec_calls GetInstanceID cs (mkSpec [] [] 0 c)).1, q').
Proof.
  intros Hs Hb.
  destruct (do_calls_represents GetInstanceID cs false _ _ (proj1 (represents_not_cut _ _) (empty_represents nm i c)) Hs)
    as (q' & cut & Hq' & _); [simpl; lia|eauto].
Qed.

(** C37: When CancelTasks removes the last task of the queue and keeps an
    earlier one, last_task points to the cancelled node: once DequeueTask
    frees it, the next EnqueueTask writes to freed memory. *)
Theorem CancelTasks_dangling_tail GetInstanceID q a i w t :
  represents q a -> cuts_tail GetInstanceID i a = true ->
  exists q1 q2 r, CancelTasks GetInstanceID i q = Ret q1 /\
    last (pending a) = Some r /\ DequeueTask q1 = Ret (Some r, q2) /\
    EnqueueTask w t q2 = Undef.
Proof.
  intros H Hc.
  destruct (CancelTasks_cut GetInstanceID i q a H Hc)
    as (q1 & lp1 & lc1 & l & w' & t' & E1 & H1 & Hne & _ & L1 & Hlast).
  pose proof (repr_cancelled _ _ _ H1) as (C & nx & Hl & _).
  pose proof (repr_pending _ _ _ H1) as P. destruct lp1 as [|[l1 [w1 t1]] lp1]; [done|].
  destruct P as (F1 & _). pose proof (repr_fresh _ _ _ H1 l (mk_is_Some _ _ Hl)) as Hfr.
  exists q1. eexists. exists (w', t'). split_and!; [done|done| |].
  - unfold DequeueTask, IsLocked. rewrite C. simpl.
    erewrite load_Some by done. simpl. by erewrite load_Some by done.
  - unfold EnqueueTask. simpl. rewrite F1. unfold store_next. simpl. rewrite L1. simpl.
    by rewrite lookup_insert_ne, lookup_delete_eq by lia.
Qed.

(** When CancelTasks removes the last task of the queue and keeps an
    earlier one, a task enqueued before the cancelled one is dequeued goes
    to the list of cancelled tasks, and size is one more than the number of
    pending tasks. *)
Theorem EnqueueTask_after_cut_loses_tasks GetInstanceID q a i w t :
  represents q a -> cuts_tail GetInstanceID i a = true ->
  exists q1 q2 r lp2 lc2, CancelTasks GetInstanceID i q = Ret q1 /\ EnqueueTask w t q1 = Ret q2 /\
    last (pending a) = Some r /\
    lseg (store q2) (first_task q2) lp2 None /\
    lp2.*2 = pending (spec_cancel GetInstanceID i a) /\
    lseg (store q2) (cancelled_tasks q2) lc2 None /\ lc2.*2 = [r; (w, t)] /\
    size q2 = u32 (Z.of_nat (List.length lp2) + 1).
Proof.
  intros H Hc.
  destruct (CancelTasks_cut GetInstanceID i q a H Hc)
    as (q1 & lp1 & lc1 & l & w' & t' & E1 & H1 & Hne & Hp1 & L1 & Hlast).
  destruct (repr_fresh_loc _ _ _ H1) as [Fp Fc].
  destruct H1 as [P C N F S B]. destruct C as (C & nx & Hl & _).
  assert (l ∉ lp1.*1) as Nl.
  { simpl in N. rewrite <- Permutation_middle in N. apply NoDup_cons in N as [Nl _]. set_solver. }
  assert (l <> next_loc q1) as Hln by set_solver.
  destruct (first_task q1) as [f|] eqn:Hf; [|by destruct Hne; eapply lseg_nil_inv].
  exists q1. eexists. exists (w', t'), lp1, [(l, (w', t')); (next_loc q1, (w, t))].
  split_and!; [done| |done| |done| |done|].
  - unfold EnqueueTask. simpl. rewrite Hf, L1.
    erewrite store_next_Some; [|simpl; rewrite lookup_insert_ne by done; exact Hl]. done.
  - simpl. rewrite Hf. auto with evq.
  - simpl. split; [done|]. exists (Some (next_loc q1)). rewrite lookup_insert_eq.
    split; [done|]. split; [done|]. exists None.
    rewrite lookup_insert_ne by done. by rewrite lookup_insert_eq.
  - simpl. by rewrite S.
Qed.

(** * Examples *)

Lemma Queue_refines_witness :
  exists q', do_calls Z.pos
    [CEnqueue 1 10; CEnqueue 2 20; CEnqueue 1 11; CCancel 1; CDequeue; CDequeue;
     CDequeue; CExecute; CEnqueue 2 21; CDequeue; CTerminate; CDequeue; CDequeue]%positive
    (empty_queue "q" 1 1) =
    Ret ([None; None; None; None; Some (1, 11); Some (1, 10); Some (2, 20); None; None; None;
          None; Some (2, 21); None], q')%positive.
Proof.
  exact (Queue_refines Z.pos "q" 1 1
    [CEnqueue 1 10; CEnqueue 2 20; CEnqueue 1 11; CCancel 1; CDequeue; CDequeue;
     CDequeue; CExecute; CEnqueue 2 21; CDequeue; CTerminate; CDequeue; CDequeue]%positive
    ltac:(vm_compute; reflexivity) ltac:(vm_compute; reflexivity)).
Defined.

(** Two workflow instances wait in the queue and the second one is cancelled. *)
Definition two_tasks : list call := [CEnqueue 1 10; CEnqueue 2 20]%positive.

Lemma two_tasks_represents :
  exists q, do_calls Z.pos two_tasks (empty_queue "q" 1 1) = Ret ([None; None], q) /\
    represents q (mkSpec [(1, 10); (2, 20)]%positive [] 0 1).
Proof.
  destruct (EnqueueTask_represents 1 10 (empty_queue "q" 1 1) _ (empty_represents "q" 1 1)) as (q1 & E1 & H1); [done|].
  destruct (EnqueueTask_represents 2 20 q1 _ H1) as (q2 & E2 & H2); [done|].
  exists q2. split; [|exact H2]. unfold two_tasks. cbn [do_calls do_call]. rewrite E1. cbn [mbind outcome_bind]. by rewrite E2.
Qed.

Lemma CancelTasks_dangling_tail_witness :
  exists q q1 q2, do_calls Z.pos two_tasks (empty_queue "q" 1 1) = Ret ([None; None], q) /\
    CancelTasks Z.pos 2 q = Ret q1 /\ DequeueTask q1 = Ret (Some (2, 20)%positive, q2) /\
    EnqueueTask 3 30 q2 = Undef.
Proof.
  destruct two_tasks_represents as (q & E & H). exists q.
  destruct (CancelTasks_dangling_tail Z.pos q _ 2 3 30 H) as (q1 & q2 & r & E1 & Er & E2 & E3);
    [vm_compute; reflexivity|].
  injection Er as <-. by exists q1, q2.
Defined.

Lemma EnqueueTask_after_cut_loses_tasks_witness :
  exists q q1 q2, do_calls Z.pos two_tasks (empty_queue "q" 1 1) = Ret ([None; None], q) /\
    CancelTasks Z.pos 2 q = Ret q1 /\ EnqueueTask 3 30 q1 = Ret q2 /\ size q2 = 2 /\
    exists lp lc, lseg (store q2) (first_task q2) lp None /\ lp.*2 = [(1, 10)]%positive /\
      lseg (store q2) (cancelled_tasks q2) lc None /\ lc.*2 = [(2, 20); (3, 30)]%positive.
Proof.
  destruct two_tasks_represents as (q & E & H). exists q.
  destruct (EnqueueTask_after_cut_loses_tasks Z.pos q _ 2 3 30 H)
    as (q1 & q2 & r & lp & lc & E1 & E2 & Er & L1 & P1 & L2 & P2 & Z2); [vm_compute; reflexivity|].
  injection Er as <-. exists q1, q2. split_and!; [done..| |by exists lp, lc].
  rewrite Z2. rewrite <- (length_fmap snd lp), P1. reflexivity.
Defined.
