(* ===== verification/QueueTasks.v ===== *)
(** The tasks that the linked lists of a queue hold: [Queue] implements the
    interface of the clients that account for tasks. *)

From S2P Require Import Prelude QueueIface Queue.

Open Scope Z_scope.

(** The nodes from [p] on, and the tasks of both lists. *)
Fixpoint nodes (fuel : nat) (st : gmap loc Task) (p : option loc) : list (loc * item) :=
  match fuel, p with
  | S fuel, Some l =>
      match st !! l with
      | Some n => (l, (workflow_instance n, task n)) :: nodes fuel st (next_task n)
      | None => []
      end
  | _, _ => []
  end.

Definition queue_nodes (p : option loc) (q : Queue) : list (loc * item) := nodes (base.size (store q)) (store q) p.

Definition held_tasks (q : Queue) : list item :=
  (queue_nodes (first_task q) q ++ queue_nodes (cancelled_tasks q) q).*2.

(** [last_task] is only read when the list is not empty. *)
Definition tail_valid (q : Queue) : bool :=
  match last (queue_nodes (first_task q) q) with
  | None => true
  | Some x => bool_decide (last_task q = Some x.1)
  end.

#[export] Instance Queue_tasks : QueueTasks Queue := {|
  qi_tasks := held_tasks;
  qi_ok q := exists lp lc, repr q lp lc;
  qi_accepts := tail_valid;
|}.

Lemma nodes_lseg fuel st p xs : lseg st p xs None -> (List.length xs <= fuel)%nat -> nodes fuel st p = xs.
Proof.
  revert p xs. induction fuel as [|fuel IH]; intros p [|[l [w t]] xs] Hs Hl; simpl in *; try done; try lia.
  - by rewrite Hs.
  - destruct Hs as (-> & nx & -> & Hs). simpl. f_equal. apply IH; [done|lia].
Qed.

Lemma repr_nodes q lp lc :
  repr q lp lc -> queue_nodes (first_task q) q = lp /\ queue_nodes (cancelled_tasks q) q = lc.
Proof.
  intros H. destruct H as [P C N _ _ _].
  assert (Hl : (List.length (lp.*1 ++ lc.*1) <= base.size (store q))%nat).
  { rewrite <- (size_list_to_set (C := gset loc)) by done. rewrite <- size_dom.
    apply subseteq_size. intros l Hin%elem_of_list_to_set. apply elem_of_dom.
    apply elem_of_app in Hin as [Hin|Hin]; [by apply (lseg_dom _ _ _ _ _ P)|by apply (lseg_dom _ _ _ _ _ C)]. }
  rewrite length_app, !length_fmap in Hl. split; apply nodes_lseg; done || lia.
Qed.

Lemma repr_held q lp lc : repr q lp lc -> held_tasks q = lp.*2 ++ lc.*2.
Proof. intros H. unfold held_tasks. destruct (repr_nodes _ _ _ H) as [-> ->]. apply fmap_app. Qed.

Lemma repr_valid q lp lc : repr q lp lc -> tail_valid q = true -> tail_ok q lp.
Proof.
  intros H. unfold tail_valid, tail_ok. destruct (repr_nodes _ _ _ H) as [-> _].
  intros Hv Hne. destruct (last lp) as [x|] eqn:E; [|by apply last_None in E].
  by apply bool_decide_eq_true in Hv as ->.
Qed.

Lemma enqueue_held w t q :
  (exists lp lc, repr q lp lc) -> tail_valid q = true -> size q + 1 < 2 ^ 32 ->
  exists q', EnqueueTask w t q = Ret q' /\ (exists lp lc, repr q' lp lc) /\ held_tasks q' ≡ₚ (w, t) :: held_tasks q.
Proof.
  intros (lp & lc & H) V B. pose proof (repr_valid _ _ _ H V) as T. pose proof (repr_size _ _ _ H) as Hs.
  assert (exists q', EnqueueTask w t q = Ret q' /\ repr q' (lp ++ [(next_loc q, (w, t))]) lc) as (q' & E & H').
  { destruct lp as [|[l1 [w1 t1]] lp _] using rev_ind.
    - destruct (EnqueueTask_first w t q lc H) as (q' & ? & ? & _). by exists q'.
    - destruct (EnqueueTask_last w t q lp l1 w1 t1 lc H) as (q' & ? & ? & _); [|lia|by exists q'].
      rewrite T, last_snoc; [done|]. by destruct lp. }
  exists q'. split; [done|]. split; [eauto|]. rewrite (repr_held _ _ _ H'), (repr_held _ _ _ H), fmap_app. simpl.
  rewrite <- app_assoc. simpl. by rewrite <- Permutation_middle.
Qed.

Lemma dequeue_held q : (exists lp lc, repr q lp lc) ->
  exists r q', DequeueTask q = Ret (r, q') /\ (exists lp lc, repr q' lp lc) /\
    held_tasks q ≡ₚ option_list r ++ held_tasks q'.
Proof.
  intros (lp & lc & H). unfold DequeueTask. destruct (IsLocked q) eqn:L; [by exists None, q; eauto|].
  pose proof (repr_cancelled _ _ _ H) as C. pose proof (repr_pending _ _ _ H) as P. unfold IsLocked in L.
  destruct lc as [|[l [w t]] lc]; simpl in C.
  - rewrite C in *. destruct lp as [|[l [w t]] lp].
    { exfalso. by rewrite (repr_size _ _ _ H) in L. }
    destruct P as (E & nx & Hn & P). rewrite E. simpl.
    erewrite load_Some by done. simpl. erewrite load_Some by done. simpl.
    pose proof (repr_pop_pending _ _ _ _ _ _ _ H Hn) as H'.
    eexists _, _. split; [done|]. split; [eauto|]. by rewrite (repr_held _ _ _ H), (repr_held _ _ _ H').
  - destruct C as (E & nx & Hn & C). rewrite E. simpl.
    erewrite load_Some by done. simpl. erewrite load_Some by done. simpl.
    pose proof (repr_pop_cancelled _ _ _ _ _ _ _ H Hn) as H'.
    eexists _, _. split; [done|]. split; [eauto|]. rewrite (repr_held _ _ _ H), (repr_held _ _ _ H'). simpl.
    by rewrite <- Permutation_middle.
Qed.

Lemma cancel_held GetInstanceID i q : (exists lp lc, repr q lp lc) ->
  exists q', CancelTasks GetInstanceID i q = Ret q' /\ (exists lp lc, repr q' lp lc) /\ held_tasks q' ≡ₚ held_tasks q.
Proof.
  intros (lp & lc & H). destruct (CancelTasks_repr GetInstanceID i q lp lc H) as (q' & E & H' & _).
  exists q'. split; [done|]. split; [eauto|]. rewrite (repr_held _ _ _ H), (repr_held _ _ _ H').
  rewrite <- !fmap_app. apply fmap_Permutation. rewrite app_assoc. apply Permutation_app_tail.
  rewrite reverse_Permutation. clear. induction lp as [|[l x] lp IH]; [done|].
  destruct (of_instance GetInstanceID i x) eqn:E.
  - rewrite filter_cons_False, filter_cons_True by (cbn; congruence). by rewrite <- Permutation_middle, IH.
  - rewrite filter_cons_True, filter_cons_False by (cbn; congruence). cbn. by rewrite IH.
Qed.

Lemma repr_set_running n q : (exists lp lc, repr q lp lc) -> exists lp lc, repr (set_running_tasks n q) lp lc.
Proof. intros (lp & lc & []). exists lp, lc. by split. Qed.

#[export] Instance Queue_tasks_laws : QueueTasksLaws Queue.
Proof.
  split; cbn.
  - apply enqueue_held.
  - apply dequeue_held.
  - intros q H. by split; [apply repr_set_running|].
  - intros q H. by split; [apply repr_set_running|].
  - apply cancel_held.
Qed.
