(* ===== verification/QueuePool.v ===== *)
(** [QueuePool.cpp]: the pool of queues, the table of task identifiers and the
    forker's condition variable.  The pool is written against the interface of
    a queue ([QueueIface]); [Queue] implements it. *)

From S2P Require Import Prelude CString Lookup QueueIface Queue.

Open Scope Z_scope.

Section QueuePool.
Context {Q : Type} `{QueueImpl Q}.

(** * State *)

(** The fields of class [QueuePool].  [fork_signal] is the state of the
    condition variable [fork_lock]: a signal was sent to the thread that waits
    on it and that thread did not wake up yet. *)
Record QueuePool : Type := mkQueuePool {
  name : list string;
  queue : list Q;
  tid_queue_index : list Z;
  tid_task : list (option node_ref);
  tid_workflow_instance : list (option wi_ref);
  maxpid : Z;
  lasttid : Z;
  fork_locked : bool;
  fork_possible : bool;
  fork_signal : bool;
  is_shutting_down : bool;
}.

Definition set_queue (qs : list Q) (p : QueuePool) : QueuePool :=
  mkQueuePool (name p) qs (tid_queue_index p) (tid_task p) (tid_workflow_instance p)
    (maxpid p) (lasttid p) (fork_locked p) (fork_possible p) (fork_signal p) (is_shutting_down p).
Definition set_tids (ix : list Z) (ts : list (option node_ref)) (ws : list (option wi_ref))
    (p : QueuePool) : QueuePool :=
  mkQueuePool (name p) (queue p) ix ts ws
    (maxpid p) (lasttid p) (fork_locked p) (fork_possible p) (fork_signal p) (is_shutting_down p).
Definition set_lasttid (t : Z) (p : QueuePool) : QueuePool :=
  mkQueuePool (name p) (queue p) (tid_queue_index p) (tid_task p) (tid_workflow_instance p)
    (maxpid p) t (fork_locked p) (fork_possible p) (fork_signal p) (is_shutting_down p).
Definition set_fork_locked (b : bool) (p : QueuePool) : QueuePool :=
  mkQueuePool (name p) (queue p) (tid_queue_index p) (tid_task p) (tid_workflow_instance p)
    (maxpid p) (lasttid p) b (fork_possible p) (fork_signal p) (is_shutting_down p).
Definition set_fork_possible (b : bool) (p : QueuePool) : QueuePool :=
  mkQueuePool (name p) (queue p) (tid_queue_index p) (tid_task p) (tid_workflow_instance p)
    (maxpid p) (lasttid p) (fork_locked p) b (fork_signal p) (is_shutting_down p).
Definition set_fork_signal (b : bool) (p : QueuePool) : QueuePool :=
  mkQueuePool (name p) (queue p) (tid_queue_index p) (tid_task p) (tid_workflow_instance p)
    (maxpid p) (lasttid p) (fork_locked p) (fork_possible p) b (is_shutting_down p).
Definition set_is_shutting_down (b : bool) (p : QueuePool) : QueuePool :=
  mkQueuePool (name p) (queue p) (tid_queue_index p) (tid_task p) (tid_workflow_instance p)
    (maxpid p) (lasttid p) (fork_locked p) (fork_possible p) (fork_signal p) b.

(** * Operations *)

Definition IsLocked (p : QueuePool) : bool := forallb qi_IsLocked (queue p).

(** The constructor: the names of the queues in the order the database gives
    them, the queue that [new Queue(name)] makes of each, and [pid_max]. *)
Fixpoint new_queues (new_Queue : string -> outcome Q) (names : list string) : outcome (list Q) :=
  match names with
  | [] => Ret []
  | nm :: names => q ← new_Queue nm; qs ← new_queues new_Queue names; Ret (q :: qs)
  end.

Definition QueuePool_new (new_Queue : string -> outcome Q) (queue_names : list string)
    (pid_max : option string) : outcome QueuePool :=
  qs ← new_queues new_Queue queue_names;
  match pid_max with
  | None => Throw (mkException "QueuePool" "Unable to read /proc/sys/kernel/pid_max")
  | Some buf =>
      let maxpid := u32 (atoi buf) in
      let n := Z.to_nat (maxpid + 1) in
      let p := mkQueuePool queue_names qs (replicate n 0) (replicate n None) (replicate n None)
                 maxpid 0 false false false false in
      Ret (set_fork_possible (negb (IsLocked p)) p)
  end.

Definition lookup (queue_name : string) (p : QueuePool) : outcome Z :=
  binary_search (name p) queue_name.

Definition GetQueue (queue_name : string) (p : QueuePool) : outcome (option Q) :=
  i ← lookup queue_name p;
  if negb (i =? -1) then q ← aget (queue p) i; Ret (Some q) else Ret None.

(** [pthread_cond_signal(&fork_lock)]. *)
Definition cond_signal (p : QueuePool) : QueuePool := set_fork_signal true p.

(** The lines that end every operation that changes a queue. *)
Definition update_fork_possible (p : QueuePool) : QueuePool :=
  let p := set_fork_possible (negb (IsLocked p)) p in
  if fork_locked p && fork_possible p then cond_signal p else p.

Definition EnqueueTask (queue_name : string) (w : wi_ref) (t : node_ref) (p : QueuePool)
    : outcome (bool * QueuePool) :=
  i ← lookup queue_name p;
  if i =? -1 then Ret (false, p)
  else
    q ← aget (queue p) i;
    q ← qi_EnqueueTask w t q;
    qs ← aset (queue p) i q;
    Ret (true, update_fork_possible (set_queue qs p)).

(** The scan of [DequeueTask]: the first queue that gives a task. *)
Fixpoint dequeue_scan (i : nat) (qs : list Q)
    : outcome (option (nat * (wi_ref * node_ref)) * list Q) :=
  match qs with
  | [] => Ret (None, [])
  | q :: qs =>
      '(r, q) ← qi_DequeueTask q;
      match r with
      | Some x => Ret (Some (i, x), q :: qs)
      | None => '(r, qs) ← dequeue_scan (S i) qs; Ret (r, q :: qs)
      end
  end.

(** What the forker gets: [None] is the result [false]. *)
Definition dequeued : Type := option (string * (wi_ref * node_ref)).

(** [DequeueTask] from the point where the wait is over. *)
Definition DequeueTask_awake (p : QueuePool) : outcome (dequeued * QueuePool) :=
  if is_shutting_down p then Ret (None, p)
  else
    let p := set_fork_locked false p in
    '(r, qs) ← dequeue_scan 0 (queue p);
    let p := set_queue qs p in
    match r with
    | Some (i, x) =>
        queue_name ← deref (name p !! i);
        Ret (Some (queue_name, x), set_fork_possible (negb (IsLocked p)) p)
    | None => Ret (None, p)
    end.

Inductive dequeue_result : Type :=
  | Returned (r : dequeued) (p : QueuePool)
  | Blocked (p : QueuePool).

(** [DequeueTask] up to its return or to [pthread_cond_wait]. *)
Definition DequeueTask (p : QueuePool) : outcome dequeue_result :=
  if is_shutting_down p then Ret (Returned None p)
  else if negb (fork_possible p) then
    Ret (Blocked (set_fork_signal false (set_fork_locked true p)))
  else '(r, p) ← DequeueTask_awake p; Ret (Returned r p).

(** [for(i=0;i<maxpid;i++) if(tid_workflow_instance[task_id=(lasttid+1+i)%maxpid]==0) break;]
    with [n] iterations left; the final values of [i] and [task_id]. *)
Fixpoint find_tid (n : nat) (i task_id : Z) (p : QueuePool) : outcome (Z * Z) :=
  match n with
  | O => Ret (i, task_id)
  | S n =>
      let task_id := u32 (lasttid p + 1 + i) mod maxpid p in
      w ← aget (tid_workflow_instance p) task_id;
      match w with
      | None => Ret (i, task_id)
      | Some _ => find_tid n (i + 1) task_id p
      end
  end.

Definition ExecuteTask (w : wi_ref) (t : node_ref) (queue_name : string) (task_id : Z)
    (p : QueuePool) : outcome (Z * QueuePool) :=
  i ← lookup queue_name p;
  if i =? -1 then Ret (0, p)
  else
    '(task_id, full, p) ←
      (if task_id =? 0 then
         '(n, task_id) ← find_tid (Z.to_nat (maxpid p)) 0 task_id p;
         Ret (task_id, n =? maxpid p, set_lasttid task_id p)
       else Ret (task_id, false, p));
    if (full : bool) then Ret (0, p)
    else
      ix ← aset (tid_queue_index p) task_id i;
      ts ← aset (tid_task p) task_id (Some t);
      ws ← aset (tid_workflow_instance p) task_id (Some w);
      let p := set_tids ix ts ws p in
      q ← aget (queue p) i;
      qs ← aset (queue p) i (qi_ExecuteTask q);
      Ret (task_id, update_fork_possible (set_queue qs p)).

(** [None] is the result [false]; otherwise the instance and the node. *)
Definition TerminateTask (task_id : Z) (p : QueuePool)
    : outcome (option (wi_ref * option node_ref) * QueuePool) :=
  w ← aget (tid_workflow_instance p) task_id;
  match w with
  | None => Ret (None, p)
  | Some w =>
      i ← aget (tid_queue_index p) task_id;
      q ← aget (queue p) i;
      qs ← aset (queue p) i (qi_TerminateTask q);
      t ← aget (tid_task p) task_id;
      ix ← aset (tid_queue_index p) task_id 0;
      ts ← aset (tid_task p) task_id None;
      ws ← aset (tid_workflow_instance p) task_id None;
      Ret (Some (w, t), update_fork_possible (set_tids ix ts ws (set_queue qs p)))
  end.

Section cancel.
Context (GetInstanceID : wi_ref -> Z).

Fixpoint cancel_all (i : Z) (qs : list Q) : outcome (list Q) :=
  match qs with
  | [] => Ret []
  | q :: qs =>
      q ← qi_CancelTasks GetInstanceID i q;
      qs ← cancel_all i qs;
      Ret (q :: qs)
  end.

Definition CancelTasks (workflow_instance_id : Z) (p : QueuePool) : outcome (bool * QueuePool) :=
  qs ← cancel_all workflow_instance_id (queue p);
  Ret (true, update_fork_possible (set_queue qs p)).
End cancel.

Definition Shutdown (p : QueuePool) : QueuePool :=
  let p := set_is_shutting_down true p in
  if fork_locked p then cond_signal p else p.

(** * The threads that use the pool

    One thread, the forker, calls [DequeueTask] and [ExecuteTask] in turn; the
    other operations come from the other threads.  Every operation runs under
    the mutex, so an execution is a sequence of operations; the forker's wait on
    [fork_lock] splits its [DequeueTask] in two. *)

Inductive forker : Type :=
  | FReady
  | FWaiting
  | FGot (queue_name : string) (w : wi_ref) (t : node_ref)
  | FExited.

Definition forker_after (r : dequeued) : forker :=
  match r with
  | Some (nm, (w, t)) => FGot nm w t
  | None => FExited
  end.

(** No queue holds as many tasks as an [unsigned int] can count. *)
Definition sizes_ok (p : QueuePool) : Prop :=
  Forall (fun q => qi_GetSize q + 1 < 2 ^ 32) (queue p).

Inductive step (GetInstanceID : wi_ref -> Z) : forker * QueuePool -> forker * QueuePool -> Prop :=
  | step_enqueue f p nm w t r p' :
      sizes_ok p -> EnqueueTask nm w t p = Ret (r, p') -> step GetInstanceID (f, p) (f, p')
  | step_terminate f p tid r p' :
      TerminateTask tid p = Ret (r, p') -> step GetInstanceID (f, p) (f, p')
  | step_cancel f p i r p' :
      CancelTasks GetInstanceID i p = Ret (r, p') -> step GetInstanceID (f, p) (f, p')
  | step_shutdown f p :
      step GetInstanceID (f, p) (f, Shutdown p)
  | step_dequeue_returns p r p' :
      DequeueTask p = Ret (Returned r p') ->
      step GetInstanceID (FReady, p) (forker_after r, p')
  | step_dequeue_blocks p p' :
      DequeueTask p = Ret (Blocked p') -> step GetInstanceID (FReady, p) (FWaiting, p')
  | step_wake p r p' :
      fork_signal p = true -> DequeueTask_awake (set_fork_signal false p) = Ret (r, p') ->
      step GetInstanceID (FWaiting, p) (forker_after r, p')
  | step_execute nm w t p tid p' :
      ExecuteTask w t nm 0 p = Ret (tid, p') ->
      step GetInstanceID (FGot nm w t, p) (FReady, p').

(** * Invariant *)

(** The slots of the identifier table that belong to queue [j]. *)
Definition owned (j : nat) (s : Z * option wi_ref) : bool :=
  match s.2 with
  | Some _ => s.1 =? Z.of_nat j
  | None => false
  end.

Definition registered (j : nat) (p : QueuePool) : Z :=
  count (owned j) (zip (tid_queue_index p) (tid_workflow_instance p)).

Record wf (p : QueuePool) : Prop := {
  wf_sorted : sorted_keys (name p);
  wf_names : List.length (name p) = List.length (queue p);
  wf_few : 2 * Z.of_nat (List.length (queue p)) < 2 ^ 31;
  wf_maxpid : 0 <= maxpid p < 2 ^ 31;
  wf_lasttid : 0 <= lasttid p < 2 ^ 31;
  wf_index_len : Z.of_nat (List.length (tid_queue_index p)) = maxpid p + 1;
  wf_task_len : Z.of_nat (List.length (tid_task p)) = maxpid p + 1;
  wf_instance_len : Z.of_nat (List.length (tid_workflow_instance p)) = maxpid p + 1;
  wf_running : forall j q, queue p !! j = Some q -> qi_GetRunningTasks q = registered j p;
}.

Record inv (s : forker * QueuePool) : Prop := {
  inv_wf : wf s.2;
  inv_possible : fork_possible s.2 = negb (IsLocked s.2);
  inv_waiting : s.1 = FWaiting -> fork_locked s.2 = true;
  inv_wakeup : s.1 = FWaiting ->
    (fork_signal s.2 = true <-> IsLocked s.2 = false \/ is_shutting_down s.2 = true);
  inv_exited : s.1 = FExited -> is_shutting_down s.2 = true;
}.

End QueuePool.
Arguments QueuePool Q : clear implicits.

(** * Proofs *)

Section proofs.
Context {Q : Type} `{QueueLaws Q}.
Implicit Types (p : QueuePool Q) (qs : list Q).

(** ** What keeps the pool well formed *)

Lemma wf_flags p a b c d e :
  wf p -> 0 <= e < 2 ^ 31 ->
  wf (set_lasttid e (set_fork_locked a (set_fork_possible b (set_fork_signal c
       (set_is_shutting_down d p))))).
Proof. intros [] ?. by split. Qed.

Lemma wf_update p : wf p -> wf (update_fork_possible p).
Proof.
  intros []. unfold update_fork_possible. simpl. destruct (_ && _); by split.
Qed.

Lemma wf_set_queue p qs :
  wf p -> List.length qs = List.length (queue p) ->
  (forall j q, qs !! j = Some q -> qi_GetRunningTasks q = registered j p) ->
  wf (set_queue qs p).
Proof. intros [] E R. split; simpl; try done; by rewrite E. Qed.

(** A list of queues after each one took a step that does not start a task. *)
Definition queue_step (q q' : Q) : Prop :=
  qi_GetRunningTasks q' = qi_GetRunningTasks q /\
  (qi_IsLocked q = false -> qi_IsLocked q' = false).

#[export] Instance queue_step_refl : Reflexive queue_step.
Proof. by split. Qed.

Lemma wf_queue_steps p qs : wf p -> Forall2 queue_step (queue p) qs -> wf (set_queue qs p).
Proof.
  intros W F. apply wf_set_queue; [done|by rewrite (Forall2_length _ _ _ F)|].
  intros j q' Hq'. destruct (Forall2_lookup_r _ _ _ _ _ F Hq') as (q & Hq & R & _).
  rewrite R. by apply (wf_running _ W).
Qed.

Lemma unlocked_iff p :
  IsLocked p = false <-> exists j q, queue p !! j = Some q /\ qi_IsLocked q = false.
Proof.
  unfold IsLocked. induction (queue p) as [|q qs IH]; simpl.
  - split; [done|]. intros (j & q & Hq & _). done.
  - rewrite andb_false_iff, IH. split.
    + intros [E|(j & q' & Hq & E)]; [by exists 0%nat, q|by exists (S j), q'].
    + intros ([|j] & q' & Hq & E); simplify_eq/=; eauto.
Qed.

Lemma unlocked_steps p qs :
  (forall j q q', queue p !! j = Some q -> qs !! j = Some q' ->
     qi_IsLocked q = false -> qi_IsLocked q' = false) ->
  List.length qs = List.length (queue p) ->
  IsLocked p = false -> IsLocked (set_queue qs p) = false.
Proof.
  intros M E (j & q & Hq & L)%unlocked_iff. apply unlocked_iff. simpl.
  destruct (lookup_lt_is_Some_2 qs j) as [q' Hq'].
  { rewrite E. by eapply lookup_lt_Some. }
  eauto.
Qed.

(** ** The lines that end an operation re-establish the invariant *)

Lemma inv_update f p p1 :
  inv (f, p) -> wf p1 ->
  fork_locked p1 = fork_locked p -> fork_signal p1 = fork_signal p ->
  is_shutting_down p1 = is_shutting_down p ->
  (IsLocked p = false -> IsLocked p1 = false) ->
  inv (f, update_fork_possible p1).
Proof.
  intros [W P L K X] W1 EL ES ED M. simpl in *.
  assert (IsLocked (update_fork_possible p1) = IsLocked p1) as EI
    by (unfold update_fork_possible; simpl; by destruct (_ && _)).
  split; simpl.
  - by apply wf_update.
  - rewrite EI. unfold update_fork_possible. simpl. by destruct (_ && _).
  - intros Hf. unfold update_fork_possible. simpl.
    destruct (_ && _); simpl; rewrite EL; by apply L.
  - intros Hf. rewrite EI. specialize (K Hf). specialize (L Hf).
    unfold update_fork_possible. simpl. rewrite EL, L. simpl.
    destruct (IsLocked p1) eqn:E1; simpl.
    + rewrite ES, K, ED. destruct (IsLocked p); [done|by specialize (M eq_refl)].
    + tauto.
  - intros Hf. unfold update_fork_possible. simpl.
    destruct (_ && _); simpl; rewrite ED; by apply X.
Qed.

(** ** The operations of the other threads *)

Lemma lookup_found nm p r : wf p -> lookup nm p = Ret r -> found (name p) nm r.
Proof.
  intros W E. destruct (binary_search_found (name p) nm) as (r' & E' & F).
  - apply (wf_sorted _ W).
  - rewrite (wf_names _ W). apply (wf_few _ W).
  - unfold lookup in E. rewrite E in E'. by injection E' as ->.
Qed.

Lemma Forall2_insert_step qs i q q' :
  qs !! i = Some q -> queue_step q q' -> Forall2 queue_step qs (<[i := q']> qs).
Proof.
  intros Hq Hs. apply Forall2_same_length_lookup_2; [by rewrite length_insert|].
  intros j x y Hx Hy. destruct (decide (i = j)) as [->|Hne].
  - rewrite list_lookup_insert_eq in Hy by (by eapply lookup_lt_Some). by simplify_eq.
  - rewrite list_lookup_insert_ne in Hy by done. by simplify_eq.
Qed.

Lemma inv_queue_steps f p qs :
  inv (f, p) -> Forall2 queue_step (queue p) qs -> inv (f, update_fork_possible (set_queue qs p)).
Proof.
  intros I F. apply (inv_update f p); try done.
  - by apply wf_queue_steps; [apply I|].
  - apply unlocked_steps; [|by rewrite (Forall2_length _ _ _ F)].
    intros j q q' Hq Hq'. by destruct (Forall2_lookup_lr _ _ _ _ _ _ F Hq Hq').
Qed.

Lemma EnqueueTask_inv f nm w t p r p' :
  inv (f, p) -> sizes_ok p -> EnqueueTask nm w t p = Ret (r, p') -> inv (f, p').
Proof.
  unfold EnqueueTask. intros I S E.
  apply bind_Ret in E as (i & Hi & E). case_match; [by inv_ret|].
  apply bind_Ret in E as (q & [Hi0 Hq]%aget_Ret & E).
  apply bind_Ret in E as (q' & Hq' & E).
  apply bind_Ret in E as (qs & [_ ->]%aset_Ret & E). inv_ret.
  apply inv_queue_steps; [done|]. apply (Forall2_insert_step _ _ q); [done|].
  split; [by eapply enqueue_running|]. eapply enqueue_unlocked; [|done].
  eapply (Forall_lookup_1 _ _ _ _ S Hq).
Qed.

Lemma CancelTasks_inv GetInstanceID f i p r p' :
  inv (f, p) -> CancelTasks GetInstanceID i p = Ret (r, p') -> inv (f, p').
Proof.
  unfold CancelTasks. intros I E. apply bind_Ret in E as (qs & Hqs & E). inv_ret.
  apply inv_queue_steps; [done|]. clear I. revert qs Hqs.
  induction (queue p) as [|q l IH]; intros qs Hqs; simpl in Hqs; inv_ret; [constructor|].
  constructor; [|eauto].
  split; [by eapply cancel_running|]. by eapply cancel_unlocked.
Qed.

Lemma Shutdown_inv f p : inv (f, p) -> inv (f, Shutdown p).
Proof.
  intros [W P L K X]. simpl in *. unfold Shutdown. simpl.
  destruct (fork_locked p) eqn:E.
  - split; simpl; try done; [by destruct W|]. intros _. tauto.
  - split; simpl; try done; [by destruct W|..]; intros Hf; by specialize (L Hf).
Qed.

(** ** The identifier table *)

Lemma registered_set_queue qs j p : registered j (set_queue qs p) = registered j p.
Proof. done. Qed.

Lemma registered_insert j k i i0 w w0 ts p :
  tid_queue_index p !! k = Some i0 -> tid_workflow_instance p !! k = Some w0 ->
  registered j (set_tids (<[k := i]> (tid_queue_index p)) ts
                  (<[k := w]> (tid_workflow_instance p)) p) =
  registered j p - Z.b2z (owned j (i0, w0)) + Z.b2z (owned j (i, w)).
Proof.
  intros Hi Hw. unfold registered. simpl.
  rewrite <- (insert_zip_with pair). apply count_insert.
  by rewrite lookup_zip_with, Hi, Hw.
Qed.

Lemma registered_bound j p : wf p -> 0 <= registered j p < 2 ^ 32.
Proof.
  intros W. unfold registered.
  pose proof (count_bound (owned j) (zip (tid_queue_index p) (tid_workflow_instance p))) as C.
  rewrite length_zip_with in C. pose proof (wf_index_len _ W). pose proof (wf_instance_len _ W).
  pose proof (wf_maxpid _ W). lia.
Qed.

Lemma registered_pos j k w p :
  tid_queue_index p !! k = Some (Z.of_nat j) -> tid_workflow_instance p !! k = Some (Some w) ->
  0 < registered j p.
Proof.
  intros Hi Hw. eapply (count_pos _ _ k).
  - by rewrite lookup_zip_with, Hi, Hw.
  - unfold owned. simpl. apply Z.eqb_refl.
Qed.

(** Writing the three tables and one queue's count together. *)
Lemma wf_set_slot p k i i0 w w0 ts ix' ws' qs :
  wf p -> tid_queue_index p !! k = Some i0 -> tid_workflow_instance p !! k = Some w0 ->
  Z.of_nat (List.length ts) = maxpid p + 1 ->
  ix' = <[k := i]> (tid_queue_index p) -> ws' = <[k := w]> (tid_workflow_instance p) ->
  List.length qs = List.length (queue p) ->
  (forall j q, qs !! j = Some q ->
     qi_GetRunningTasks q =
     registered j p - Z.b2z (owned j (i0, w0)) + Z.b2z (owned j (i, w))) ->
  wf (set_tids ix' ts ws' (set_queue qs p)).
Proof.
  intros W Hi Hw Ht -> -> Hl Hr. destruct W. split; simpl; try done.
  - by rewrite Hl.
  - by rewrite Hl.
  - by rewrite length_insert.
  - by rewrite length_insert.
  - intros j q Hq. rewrite (Hr j q Hq). symmetry.
    apply (registered_insert j k i i0 w w0 ts (set_queue qs p)); done.
Qed.

Lemma TerminateTask_inv f tid p r p' :
  inv (f, p) -> TerminateTask tid p = Ret (r, p') -> inv (f, p').
Proof.
  unfold TerminateTask. intros I E. pose proof (inv_wf _ I) as W. simpl in W.
  apply bind_Ret in E as (w & [T0 Hw]%aget_Ret & E). destruct w as [w|]; [|by inv_ret].
  apply bind_Ret in E as (i & [_ Hi]%aget_Ret & E).
  apply bind_Ret in E as (q & [Hi0 Hq]%aget_Ret & E).
  apply bind_Ret in E as (qs & [_ ->]%aset_Ret & E).
  apply bind_Ret in E as (t & _ & E).
  apply bind_Ret in E as (ix & [_ Eix]%aset_Ret & E).
  apply bind_Ret in E as (ts & [_ Ets]%aset_Ret & E).
  apply bind_Ret in E as (ws & [_ Ews]%aset_Ret & E). inv_ret.
  assert (tid_queue_index p !! Z.to_nat tid = Some (Z.of_nat (Z.to_nat i))) as Hi'
    by (rewrite Z2Nat.id by done; done).
  assert (qi_GetRunningTasks q = registered (Z.to_nat i) p) as R by (by apply (wf_running _ W)).
  pose proof (registered_pos _ _ _ _ Hi' Hw) as RP.
  pose proof (registered_bound (Z.to_nat i) p W) as RB.
  apply (inv_update f p); try done.
  - eapply (wf_set_slot p (Z.to_nat tid) 0 i None (Some w)); try done.
    + rewrite length_insert. apply (wf_task_len _ W).
    + by rewrite length_insert.
    + intros j q' Hq'. simpl. unfold owned. simpl.
      destruct (decide (Z.to_nat i = j)) as [<-|Hne].
      * rewrite list_lookup_insert_eq in Hq' by (by eapply lookup_lt_Some). simplify_eq.
        rewrite terminate_running, R, u32_small by lia.
        rewrite Z2Nat.id, Z.eqb_refl by done. simpl. lia.
      * rewrite list_lookup_insert_ne in Hq' by done. rewrite (wf_running _ W j q' Hq').
        rewrite (proj2 (Z.eqb_neq i (Z.of_nat j))) by lia. simpl. lia.
  - apply (unlocked_steps p (<[Z.to_nat i := qi_TerminateTask q]> (queue p)));
      [|by rewrite length_insert].
    intros j q1 q2 H1 H2. destruct (decide (Z.to_nat i = j)) as [<-|Hne].
    + rewrite list_lookup_insert_eq in H2 by (by eapply lookup_lt_Some). simplify_eq.
      apply terminate_unlocked. lia.
    + rewrite list_lookup_insert_ne in H2 by done. by simplify_eq.
Qed.

(** ** The forker *)

Lemma dequeue_scan_running i qs r qs' :
  dequeue_scan i qs = Ret (r, qs') ->
  Forall2 (fun q q' => qi_GetRunningTasks q' = qi_GetRunningTasks q) qs qs'.
Proof.
  revert i r qs'. induction qs as [|q qs IH]; intros i r qs' E; simpl in E; [by inv_ret|].
  apply bind_Ret in E as ([[x|] q'] & Hq & E).
  - inv_ret. constructor; [by eapply dequeue_running|].
    apply Forall2_same_length_lookup_2; [done|]. intros. by simplify_eq.
  - apply bind_Ret in E as ([r1 qs1] & Hs & E). inv_ret.
    constructor; [by eapply dequeue_running|eauto].
Qed.

Lemma dequeue_scan_none i qs qs' :
  dequeue_scan i qs = Ret (None, qs') -> qs' = qs /\ forallb qi_IsLocked qs = true.
Proof.
  revert i qs'. induction qs as [|q qs IH]; intros i qs' E; simpl in E; [by inv_ret|].
  apply bind_Ret in E as ([[x|] q'] & Hq & E); [by inv_ret|].
  apply bind_Ret in E as ([r1 qs1] & Hs & E). inv_ret.
  apply IH in Hs as [-> HL]. simpl. destruct (qi_IsLocked q) eqn:L.
  - rewrite (dequeue_locked _ L) in Hq. by inv_ret.
  - by destruct (dequeue_unlocked _ _ _ L Hq).
Qed.

Lemma dequeue_scan_locked i qs :
  forallb qi_IsLocked qs = true -> dequeue_scan i qs = Ret (None, qs).
Proof.
  revert i. induction qs as [|q qs IH]; intros i L; simpl in *; [done|].
  apply andb_true_iff in L as [L1 L2]. rewrite (dequeue_locked _ L1). simpl.
  by rewrite IH.
Qed.

Lemma wf_same_running p qs :
  wf p -> Forall2 (fun q q' => qi_GetRunningTasks q' = qi_GetRunningTasks q) (queue p) qs ->
  wf (set_queue qs p).
Proof.
  intros W F. apply wf_set_queue; [done|by rewrite (Forall2_length _ _ _ F)|].
  intros j q' Hq'. destruct (Forall2_lookup_r _ _ _ _ _ F Hq') as (q & Hq & ->).
  by apply (wf_running _ W).
Qed.

Lemma DequeueTask_awake_inv p r p' :
  wf p -> fork_possible p = negb (IsLocked p) ->
  IsLocked p = false \/ is_shutting_down p = true ->
  DequeueTask_awake p = Ret (r, p') -> inv (forker_after r, p').
Proof.
  unfold DequeueTask_awake. intros W P U E. destruct (is_shutting_down p) eqn:D; [by inv_ret|].
  apply bind_Ret in E as ([[[i [w t]]|] qs] & Hs & E).
  - apply bind_Ret in E as (nm & _ & E). inv_ret.
    apply dequeue_scan_running in Hs.
    split; simpl; try done. by destruct (wf_same_running p qs W Hs).
  - inv_ret. apply dequeue_scan_none in Hs as [-> HL]. simpl in HL.
    destruct U as [U|U]; [|done]. unfold IsLocked in U. by rewrite HL in U.
Qed.

(** ** Allocating an identifier *)

Lemma find_tid_spec n i t0 p :
  wf p -> 0 <= i -> i + Z.of_nat n = maxpid p ->
  exists j t, find_tid n i t0 p = Ret (j, t) /\ i <= j <= maxpid p /\
    (j < maxpid p -> t = (lasttid p + 1 + j) mod maxpid p /\
       tid_workflow_instance p !! Z.to_nat t = Some None) /\
    (j = maxpid p -> forall k, i <= k < maxpid p ->
       exists w, tid_workflow_instance p !! Z.to_nat ((lasttid p + 1 + k) mod maxpid p)
                 = Some (Some w)) /\
    (i < maxpid p -> 0 <= t < maxpid p).
Proof.
  intros W. revert i t0. induction n as [|n IH]; intros i t0 Hi Hn; cbn [find_tid].
  - exists i, t0. split; [done|]. split_and!; try lia.
  - pose proof (wf_maxpid _ W). pose proof (wf_lasttid _ W). pose proof (wf_instance_len _ W).
    rewrite u32_small by lia. set (t := (lasttid p + 1 + i) mod maxpid p).
    assert (0 <= t < maxpid p) as Ht by (apply Z.mod_pos_bound; lia).
    destruct (lookup_lt_is_Some_2 (tid_workflow_instance p) (Z.to_nat t)) as [w Hw]; [lia|].
    assert (aget (tid_workflow_instance p) t = Ret w) as -> by (apply aget_Ret; split; [lia|done]).
    simpl. destruct w as [w|].
    + destruct (IH (i + 1) t) as (j & t' & E & Hj & F & O & B); [lia..|].
      exists j, t'. split; [done|]. split_and!; [lia|lia|done| |].
      * intros Ej k Hk. destruct (decide (k = i)) as [->|]; [by eauto|]. apply O; lia.
      * intros _. destruct (decide (i + 1 < maxpid p)); [by apply B|].
        destruct n; [|lia]. simpl in E. by simplify_eq.
    + exists i, t. split; [done|]. split_and!; try lia; done.
Qed.

(** Every identifier is tried: [k -> (lasttid+1+k) mod maxpid] covers the table. *)
Lemma tids_covered p t :
  0 <= t < maxpid p -> exists k, 0 <= k < maxpid p /\ (lasttid p + 1 + k) mod maxpid p = t.
Proof.
  intros Ht. exists ((t - (lasttid p + 1)) mod maxpid p). split; [apply Z.mod_pos_bound; lia|].
  rewrite Zplus_mod_idemp_r.
  replace (lasttid p + 1 + (t - (lasttid p + 1))) with t by lia. by apply Z.mod_small.
Qed.

Lemma wf_execute_slot p t i w tn q ix ts ws qs :
  wf p -> 0 <= t -> tid_workflow_instance p !! Z.to_nat t = Some None ->
  0 <= i -> queue p !! Z.to_nat i = Some q ->
  aset (tid_queue_index p) t i = Ret ix -> aset (tid_task p) t (Some tn) = Ret ts ->
  aset (tid_workflow_instance p) t (Some w) = Ret ws ->
  aset (queue p) i (qi_ExecuteTask q) = Ret qs ->
  wf (set_queue qs (set_tids ix ts ws p)).
Proof.
  intros W Ht Hfree Hi Hq Eix%aset_Ret Ets%aset_Ret Ews%aset_Ret Eqs%aset_Ret.
  destruct Eix as [Lix ->], Ets as [_ ->], Ews as [_ ->], Eqs as [_ ->].
  destruct (lookup_lt_is_Some_2 (tid_queue_index p) (Z.to_nat t)) as [i0 Hi0]; [lia|].
  change (wf (set_tids (<[Z.to_nat t := i]> (tid_queue_index p)) (<[Z.to_nat t := Some tn]> (tid_task p))
            (<[Z.to_nat t := Some w]> (tid_workflow_instance p))
            (set_queue (<[Z.to_nat i := qi_ExecuteTask q]> (queue p)) p))).
  eapply (wf_set_slot p (Z.to_nat t) i i0 (Some w) None); try done.
  - rewrite length_insert. apply (wf_task_len _ W).
  - by rewrite length_insert.
  - intros j q' Hq'. unfold owned. simpl.
    destruct (decide (Z.to_nat i = j)) as [<-|Hne].
    + rewrite list_lookup_insert_eq in Hq' by (by eapply lookup_lt_Some). simplify_eq.
      rewrite execute_running, (wf_running _ W _ _ Hq).
      rewrite Z2Nat.id, Z.eqb_refl by done. simpl.
      pose proof (registered_bound (Z.to_nat i) p W).
      assert (registered (Z.to_nat i) p < 2 ^ 32 - 1); [|rewrite u32_small; lia].
      unfold registered.
      pose proof (count_bound (owned (Z.to_nat i))
                    (zip (tid_queue_index p) (tid_workflow_instance p))) as C.
      rewrite length_zip_with in C. pose proof (wf_index_len _ W).
      pose proof (wf_maxpid _ W). lia.
    + rewrite list_lookup_insert_ne in Hq' by done. rewrite (wf_running _ W j q' Hq').
      rewrite (proj2 (Z.eqb_neq i (Z.of_nat j))) by lia. simpl. lia.
Qed.

Lemma aset_in_bounds {A} (arr : list A) i v :
  0 <= i < Z.of_nat (List.length arr) -> aset arr i v = Ret (<[Z.to_nat i := v]> arr).
Proof. intros Hi. apply aset_Ret. done. Qed.

Lemma lookup_known nm p :
  wf p -> nm ∈ name p ->
  exists i q, lookup nm p = Ret i /\ 0 <= i /\ name p !! Z.to_nat i = Some nm /\
    queue p !! Z.to_nat i = Some q.
Proof.
  intros W Hin. destruct (binary_search_found (name p) nm) as (i & E & F).
  - apply (wf_sorted _ W).
  - rewrite (wf_names _ W). apply (wf_few _ W).
  - destruct F as [[H1 H2]|[_ ?]]; [|done].
    destruct (lookup_lt_is_Some_2 (queue p) (Z.to_nat i)) as [q Hq].
    { rewrite <- (wf_names _ W). by eapply lookup_lt_Some. }
    by exists i, q.
Qed.

(** The slots that [ExecuteTask] may hand out. *)
Definition free_tid p (t : Z) : Prop :=
  0 <= t < maxpid p /\ tid_workflow_instance p !! Z.to_nat t = Some None.

(** The pool after a task got identifier [t] on the queue of index [i]. *)
Definition with_slot p (t i : Z) (w : wi_ref) (tn : node_ref) (q : Q) : QueuePool Q :=
  update_fork_possible (set_queue (<[Z.to_nat i := qi_ExecuteTask q]> (queue p))
    (set_tids (<[Z.to_nat t := i]> (tid_queue_index p)) (<[Z.to_nat t := Some tn]> (tid_task p))
       (<[Z.to_nat t := Some w]> (tid_workflow_instance p)) p)).

Lemma ExecuteTask_slot w tn nm t i q p :
  wf p -> lookup nm p = Ret i -> 0 <= i -> queue p !! Z.to_nat i = Some q ->
  t <> 0 -> 0 <= t <= maxpid p ->
  ExecuteTask w tn nm t p = Ret (t, with_slot p t i w tn q).
Proof.
  intros W Hi Hi0 Hq Ht0 Ht. unfold ExecuteTask. rewrite Hi. simpl.
  rewrite (proj2 (Z.eqb_neq i (-1))) by lia. rewrite (proj2 (Z.eqb_neq t 0)) by done. simpl.
  destruct W. rewrite !aset_in_bounds by lia. simpl.
  assert (aget (queue p) i = Ret q) as -> by (apply aget_Ret; done). simpl.
  apply lookup_lt_Some in Hq. rewrite aset_in_bounds by lia. done.
Qed.

Lemma ExecuteTask_new w tn nm i q p :
  wf p -> lookup nm p = Ret i -> 0 <= i -> queue p !! Z.to_nat i = Some q ->
  (exists t, free_tid p t /\
     ExecuteTask w tn nm 0 p = Ret (t, with_slot (set_lasttid t p) t i w tn q)) \/
  ((forall t, ~ free_tid p t) /\ exists l, 0 <= l < 2 ^ 31 /\
     ExecuteTask w tn nm 0 p = Ret (0, set_lasttid l p)).
Proof.
  intros W Hi Hi0 Hq. unfold ExecuteTask. rewrite Hi. simpl.
  rewrite (proj2 (Z.eqb_neq i (-1))) by lia.
  pose proof (wf_maxpid _ W) as M.
  destruct (find_tid_spec (Z.to_nat (maxpid p)) 0 0 p W) as (j & t & E & Hj & F & O & B); [lia..|].
  rewrite E. simpl. destruct (Z.eqb_spec j (maxpid p)) as [->|Hne]; simpl.
  - right. split.
    + intros t' [Ht' Hf]. destruct (tids_covered p t' Ht') as (k & Hk & Ek).
      destruct (O eq_refl k Hk) as [w' Hw]. rewrite Ek in Hw. congruence.
    + exists t. split; [|done]. destruct (decide (0 < maxpid p)); [lia|].
      destruct (Z.to_nat (maxpid p)) eqn:Z0; [|lia]. simpl in E. simplify_eq. lia.
  - left. destruct F as [Et Hf]; [lia|]. exists t.
    assert (0 <= t < maxpid p) as Ht by (apply B; lia). split; [by split|].
    destruct W. rewrite !aset_in_bounds by lia. simpl.
    assert (aget (queue p) i = Ret q) as -> by (apply aget_Ret; done). simpl.
    apply lookup_lt_Some in Hq. rewrite aset_in_bounds by lia. done.
Qed.

Lemma wf_set_lasttid l p : wf p -> 0 <= l < 2 ^ 31 -> wf (set_lasttid l p).
Proof. intros [] ?. by split. Qed.

Lemma with_slot_wf p t i w tn q :
  wf p -> 0 <= t <= maxpid p -> tid_workflow_instance p !! Z.to_nat t = Some None ->
  0 <= i -> queue p !! Z.to_nat i = Some q -> wf (with_slot p t i w tn q).
Proof.
  intros W Ht Hf Hi Hq. apply wf_update. pose proof W as [].
  pose proof (lookup_lt_Some _ _ _ Hq).
  eapply (wf_execute_slot p t i w tn q); eauto; try lia; apply aset_in_bounds; lia.
Qed.

Lemma ExecuteTask_inv w tn nm p tid p' :
  inv (FGot nm w tn, p) -> ExecuteTask w tn nm 0 p = Ret (tid, p') -> inv (FReady, p').
Proof.
  intros I E. pose proof (inv_wf _ I) as W. simpl in W.
  destruct (lookup nm p) as [i| |] eqn:Hi; try (unfold ExecuteTask in E; rewrite Hi in E; done).
  destruct (lookup_found _ _ _ W Hi) as [[Hi0 Hn]|[-> _]].
  - destruct (lookup_lt_is_Some_2 (queue p) (Z.to_nat i)) as [q Hq].
    { rewrite <- (wf_names _ W). by eapply lookup_lt_Some. }
    destruct (ExecuteTask_new w tn nm i q p W Hi Hi0 Hq)
      as [(t & [Ht Hf] & E')|(_ & l & Hl & E')]; rewrite E' in E; inv_ret.
    + assert (wf (with_slot (set_lasttid tid p) tid i w tn q)) as W'.
      { apply with_slot_wf; simpl; try done; [|lia]. apply wf_set_lasttid; [done|].
        pose proof (wf_maxpid _ W). lia. }
      split; simpl; try done. unfold with_slot, update_fork_possible. simpl. by destruct (_ && _).
    + split; simpl; try done; [by apply wf_set_lasttid|apply (inv_possible _ I)].
  - unfold ExecuteTask in E. rewrite Hi in E. simpl in E. inv_ret.
    split; simpl; try done; apply (inv_possible _ I).
Qed.

Lemma DequeueTask_awake_ready p r p' :
  inv (FReady, p) -> DequeueTask p = Ret (Returned r p') -> inv (forker_after r, p').
Proof.
  intros [W P _ _ _] E. simpl in *. unfold DequeueTask in E.
  destruct (is_shutting_down p) eqn:D; [by inv_ret|].
  destruct (fork_possible p) eqn:F; simpl in E; [|by inv_ret].
  apply bind_Ret in E as ([r1 p1] & E1 & E). inv_ret.
  eapply (DequeueTask_awake_inv p); try done; [by rewrite F|].
  left. by destruct (IsLocked p).
Qed.

Lemma step_inv GetInstanceID s s' : inv s -> step GetInstanceID s s' -> inv s'.
Proof.
  intros I S. destruct S as [f p nm w t r p' Z E|f p tid r p' E|f p i r p' E|f p|p r p' E
                            |p p' E|p r p' Sg E|nm w t p tid p' E].
  - by eapply EnqueueTask_inv.
  - by eapply TerminateTask_inv.
  - by eapply CancelTasks_inv.
  - by apply Shutdown_inv.
  - by eapply DequeueTask_awake_ready.
  - unfold DequeueTask in E. destruct (is_shutting_down p) eqn:D; [by inv_ret|].
    destruct (fork_possible p) eqn:F; simpl in E.
    { apply bind_Ret in E as ([? ?] & _ & E). by inv_ret. }
    inv_ret. destruct I as [W P _ _ _]. simpl in *. split; simpl; try done.
    + by destruct W.
    + intros _. change (IsLocked _) with (IsLocked p). rewrite D.
      rewrite F in P. destruct (IsLocked p); intuition done.
  - destruct I as [W P L K _]. simpl in *. eapply DequeueTask_awake_inv; [..|done].
    + by destruct W.
    + done.
    + by apply K.
  - by eapply ExecuteTask_inv.
Qed.

Lemma reachable_inv GetInstanceID s s' : inv s -> rtc (step GetInstanceID) s s' -> inv s'.
Proof. intros I R. induction R; [done|]. eauto using step_inv. Qed.

(** ** The constructor *)

Lemma new_queues_spec (new_Queue : string -> outcome Q) names qs :
  new_queues new_Queue names = Ret qs ->
  Forall2 (fun nm q => new_Queue nm = Ret q) names qs.
Proof.
  revert qs. induction names as [|nm names IH]; intros qs E; simpl in E; inv_ret; [constructor|].
  constructor; auto.
Qed.

Lemma i32_range z : - 2 ^ 31 <= i32 z < 2 ^ 31.
Proof. unfold i32. pose proof (Z.mod_pos_bound (z + 2 ^ 31) (2 ^ 32)). lia. Qed.

(** What the pool is started with: the database lists the queues in [strcmp]
    order and [pid_max] is not negative; a new queue runs nothing. *)
Record start (new_Queue : string -> outcome Q) (names : list string) (pid_max : string)
    (p : QueuePool Q) : Prop := {
  start_sorted : sorted_keys names;
  start_few : 2 * Z.of_nat (List.length names) < 2 ^ 31;
  start_pid_max : 0 <= atoi pid_max;
  start_idle : forall nm q, new_Queue nm = Ret q -> qi_GetRunningTasks q = 0;
  start_new : QueuePool_new new_Queue names (Some pid_max) = Ret p;
}.

Lemma registered_initial j n m :
  count (owned j) (zip (replicate n 0) (replicate m None)) = 0.
Proof.
  apply count_zero. intros [i w] Hin%elem_of_zip_r. apply elem_of_replicate in Hin as [-> _]. done.
Qed.

Lemma start_inv new_Queue names pid_max p : start new_Queue names pid_max p -> inv (FReady, p).
Proof.
  intros [So Fe Pm Id E]. unfold QueuePool_new in E.
  apply bind_Ret in E as (qs & Hqs & E). apply new_queues_spec in Hqs. inv_ret.
  pose proof (Forall2_length _ _ _ Hqs) as El.
  assert (u32 (atoi pid_max) = atoi pid_max /\ atoi pid_max < 2 ^ 31) as [Eu Hlt].
  { unfold atoi in *. pose proof (i32_range (strtol (chars pid_max)).1).
    rewrite u32_small; lia. }
  split; simpl; try done. split; simpl; try done; try rewrite length_replicate; try lia.
  intros j q Hq. destruct (Forall2_lookup_r _ _ _ _ _ Hqs Hq) as (nm & _ & Hnm).
  rewrite (Id _ _ Hnm). unfold registered. simpl. by rewrite registered_initial.
Qed.

(** ** [TerminateTask] of a registered identifier *)

Lemma TerminateTask_slot p t i w tn q :
  0 <= t -> (Z.to_nat t < List.length (tid_queue_index p))%nat ->
  (Z.to_nat t < List.length (tid_task p))%nat ->
  (Z.to_nat t < List.length (tid_workflow_instance p))%nat ->
  0 <= i -> queue p !! Z.to_nat i = Some q ->
  exists p', TerminateTask t (with_slot p t i w tn q) = Ret (Some (w, Some tn), p') /\
    tid_queue_index p' = <[Z.to_nat t := 0]> (tid_queue_index p) /\
    tid_task p' = <[Z.to_nat t := None]> (tid_task p) /\
    tid_workflow_instance p' = <[Z.to_nat t := None]> (tid_workflow_instance p).
Proof.
  intros Ht Li Lt Lw Hi Hq. pose proof (lookup_lt_Some _ _ _ Hq) as Lq.
  assert (exists b c, with_slot p t i w tn q =
    set_fork_possible b (set_fork_signal c (set_queue (<[Z.to_nat i := qi_ExecuteTask q]> (queue p))
    (set_tids (<[Z.to_nat t := i]> (tid_queue_index p)) (<[Z.to_nat t := Some tn]> (tid_task p))
       (<[Z.to_nat t := Some w]> (tid_workflow_instance p)) p)))) as (b & c & ->).
  { unfold with_slot, update_fork_possible. simpl.
    destruct (_ && _) eqn:E; eexists _, _; unfold cond_signal, set_fork_signal, set_fork_possible;
      simpl; reflexivity. }
  unfold TerminateTask. simpl.
  assert (forall (A : Type) (l : list A) x, (Z.to_nat t < List.length l)%nat ->
            aget (<[Z.to_nat t := x]> l) t = Ret x) as G.
  { intros A l x Hl. apply aget_Ret. by rewrite list_lookup_insert_eq. }
  rewrite !G by done. simpl.
  assert (aget (<[Z.to_nat i := qi_ExecuteTask q]> (queue p)) i = Ret (qi_ExecuteTask q)) as ->.
  { apply aget_Ret. by rewrite list_lookup_insert_eq. }
  simpl. rewrite !aset_in_bounds by (rewrite ?length_insert; lia). simpl.
  eexists. split; [done|].
  unfold update_fork_possible. simpl. rewrite !list_insert_insert_eq.
  by destruct (_ && _).
Qed.
End proofs.

(** * Properties *)

Section properties.
Context {Q : Type} `{QueueLaws Q}.
Context (GetInstanceID : wi_ref -> Z).
Context (new_Queue : string -> outcome Q) (names : list string) (pid_max : string).

(** C10: In every state that the pool reaches from its construction, through
    any interleaving of enqueues, dequeues by the forker, executions,
    terminations, cancellations and shutdown, fork_possible is the negation
    of IsLocked, and the running_tasks counter of each queue is the number
    of task identifiers registered for it. *)
Theorem pool_accounting (p0 : QueuePool Q) f p :
  start new_Queue names pid_max p0 -> rtc (step GetInstanceID) (FReady, p0) (f, p) ->
  fork_possible p = negb (IsLocked p) /\
  forall j q, queue p !! j = Some q -> qi_GetRunningTasks q = registered j p.
Proof.
  intros S R. apply start_inv in S. apply (reachable_inv _ _ _ S) in R.
  split; [apply (inv_possible _ R)|apply (wf_running _ (inv_wf _ R))].
Qed.

(** C12: No wakeup is lost: while the forker waits on fork_lock, the
    condition is signalled exactly when a queue can be dequeued or a
    shutdown was requested. *)
Theorem forker_wakeup (p0 : QueuePool Q) p :
  start new_Queue names pid_max p0 -> rtc (step GetInstanceID) (FReady, p0) (FWaiting, p) ->
  (fork_signal p = true <-> IsLocked p = false \/ is_shutting_down p = true).
Proof.
  intros S R. apply start_inv in S. by apply (inv_wakeup _ (reachable_inv _ _ _ S R)).
Qed.

(** The forker leaves its loop only when a shutdown was requested, as
    long as its waits end by a signal. *)
Theorem forker_exits_on_shutdown (p0 : QueuePool Q) p :
  start new_Queue names pid_max p0 -> rtc (step GetInstanceID) (FReady, p0) (FExited, p) ->
  is_shutting_down p = true.
Proof.
  intros S R. apply start_inv in S. by apply (inv_exited _ (reachable_inv _ _ _ S R)).
Qed.

(** When pthread_cond_wait returns without a signal while every queue
    is locked, DequeueTask returns false although no shutdown is in
    progress, which is the forker's exit condition. *)
Theorem forker_spurious_wakeup (p0 : QueuePool Q) p :
  start new_Queue names pid_max p0 -> rtc (step GetInstanceID) (FReady, p0) (FWaiting, p) ->
  fork_signal p = false ->
  is_shutting_down p = false /\ DequeueTask_awake p = Ret (None, set_fork_locked false p).
Proof.
  intros S R Hs. apply start_inv in S. apply (reachable_inv _ _ _ S) in R.
  destruct (inv_wakeup _ R eq_refl) as [_ K]. simpl in K.
  destruct (IsLocked p) eqn:L; [|by rewrite K in Hs; auto].
  destruct (is_shutting_down p) eqn:D; [by rewrite K in Hs; auto|].
  split; [done|]. unfold DequeueTask_awake. rewrite D. simpl.
  rewrite dequeue_scan_locked by done. by destruct p.
Qed.

(** ExecuteTask with no task identifier allocates a free one and
    registers the task under it, and TerminateTask on this identifier gives
    back the same workflow instance and node and restores the table; when no
    identifier is free, ExecuteTask returns 0 and changes lasttid only. *)
Theorem ExecuteTask_TerminateTask (p : QueuePool Q) w tn nm :
  wf p -> nm ∈ name p ->
  (exists t p1 p2, free_tid p t /\ ExecuteTask w tn nm 0 p = Ret (t, p1) /\
     tid_workflow_instance p1 = <[Z.to_nat t := Some w]> (tid_workflow_instance p) /\
     TerminateTask t p1 = Ret (Some (w, Some tn), p2) /\
     tid_workflow_instance p2 = tid_workflow_instance p) \/
  ((forall t, ~ free_tid p t) /\ exists l, ExecuteTask w tn nm 0 p = Ret (0, set_lasttid l p)).
Proof.
  intros W Hin. destruct (lookup_known nm p W Hin) as (i & q & Hi & Hi0 & _ & Hq).
  destruct (ExecuteTask_new w tn nm i q p W Hi Hi0 Hq) as [(t & F & E)|(N & l & _ & E)];
    [left|right; eauto].
  pose proof F as [Ht Hf]. pose proof W as [].
  destruct (TerminateTask_slot (set_lasttid t p) t i w tn q) as (p2 & E2 & _ & _ & W2);
    simpl; try done; try lia.
  exists t, (with_slot (set_lasttid t p) t i w tn q), p2. split_and!; try done.
  - unfold with_slot, update_fork_possible. simpl. by destruct (_ && _).
  - rewrite W2. simpl. by apply list_insert_id.
Qed.

(** Identifier 0 is allocated to a task like any other, and the
    returned 0 is also what ExecuteTask returns on failure. *)
Theorem ExecuteTask_tid_zero (p : QueuePool Q) w tn nm :
  wf p -> nm ∈ name p -> free_tid p 0 -> lasttid p = maxpid p - 1 ->
  exists p1, ExecuteTask w tn nm 0 p = Ret (0, p1) /\
    tid_workflow_instance p1 !! 0%nat = Some (Some w).
Proof.
  intros W Hin [Hz Hf] Hl. destruct (lookup_known nm p W Hin) as (i & q & Hi & Hi0 & _ & Hq).
  pose proof W as []. unfold ExecuteTask. rewrite Hi. simpl.
  rewrite (proj2 (Z.eqb_neq i (-1))) by lia.
  destruct (Z.to_nat (maxpid p)) as [|n] eqn:En; [lia|]. cbn [find_tid].
  rewrite Hl, u32_small by lia. replace (maxpid p - 1 + 1 + 0) with (maxpid p) by lia.
  rewrite Z.mod_same by lia.
  assert (aget (tid_workflow_instance p) 0 = Ret None) as -> by (apply aget_Ret; done). cbn [mbind outcome_bind].
  rewrite (proj2 (Z.eqb_neq 0 (maxpid p))) by lia. simpl.
  rewrite !aset_in_bounds by lia. simpl.
  assert (aget (queue p) i = Ret q) as -> by (apply aget_Ret; done). simpl.
  apply lookup_lt_Some in Hq. rewrite aset_in_bounds by lia. simpl.
  eexists. split; [done|]. unfold update_fork_possible. simpl.
  destruct (_ && _); simpl; apply list_lookup_insert_eq; lia.
Qed.

(** EnqueueTask finds the queue by its name with the binary search: it
    returns false without changing the pool exactly when no queue has this
    name, and otherwise enqueues in that queue and no other. *)
Theorem EnqueueTask_by_name (p : QueuePool Q) nm w tn r p' :
  wf p -> EnqueueTask nm w tn p = Ret (r, p') ->
  (r = false /\ nm ∉ name p /\ p' = p) \/
  (r = true /\ exists i q q', name p !! i = Some nm /\ queue p !! i = Some q /\
     qi_EnqueueTask w tn q = Ret q' /\ queue p' = <[i := q']> (queue p) /\ name p' = name p).
Proof.
  intros W E. unfold EnqueueTask in E. apply bind_Ret in E as (i & Hi & E).
  destruct (lookup_found _ _ _ W Hi) as [[H1 H2]|[-> H2]]; [right|left; simpl in E; by inv_ret].
  rewrite (proj2 (Z.eqb_neq i (-1))) in E by lia.
  apply bind_Ret in E as (q & [_ Hq]%aget_Ret & E). apply bind_Ret in E as (q' & Hq' & E).
  apply bind_Ret in E as (qs & [_ ->]%aset_Ret & E). inv_ret. split; [done|].
  exists (Z.to_nat i), q, q'. split_and!; try done;
    unfold update_fork_possible; simpl; by destruct (_ && _).
Qed.
End properties.

(** * Examples *)

(** Two queues, one task at a time each, and three identifiers. *)
Definition ex_new_Queue (nm : string) : outcome Queue.Queue :=
  Queue.Queue_new (fun _ => Some (1, 1)) nm.

Definition ex_pool : QueuePool Queue.Queue :=
  Eval vm_compute in
    match QueuePool_new ex_new_Queue ["a"; "b"] (Some "3") with
    | Ret p => p
    | _ => mkQueuePool [] [] [] [] [] 0 0 false false false false
    end.

Lemma ex_sorted : sorted_keys ["a"; "b"].
Proof.
  intros [|[|i]] [|[|j]] a b Hij Ha Hb; simplify_eq/=; try lia; done.
Qed.

Lemma ex_start : start ex_new_Queue ["a"; "b"] "3" ex_pool.
Proof.
  split.
  - apply ex_sorted.
  - done.
  - done.
  - intros nm q. unfold ex_new_Queue, Queue.Queue_new. case_match; [done|]. by intros [= <-].
  - vm_compute. reflexivity.
Qed.

Lemma ex_wf : wf ex_pool.
Proof. apply (inv_wf _ (start_inv _ _ _ _ ex_start)). Qed.

Abbreviation ex_step := (step (Q:=Queue.Queue) Z.pos).

(** The forker takes a task of queue [a], while another one waits there. *)
Lemma pool_accounting_witness :
  exists p, rtc ex_step (FReady, ex_pool) (FReady, p) /\
    fork_possible p = negb (IsLocked p) /\
    (forall j q, queue p !! j = Some q -> Queue.running_tasks q = registered j p) /\
    registered 0 p = 1 /\ registered 1 p = 0.
Proof.
  eassert (rtc ex_step (FReady, ex_pool) (FReady, _)) as R.
  { eapply rtc_l; [eapply (step_enqueue _ _ _ "a" 1 10);
      [repeat constructor|vm_compute; reflexivity]|].
    eapply rtc_l; [eapply (step_enqueue _ _ _ "a" 1 11);
      [repeat constructor|vm_compute; reflexivity]|].
    eapply rtc_l; [eapply step_dequeue_returns; vm_compute; reflexivity|].
    eapply rtc_l; [eapply step_execute; vm_compute; reflexivity|].
    apply rtc_refl. }
  destruct (pool_accounting Z.pos _ _ _ _ _ _ ex_start R) as [A B].
  eexists. split; [exact R|]. split; [exact A|]. split; [exact B|].
  split; vm_compute; reflexivity.
Defined.

(** The forker waits on empty queues until a task arrives. *)
Lemma forker_wakeup_witness :
  exists p, rtc ex_step (FReady, ex_pool) (FWaiting, p) /\ IsLocked p = false /\
    fork_signal p = true.
Proof.
  eassert (rtc ex_step (FReady, ex_pool) (FWaiting, _)) as R.
  { eapply rtc_l; [eapply step_dequeue_blocks; vm_compute; reflexivity|].
    eapply rtc_l; [eapply (step_enqueue _ _ _ "b" 1 10);
      [repeat constructor|vm_compute; reflexivity]|].
    apply rtc_refl. }
  eexists. split; [exact R|]. split; [vm_compute; reflexivity|].
  apply (forker_wakeup Z.pos _ _ _ _ _ ex_start R). left. vm_compute. reflexivity.
Defined.

Lemma forker_exits_on_shutdown_witness :
  exists p, rtc ex_step (FReady, ex_pool) (FExited, p) /\ is_shutting_down p = true.
Proof.
  eassert (rtc ex_step (FReady, ex_pool) (FExited, _)) as R.
  { eapply rtc_l; [eapply step_dequeue_blocks; vm_compute; reflexivity|].
    eapply rtc_l; [eapply step_shutdown|].
    eapply rtc_l; [eapply (step_wake _ _ None); vm_compute; reflexivity|].
    apply rtc_refl. }
  eexists. split; [exact R|]. exact (forker_exits_on_shutdown Z.pos _ _ _ _ _ ex_start R).
Defined.

Lemma forker_spurious_wakeup_witness :
  exists p, rtc ex_step (FReady, ex_pool) (FWaiting, p) /\ is_shutting_down p = false /\
    DequeueTask_awake p = Ret (None, set_fork_locked false p).
Proof.
  eassert (rtc ex_step (FReady, ex_pool) (FWaiting, _)) as R.
  { eapply rtc_l; [eapply step_dequeue_blocks; vm_compute; reflexivity|]. apply rtc_refl. }
  eexists. split; [exact R|].
  apply (forker_spurious_wakeup Z.pos _ _ _ _ _ ex_start R). vm_compute. reflexivity.
Defined.

Lemma ExecuteTask_TerminateTask_witness :
  "b" ∈ name ex_pool /\
  ((exists t p1 p2, free_tid ex_pool t /\ ExecuteTask 7 70 "b" 0 ex_pool = Ret (t, p1) /\
     tid_workflow_instance p1 = <[Z.to_nat t := Some 7%positive]> (tid_workflow_instance ex_pool) /\
     TerminateTask t p1 = Ret (Some (7%positive, Some 70%positive), p2) /\
     tid_workflow_instance p2 = tid_workflow_instance ex_pool) \/
   ((forall t, ~ free_tid ex_pool t) /\
    exists l, ExecuteTask 7 70 "b" 0 ex_pool = Ret (0, set_lasttid l ex_pool))).
Proof.
  assert ("b" ∈ name ex_pool) as Hb by (right; left).
  split; [exact Hb|]. exact (ExecuteTask_TerminateTask ex_pool 7 70 "b" ex_wf Hb).
Defined.

Lemma ExecuteTask_tid_zero_witness :
  exists p1, ExecuteTask 7 70 "b" 0 (set_lasttid 2 ex_pool) = Ret (0, p1) /\
    tid_workflow_instance p1 !! 0%nat = Some (Some 7%positive).
Proof.
  apply (ExecuteTask_tid_zero (set_lasttid 2 ex_pool) 7 70 "b").
  - apply wf_set_lasttid; [apply ex_wf|done].
  - right; left.
  - done.
  - reflexivity.
Defined.

Lemma EnqueueTask_by_name_witness :
  exists p', EnqueueTask "b" 7 70 ex_pool = Ret (true, p') /\
    ((true = false /\ "b" ∉ name ex_pool /\ p' = ex_pool) \/
     (true = true /\ exists i q q', name ex_pool !! i = Some "b" /\ queue ex_pool !! i = Some q /\
     qi_EnqueueTask 7 70 q = Ret q' /\ queue p' = <[i := q']> (queue ex_pool) /\
     name p' = name ex_pool)).
Proof.
  eassert (EnqueueTask "b" 7 70 ex_pool = Ret (true, _)) as E by (vm_compute; reflexivity).
  eexists. split; [exact E|]. exact (EnqueueTask_by_name ex_pool "b" 7 70 true _ ex_wf E).
Defined.
