(* ===== verification/Scheduler.v ===== *)
(** [Scheduler.cpp]: the list of timed events that [Retrier] and
    [WorkflowScheduler] inherit, and the threads that wait for its events. *)

From Stdlib Require Import Sorting.Sorted.
From stdpp Require Import sorting.
From S2P Require Import Prelude.

Open Scope Z_scope.

Section Scheduler.
Context {P : Type}.

(** * State *)

(** [data] stands for the fields of the structures that inherit [Event]. *)
Record Event : Type := mkEvent { scheduled_at : Z; data : P }.

(** The linked list is the list of its events from [first_event] on. *)
Record Scheduler : Type := mkScheduler {
  number_of_events : Z;
  first_event : list Event;
  is_shutting_down : bool;
}.

Definition Scheduler_new : Scheduler := mkScheduler 0 [] false.

(** What [InsertEvent] does besides changing the list. *)
Inductive notification : Type := NoNotification | CreateThread | SignalSleep.

(** * Operations *)

(** The loop of [InsertEvent], on the events that follow [curr_event]. *)
Fixpoint insert_after (new_event : Event) (next : list Event) : list Event :=
  match next with
  | [] => [new_event]
  | e :: r =>
      if scheduled_at e <=? scheduled_at new_event then e :: insert_after new_event r
      else new_event :: next
  end.

Definition InsertEvent (new_event : Event) (s : Scheduler) : notification * Scheduler :=
  match first_event s with
  | [] => (CreateThread, mkScheduler (u32 (0 + 1)) [new_event] (is_shutting_down s))
  | f :: r =>
      if scheduled_at new_event <? scheduled_at f then
        (SignalSleep,
         mkScheduler (u32 (number_of_events s + 1)) (new_event :: f :: r) (is_shutting_down s))
      else
        (NoNotification,
         mkScheduler (u32 (number_of_events s + 1)) (f :: insert_after new_event r)
           (is_shutting_down s))
  end.

(** The loop of [Flush]; [at_first] is [event==&first_event].  The events that
    stay, those handed to [event_removed] in order, [wake_up_retry_thread] and
    [number_of_events]. *)
Fixpoint flush_loop (use_filter : bool) (flush_filter : Event -> bool) (at_first wake : bool)
    (n : Z) (l : list Event) : list Event * list Event * bool * Z :=
  match l with
  | [] => ([], [], wake, n)
  | e :: l =>
      if negb use_filter || flush_filter e then
        let '(kept, removed, wake, n) :=
          flush_loop use_filter flush_filter at_first (wake || at_first) (u32 (n - 1)) l in
        (kept, e :: removed, wake, n)
      else
        let '(kept, removed, wake, n) := flush_loop use_filter flush_filter false wake n l in
        (e :: kept, removed, wake, n)
  end.

Definition Flush (use_filter : bool) (flush_filter : Event -> bool) (s : Scheduler)
    : list Event * bool * Scheduler :=
  if number_of_events s =? 0 then ([], false, s)
  else
    let '(kept, removed, wake, n) :=
      flush_loop use_filter flush_filter true false (number_of_events s) (first_event s) in
    (removed, wake, mkScheduler n kept (is_shutting_down s)).

(** [true]: the condition is signalled. *)
Definition Shutdown (s : Scheduler) : bool * Scheduler :=
  (number_of_events s >? 0, mkScheduler (number_of_events s) (first_event s) true).

(** [true]: the thread is joined. *)
Definition WaitForShutdown (s : Scheduler) : bool := negb (number_of_events s =? 0).

Definition shift_event (curr_time : Z) (s : Scheduler) : option Event * Scheduler :=
  match first_event s with
  | e :: r =>
      if scheduled_at e <=? curr_time
      then (Some e, mkScheduler (u32 (number_of_events s - 1)) r (is_shutting_down s))
      else (None, s)
  | [] => (None, s)
  end.

Definition get_sleep_time (curr_time : Z) (s : Scheduler) : outcome Z :=
  match first_event s with
  | e :: _ => Ret (scheduled_at e - curr_time)
  | [] => Undef
  end.

(** * Threads *)

(** Where a [retry_thread] is. *)
Inductive pc : Type :=
  | Top                                   (* at [while(1)] *)
  | Shifting (curr_time : Z)              (* about to call [shift_event] *)
  | Handling (curr_time : Z) (e : Event)  (* in [event_removed(event,ALARM)] *)
  | Checking (curr_time : Z)              (* about to lock the mutex *)
  (* in [pthread_cond_timedwait]; it went to sleep [late] seconds after it read the clock *)
  | Sleeping (late abstime : Z) (signalled : bool)
  | Exited.

(** A scheduler with its threads.  [mutex] is the thread that holds the mutex
    for good, if there is one: every other critical section is a single step.
    [inserted], [fired] and [flushed] record what happened so far, [fired] with
    the time that [time(0)] gave. *)
Record system : Type := mkSystem {
  scheduler : Scheduler;
  mutex : option nat;
  threads : list pc;
  retry_thread_handle : option nat;
  now : Z;
  inserted : list Event;
  fired : list (Z * Event);
  flushed : list Event;
}.

Definition system_new (t : Z) : system := mkSystem Scheduler_new None [] None t [] [] [].

(** The body of [retry_thread] from the lock to the next time around; [t] is what
    [clock_gettime] gives. *)
Definition check (i : nat) (t curr_time : Z) (s : Scheduler) : outcome (pc * option nat) :=
  if number_of_events s =? 0 then Ret (Exited, None)
  else
    time_to_sleep ← get_sleep_time curr_time s;
    if 0 <? time_to_sleep then
      if is_shutting_down s then Ret (Exited, Some i) else Ret (Sleeping (t - curr_time) (t + time_to_sleep) false, None)
    else Ret (Top, Some i).

Definition awake (i : nat) (s : Scheduler) : pc * option nat :=
  if is_shutting_down s then (Exited, Some i) else (Top, None).

Definition set_thread (i : nat) (c : pc) (y : system) : system :=
  mkSystem (scheduler y) (mutex y) (<[i := c]> (threads y)) (retry_thread_handle y) (now y)
    (inserted y) (fired y) (flushed y).
Definition set_scheduler (s : Scheduler) (y : system) : system :=
  mkSystem s (mutex y) (threads y) (retry_thread_handle y) (now y)
    (inserted y) (fired y) (flushed y).
Definition set_mutex (m : option nat) (y : system) : system :=
  mkSystem (scheduler y) m (threads y) (retry_thread_handle y) (now y)
    (inserted y) (fired y) (flushed y).

(** [pthread_cond_signal] wakes up one of the threads that wait, if there is one. *)
Definition waiting (c : pc) : bool := match c with Sleeping _ _ false => true | _ => false end.

Inductive signals (ts : list pc) : list pc -> Prop :=
  | signals_one i late abstime :
      ts !! i = Some (Sleeping late abstime false) -> signals ts (<[i := Sleeping late abstime true]> ts)
  | signals_none : Forall (fun c => waiting c = false) ts -> signals ts ts.

Definition signals_if (b : bool) (ts ts' : list pc) : Prop := if b then signals ts ts' else ts' = ts.

(** What becomes of the threads. *)
Definition notified (n : notification) (ts ts' : list pc) : Prop :=
  match n with
  | NoNotification => ts' = ts
  | CreateThread => ts' = ts ++ [Top]
  | SignalSleep => signals ts ts'
  end.

Definition do_insert (e : Event) (ts : list pc) (y : system) : system :=
  let '(nt, s) := InsertEvent e (scheduler y) in
  let h := match nt with CreateThread => Some (List.length (threads y)) | _ => retry_thread_handle y end in
  mkSystem s (mutex y) ts h (now y) (e :: inserted y) (fired y) (flushed y).

Definition do_flush (use_filter : bool) (flush_filter : Event -> bool) (ts : list pc) (y : system) : system :=
  let '(removed, _, s) := Flush use_filter flush_filter (scheduler y) in
  mkSystem s (mutex y) ts (retry_thread_handle y) (now y) (inserted y) (fired y) (removed ++ flushed y).

Definition do_shutdown (ts : list pc) (y : system) : system :=
  mkSystem (Shutdown (scheduler y)).2 (mutex y) ts (retry_thread_handle y) (now y)
    (inserted y) (fired y) (flushed y).

(** A step of a thread.  [pthread_cond_timedwait] returns after a signal, or when
    its time has come. *)
Inductive thread_step (y : system) : system -> Prop :=
  | step_top i : threads y !! i = Some Top ->
      thread_step y (set_thread i (Shifting (now y)) y)
  | step_shift_some i c e s : threads y !! i = Some (Shifting c) -> mutex y = None ->
      shift_event c (scheduler y) = (Some e, s) ->
      thread_step y (set_thread i (Handling c e) (set_scheduler s y))
  | step_shift_none i c s : threads y !! i = Some (Shifting c) -> mutex y = None ->
      shift_event c (scheduler y) = (None, s) ->
      thread_step y (set_thread i (Checking c) (set_scheduler s y))
  | step_handle i c e : threads y !! i = Some (Handling c e) ->
      thread_step y (mkSystem (scheduler y) (mutex y) (<[i := Shifting c]> (threads y))
                (retry_thread_handle y) (now y) (inserted y) ((c, e) :: fired y) (flushed y))
  | step_check i c k m : threads y !! i = Some (Checking c) -> mutex y = None ->
      check i (now y) c (scheduler y) = Ret (k, m) ->
      thread_step y (set_thread i k (set_mutex m y))
  | step_wake i late abstime signalled k m :
      threads y !! i = Some (Sleeping late abstime signalled) -> mutex y = None ->
      signalled || (abstime <=? now y) = true -> awake i (scheduler y) = (k, m) ->
      thread_step y (set_thread i k (set_mutex m y)).

(** A step of the system.  [pthread_cond_timedwait] may also return for no reason. *)
Inductive step : system -> system -> Prop :=
  | step_thread y y' : thread_step y y' -> step y y'
  | step_spurious y i late abstime signalled k m :
      threads y !! i = Some (Sleeping late abstime signalled) -> mutex y = None ->
      awake i (scheduler y) = (k, m) ->
      step y (set_thread i k (set_mutex m y))
  | step_time y t : now y <= t ->
      step y (mkSystem (scheduler y) (mutex y) (threads y) (retry_thread_handle y) t
                (inserted y) (fired y) (flushed y))
  | step_insert y e ts : mutex y = None ->
      Z.of_nat (List.length (first_event (scheduler y))) + 1 < 2 ^ 32 ->
      notified (InsertEvent e (scheduler y)).1 (threads y) ts ->
      step y (do_insert e ts y)
  | step_flush y use_filter flush_filter ts : mutex y = None ->
      signals_if (Flush use_filter flush_filter (scheduler y)).1.2 (threads y) ts ->
      step y (do_flush use_filter flush_filter ts y)
  | step_shutdown y ts : mutex y = None ->
      signals_if (Shutdown (scheduler y)).1 (threads y) ts ->
      step y (do_shutdown ts y).

(** * Invariant *)

Definition sorted : list Event -> Prop :=
  StronglySorted (fun a b => scheduled_at a <= scheduled_at b).

(** The events that a thread took out of the list and did not finish. *)
Definition in_hand (c : pc) : list Event :=
  match c with
  | Handling _ e => [e]
  | _ => []
  end.

(** The thread will look at the list of events before [e] is late by more than
    what passed between its look at the clock and its sleep. *)
Definition watches (e : Event) (c : pc) : Prop :=
  match c with
  | Exited => False
  | Sleeping late abstime signalled => signalled = true \/ abstime <= scheduled_at e + late
  | _ => True
  end.

Definition watched (l : list Event) (ts : list pc) : Prop :=
  match l with [] => True | e :: _ => exists i c, ts !! i = Some c /\ watches e c end.

Record scheduler_ok (s : Scheduler) : Prop := {
  ok_sorted : sorted (first_event s);
  ok_count : number_of_events s = Z.of_nat (List.length (first_event s));
  ok_bound : Z.of_nat (List.length (first_event s)) < 2 ^ 32;
}.

(** A thread that handles an event saw a time at which it was due, and that
    time is past. *)
Definition pc_ok (t : Z) (c : pc) : Prop :=
  match c with
  | Shifting c | Checking c => c <= t
  | Handling c e => c <= t /\ scheduled_at e <= c
  | _ => True
  end.

Record inv (y : system) : Prop := {
  inv_scheduler : scheduler_ok (scheduler y);
  inv_threads : Forall (pc_ok (now y)) (threads y);
  inv_fired : Forall (fun f => scheduled_at f.2 <= f.1 <= now y) (fired y);
  inv_events :
    inserted y ≡ₚ first_event (scheduler y) ++ mjoin (in_hand <$> threads y) ++
                  (fired y).*2 ++ flushed y;
  inv_watched : is_shutting_down (scheduler y) = false ->
    watched (first_event (scheduler y)) (threads y);
}.

(** * Lists of events *)

Lemma insert_after_split e l :
  exists l1 l2, l = l1 ++ l2 /\ insert_after e l = l1 ++ e :: l2 /\
    Forall (fun a => scheduled_at a <= scheduled_at e) l1 /\
    (sorted l -> Forall (fun b => scheduled_at e < scheduled_at b) l2).
Proof.
  induction l as [|a l (l1 & l2 & -> & Hi & H1 & H2)]; simpl.
  - exists [], []. eauto.
  - destruct (Z.leb_spec (scheduled_at a) (scheduled_at e)).
    + exists (a :: l1), l2. rewrite Hi. repeat split; auto.
      intros [? _]%StronglySorted_inv. auto.
    + exists [], (a :: l1 ++ l2). repeat split; auto.
      intros [_ Ha]%StronglySorted_inv. constructor; [done|].
      eapply Forall_impl; [done|]. simpl. lia.
Qed.

Lemma sorted_insert l1 l2 e :
  sorted (l1 ++ l2) -> Forall (fun a => scheduled_at a <= scheduled_at e) l1 ->
  Forall (fun b => scheduled_at e < scheduled_at b) l2 -> sorted (l1 ++ e :: l2).
Proof.
  induction l1 as [|a l1 IH]; intros Hs H1 H2; simpl in *.
  - constructor; [done|]. eapply Forall_impl; [done|]. simpl. lia.
  - apply StronglySorted_inv in Hs as [Hs Ha]. inversion_clear H1.
    constructor; [by apply IH|]. apply Forall_app in Ha as [? ?].
    apply Forall_app. split; [done|]. by constructor.
Qed.

Lemma InsertEvent_split e s :
  sorted (first_event s) ->
  exists l1 l2, first_event s = l1 ++ l2 /\
    first_event (InsertEvent e s).2 = l1 ++ e :: l2 /\
    Forall (fun a => scheduled_at a <= scheduled_at e) l1 /\
    Forall (fun b => scheduled_at e < scheduled_at b) l2 /\
    ((InsertEvent e s).1 <> NoNotification <-> l1 = []).
Proof.
  intros Hs. unfold InsertEvent. destruct (first_event s) as [|f r] eqn:E.
  - exists [], []. simpl. repeat split; auto.
  - destruct (Z.ltb_spec (scheduled_at e) (scheduled_at f)); simpl.
    + exists [], (f :: r). apply StronglySorted_inv in Hs as [_ Hf].
      repeat split; auto. constructor; [done|].
      eapply Forall_impl; [done|]. simpl. lia.
    + destruct (insert_after_split e r) as (l1 & l2 & -> & -> & H1 & H2).
      exists (f :: l1), l2. apply StronglySorted_inv in Hs as [? _].
      repeat split; auto; by intros.
Qed.

Lemma InsertEvent_count e s :
  number_of_events s = Z.of_nat (List.length (first_event s)) ->
  Z.of_nat (List.length (first_event s)) + 1 < 2 ^ 32 ->
  number_of_events (InsertEvent e s).2 = number_of_events s + 1.
Proof.
  intros Hn Hb. unfold InsertEvent. destruct (first_event s) eqn:E; simpl in *.
  - rewrite u32_small; lia.
  - break_match; simpl; apply u32_small; lia.
Qed.

Lemma InsertEvent_shutting e s : is_shutting_down (InsertEvent e s).2 = is_shutting_down s.
Proof. unfold InsertEvent. by repeat break_match. Qed.

Lemma InsertEvent_ok e s :
  scheduler_ok s -> Z.of_nat (List.length (first_event s)) + 1 < 2 ^ 32 ->
  scheduler_ok (InsertEvent e s).2.
Proof.
  intros [Hs Hn _] Hb.
  destruct (InsertEvent_split e s Hs) as (l1 & l2 & Hl & Hl' & H1 & H2 & _).
  assert (Hc := InsertEvent_count e s Hn Hb). rewrite Hl in Hs, Hn, Hb.
  rewrite length_app in Hn, Hb.
  split; rewrite Hl'.
  - by apply sorted_insert.
  - rewrite Hc, length_app. simpl. lia.
  - rewrite length_app. simpl. lia.
Qed.

Lemma flush_loop_spec u flt b w n l kept removed w' n' :
  Z.of_nat (List.length l) <= n < 2 ^ 32 ->
  flush_loop u flt b w n l = (kept, removed, w', n') ->
  kept = List.filter (fun e => negb (negb u || flt e)) l /\
  removed = List.filter (fun e => negb u || flt e) l /\
  w' = w || b && match l with e :: _ => negb u || flt e | [] => false end /\
  n' = n - Z.of_nat (List.length removed).
Proof.
  revert b w n kept removed w' n'. induction l as [|e l IH]; intros b w n kept removed w' n' Hn H; simpl in *.
  - simplify_eq. repeat split; simpl; [|lia]. by destruct w', b.
  - destruct (negb u || flt e) eqn:E; simpl.
    + destruct (flush_loop u flt b (w || b) (u32 (n - 1)) l) as [[[k r] w1] n1] eqn:F.
      simplify_eq. rewrite u32_small in F by lia.
      apply IH in F as (-> & -> & -> & ->); [|lia].
      repeat split; [|simpl; lia]. by destruct w, b, l; simpl; try destruct (_ || _).
    + destruct (flush_loop u flt false w n l) as [[[k r] w1] n1] eqn:F.
      simplify_eq. apply IH in F as (-> & -> & -> & ->); [|lia].
      repeat split. by destruct w, b.
Qed.

Lemma sorted_filter (f : Event -> bool) l : sorted l -> sorted (List.filter f l).
Proof.
  induction l as [|e l IH]; intros Hs; [done|].
  apply StronglySorted_inv in Hs as [Hs He]. simpl.
  destruct (f e); [|by apply IH]. constructor; [by apply IH|].
  apply Forall_forall. intros x [_ Hx]%list_elem_of_In%filter_In%and_comm.
  rewrite Forall_forall in He. apply He. by apply list_elem_of_In.
Qed.

Lemma filter_partition (f : Event -> bool) l :
  l ≡ₚ List.filter (fun e => negb (f e)) l ++ List.filter f l.
Proof.
  induction l as [|e l IH]; [done|]. simpl. destruct (f e); simpl.
  - rewrite IH at 1. apply Permutation_middle.
  - by rewrite IH at 1.
Qed.

(** What [Flush] does to a list that agrees with its counter. *)
Lemma Flush_spec u flt s :
  scheduler_ok s ->
  let out e := negb u || flt e in
  Flush u flt s =
    (List.filter out (first_event s),
     match first_event s with e :: _ => out e | [] => false end,
     mkScheduler (Z.of_nat (List.length (List.filter (fun e => negb (out e)) (first_event s))))
       (List.filter (fun e => negb (out e)) (first_event s)) (is_shutting_down s)).
Proof.
  intros [Hs Hn Hb] out. unfold Flush. destruct (Z.eqb_spec (number_of_events s) 0) as [E|E].
  - destruct s as [n l b]. simpl in *. destruct l; simpl in *; [|lia]. by subst.
  - destruct (flush_loop _ _ _ _ _ _) as [[[k r] w] n] eqn:F.
    apply flush_loop_spec in F as (-> & -> & -> & ->); [|lia].
    f_equal. f_equal. fold out. rewrite Hn. rewrite (filter_partition out (first_event s)) at 1.
    rewrite length_app. lia.
Qed.

Lemma Flush_ok u flt s : scheduler_ok s -> scheduler_ok (Flush u flt s).2.
Proof.
  intros H. rewrite (Flush_spec u flt s H). destruct H. split; simpl.
  - by apply sorted_filter.
  - done.
  - pose proof (List.filter_length_le (fun e => negb (negb u || flt e)) (first_event s)). lia.
Qed.

Lemma shift_event_some c s e s' :
  scheduler_ok s -> shift_event c s = (Some e, s') ->
  first_event s = e :: first_event s' /\ scheduled_at e <= c /\ scheduler_ok s' /\
  is_shutting_down s' = is_shutting_down s.
Proof.
  intros [Hs Hn Hb] H. unfold shift_event in H. destruct (first_event s) as [|f r] eqn:E; [done|].
  destruct (Z.leb_spec (scheduled_at f) c); simplify_eq/=. split; [done|].
  apply StronglySorted_inv in Hs as [? _]. repeat split; simpl; try done.
  - rewrite u32_small; lia.
  - lia.
Qed.

Lemma shift_event_none c s s' :
  shift_event c s = (None, s') ->
  s' = s /\ match first_event s with e :: _ => c < scheduled_at e | [] => True end.
Proof. unfold shift_event. intros H. repeat break_match_hyp H; simplify_eq; split; auto; simpl; lia. Qed.

(** * Threads *)

Lemma in_hand_insert (ts : list pc) i c :
  ts !! i = Some c ->
  exists rest, mjoin (in_hand <$> ts) ≡ₚ in_hand c ++ rest /\
    forall c', mjoin (in_hand <$> <[i := c']> ts) ≡ₚ in_hand c' ++ rest.
Proof.
  intros H. exists (mjoin (in_hand <$> take i ts) ++ mjoin (in_hand <$> drop (S i) ts)).
  assert (i < List.length ts)%nat by by eapply lookup_lt_Some. split.
  - rewrite <- (take_drop_middle ts i c H) at 1.
    rewrite fmap_app, join_app, fmap_cons. simpl. apply Permutation_app_swap_app.
  - intros c'. rewrite insert_take_drop by done.
    rewrite fmap_app, join_app, fmap_cons. simpl. apply Permutation_app_swap_app.
Qed.

Lemma in_hand_same (ts : list pc) i c c' :
  ts !! i = Some c -> in_hand c = in_hand c' ->
  mjoin (in_hand <$> <[i := c']> ts) ≡ₚ mjoin (in_hand <$> ts).
Proof. intros (rest & H1 & H2)%in_hand_insert E. by rewrite H2, H1, E. Qed.

Lemma pc_ok_mono t t' c : t <= t' -> pc_ok t c -> pc_ok t' c.
Proof. intros ?. destruct c; simpl; first [done | lia]. Qed.

(** Thread [i] watches over the first event, or another one does. *)
Lemma watched_insert (ts : list pc) l i c c' :
  ts !! i = Some c -> (forall e, watches e c') -> watched l (<[i := c']> ts).
Proof.
  intros H Hw. destruct l as [|e l]; [done|]. exists i, c'. rewrite list_lookup_insert_eq; [done|].
  by eapply lookup_lt_Some.
Qed.

Lemma inv_set_thread y i c c' :
  inv y -> threads y !! i = Some c -> in_hand c = in_hand c' -> pc_ok (now y) c' ->
  (forall e, watches e c') -> inv (set_thread i c' y).
Proof.
  intros [Hs Ht Hf He Hl] H E Hc ?. split; simpl; try done.
  - by apply Forall_insert.
  - by rewrite (in_hand_same _ _ _ _ H E).
  - intros _. by eapply watched_insert.
Qed.

Lemma inv_set_mutex y m : inv y -> inv (set_mutex m y).
Proof. intros []. by split. Qed.

(** Signals change nothing but the threads that sleep, which watch all the more. *)
Lemma signals_Forall (Q : pc -> Prop) ts ts' :
  (forall late abstime, Q (Sleeping late abstime false) -> Q (Sleeping late abstime true)) ->
  signals ts ts' -> Forall Q ts -> Forall Q ts'.
Proof.
  intros HQ [i late abstime H|_] Hf; [|done]. apply Forall_insert; [done|].
  by eapply HQ, (Forall_lookup_1 _ _ _ _ Hf).
Qed.

Lemma signals_in_hand ts ts' :
  signals ts ts' -> mjoin (in_hand <$> ts') ≡ₚ mjoin (in_hand <$> ts).
Proof. intros [i late abstime H|_]; [by eapply in_hand_same|done]. Qed.

(** Whoever watched over the first event, someone watches over any other one. *)
Lemma signals_watched f r l ts ts' : signals ts ts' -> watched (f :: r) ts -> watched l ts'.
Proof.
  intros Hs (i & c & Hi & Hw). destruct l as [|e l]; [done|]. destruct Hs as [j late abstime Hj|Hn].
  - exists j, (Sleeping late abstime true). split; [|by left]. apply list_lookup_insert_eq. by eapply lookup_lt_Some.
  - exists i, c. split; [done|]. pose proof (Forall_lookup_1 _ _ _ _ Hn Hi) as Hc. cbn in Hc.
    destruct c as [| | | |late abstime []|]; try done. by left.
Qed.

Lemma notified_ok e s ts ts' t :
  notified (InsertEvent e s).1 ts ts' -> Forall (pc_ok t) ts ->
  Forall (pc_ok t) ts' /\ mjoin (in_hand <$> ts') ≡ₚ mjoin (in_hand <$> ts) /\
  (watched (first_event s) ts -> watched (first_event (InsertEvent e s).2) ts').
Proof.
  unfold InsertEvent. destruct (first_event s) as [|f r] eqn:E; [|destruct (_ <? _)]; cbn [fst snd first_event notified].
  - intros -> Hf. split; [|split].
    + apply Forall_app. split; [done|]. by repeat constructor.
    + rewrite fmap_app, join_app. simpl. by rewrite app_nil_r.
    + intros _. exists (List.length ts), Top. split; [|done]. rewrite lookup_app_r by lia. by rewrite Nat.sub_diag.
  - intros Hs Hf. split; [by eapply signals_Forall|]. split; [by apply signals_in_hand|]. by eapply signals_watched.
  - by intros ->.
Qed.

Lemma do_insert_inv y e ts :
  inv y -> Z.of_nat (List.length (first_event (scheduler y))) + 1 < 2 ^ 32 ->
  notified (InsertEvent e (scheduler y)).1 (threads y) ts -> inv (do_insert e ts y).
Proof.
  intros [Hs Ht Hf He Hl] Hb Hn. pose proof (InsertEvent_ok e _ Hs Hb) as Hs'.
  pose proof (InsertEvent_shutting e (scheduler y)) as Hd.
  destruct (notified_ok _ _ _ _ _ Hn Ht) as (Ht' & Hh & Hw).
  destruct (InsertEvent_split e _ (ok_sorted _ Hs)) as (l1 & l2 & E & E' & _).
  unfold do_insert. destruct (InsertEvent e (scheduler y)) as [nt s] eqn:Ei. cbn [fst snd] in *.
  split; simpl; try done.
  - rewrite He, Hh, E, E', <- !app_assoc. apply Permutation_middle.
  - intros Hsd. apply Hw, Hl. congruence.
Qed.

Lemma signals_if_ok b ts ts' t :
  signals_if b ts ts' -> Forall (pc_ok t) ts ->
  Forall (pc_ok t) ts' /\ mjoin (in_hand <$> ts') ≡ₚ mjoin (in_hand <$> ts).
Proof. destruct b; [|by intros ->]. intros Hs Hf. split; [by eapply signals_Forall|by apply signals_in_hand]. Qed.

Lemma do_flush_inv y u flt ts :
  inv y -> signals_if (Flush u flt (scheduler y)).1.2 (threads y) ts -> inv (do_flush u flt ts y).
Proof.
  intros [Hs Ht Hf He Hl] Hn. pose proof (Flush_ok u flt _ Hs) as Hs'.
  destruct (signals_if_ok _ _ _ _ Hn Ht) as [Ht' Hh]. unfold do_flush.
  rewrite (Flush_spec u flt _ Hs) in *. cbn [fst snd] in *.
  set (out := fun e => negb u || flt e) in *.
  split; simpl; auto.
  - rewrite He, Hh, (filter_partition out (first_event (scheduler y))) at 1.
    rewrite <- !app_assoc. apply Permutation_app_head.
    rewrite (Permutation_app_comm (List.filter out _)), <- !app_assoc.
    do 2 apply Permutation_app_head. apply Permutation_app_comm.
  - intros Hsd. specialize (Hl Hsd). destruct (first_event (scheduler y)) as [|e r]; [done|]. cbn in *.
    change (negb u || flt e) with (out e) in *. destruct (out e); cbn [negb].
    + apply (signals_watched e r _ (threads y)); [exact Hn|exact Hl].
    + cbn in Hn. by subst ts.
Qed.

Lemma do_shutdown_inv y ts :
  inv y -> signals_if (Shutdown (scheduler y)).1 (threads y) ts -> inv (do_shutdown ts y).
Proof.
  intros [[] Ht Hf He Hl] Hn. destruct (signals_if_ok _ _ _ _ Hn Ht) as [Ht' Hh].
  split; simpl; try done. by rewrite Hh.
Qed.

Lemma shift_some_inv y i c e s :
  inv y -> threads y !! i = Some (Shifting c) ->
  shift_event c (scheduler y) = (Some e, s) ->
  inv (set_thread i (Handling c e) (set_scheduler s y)).
Proof.
  intros [Hs Ht Hf He Hl] H Hsh. pose proof (Forall_lookup_1 _ _ _ _ Ht H) as Hc.
  apply (shift_event_some _ _ _ _ Hs) in Hsh as (E & Hle & Hs' & Hd).
  destruct (in_hand_insert _ _ _ H) as (rest & H1 & H2). split; simpl; auto.
  - by apply Forall_insert.
  - rewrite He, E, H2, H1. simpl. by rewrite Permutation_middle.
  - intros _. by eapply watched_insert.
Qed.

Lemma handle_inv y i c e :
  inv y -> threads y !! i = Some (Handling c e) ->
  inv (mkSystem (scheduler y) (mutex y) (<[i := Shifting c]> (threads y))
         (retry_thread_handle y) (now y) (inserted y) ((c, e) :: fired y) (flushed y)).
Proof.
  intros [Hs Ht Hf He Hl] H. pose proof (Forall_lookup_1 _ _ _ _ Ht H) as [Hc Hle].
  destruct (in_hand_insert _ _ _ H) as (rest & H1 & H2). split; simpl; auto.
  - by apply Forall_insert.
  - rewrite He, H2, H1. simpl. apply Permutation_app_head. apply Permutation_middle.
  - intros _. by eapply watched_insert.
Qed.

(** A thread that leaves [Checking] or [Sleeping] holds no event; it watches over
    the first event, if there is one, unless the scheduler is shutting down. *)
Lemma leave_inv y i c k m :
  inv y -> threads y !! i = Some c -> in_hand c = [] -> in_hand k = [] -> pc_ok (now y) k ->
  (is_shutting_down (scheduler y) = false -> forall e r, first_event (scheduler y) = e :: r -> watches e k) ->
  inv (set_thread i k (set_mutex m y)).
Proof.
  intros [Hs Ht Hf He Hl] H Hc Hk Hok Hg. split; simpl; auto.
  - by apply Forall_insert.
  - by rewrite (in_hand_same _ _ _ k H) by congruence.
  - intros Hd. specialize (Hg Hd). destruct (first_event (scheduler y)) as [|e r]; [done|]. exists i, k.
    split; [|by eapply Hg]. apply list_lookup_insert_eq. by eapply lookup_lt_Some.
Qed.

Lemma check_cases i t c s k m :
  scheduler_ok s -> check i t c s = Ret (k, m) ->
  (k = Exited /\ first_event s = [] /\ m = None) \/
  (exists e r, first_event s = e :: r /\ c < scheduled_at e /\
     ((k = Exited /\ m = Some i /\ is_shutting_down s = true) \/
      (k = Sleeping (t - c) (t + (scheduled_at e - c)) false /\ m = None /\ is_shutting_down s = false))) \/
  (exists e r, first_event s = e :: r /\ scheduled_at e <= c /\ k = Top /\ m = Some i).
Proof.
  intros [_ Hn _] H. unfold check, get_sleep_time in H.
  destruct (Z.eqb_spec (number_of_events s) 0).
  - destruct (first_event s); simpl in *; [|lia]. simplify_eq. auto.
  - right. destruct (first_event s) as [|e r]; [done|]. simpl in H.
    destruct (Z.ltb_spec 0 (scheduled_at e - c)).
    + left. exists e, r. split; [done|]. split; [lia|].
      destruct (is_shutting_down s); simplify_eq; auto.
    + right. exists e, r. simplify_eq. repeat split. lia.
Qed.

Lemma awake_inv y i late abstime g k m :
  inv y -> threads y !! i = Some (Sleeping late abstime g) -> awake i (scheduler y) = (k, m) ->
  inv (set_thread i k (set_mutex m y)).
Proof.
  intros Hi H Hw. unfold awake in Hw. destruct (is_shutting_down (scheduler y)) eqn:E; simplify_eq;
    eapply leave_inv; eauto; try done; congruence.
Qed.

Lemma thread_step_inv y y' : inv y -> thread_step y y' -> inv y'.
Proof.
  intros Hi Hst. pose proof Hi as [Hs Ht Hf He Hl].
  destruct Hst as [i H|i c e s H Hm Hsh|i c s H Hm Hsh|i c e H|i c k m H Hm Hc|i late abstime g k m H Hm Ha Hw].
  - eapply inv_set_thread; eauto; simpl; [lia|done].
  - by apply shift_some_inv.
  - apply shift_event_none in Hsh as [-> _]. pose proof (Forall_lookup_1 _ _ _ _ Ht H).
    destruct y. by eapply inv_set_thread.
  - by apply handle_inv.
  - pose proof (Forall_lookup_1 _ _ _ _ Ht H).
    apply (check_cases _ _ _ _ _ _ Hs) in Hc
      as [(-> & E & ->)|[(e & r & E & Hlt & [(-> & -> & E')|(-> & -> & E')])|(e & r & E & _ & -> & ->)]];
      eapply leave_inv; eauto; try done; rewrite E; try congruence.
    intros _ ? ? [= <- <-]. right. lia.
  - by eapply awake_inv.
Qed.

Lemma scheduler_step_inv y y' : inv y -> step y y' -> inv y'.
Proof.
  intros Hi Hst. destruct Hst as [y y' H|y i late abstime g k m H Hm Hw|y t Hle|y e ts Hm Hb Hn|y u flt ts Hm Hn|y ts Hm Hn].
  - by eapply thread_step_inv.
  - by eapply awake_inv.
  - destruct Hi as [Hs Ht Hf He Hl]. split; simpl; auto.
    + eapply Forall_impl; [exact Ht|]. intros c. by apply pc_ok_mono.
    + eapply Forall_impl; [exact Hf|]. simpl. lia.
  - by apply do_insert_inv.
  - by apply do_flush_inv.
  - by apply do_shutdown_inv.
Qed.

Lemma system_new_inv t : inv (system_new t).
Proof. split; simpl; auto. split; simpl; [constructor|done|lia]. Qed.

Lemma scheduler_run_inv y y' : inv y -> rtc step y y' -> inv y'.
Proof. intros Hi. induction 1; [done|]. eauto using scheduler_step_inv. Qed.

(** * A due event fires *)

(** How many steps a thread can make before it sleeps or is gone, if it finds no
    event that is due. *)
Definition rank (t : Z) (c : pc) : nat :=
  match c with
  | Exited => 0
  | Sleeping _ abstime signalled => if signalled || (abstime <=? t) then 5 else 0
  | Top | Handling _ _ => 4
  | Shifting _ => 3
  | Checking _ => 2
  end.

Definition measure (y : system) : nat :=
  sum_list_with (rank (now y)) (threads y) + 2 * List.length (first_event (scheduler y)) +
  match mutex y with None => 10 | Some _ => 0 end.

Lemma ranks_insert t (ts : list pc) i c d :
  ts !! i = Some c ->
  (sum_list_with (rank t) (<[i := d]> ts) + rank t c = sum_list_with (rank t) ts + rank t d)%nat.
Proof.
  revert i. induction ts as [|x ts IH]; intros [|i] H; simplify_eq/=; [lia|]. specialize (IH i H). lia.
Qed.

Lemma thread_step_measure y y' : inv y -> thread_step y y' -> (measure y' < measure y)%nat.
Proof.
  intros [Hs _ _ _ _] St. unfold measure.
  destruct St as [i H|i c e s H Hm Hsh|i c s H Hm Hsh|i c e H|i c k m H Hm Hc|i late abstime g k m H Hm Ha Hw];
    cbn [set_thread set_scheduler set_mutex now threads scheduler mutex first_event].
  - pose proof (ranks_insert (now y) _ _ _ (Shifting (now y)) H). cbn [rank] in *. lia.
  - pose proof (ranks_insert (now y) _ _ _ (Handling c e) H). cbn [rank] in *.
    apply (shift_event_some _ _ _ _ Hs) in Hsh as (E & _). rewrite E. cbn [List.length]. lia.
  - apply shift_event_none in Hsh as [-> _]. pose proof (ranks_insert (now y) _ _ _ (Checking c) H). cbn [rank] in *. lia.
  - pose proof (ranks_insert (now y) _ _ _ (Shifting c) H). cbn [rank] in *. lia.
  - pose proof (ranks_insert (now y) _ _ _ k H) as E. cbn [rank] in E. rewrite Hm.
    apply (check_cases _ _ _ _ _ _ Hs) in Hc
      as [(-> & _ & ->)|[(e & r & _ & Hlt & [(-> & -> & _)|(-> & -> & _)])|(e & r & _ & _ & -> & ->)]]; cbn [rank] in E; try lia.
    cbn [orb] in E. rewrite (proj2 (Z.leb_gt _ _)) in E by lia. lia.
  - pose proof (ranks_insert (now y) _ _ _ k H) as E. cbn [rank] in E. rewrite Ha in E. rewrite Hm.
    unfold awake in Hw. destruct (is_shutting_down _); simplify_eq; cbn [rank] in E; lia.
Qed.

Lemma thread_steps_end y : inv y -> sn thread_step y.
Proof.
  induction (Wf_nat.well_founded_ltof _ measure y) as [y _ IH]. intros Hi. constructor. intros y' St. cbn in St.
  apply IH; [by apply thread_step_measure|by eapply thread_step_inv].
Qed.

(** The threads lose no event, and leave the time and the shutdown alone. *)
Definition kept (e : Event) (y : system) : Prop :=
  e ∈ first_event (scheduler y) \/ e ∈ mjoin (in_hand <$> threads y) \/ e ∈ (fired y).*2.

Lemma thread_step_keeps e y y' : inv y -> thread_step y y' ->
  (kept e y -> kept e y') /\ now y' = now y /\ is_shutting_down (scheduler y') = is_shutting_down (scheduler y).
Proof.
  intros Hi St. pose proof (thread_step_inv _ _ Hi St) as Hi'.
  assert (inserted y' = inserted y /\ flushed y' = flushed y /\ now y' = now y /\
          is_shutting_down (scheduler y') = is_shutting_down (scheduler y)) as (E1 & E2 & E3 & E4).
  { destruct St as [i H|i c f s H Hm Hsh|i c s H Hm Hsh|i c f H|i c k m H Hm Hc|i late abstime g k m H Hm Ha Hw]; try done.
    - apply (shift_event_some _ _ _ _ (inv_scheduler _ Hi)) in Hsh as (_ & _ & _ & ?). by split_and!.
    - by apply shift_event_none in Hsh as [-> _]. }
  split; [|done]. unfold kept. pose proof (inv_events _ Hi) as Hp. pose proof (inv_events _ Hi') as Hp'.
  rewrite E1, E2 in Hp'. rewrite Hp in Hp'. rewrite !app_assoc in Hp'. apply Permutation_app_inv_r in Hp'.
  intros Hk. assert (Hin : e ∈ (first_event (scheduler y) ++ mjoin (in_hand <$> threads y)) ++ (fired y).*2)
    by (rewrite !elem_of_app; tauto).
  rewrite Hp', !elem_of_app in Hin. tauto.
Qed.

Lemma thread_steps_keep e y y' : inv y -> rtc thread_step y y' ->
  inv y' /\ (kept e y -> kept e y') /\ now y' = now y /\ is_shutting_down (scheduler y') = is_shutting_down (scheduler y).
Proof.
  intros Hi R. induction R as [y|x y z S R IH]; [done|].
  destruct (thread_step_keeps e _ _ Hi S) as (H1 & H2 & H3).
  destruct (IH (thread_step_inv _ _ Hi S)) as (H4 & H5 & H6 & H7). split_and!; try done; [tauto|congruence..].
Qed.

Lemma check_Ret i t c s : scheduler_ok s -> exists r, check i t c s = Ret r.
Proof.
  intros [_ Hn _]. unfold check, get_sleep_time. destruct (Z.eqb_spec (number_of_events s) 0); [by eexists|].
  destruct (first_event s); [simpl in Hn; lia|]. cbn [mbind outcome_bind]. repeat case_match; by eexists.
Qed.

(** A thread that can do nothing sleeps, or is gone. *)
Lemma idle_thread y i c : inv y -> nf thread_step y -> mutex y = None -> threads y !! i = Some c ->
  c = Exited \/ exists late abstime, c = Sleeping late abstime false /\ now y < abstime.
Proof.
  intros Hi Hn Hm H. unfold nf, red in Hn.
  destruct c as [|c|c e|c|late abstime g|]; [exfalso; apply Hn|exfalso; apply Hn|exfalso; apply Hn|exfalso; apply Hn| |by left].
  - eexists. by apply step_top.
  - destruct (shift_event c (scheduler y)) as [[e|] s] eqn:E; eexists; [by eapply step_shift_some|by eapply step_shift_none].
  - eexists. by apply step_handle.
  - destruct (check_Ret i (now y) c _ (inv_scheduler _ Hi)) as ([k m] & E). eexists. by eapply step_check.
  - right. exists late, abstime. destruct (g || (abstime <=? now y)) eqn:E.
    + exfalso. apply Hn. destruct (awake i (scheduler y)) as [k m] eqn:Ew. eexists. by eapply step_wake.
    + apply orb_false_iff in E as [-> E]. split; [done|lia].
Qed.

(** Nothing moves while a thread keeps the mutex. *)
Lemma held_mutex (y y' : system) i :
  mutex y = Some i -> (forall j c e, threads y !! j <> Some (Handling c e)) -> rtc step y y' ->
  scheduler y' = scheduler y /\ fired y' = fired y /\ inserted y' = inserted y.
Proof.
  intros Hm Hh Hr. revert Hm Hh. induction Hr as [y|y y1 y2 Hs _ IH]; intros Hm Hh; [done|].
  assert (mutex y1 = Some i /\ scheduler y1 = scheduler y /\ fired y1 = fired y /\
          inserted y1 = inserted y /\ forall j c e, threads y1 !! j <> Some (Handling c e))
    as (H1 & <- & <- & <- & H2); [|by apply IH].
  destruct Hs as [y y' Hs| | | | |]; [destruct Hs|..]; simplify_eq/=; try done.
  - repeat split; [done|]. intros j c e. destruct (decide (i0 = j)) as [->|].
    + rewrite list_lookup_insert_eq by by eapply lookup_lt_Some. done.
    + rewrite list_lookup_insert_ne by done. apply Hh.
  - by destruct (Hh i0 c e).
Qed.

(** * Properties *)

(** C13: Through any interleaving of insertions, flushes, shutdown and steps
    of the retry threads, no event is lost or duplicated: the inserted
    events are those pending, in the hand of a thread, fired or flushed; no
    event fires before its time; the list stays sorted and number_of_events
    is its length. *)
Theorem scheduler_accounting t (y : system) :
  rtc step (system_new t) y ->
  inserted y ≡ₚ first_event (scheduler y) ++ mjoin (in_hand <$> threads y) ++
                (fired y).*2 ++ flushed y /\
  Forall (fun f => scheduled_at f.2 <= f.1 <= now y) (fired y) /\
  sorted (first_event (scheduler y)) /\
  number_of_events (scheduler y) = Z.of_nat (List.length (first_event (scheduler y))).
Proof.
  intros H%scheduler_run_inv; [|apply system_new_inv]. destruct H as [[] ? ? ? ?]. by repeat split.
Qed.

(** C16: From any state that insertions, flushes, spurious wakeups and the
    retry threads reach without a shutdown, the retry threads alone make a
    pending event fire when its time has come: their steps cannot go on for
    ever, and when none is left and the mutex is free, the event was fired,
    at or after its time, or a thread sleeps, as nobody has signalled it,
    until a moment that is not later than the time of the event plus what
    the thread was late when it computed its sleep. A thread that keeps the
    mutex is the case of an event due at once that is inserted while the
    thread does not hold it. *)
Theorem scheduler_due_event_fires t (y : system) e :
  rtc step (system_new t) y ->
  is_shutting_down (scheduler y) = false ->
  e ∈ first_event (scheduler y) -> scheduled_at e <= now y ->
  sn thread_step y /\
  forall y', rtc thread_step y y' -> nf thread_step y' -> mutex y' = None ->
    (exists c, (c, e) ∈ fired y' /\ scheduled_at e <= c <= now y) \/
    (exists i late abstime, threads y' !! i = Some (Sleeping late abstime false) /\
       now y < abstime <= scheduled_at e + late).
Proof.
  intros Hi%scheduler_run_inv Hd He Hn; [|apply system_new_inv]. split; [by apply thread_steps_end|].
  intros y' R Hnf Hm. destruct (thread_steps_keep e _ _ Hi R) as (Hi' & Hk & En & Ed).
  destruct (Hk (or_introl He)) as [Hp|[Hh|Hf]].
  - right. pose proof (inv_watched _ Hi') as Hw. rewrite Ed in Hw. specialize (Hw Hd).
    pose proof (ok_sorted _ (inv_scheduler _ Hi')) as Hs.
    destruct (first_event (scheduler y')) as [|f r]; [by apply not_elem_of_nil in Hp|]. destruct Hw as (i & c & Hc & Hw).
    assert (scheduled_at f <= scheduled_at e) as Hle.
    { apply elem_of_cons in Hp as [->|Hp]; [done|]. apply StronglySorted_inv in Hs as [_ Hs].
      by apply (proj1 (Forall_forall _ _) Hs). }
    destruct (idle_thread _ _ _ Hi' Hnf Hm Hc) as [->|(late & abstime & -> & Ha)]; [done|].
    exists i, late, abstime. split; [done|]. cbn in Hw. destruct Hw as [?|Hw]; [done|]. rewrite En in Ha. lia.
  - exfalso. apply list_elem_of_join in Hh as (l & Hl & Hin). apply list_elem_of_fmap in Hin as (c & -> & Hc).
    apply list_elem_of_lookup in Hc as (i & Hc).
    destruct (idle_thread _ _ _ Hi' Hnf Hm Hc) as [->|(late & abstime & -> & _)]; by apply not_elem_of_nil in Hl.
  - left. apply list_elem_of_fmap in Hf as ([c f] & -> & Hc). exists c. split; [done|].
    pose proof (proj1 (Forall_forall _ _) (inv_fired _ Hi') _ Hc) as Hb. cbn in Hb. by rewrite En in Hb.
Qed.

(** InsertEvent on a sorted list puts the new event after all events
    with the same or an earlier time and before all later ones; it creates a
    thread exactly when the list was empty and signals the condition exactly
    when the new event becomes the first of a non-empty list. *)
Theorem InsertEvent_stable (e : Event) (s : Scheduler) :
  sorted (first_event s) ->
  exists l1 l2, first_event s = l1 ++ l2 /\
    first_event (InsertEvent e s).2 = l1 ++ e :: l2 /\
    Forall (fun a => scheduled_at a <= scheduled_at e) l1 /\
    Forall (fun b => scheduled_at e < scheduled_at b) l2 /\
    ((InsertEvent e s).1 = CreateThread <-> first_event s = []) /\
    ((InsertEvent e s).1 = SignalSleep <-> l1 = [] /\ l2 <> []).
Proof.
  intros Hs. destruct (InsertEvent_split e s Hs) as (l1 & l2 & E & E' & H1 & H2 & Hn).
  exists l1, l2. do 4 (split; [done|]).
  destruct (first_event s) as [|f r] eqn:F.
  - symmetry in E. apply app_eq_nil in E as [-> ->]. unfold InsertEvent. rewrite F. simpl. naive_solver.
  - unfold InsertEvent in *. rewrite F in *.
    destruct (_ <? _); simpl in *; split; try naive_solver.
Qed.

(** Flush hands to event_removed exactly the events that the filter
    selects, in order, keeps the others in order, keeps the counter right,
    and signals the sleeping thread exactly when the first event was
    removed. *)
Theorem Flush_exact (use_filter : bool) (flush_filter : Event -> bool) (s : Scheduler) :
  scheduler_ok s ->
  let out e := negb use_filter || flush_filter e in
  let '(removed, wake, s') := Flush use_filter flush_filter s in
  removed = List.filter out (first_event s) /\
  first_event s' = List.filter (fun e => negb (out e)) (first_event s) /\
  scheduler_ok s' /\
  (wake = true <-> exists e, head (first_event s) = Some e /\ out e = true) /\
  is_shutting_down s' = is_shutting_down s.
Proof.
  intros H out. pose proof (Flush_ok use_filter flush_filter s H) as H'.
  rewrite (Flush_spec use_filter flush_filter s H) in *. simpl in *.
  repeat (split; [done|]). split; [|done].
  destruct (first_event s) as [|e l]; simpl; naive_solver.
Qed.

End Scheduler.
Arguments Event P : clear implicits.
Arguments Scheduler P : clear implicits.
Arguments system P : clear implicits.
Arguments pc P : clear implicits.

(** * Runs *)

Definition ex_event (t : Z) (n : nat) : Event nat := mkEvent t n.

Ltac run_scheduler c :=
  eapply rtc_l;
    [c; first [reflexivity | cbn; lia | cbn; eapply (signals_one _ 0); reflexivity
              | cbn; apply signals_none; by repeat constructor]
    |cbn].

(** An event of time 105 is inserted at time 100 and fires at time 105. *)
Lemma ex_run :
  exists y : system nat, rtc step (system_new 100) y /\
    fired y = [(105, ex_event 105 1)] /\ first_event (scheduler y) = [ex_event 107 2] /\
    threads y = [Shifting 105] /\ mutex y = None /\ now y = 107 /\
    is_shutting_down (scheduler y) = false.
Proof.
  eexists. split.
  { run_scheduler ltac:(eapply (step_insert _ (ex_event 107 2))).
    run_scheduler ltac:(eapply (step_insert _ (ex_event 105 1))).
    run_scheduler ltac:(eapply step_thread, (step_top _ 0)).
    run_scheduler ltac:(eapply step_thread, (step_shift_none _ 0)).
    run_scheduler ltac:(eapply step_thread, (step_check _ 0)).
    run_scheduler ltac:(eapply (step_time _ 105)).
    run_scheduler ltac:(eapply step_thread, (step_wake _ 0)).
    run_scheduler ltac:(eapply step_thread, (step_top _ 0)).
    run_scheduler ltac:(eapply step_thread, (step_shift_some _ 0)).
    run_scheduler ltac:(eapply step_thread, (step_handle _ 0)).
    run_scheduler ltac:(eapply (step_time _ 107)).
    apply rtc_refl. }
  by repeat split.
Qed.

Lemma scheduler_accounting_witness :
  exists y : system nat, rtc step (system_new 100) y /\ fired y = [(105, ex_event 105 1)] /\
    inserted y ≡ₚ first_event (scheduler y) ++ mjoin (in_hand <$> threads y) ++
                  (fired y).*2 ++ flushed y.
Proof.
  destruct ex_run as (y & Hr & Hf & _). exists y. repeat split; [done|done|].
  apply (scheduler_accounting 100 y Hr).
Defined.

(** The event of time 107 is due and is not fired yet. *)
Lemma scheduler_due_event_fires_witness :
  exists y : system nat, rtc step (system_new 100) y /\ fired y = [(105, ex_event 105 1)] /\
    sn thread_step y /\
    forall y', rtc thread_step y y' -> nf thread_step y' -> mutex y' = None ->
      (exists c, (c, ex_event 107 2) ∈ fired y' /\ 107 <= c <= now y) \/
      (exists i late abstime, threads y' !! i = Some (Sleeping late abstime false) /\
         now y < abstime <= 107 + late).
Proof.
  destruct ex_run as (y & Hr & Hf & He & Ht & Hm & Hn & Hd). exists y. split; [done|]. split; [done|].
  apply (scheduler_due_event_fires 100 y (ex_event 107 2) Hr Hd); [rewrite He; by left|rewrite Hn; reflexivity].
Defined.

Definition ex_scheduler : Scheduler nat :=
  mkScheduler 3 [ex_event 5 0; ex_event 7 1; ex_event 9 2] false.

Lemma ex_scheduler_ok : scheduler_ok ex_scheduler.
Proof. split; [repeat constructor; simpl; lia|done|simpl; lia]. Qed.

Lemma InsertEvent_stable_witness :
  exists l1 l2, first_event ex_scheduler = l1 ++ l2 /\
    first_event (InsertEvent (ex_event 7 3) ex_scheduler).2 = l1 ++ ex_event 7 3 :: l2 /\
    Forall (fun a => scheduled_at a <= 7) l1 /\ Forall (fun b => 7 < scheduled_at b) l2.
Proof.
  destruct (InsertEvent_stable (ex_event 7 3) ex_scheduler (ok_sorted _ ex_scheduler_ok))
    as (l1 & l2 & H1 & H2 & H3 & H4 & _).
  by exists l1, l2.
Defined.

Lemma Flush_exact_witness :
  (Flush true (fun e => Nat.even (data e)) ex_scheduler).1.1 = [ex_event 5 0; ex_event 9 2] /\
  scheduler_ok (Flush true (fun e => Nat.even (data e)) ex_scheduler).2.
Proof.
  pose proof (Flush_exact true (fun e => Nat.even (data e)) ex_scheduler ex_scheduler_ok) as H.
  destruct (Flush true _ ex_scheduler) as [[r w] s]. destruct H as (-> & _ & H & _). by split.
Defined.

(** * What the threads can run into *)

(** C40: A run exists where an event due at once is inserted between
    shift_event and the lock of a retry thread; the thread then goes around
    its loop without unlocking the mutex, and no event ever fires or is
    inserted again. *)
Theorem scheduler_zero_delay_deadlock :
  exists y : system nat, rtc step (system_new 100) y /\
    first_event (scheduler y) = [ex_event 100 2; ex_event 107 1] /\
    is_shutting_down (scheduler y) = false /\
    forall y', rtc step y y' ->
      first_event (scheduler y') = [ex_event 100 2; ex_event 107 1] /\ fired y' = [] /\
      inserted y' = inserted y.
Proof.
  eexists. split.
  { run_scheduler ltac:(eapply (step_insert _ (ex_event 107 1))).
    run_scheduler ltac:(eapply step_thread, (step_top _ 0)).
    run_scheduler ltac:(eapply step_thread, (step_shift_none _ 0)).
    run_scheduler ltac:(eapply (step_insert _ (ex_event 100 2))).
    run_scheduler ltac:(eapply step_thread, (step_check _ 0)).
    apply rtc_refl. }
  split; [done|]. split; [done|]. intros y' Hr.
  apply (held_mutex _ _ 0%nat) in Hr as (-> & -> & ->); [done|done|].
  by intros [|[|]] c e.
Qed.

(** A run exists where the retry thread sees the shutdown after its
    wait and exits with the mutex locked: no event can be inserted, flushed
    or fired afterwards. *)
Theorem scheduler_shutdown_keeps_mutex :
  exists y : system nat, rtc step (system_new 100) y /\ threads y = [Exited] /\
    first_event (scheduler y) = [ex_event 107 1] /\
    forall y', rtc step y y' -> scheduler y' = scheduler y /\ inserted y' = inserted y.
Proof.
  eexists. split.
  { run_scheduler ltac:(eapply (step_insert _ (ex_event 107 1))).
    run_scheduler ltac:(eapply step_thread, (step_top _ 0)).
    run_scheduler ltac:(eapply step_thread, (step_shift_none _ 0)).
    run_scheduler ltac:(eapply step_thread, (step_check _ 0)).
    run_scheduler ltac:(eapply step_shutdown).
    run_scheduler ltac:(eapply step_thread, (step_wake _ 0)).
    apply rtc_refl. }
  split; [done|]. split; [done|]. intros y' Hr.
  apply (held_mutex _ _ 0%nat) in Hr as (-> & _ & ->); [done|done|].
  by intros [|[|]] c e.
Qed.

(** A run exists where two retry threads live at once, because an event
    is inserted in the list while the last one is being handled: the handle
    that WaitForShutdown joins is that of the second one only. *)
Theorem scheduler_two_threads :
  exists y : system nat, rtc step (system_new 100) y /\
    threads y = [Shifting 105; Top] /\ retry_thread_handle y = Some 1%nat /\
    number_of_events (scheduler y) = 1 /\ is_shutting_down (scheduler y) = false.
Proof.
  eexists. split.
  { run_scheduler ltac:(eapply (step_insert _ (ex_event 105 1))).
    run_scheduler ltac:(eapply (step_time _ 105)).
    run_scheduler ltac:(eapply step_thread, (step_top _ 0)).
    run_scheduler ltac:(eapply step_thread, (step_shift_some _ 0)).
    run_scheduler ltac:(eapply (step_insert _ (ex_event 110 2))).
    run_scheduler ltac:(eapply step_thread, (step_handle _ 0)).
    apply rtc_refl. }
  by repeat split.
Qed.
