(* ===== verification/Retrier.v ===== *)
(** [Retrier.cpp]: the tasks that wait for their retry, as events of
    [Scheduler]. *)

From S2P Require Import Prelude Scheduler.

Open Scope Z_scope.

(** [TimedTask]: an event with an instance and its task. *)
Definition TimedTask : Type := Scheduler.Event (wi_ref * node_ref).

Definition Retrier : Type := Scheduler.Scheduler (wi_ref * node_ref).

Definition Retrier_new : Retrier := Scheduler_new.

Definition InsertTask (workflow_instance : wi_ref) (task : node_ref) (retry_at : Z) (s : Retrier)
    : notification * Retrier :=
  InsertEvent (mkEvent retry_at (workflow_instance, task)) s.

Section flush.
Context (GetInstanceID : wi_ref -> Z).

Definition flush_filter (filter_workflow_instance_id : Z) (e : TimedTask) : bool :=
  GetInstanceID (data e).1 =? filter_workflow_instance_id.

(** The tasks that are restarted, in order, and whether the thread is woken up. *)
Definition FlushWorkflowInstance (workflow_instance_id : Z) (s : Retrier) : list TimedTask * bool * Retrier :=
  Flush true (flush_filter workflow_instance_id) s.

(** [event_removed]: what the thread does with the event; [workflow_terminated]
    is the answer of [TaskRestart]. *)
Inductive action : Type :=
  | TaskRestart (workflow_instance : wi_ref) (task : node_ref)
  | DeleteInstance (workflow_instance : wi_ref).

Definition event_removed (e : TimedTask) (workflow_terminated : bool) : list action :=
  TaskRestart (data e).1 (data e).2 :: (if workflow_terminated then [DeleteInstance (data e).1] else []).

(** The tasks of an instance that wait, first retry first. *)
Definition waiting (id : Z) (s : Retrier) : list TimedTask :=
  List.filter (flush_filter id) (first_event s).

Lemma FlushWorkflowInstance_exact id s removed wake s' :
  scheduler_ok s -> FlushWorkflowInstance id s = (removed, wake, s') ->
  removed = waiting id s /\ waiting id s' = [] /\ scheduler_ok s' /\
  forall id', id' <> id -> waiting id' s' = waiting id' s.
Proof.
  intros H E. unfold FlushWorkflowInstance in E. pose proof (Flush_ok true (flush_filter id) s H) as Hok.
  rewrite E in Hok. rewrite (Flush_spec true (flush_filter id) s H) in E. injection E as <- _ <-.
  split; [done|]. unfold waiting. cbn [first_event negb orb]. split; [|split; [done|]].
  - clear H Hok. induction (first_event s) as [|e l IH]; [done|]. cbn [List.filter].
    destruct (flush_filter id e) eqn:F; cbn [negb List.filter]; [done|]. by rewrite F.
  - intros id' Hne. clear H Hok. induction (first_event s) as [|e l IH]; [done|]. cbn [List.filter].
    destruct (flush_filter id e) eqn:F; cbn [negb List.filter]; rewrite IH; [|done].
    assert (flush_filter id' e = false) as ->; [|done]. unfold flush_filter in *. lia.
Qed.

(** A task that is inserted comes after those of the same time. *)
Lemma InsertTask_waiting w task t s : scheduler_ok s ->
  waiting (GetInstanceID w) (InsertTask w task t s).2 ≡ₚ mkEvent t (w, task) :: waiting (GetInstanceID w) s.
Proof.
  intros [Hs _ _]. unfold InsertTask, waiting, Retrier, TimedTask.
  destruct (InsertEvent_split (mkEvent t (w, task)) s Hs) as (l1 & l2 & E & E2 & _).
  rewrite E2, E, !List.filter_app. cbn [List.filter].
  assert (flush_filter (GetInstanceID w) (mkEvent t (w, task)) = true) as -> by apply Z.eqb_refl.
  by rewrite <- Permutation_middle.
Qed.
End flush.
