(* ===== verification/Configuration.v ===== *)
(** [Configuration.cpp]: the sorted table of the configuration entries and the
    values they have. *)

From Stdlib Require Import Sorting.Sorted.
From S2P Require Import Prelude CString Lookup.

Open Scope Z_scope.

Definition CONFIGURATION_ENTRIES : Z := 33.

Definition default_configuration : list (string * string) := [
  ("core.gid","0");
  ("core.pidfile","/var/run/evqueue/evqueue.pid");
  ("core.uid","0");
  ("gc.delay","2");
  ("gc.enable","yes");
  ("gc.interval","43200");
  ("gc.limit","1000");
  ("gc.logs.retention","7");
  ("gc.workflowinstance.retention","30");
  ("logger.db.enable","no");
  ("logger.syslog.enable","yes");
  ("mysql.database","queueing");
  ("mysql.host","localhost");
  ("mysql.password","");
  ("mysql.user","");
  ("network.bind.ip","127.0.0.1");
  ("network.bind.port","5000");
  ("network.listen.backlog","64");
  ("network.rcv.timeout","30");
  ("network.snd.timeout","30");
  ("processmanager.errlogs.directory","errlogs");
  ("processmanager.errlogs.enable","no");
  ("processmanager.logs.delete","yes");
  ("processmanager.logs.directory","/tmp");
  ("processmanager.monitor.path","/usr/local/bin/evqueue_monitor");
  ("processmanager.monitor.ssh_key","");
  ("processmanager.monitor.ssh_path","/usr/bin/ssh");
  ("processmanager.tasks.directory",".");
  ("workflowinstance.saveparameters","yes");
  ("workflowinstance.savepoint.level","2");
  ("workflowinstance.savepoint.retry.enable","yes");
  ("workflowinstance.savepoint.retry.times","0");
  ("workflowinstance.savepoint.retry.wait","2")
]%string.

Record Configuration : Type := mkConfiguration {
  entries : list string;
  values : list string;
}.

(** The constructor copies the first [CONFIGURATION_ENTRIES] entries. *)
Definition Configuration_new : Configuration :=
  mkConfiguration (default_configuration.*1) (default_configuration.*2).

Definition lookup (entry : string) (c : Configuration) : outcome Z :=
  search_do (entry_cmp (entries c) entry) (S (Z.to_nat CONFIGURATION_ENTRIES))
    0 (CONFIGURATION_ENTRIES - 1).

Definition Set_ (entry value : string) (c : Configuration) : outcome (bool * Configuration) :=
  i ← lookup entry c;
  if i =? -1 then Ret (false, c)
  else
    vs ← aset (values c) i value;
    Ret (true, mkConfiguration (entries c) vs).

(** [None] is the null pointer. *)
Definition Get (entry : string) (c : Configuration) : outcome (option string) :=
  i ← lookup entry c;
  if i =? -1 then Ret None
  else
    v ← aget (values c) i;
    Ret (Some v).

Definition GetInt (entry : string) (c : Configuration) : outcome Z :=
  value ← Get entry c;
  match value with
  | None => Ret (-1)
  | Some value => Ret (atoi value)
  end.

(** [strcasecmp] reads its argument: a null pointer is undefined behaviour. *)
Definition GetBool (entry : string) (c : Configuration) : outcome bool :=
  value ← Get entry c;
  value ← deref value;
  Ret (strcasecmp_eq (chars value) (chars "yes") || strcasecmp_eq (chars value) (chars "true")
       || strcasecmp_eq (chars value) (chars "1")).

(** * The table *)

(** What every operation keeps: the entries are the default ones. *)
Definition wf (c : Configuration) : Prop :=
  entries c = default_configuration.*1 /\ List.length (values c) = 33%nat.

Lemma default_sorted : sorted_keys (default_configuration.*1).
Proof.
  assert (H : forall l : list string,
    forallb (fun '(a, b) => match strcmp a b with Lt => true | _ => false end)
      (zip l (tail l)) = true -> StronglySorted klt l).
  { intros l Hl. apply Sorted_StronglySorted.
    - intros a b c. apply kcompare_trans.
    - induction l as [|a [|b l] IH]; [constructor|repeat constructor|].
      simpl in Hl. apply andb_true_iff in Hl as [Hab Hl].
      constructor; [by apply IH|]. constructor. unfold klt. simpl.
      by destruct (strcmp a b). }
  assert (S : StronglySorted klt (default_configuration.*1)) by (apply H; by vm_compute).
  intros i j a b Hij Hi Hj. revert i j Hij Hi Hj.
  induction S as [|c l Hl IH Hc]; intros i j Hij Hi Hj; [done|].
  rewrite Forall_forall in Hc.
  destruct i as [|i], j as [|j]; simplify_eq/=; try lia.
  - apply Hc. by eapply list_elem_of_lookup_2.
  - apply (IH i j); [lia|done|done].
Qed.

Lemma config_lookup_found entry c :
  wf c -> exists i, lookup entry c = Ret i /\ found (default_configuration.*1) entry i.
Proof.
  intros [E _]. unfold lookup. rewrite E, search_do_while; try (unfold CONFIGURATION_ENTRIES; lia).
  apply search_while_found; try done; try (simpl; unfold CONFIGURATION_ENTRIES; lia).
  - apply default_sorted.
  - intros i Hi%lookup_lt_Some. unfold CONFIGURATION_ENTRIES. simpl in Hi. lia.
Qed.

(** The abstract view: a finite map from the known entries to their values. *)
Definition to_map (c : Configuration) : gmap string string :=
  list_to_map (zip (entries c) (values c)).

Lemma zip_lookup_map (ks vs : list string) i k v :
  NoDup ks -> ks !! i = Some k -> vs !! i = Some v ->
  (list_to_map (zip ks vs) : gmap string string) !! k = Some v.
Proof.
  revert ks vs. induction i as [|i IH]; intros [|k0 ks] [|v0 vs] Hn Hk Hv; simplify_eq/=.
  - by rewrite lookup_insert_eq.
  - apply NoDup_cons in Hn as [Hni Hn]. rewrite lookup_insert_ne; [by apply IH|].
    intros ->. apply Hni. by eapply list_elem_of_lookup_2.
Qed.

Lemma zip_insert_map (ks vs : list string) i k v :
  NoDup ks -> ks !! i = Some k -> (i < List.length vs)%nat ->
  (list_to_map (zip ks (<[i := v]> vs)) : gmap string string) = <[k := v]> (list_to_map (zip ks vs)).
Proof.
  revert ks vs. induction i as [|i IH]; intros [|k0 ks] [|v0 vs] Hn Hk Hv; simplify_eq/=; try lia.
  - by rewrite insert_insert_eq.
  - apply NoDup_cons in Hn as [Hni Hn]. rewrite IH by (done || lia).
    apply insert_insert_ne. intros ->. apply Hni. by eapply list_elem_of_lookup_2.
Qed.

Lemma default_NoDup : NoDup (default_configuration.*1).
Proof. apply (bool_decide_unpack _). by vm_compute. Qed.

Lemma to_map_None entry c :
  wf c -> entry ∉ default_configuration.*1 -> to_map c !! entry = None.
Proof.
  intros [E _] Hn. apply not_elem_of_list_to_map_1. intros Hin. apply Hn. rewrite <- E.
  apply list_elem_of_fmap in Hin as ([k v] & -> & Hin). by apply elem_of_zip_l in Hin.
Qed.

Lemma Get_map entry c : wf c -> Get entry c = Ret (to_map c !! entry).
Proof.
  intros W. destruct (config_lookup_found entry c W) as (i & Hl & [[Hi Hk]|[-> Hn]]); unfold Get; rewrite Hl; simpl.
  - rewrite (proj2 (Z.eqb_neq i (-1))) by lia. pose proof W as [E Hlen].
    destruct (values c !! Z.to_nat i) as [v|] eqn:Hv.
    2:{ apply lookup_ge_None in Hv. apply lookup_lt_Some in Hk. simpl in Hk. lia. }
    rewrite (proj2 (aget_Ret _ _ v)) by (split; [lia|done]). simpl. do 2 f_equal.
    symmetry. apply zip_lookup_map with (Z.to_nat i); rewrite ?E; [apply default_NoDup|done|done].
  - by rewrite to_map_None.
Qed.

Lemma Set_known entry value c :
  wf c -> entry ∈ default_configuration.*1 ->
  exists c', Set_ entry value c = Ret (true, c') /\ wf c' /\
    to_map c' = <[entry := value]> (to_map c).
Proof.
  intros W Hin. pose proof W as [E Hlen]. unfold Set_.
  destruct (config_lookup_found entry c W) as (i & -> & [[Hi Hk]|[-> Hn]]); [|done]. simpl.
  rewrite (proj2 (Z.eqb_neq i (-1))) by lia.
  assert (Z.to_nat i < List.length (values c))%nat.
  { apply lookup_lt_Some in Hk. rewrite Hlen. exact Hk. }
  eexists. rewrite (proj2 (aset_Ret _ (<[Z.to_nat i := value]> (values c)) _ _)) by (split; [lia|done]).
  split; [done|]. split; [split; [done|simpl; by rewrite length_insert]|].
  apply zip_insert_map; [rewrite E; apply default_NoDup|by rewrite E|done].
Qed.

Lemma Set_unknown entry value c :
  wf c -> entry ∉ default_configuration.*1 -> Set_ entry value c = Ret (false, c).
Proof.
  intros W Hin. unfold Set_.
  destruct (config_lookup_found entry c W) as (i & -> & [[Hi Hk]|[-> Hn]]); [|done].
  destruct Hin. by eapply list_elem_of_lookup_2.
Qed.

Lemma to_map_known entry c :
  wf c -> (to_map c !! entry = None <-> entry ∉ default_configuration.*1).
Proof.
  intros W. split; [|by apply to_map_None]. intros Hm [i Hi]%list_elem_of_lookup_1.
  unfold to_map in Hm. pose proof W as [E Hlen]. destruct (values c !! i) as [v|] eqn:Hv.
  - rewrite (zip_lookup_map _ _ i _ v) in Hm; rewrite ?E; [done|apply default_NoDup|done|done].
  - apply lookup_ge_None in Hv. apply lookup_lt_Some in Hi. simpl in Hi. lia.
Qed.

(** On any configuration built by the constructor and Set, Get and Set
    behave as lookup and update of a finite map whose domain is the known
    entries: the binary search finds every entry, Get of an unknown entry
    gives the null pointer and Set of one returns false and changes nothing. *)
Theorem Configuration_refines_map (c : Configuration) (entry value : string) :
  wf c ->
  Get entry c = Ret (to_map c !! entry) /\
  (to_map c !! entry = None -> Set_ entry value c = Ret (false, c)) /\
  (to_map c !! entry <> None -> exists c', Set_ entry value c = Ret (true, c') /\ wf c' /\
     to_map c' = <[entry := value]> (to_map c)).
Proof.
  intros W. split; [by apply Get_map|]. split.
  - intros H%to_map_known; [|done]. by apply Set_unknown.
  - intros H. apply Set_known; [done|].
    destruct (decide (entry ∈ default_configuration.*1)) as [?|n]; [done|].
    destruct H. by apply to_map_known.
Qed.

Lemma wf_new : wf Configuration_new.
Proof. done. Qed.

Lemma Configuration_refines_map_witness :
  exists c, Set_ "gc.delay" "5" Configuration_new = Ret (true, c) /\
    to_map c = <["gc.delay" := "5"]> (to_map Configuration_new).
Proof.
  destruct (Configuration_refines_map Configuration_new "gc.delay" "5" wf_new) as (_ & _ & H).
  destruct H as (c & H1 & _ & H2); [by vm_compute|]. by exists c.
Defined.
