(* ===== verification/ConfigurationReader.v ===== *)
(** [ConfigurationReader.cpp]: the parser of the configuration file. *)

From S2P Require Import Prelude CString Lookup Configuration.

Open Scope Z_scope.

Definition CONFIGURATION_LINE_MAXLEN : nat := 256.

Definition NUL : ascii := ascii_of_N 0.
Definition TAB : ascii := ascii_of_N 9.
Definition LF : ascii := ascii_of_N 10.
Definition CR : ascii := ascii_of_N 13.
Definition SPACE : ascii := ascii_of_N 32.
Definition DQUOTE : ascii := ascii_of_N 34.
Definition HASH : ascii := ascii_of_N 35.
Definition QUOTE : ascii := ascii_of_N 39.
Definition DOT : ascii := ascii_of_N 46.
Definition EQUALS : ascii := ascii_of_N 61.
Definition UNDERSCORE : ascii := ascii_of_N 95.

Notation "a =?? b" := (bool_decide (a = b :> ascii)) (at level 70, only parsing).

(** [fgets(line,n+1,f)]: the characters up to the newline, at most [n]. *)
Fixpoint read_chars (n : nat) (f : list ascii) : list ascii * list ascii :=
  match n, f with
  | O, _ | _, [] => ([], f)
  | S n, c :: f =>
      if c =?? LF then ([c], f)
      else let '(l, f) := read_chars n f in (c :: l, f)
  end.

Definition fgets (n : nat) (f : list ascii) : option (list ascii * list ascii) :=
  match f with
  | [] => None
  | _ => Some (read_chars n f)
  end.

(** The C string in a buffer that holds these characters and a final NUL. *)
Fixpoint c_string (l : list ascii) : list ascii :=
  match l with
  | [] => []
  | c :: l => if c =?? NUL then [] else c :: c_string l
  end.

Definition remove_last (c : ascii) (l : list ascii) : option (list ascii) :=
  match last l with
  | Some d => if d =?? c then Some (removelast l) else None
  | None => None
  end.

(** [len] and [line] after the two tests that trim the line.  [before] is the
    byte before the buffer, which [line[len-1]] reads when [len] is 0. *)
Definition trim (before : ascii) (line : list ascii) : Z * list ascii :=
  let len := Z.of_nat (List.length line) in
  let '(len, line) :=
    match line with
    | [] => if before =?? LF then (len - 1, line) else (len, line)
    | _ => match remove_last LF line with Some l => (len - 1, l) | None => (len, line) end
    end in
  match line with
  | [] => if before =?? CR then (len - 1, line) else (len, line)
  | _ => match remove_last CR line with Some l => (len - 1, l) | None => (len, line) end
  end.

Definition blank (c : ascii) : bool := (c =?? SPACE) || (c =?? TAB).

(** [while(test(line[i])) i++]: what is passed over and what is left. *)
Fixpoint span (test : ascii -> bool) (p : list ascii) : list ascii * list ascii :=
  match p with
  | c :: r => if test c then let '(a, b) := span test r in (c :: a, b) else ([], p)
  | [] => ([], [])
  end.

Definition skip_blanks (p : list ascii) : list ascii := (span blank p).2.

Definition entry_char (c : ascii) : bool := isalnum c || (c =?? DOT) || (c =?? UNDERSCORE).

(** The test that ends a value, with the precedence of [&&] over [||]. *)
Definition value_end (quoted : Z) (c : ascii) : bool :=
  ((quoted =? 0) && (c =?? SPACE) || (c =?? TAB) || (c =?? HASH))
  || ((quoted =? 1) && (c =?? QUOTE)) || ((quoted =? 2) && (c =?? DQUOTE)).

Definition reader_error {A} (e : string) : outcome A :=
  Throw (mkException "ConfigurationReader" e).

(** The body of the loop of [Read] up to [config->Set]; [None]: [continue]. *)
Definition read_line (before : ascii) (buffer : list ascii)
    : outcome (option (string * string)) :=
  let '(len, line) := trim before (c_string buffer) in
  if len =? 0 then Ret None
  else
    match skip_blanks line with
    | [] => Ret None
    | (c :: _) as p =>
        if c =?? HASH then Ret None
        else
          let '(entry, p) := span entry_char p in
          match entry, p with
          | [], _ => reader_error "Expected configuration entry"
          | _, [] => reader_error "Missing value"
          | _, _ =>
              match skip_blanks p with
              | e :: p =>
                  if e =?? EQUALS then
                    match skip_blanks p with
                    | [] => reader_error "Missing value"
                    | (q :: r) as p =>
                        let '(quoted, p) :=
                          if q =?? QUOTE then (1, r)
                          else if q =?? DQUOTE then (2, r)
                          else (0, p) in
                        match p with
                        | [] => reader_error "Empty value"
                        | _ =>
                            let '(value, p) := span (fun c => negb (value_end quoted c)) p in
                            match (quoted >? 0), p with
                            | true, [] => reader_error "Missing ending quote"
                            | _, _ =>
                                let p := if quoted >? 0 then tail p else p in
                                match skip_blanks p with
                                | [] => Ret (Some (string_of_list_ascii entry, string_of_list_ascii value))
                                | c :: _ =>
                                    if c =?? HASH
                                    then Ret (Some (string_of_list_ascii entry, string_of_list_ascii value))
                                    else reader_error "Garbage data after value"
                                end
                            end
                        end
                    end
                  else reader_error "Expecting '='"
              | [] => reader_error "Expecting '='"
              end
          end
    end.

(** The loop of [Read]; one unit of fuel per line. *)
Fixpoint read_lines (fuel : nat) (before : ascii) (f : list ascii) (config : Configuration)
    : outcome Configuration :=
  match fuel with
  | O => Undef
  | S fuel =>
      match fgets (CONFIGURATION_LINE_MAXLEN - 1) f with
      | None => Ret config
      | Some (line, f) =>
          kv ← read_line before line;
          match kv with
          | None => read_lines fuel before f config
          | Some (entry, value) =>
              '(found, config) ← Set_ entry value config;
              if (found : bool) then read_lines fuel before f config
              else reader_error "Unknown configuration entry"
          end
      end
  end.

(** [file]: the contents, [None] if it cannot be opened. *)
Definition Read (before : ascii) (file : option (list ascii)) : outcome Configuration :=
  match file with
  | None => reader_error "Unable to open configuration file"
  | Some f => read_lines (S (List.length f)) before f Configuration_new
  end.

(** A small file. *)
Example Read_example :
  (c ← Read NUL (Some (chars "# comment
gc.delay = 5 # seconds
core.uid='33'
")); Get "gc.delay" c) = Ret (Some "5"%string).
Proof. by vm_compute. Qed.

(** * Lines that the program understands *)

(** An entry of the file: its name, the quote around its value, the value. *)
Definition line_ok (l : string * ascii * list ascii) : Prop :=
  let '(k, q, v) := l in
  k ∈ default_configuration.*1 /\ (q = QUOTE \/ q = DQUOTE) /\
  Forall (fun c => c <> NUL /\ c <> LF /\ c <> TAB /\ c <> HASH /\ c <> q) v /\
  (List.length (chars k) + List.length v + 4 <= 255)%nat.

#[export] Instance line_ok_dec l : Decision (line_ok l).
Proof. destruct l as [[k q] v]. unfold line_ok. apply _. Defined.

Definition print_line (l : string * ascii * list ascii) : list ascii :=
  let '(k, q, v) := l in chars k ++ EQUALS :: q :: v ++ [q; LF].

Lemma span_all test l c r :
  Forall (fun c => test c = true) l -> test c = false -> span test (l ++ c :: r) = (l, c :: r).
Proof. induction 1 as [|x l Hx _ IH]; intros Hc; simpl; [by rewrite Hc|]. by rewrite Hx, IH. Qed.

Lemma read_chars_line n l r :
  Forall (fun c => c <> LF) l -> (List.length l < n)%nat -> read_chars n (l ++ LF :: r) = (l ++ [LF], r).
Proof.
  intros Hl. revert n. induction Hl as [|c l Hc Hl IH]; intros [|n] Hn; simpl in *; try lia; [done|].
  rewrite bool_decide_false by done. rewrite IH by lia. done.
Qed.

Lemma c_string_id l : Forall (fun c => c <> NUL) l -> c_string l = l.
Proof. induction 1 as [|c l Hc _ IH]; simpl; [done|]. rewrite bool_decide_false by done. by rewrite IH. Qed.

Lemma trim_line before l c :
  c <> CR -> trim before (l ++ [c; LF]) = (Z.of_nat (List.length l) + 1, l ++ [c]).
Proof.
  intros Hc. replace (l ++ [c; LF]) with ((l ++ [c]) ++ [LF]) by by rewrite <- app_assoc.
  unfold trim, remove_last.
  destruct ((l ++ [c]) ++ [LF]) as [|x y] eqn:E; [by destruct (l ++ [c])|]. rewrite <- E. clear E x y.
  rewrite last_snoc, removelast_last. simpl.
  destruct (l ++ [c]) as [|x y] eqn:E; [by destruct l|]. rewrite <- E.
  rewrite last_snoc, bool_decide_false by done. f_equal. rewrite !length_app. simpl. lia.
Qed.

Lemma key_chars k :
  k ∈ default_configuration.*1 ->
  Forall (fun c => entry_char c = true) (chars k) /\ k <> "".
Proof.
  intros Hk.
  assert (H : Forall (fun k => Forall (fun c => entry_char c = true) (chars k) /\ k <> ""%string)
            (default_configuration.*1)) by (apply (bool_decide_unpack _); by vm_compute).
  rewrite Forall_forall in H. by apply H.
Qed.

Lemma entry_char_plain c :
  entry_char c = true -> c <> NUL /\ c <> LF /\ c <> HASH /\ blank c = false.
Proof.
  intros H. repeat split; [intros ->; by vm_compute in H..|].
  unfold blank. apply orb_false_iff. split; apply bool_decide_false; intros ->; by vm_compute in H.
Qed.

Lemma skip_blanks_cons c p : blank c = false -> skip_blanks (c :: p) = c :: p.
Proof. intros H. unfold skip_blanks. simpl. by rewrite H. Qed.

(** A line up to the value. *)
Lemma read_line_value before k (q : ascii) v :
  k ∈ default_configuration.*1 -> q = QUOTE \/ q = DQUOTE ->
  Forall (fun c => c <> NUL) v -> v <> [] ->
  last v <> Some CR ->
  read_line before (chars k ++ EQUALS :: q :: v ++ [LF]) =
    let quoted := if q =?? QUOTE then 1 else 2 in
    let '(value, p) := span (fun c => negb (value_end quoted c)) v in
    match p with
    | [] => reader_error "Missing ending quote"
    | _ :: p =>
        match skip_blanks p with
        | [] => Ret (Some (k, string_of_list_ascii value))
        | c :: _ =>
            if c =?? HASH then Ret (Some (k, string_of_list_ascii value))
            else reader_error "Garbage data after value"
        end
    end.
Proof.
  intros Hk Hq Hv Hne Hcr. destruct (key_chars k Hk) as [Hkc Hk0].
  destruct v as [|d v0 _] using rev_ind; [done|]. clear Hne. rewrite last_snoc in Hcr.
  assert (Hnul : Forall (fun c => c <> NUL) (chars k ++ EQUALS :: q :: (v0 ++ [d]) ++ [LF])).
  { apply Forall_app. split.
    - eapply Forall_impl; [exact Hkc|]. intros c Hc. by apply entry_char_plain.
    - constructor; [done|]. constructor; [by destruct Hq; subst|]. apply Forall_app. by split; [|repeat constructor]. }
  unfold read_line. rewrite c_string_id by done.
  replace (chars k ++ EQUALS :: q :: (v0 ++ [d]) ++ [LF])
    with ((chars k ++ EQUALS :: q :: v0) ++ [d; LF]) by by rewrite <- !app_assoc.
  rewrite trim_line by congruence.
  rewrite (proj2 (Z.eqb_neq _ 0)) by lia.
  rewrite <- app_assoc. cbn [app].
  destruct (chars k) as [|c kc] eqn:Ek; [destruct k; [done|discriminate]|].
  pose proof (Forall_inv Hkc) as Hc. destruct (entry_char_plain c Hc) as (_ & _ & Hh & Hb).
  assert (blank q = false) as Hbq by (by destruct Hq; subst).
  cbn [app]. rewrite (skip_blanks_cons c) by done. cbv beta iota zeta.
  rewrite (bool_decide_false (c = HASH)) by done.
  change (c :: kc ++ EQUALS :: q :: v0 ++ [d]) with ((c :: kc) ++ EQUALS :: q :: v0 ++ [d]).
  rewrite (span_all entry_char (c :: kc)); [|exact Hkc|by vm_compute].
  cbv beta iota zeta. rewrite (skip_blanks_cons EQUALS) by by vm_compute. cbv beta iota zeta.
  rewrite (bool_decide_true (EQUALS = EQUALS)) by done.
  rewrite (skip_blanks_cons q) by done. cbv beta iota zeta.
  rewrite <- Ek. unfold chars. rewrite string_of_list_ascii_of_string.
  destruct Hq as [-> | ->]; simpl; destruct (v0 ++ [d]) as [|e v] eqn:Ev; try (by destruct v0);
    destruct (span _ (e :: v)) as [value [|x p]]; done.
Qed.

Lemma value_end_safe (q c : ascii) :
  c <> TAB -> c <> HASH -> c <> q ->
  value_end (if q =?? QUOTE then 1 else 2) c = false \/ (q <> QUOTE /\ q <> DQUOTE).
Proof.
  intros H1 H2 H3. destruct (decide (q = QUOTE)) as [->|Hq].
  - left. unfold value_end. rewrite bool_decide_true by done. simpl. by rewrite !bool_decide_false by done.
  - destruct (decide (q = DQUOTE)) as [->|Hq']; [|by right]. left.
    unfold value_end. rewrite (bool_decide_false (DQUOTE = QUOTE)) by done. simpl.
    by rewrite !bool_decide_false by done.
Qed.

Lemma value_end_quote (q : ascii) :
  q = QUOTE \/ q = DQUOTE -> value_end (if q =?? QUOTE then 1 else 2) q = true.
Proof. by intros [-> | ->]. Qed.

Lemma read_line_print before l :
  line_ok l -> read_line before (print_line l) = Ret (Some (l.1.1, string_of_list_ascii l.2)).
Proof.
  destruct l as [[k q] v]. intros (Hk & Hq & Hv & _). unfold print_line.
  replace (v ++ [q; LF]) with ((v ++ [q]) ++ [LF]) by by rewrite <- app_assoc.
  rewrite read_line_value; [|done|done| | |].
  - simpl. rewrite span_all; [done| |by rewrite value_end_quote].
    eapply Forall_impl; [exact Hv|]. intros c (_ & _ & H1 & H2 & H3).
    destruct (value_end_safe q c H1 H2 H3) as [->|[? ?]]; [done|]. by destruct Hq.
  - apply Forall_app. split; [|repeat constructor; by destruct Hq; subst].
    eapply Forall_impl; [exact Hv|]. by intros c [? _].
  - by destruct v.
  - rewrite last_snoc. by destruct Hq; subst.
Qed.

(** * Whole files *)

Definition print_file (ls : list (string * ascii * list ascii)) : list ascii :=
  mjoin (print_line <$> ls).

Lemma line_no_LF l :
  line_ok l -> exists b, print_line l = b ++ [LF] /\ Forall (fun c => c <> LF) b /\
    (List.length b < 255)%nat.
Proof.
  destruct l as [[k q] v]. intros (Hk & Hq & Hv & Hlen).
  exists (chars k ++ EQUALS :: q :: v ++ [q]). split.
  - unfold print_line. rewrite <- !app_assoc. simpl. by rewrite <- app_assoc.
  - split.
    + apply Forall_app. split; [|constructor; [done|]].
      * eapply Forall_impl; [apply key_chars; exact Hk|]. intros c Hc. by apply entry_char_plain.
      * constructor; [by destruct Hq; subst|]. apply Forall_app.
        split; [|repeat constructor; by destruct Hq; subst].
        eapply Forall_impl; [exact Hv|]. by intros c (_ & ? & _).
    + rewrite length_app. simpl. rewrite length_app. simpl. lia.
Qed.

Lemma fgets_print l r :
  line_ok l -> fgets (CONFIGURATION_LINE_MAXLEN - 1) (print_line l ++ r) = Some (print_line l, r).
Proof.
  intros (b & E & Hb & Hlen)%line_no_LF. unfold fgets. rewrite E, <- app_assoc. cbn [app].
  assert (List.length b < CONFIGURATION_LINE_MAXLEN - 1)%nat by exact Hlen.
  rewrite (read_chars_line _ b r); [by destruct b|done|done].
Qed.

Lemma read_lines_print fuel before ls c :
  Forall line_ok ls -> wf c -> (List.length ls < fuel)%nat ->
  exists c', read_lines fuel before (print_file ls) c = Ret c' /\ wf c' /\
    to_map c' = foldl (fun m l => <[l.1.1 := string_of_list_ascii l.2]> m) (to_map c) ls.
Proof.
  intros Hls. revert fuel c. induction Hls as [|l ls Hl Hls IH]; intros [|fuel] c W Hf; simpl in Hf; try lia.
  - exists c. done.
  - unfold print_file. cbn [fmap list_fmap mjoin list_join read_lines].
    rewrite fgets_print by done. rewrite read_line_print by done. cbn [mbind outcome_bind].
    destruct (Set_known l.1.1 (string_of_list_ascii l.2) c W) as (c1 & Hset & W1 & M1).
    { by destruct l as [[k q] v], Hl. }
    rewrite Hset. cbn [mbind outcome_bind].
    destruct (IH fuel c1 W1) as (c' & Hr & W' & M'); [lia|].
    exists c'. split; [exact Hr|]. split; [done|]. simpl. by rewrite M', M1.
Qed.

Lemma print_file_length ls : (List.length ls <= List.length (print_file ls))%nat.
Proof.
  induction ls as [|[[k q] v] ls IH]; [done|].
  change (print_file ((k, q, v) :: ls)) with (print_line (k, q, v) ++ print_file ls).
  unfold print_line. rewrite !length_app. cbn [List.length]. lia.
Qed.

(** C32: Reading a file of lines entry="value" (or with single quotes) that
    fit in the line buffer gives the configuration in which these entries
    have these values, the last one winning, when the values contain no tab,
    hash or closing quote. *)
Theorem Read_print_file (before : ascii) (ls : list (string * ascii * list ascii)) :
  Forall line_ok ls ->
  exists c, Read before (Some (print_file ls)) = Ret c /\
    to_map c = foldl (fun m l => <[l.1.1 := string_of_list_ascii l.2]> m) (to_map Configuration_new) ls.
Proof.
  intros Hls. pose proof (print_file_length ls) as Hlen.
  destruct (read_lines_print (S (List.length (print_file ls))) before ls Configuration_new)
    as (c & Hr & _ & Hm); [done|apply wf_new|lia|]. by exists c.
Qed.

Definition ex_lines : list (string * ascii * list ascii) :=
  [("mysql.password"%string, DQUOTE, chars "it's = 3 "); ("gc.delay"%string, QUOTE, chars "10");
   ("mysql.password"%string, QUOTE, [])].

Lemma ex_lines_ok : Forall line_ok ex_lines.
Proof. apply (bool_decide_unpack _). by vm_compute. Qed.

Lemma Read_print_file_witness :
  exists c, Read NUL (Some (print_file ex_lines)) = Ret c /\ to_map c !! "gc.delay" = Some "10".
Proof.
  destruct (Read_print_file NUL ex_lines ex_lines_ok) as (c & H1 & H2). exists c. split; [done|].
  rewrite H2. by vm_compute.
Defined.

(** A quoted value that contains a hash is cut there, so that the line
    is rejected with 'Garbage data after value'. *)
Theorem read_line_quoted_hash (before : ascii) k (q : ascii) v w (d : ascii) :
  line_ok (k, q, v) -> blank d = false -> d <> HASH ->
  Forall (fun c => c <> NUL) (d :: w) ->
  read_line before (chars k ++ EQUALS :: q :: v ++ HASH :: d :: w ++ [q; LF]) =
    Throw (mkException "ConfigurationReader" "Garbage data after value").
Proof.
  intros (Hk & Hq & Hv & _) Hd Hh Hw.
  replace (v ++ HASH :: d :: w ++ [q; LF]) with ((v ++ HASH :: (d :: w) ++ [q]) ++ [LF])
    by by rewrite <- !app_assoc; simpl; rewrite <- !app_assoc.
  rewrite read_line_value; [|done|done| | |].
  - cbv zeta. rewrite span_all.
    + change ((d :: w) ++ [q]) with (d :: (w ++ [q])). rewrite skip_blanks_cons by done.
      by rewrite (bool_decide_false (d = HASH)).
    + eapply Forall_impl; [exact Hv|]. intros c (_ & _ & H1 & H2 & H3).
      destruct (value_end_safe q c H1 H2 H3) as [->|[? ?]]; [done|]. by destruct Hq.
    + unfold value_end. by rewrite (bool_decide_true (HASH = HASH)), !orb_true_r.
  - apply Forall_app. split.
    + eapply Forall_impl; [exact Hv|]. by intros c [? _].
    + constructor; [done|]. apply Forall_app. split; [done|]. repeat constructor. by destruct Hq; subst.
  - by destruct v.
  - rewrite app_comm_cons, app_assoc, last_snoc. by destruct Hq; subst.
Qed.

Lemma read_line_quoted_hash_witness :
  read_line NUL (chars "mysql.password='a#b'
") = Throw (mkException "ConfigurationReader" "Garbage data after value").
Proof.
  apply (read_line_quoted_hash NUL "mysql.password" QUOTE (chars "a") [] (ascii_of_N 98)).
  - apply (bool_decide_unpack _). by vm_compute.
  - by vm_compute.
  - done.
  - by repeat constructor.
Defined.
