(* ===== verification/Main.v ===== *)
(** [evqueue.cpp]: the main program, from its arguments to its exit code, and the
    commands of [tools.cpp].  What it asks of the system and of the other components
    is recorded in order; what these answer is an [environment]. *)

From Stdlib Require Import Sorted.
From stdpp Require Import sorting.
From S2P Require Import Prelude CString Configuration.

Open Scope Z_scope.

(** * Arguments *)

Inductive command : Type :=
  | QueueDestroy
  | QueueStats
  | UnknownOption (option : string)
  | NoConfiguration
  | Launch (config_filename : string) (daemonize : bool).

Definition is_option (argument option : string) : bool :=
  match strcmp argument option with Eq => true | _ => false end.

(** The loop on [argv], from [argv[1]] on. *)
Fixpoint parse_arguments (argv : list string) (config_filename : option string) (daemonize : bool) : command :=
  match argv with
  | [] => match config_filename with None => NoConfiguration | Some f => Launch f daemonize end
  | a :: argv =>
      if is_option a "--daemon" then parse_arguments argv config_filename true
      else
        let others := if is_option a "--ipcq-remove" then QueueDestroy
                      else if is_option a "--ipcq-stats" then QueueStats
                      else UnknownOption a in
        match argv with
        | next :: argv => if is_option a "--config" then parse_arguments argv (Some next) daemonize else others
        | [] => others
        end
  end.

(** Any sequence of complete options is accepted; the last configuration counts. *)
Inductive argument : Type := Daemon | Config (config_filename : string).

Definition print_argument (a : argument) : list string :=
  match a with Daemon => ["--daemon"] | Config f => ["--config"; f] end%string.

Lemma parse_print l config_filename daemonize :
  parse_arguments (l ≫= print_argument) config_filename daemonize =
    match last (omap (fun a => match a with Config f => Some f | Daemon => None end) l) with
    | Some f => Launch f (daemonize || existsb (fun a => match a with Daemon => true | Config _ => false end) l)
    | None => match config_filename with
              | Some f => Launch f (daemonize || existsb (fun a => match a with Daemon => true | Config _ => false end) l)
              | None => NoConfiguration
              end
    end.
Proof.
  revert config_filename daemonize. induction l as [|[|f] l IH]; intros c d.
  - cbn. destruct c; [|done]. by rewrite orb_false_r.
  - change ((Daemon :: l) ≫= print_argument) with ("--daemon"%string :: (l ≫= print_argument)).
    cbn [parse_arguments]. change (is_option "--daemon" "--daemon") with true. cbv iota.
    rewrite IH. cbn. by rewrite orb_true_r.
  - change ((Config f :: l) ≫= print_argument) with ("--config"%string :: f :: (l ≫= print_argument)).
    cbn [parse_arguments]. change (is_option "--config" "--daemon") with false. change (is_option "--config" "--config") with true.
    cbv iota. rewrite IH. clear IH. cbn [existsb orb].
    change (omap (fun a => match a with Config f => Some f | Daemon => None end) (Config f :: l))
      with (f :: omap (fun a => match a with Config f => Some f | Daemon => None end) l).
    rewrite last_cons. by destruct (last (omap _ l)).
Qed.

(** * Actions *)

Inductive component : Type :=
  | Logger | SequenceGenerator | Statistics | Retrier | WorkflowScheduler | QueuePool | WorkflowInstances
  | Workflows | Tasks | RetrySchedules | ProcessManager | GarbageCollector.

Inductive action : Type :=
  | CloseListenSocket
  | ReloadScheduler | ReloadTasks | ReloadRetrySchedules | ReloadWorkflows
  | FlushRetrier
  | InitializeLibraries | OpenLog | InstallHandlers
  | OpenPidFile (pidfile : string) | Daemonize | WritePid
  | New (c : component)
  | ResumeInstance (id : Z) | DeleteInstance (id : Z)
  | DeleteExecuting
  | LoadSchedule (id : Z) | DeleteSchedule (id : Z)
  | Bind (address : option string) (port : Z) | Listen (backlog : Z)
  | HandleConnection (s : Z)
  | Shutdown (c : component) | WaitForShutdown (c : component)
  | RecordSavepoint
  | Delete (c : component)
  | TerminateLibraries
  | UnlinkPidFile (pidfile : string)
  | Syslog (e : Exception) | PrintError (e : Exception)
  | Print (text : string) | PrintUsage.

Inductive signal : Type := SIGINT | SIGTERM | SIGHUP | SIGUSR1.

Definition signal_callback_handler (signum : signal) : list action :=
  match signum with
  | SIGINT | SIGTERM => [CloseListenSocket]
  | SIGHUP => [ReloadScheduler; ReloadTasks; ReloadRetrySchedules; ReloadWorkflows]
  | SIGUSR1 => [FlushRetrier]
  end.

(** A computation and the actions that it did, also when it failed. *)
Definition M (A : Type) : Type := list action * outcome A.

#[export] Instance M_ret : MRet M := fun _ a => ([], Ret a).


(** * The message queue *)

Module Tools.
(** What [msgget] and [msgctl] answer; [errno] is one of these or another number. *)
Inductive errno : Type := EACCES | ENOENT | EPERM | Errno (n : Z).

Record ipc : Type := mkIpc {
  msgget : Z + errno;
  msgctl_rmid : option errno;
  msgctl_stat : (Z * Z) + errno;
}.



End Tools.

(** * Start *)

(** An instance to resume: its identifier, what its constructor does, and what
    [Resume] does then. *)
Record resumed : Type := mkResumed {
  instance_id : Z;
  construct_instance : outcome unit;
  resume : outcome bool;
}.

(** A schedule to load, in the same way. *)
Record scheduled : Type := mkScheduled {
  schedule_id : Z;
  construct_schedule : outcome unit;
  schedule_workflow : outcome unit;
}.

Inductive accepted : Type := Connection (s : Z) | Interrupted | Failed.

(** What the system, the database and the constructors answer. *)
Record environment : Type := mkEnvironment {
  read_configuration : string -> outcome Configuration.Configuration;
  construct : component -> outcome unit;
  open_pidfile : string -> bool;
  setgid : Z -> bool;
  setuid : Z -> bool;
  connect_db : outcome unit;
  executing : outcome (list resumed);
  delete_executing : outcome unit;
  schedules : outcome (list scheduled);
  bind_socket : option string -> Z -> bool;
  listen_socket : Z -> bool;
  accepts : list accepted;
  ipcq : Tools.ipc;
}.




Section main.
Context (env : environment).










(** * The loop on connections *)






End main.

(** * The order of the actions *)









Section life.
Context (env : environment).









End life.






