(* ===== verification/DB.v ===== *)
(** [DB.cpp]: the statements that the engine sends to MySQL, which
    [QueryPrintf] builds in a buffer of its own, and the results that it reads
    back.  The client library is a parameter. *)

From S2P Require Import Prelude CString.

Open Scope Z_scope.

(** * The client library *)

(** A row is a list of fields; [None] is the SQL value [NULL]. *)
Definition row_type : Type := list (option string).

(** What a statement gives: an error, no result set, a result set that could not
    be stored, or rows. *)
Inductive answer : Type :=
  | Error_ (message : string)
  | NoResultSet
  | NotStored (message : string)
  | Rows (rows : list row_type).

Class Mysql : Type := {
  mysql_query : string -> answer;
  mysql_real_escape_string : list ascii -> list ascii;
}.

(** The documentation asks for a buffer of [2*length+1] bytes. *)
Class MysqlLaws (M : Mysql) : Prop :=
  escape_length : forall s, (List.length (mysql_real_escape_string s) <= 2 * List.length s)%nat.

(** * [QueryPrintf] *)

(** The variadic arguments: pointers to strings and to integers. *)
Inductive arg : Type :=
  | ArgString (s : option string)
  | ArgInt (i : option Z).

Section DB.
Context `{Mysql}.

(** The first loop: [escaped_len].  Taking an argument of another type, or one
    that was not passed, is undefined behaviour. *)
Fixpoint escaped_length (query : list ascii) (args : list arg) (escaped_len : Z) : outcome Z :=
  match query with
  | [] => Ret escaped_len
  | c :: rest =>
      if bool_decide (c = "%"%char) then
        match rest with
        | "s"%char :: rest =>
            match args with
            | ArgString (Some s) :: args => escaped_length rest args (i32 (escaped_len + (2 + 2 * strlen s)))
            | ArgString None :: args => escaped_length rest args (i32 (escaped_len + 4))
            | _ => Undef
            end
        | "i"%char :: rest =>
            match args with
            | ArgInt (Some _) :: args => escaped_length rest args (i32 (escaped_len + 16))
            | ArgInt None :: args => escaped_length rest args (i32 (escaped_len + 4))
            | _ => Undef
            end
        | _ => escaped_length rest args (i32 (escaped_len + 1))
        end
      else escaped_length rest args (i32 (escaped_len + 1))
  end.

(** The buffer [new char[size]] and what is in it up to [j]. *)
Record buffer : Type := mkBuffer { size : Z; written : list ascii }.

Definition j (b : buffer) : Z := Z.of_nat (List.length (written b)).

(** Writes characters, and a terminating NUL that is not kept when [nul]. *)
Definition put (s : list ascii) (nul : bool) (b : buffer) : outcome buffer :=
  if j b + Z.of_nat (List.length s) + (if nul then 1 else 0) <=? size b
  then Ret (mkBuffer (size b) (written b ++ s))
  else Undef.

Definition put_string (s : option string) (b : buffer) : outcome buffer :=
  match s with
  | Some s =>
      b ← put ["'"%char] false b;
      b ← put (mysql_real_escape_string (chars s)) true b;
      put ["'"%char] false b
  | None => put (chars "NULL") true b
  end.

Definition put_int (i : option Z) (b : buffer) : outcome buffer :=
  match i with
  | Some i => put (chars (sprintf_d i)) true b
  | None => put (chars "NULL") true b
  end.

(** The second loop. *)
Fixpoint escape_query (query : list ascii) (args : list arg) (b : buffer) : outcome buffer :=
  match query with
  | [] => Ret b
  | c :: rest =>
      if bool_decide (c = "%"%char) then
        match rest with
        | "s"%char :: rest =>
            match args with
            | ArgString s :: args => b ← put_string s b; escape_query rest args b
            | _ => Undef
            end
        | "i"%char :: rest =>
            match args with
            | ArgInt i :: args => b ← put_int i b; escape_query rest args b
            | _ => Undef
            end
        | _ => b ← put [c] false b; escape_query rest args b
        end
      else b ← put [c] false b; escape_query rest args b
  end.

(** The statement that [QueryPrintf] hands to [Query]. *)
Definition format (query : list ascii) (args : list arg) : outcome (list ascii) :=
  escaped_len ← escaped_length query args 0;
  b ← escape_query query args (mkBuffer (escaped_len + 1) []);
  b ← put [] true b;
  Ret (written b).

(** * Statements and results *)

(** [res]: the stored result set, as its rows and the position of the next one to
    fetch; [row]: the current row, [Some None] for a null one, and [None] while
    the field has no value or points into a result set that was freed. *)
Record DB : Type := mkDB {
  res : option (list row_type * nat);
  row : option (option row_type);
}.

Definition DB_new : DB := mkDB None None.

(** The result set, if there is one, is freed. *)
Definition Free (db : DB) : DB :=
  mkDB None (match row db with Some (Some _) => None | r => r end).

Definition Query (query : list ascii) (db : DB) : outcome DB :=
  let db := Free db in
  match mysql_query (string_of_list_ascii query) with
  | Error_ e | NotStored e => Throw (mkException "DB" e)
  | NoResultSet => Ret db
  | Rows rows => Ret (mkDB (Some (rows, 0%nat)) (row db))
  end.

Definition QueryPrintf (query : string) (args : list arg) (db : DB) : outcome DB :=
  escaped_query ← format (chars query) args;
  Query escaped_query db.

Definition FetchRow (db : DB) : bool * DB :=
  match res db with
  | None => (false, db)
  | Some (rows, n) =>
      match rows !! n with
      | Some r => (true, mkDB (Some (rows, S n)) (Some (Some r)))
      | None => (false, mkDB (Some (rows, n)) (Some None))
      end
  end.

(** A negative offset is a large one for the library. *)
Definition Seek (offset : Z) (db : DB) : DB :=
  match res db with
  | None => db
  | Some (rows, _) => mkDB (Some (rows, if offset <? 0 then List.length rows else Z.to_nat offset)) (row db)
  end.

Definition NumRows (db : DB) : Z :=
  match res db with
  | Some (rows, _) => Z.of_nat (List.length rows)
  | None => -1
  end.

(** A field outside of the row is read out of bounds; so is one of a row that was
    not fetched from this result set. *)
Definition GetField (n : nat) (db : DB) : outcome (option string) :=
  match res db, row db with
  | None, _ | Some _, Some None => Ret None
  | Some _, Some (Some r) => deref (r !! n)
  | Some _, None => Undef
  end.

Definition GetFieldInt (n : nat) (db : DB) : outcome Z :=
  v ← GetField n db;
  Ret (match v with Some v => atoi v | None => 0 end).

(** [while(db.FetchRow()) ...], as the rows that the loop sees. *)
Definition fetch_all (db : DB) : list row_type :=
  match res db with
  | Some (rows, n) => drop n rows
  | None => []
  end.
End DB.

(** * The statement is the template with its arguments *)

Section format.
Context `{M : Mysql} {L : MysqlLaws M}.

(** A template as its pieces: a literal character or an argument. *)
Definition text_of (a : arg) : list ascii :=
  match a with
  | ArgString (Some s) => "'"%char :: mysql_real_escape_string (chars s) ++ ["'"%char]
  | ArgInt (Some i) => chars (sprintf_d i)
  | _ => chars "NULL"
  end.

Definition directive (a : arg) : list ascii :=
  match a with
  | ArgString _ => ["%"; "s"]%char
  | ArgInt _ => ["%"; "i"]%char
  end.

Definition template (pieces : list (ascii + arg)) : list ascii :=
  mjoin ((fun p => match p with inl c => [c] | inr a => directive a end) <$> pieces).
Definition arguments (pieces : list (ascii + arg)) : list arg :=
  omap (fun p => match p with inl _ => None | inr a => Some a end) pieces.
Definition statement (pieces : list (ascii + arg)) : list ascii :=
  mjoin ((fun p => match p with inl c => [c] | inr a => text_of a end) <$> pieces).

(** What a piece adds to [escaped_len]. *)
Definition room (p : ascii + arg) : Z :=
  match p with
  | inl _ => 1
  | inr (ArgString (Some s)) => 2 + 2 * strlen s
  | inr (ArgInt (Some _)) => 16
  | inr _ => 4
  end.
Definition rooms (pieces : list (ascii + arg)) : Z := foldr (fun p n => room p + n) 0 pieces.

Definition piece_ok (p : ascii + arg) : Prop :=
  match p with
  | inl c => c <> "%"%char
  | inr (ArgInt (Some i)) => - 2 ^ 31 <= i < 2 ^ 31
  | inr _ => True
  end.

Lemma room_pos p : 0 <= room p.
Proof. destruct p as [c|[[s|]|[i|]]]; simpl; unfold strlen; lia. Qed.

Lemma rooms_pos ps : 0 <= rooms ps.
Proof. induction ps as [|p ps IH]; simpl; [lia|]. pose proof (room_pos p). lia. Qed.

Lemma template_cons p ps :
  template (p :: ps) = match p with inl c => [c] | inr a => directive a end ++ template ps.
Proof. done. Qed.

Lemma escaped_length_spec ps n :
  Forall piece_ok ps -> 0 <= n -> n + rooms ps < 2 ^ 31 ->
  escaped_length (template ps) (arguments ps) n = Ret (n + rooms ps).
Proof.
  revert n. induction ps as [|p ps IH]; intros n; [simpl; intros; f_equal; lia|].
  intros [Hp Hps]%Forall_cons Hn Hb. cbn [rooms foldr] in *. fold (rooms ps) in *.
  pose proof (room_pos p). pose proof (rooms_pos ps).
  rewrite template_cons. replace (n + (room p + rooms ps)) with (n + room p + rooms ps) by lia.
  rewrite <- IH by (done || lia).
  destruct p as [c|[[s|]|[i|]]]; cbn [directive app escaped_length arguments omap list_omap room];
    [rewrite bool_decide_false by done|..]; rewrite i32_small by (cbn in *; lia); done.
Qed.

Lemma put_fits (s : list ascii) (nul : bool) b :
  j b + Z.of_nat (List.length s) + (if nul then 1 else 0) <= size b ->
  put s nul b = Ret (mkBuffer (size b) (written b ++ s)).
Proof. intros Hf. unfold put. by rewrite (proj2 (Z.leb_le _ _)). Qed.

(** Writing a piece where there is room for it and for a NUL. *)
Lemma put_string_fits s b :
  j b + room (inr (ArgString s)) + 1 <= size b ->
  put_string s b = Ret (mkBuffer (size b) (written b ++ text_of (ArgString s))) /\
  Z.of_nat (List.length (text_of (ArgString s))) <= room (inr (ArgString s)).
Proof.
  destruct s as [s|]; cbn [room text_of put_string]; intros Hf.
  - pose proof (escape_length (chars s)) as He. rewrite strlen_chars in *. unfold j in *.
    split; [|rewrite length_cons, length_app; simpl; lia].
    rewrite put_fits by (unfold j; simpl; lia). cbn [mbind outcome_bind].
    rewrite put_fits by (unfold j; cbn [size written]; rewrite length_app; simpl; lia). cbn [mbind outcome_bind size written].
    rewrite put_fits by (unfold j; cbn [size written]; rewrite !length_app; simpl; lia). cbn [size written].
    by rewrite <- !app_assoc.
  - split; [|simpl; lia]. apply put_fits. simpl. lia.
Qed.

Lemma put_int_fits i b :
  piece_ok (inr (ArgInt i)) -> j b + room (inr (ArgInt i)) + 1 <= size b ->
  put_int i b = Ret (mkBuffer (size b) (written b ++ text_of (ArgInt i))) /\
  Z.of_nat (List.length (text_of (ArgInt i))) <= room (inr (ArgInt i)).
Proof.
  destruct i as [i|]; cbn [room text_of put_int piece_ok]; intros Hi Hf.
  - pose proof (strlen_sprintf_d i Hi) as Hl. rewrite strlen_chars in Hl. split; [|lia]. apply put_fits. lia.
  - split; [|simpl; lia]. apply put_fits. simpl. lia.
Qed.

Lemma escape_query_spec ps b :
  Forall piece_ok ps -> j b + rooms ps + 1 <= size b ->
  escape_query (template ps) (arguments ps) b = Ret (mkBuffer (size b) (written b ++ statement ps)).
Proof.
  revert b. induction ps as [|p ps IH]; intros b.
  { intros _ _. cbn. rewrite app_nil_r. by destruct b. }
  intros [Hp Hps]%Forall_cons Hb. cbn [rooms foldr] in Hb. fold (rooms ps) in Hb.
  pose proof (rooms_pos ps). rewrite template_cons.
  change (statement (p :: ps)) with (match p with inl c => [c] | inr a => text_of a end ++ statement ps).
  destruct p as [c|[s|i]]; cbn [directive app escape_query arguments omap list_omap].
  - rewrite bool_decide_false by done. cbn [room] in Hb. rewrite put_fits by (simpl; lia). cbn [mbind outcome_bind].
    fold (arguments ps). rewrite IH; [|done|unfold j in *; cbn [size written]; rewrite length_app; simpl; lia].
    cbn [size written]. by rewrite <- app_assoc.
  - destruct (put_string_fits s b ltac:(lia)) as [-> Hl]. cbn [mbind outcome_bind].
    fold (arguments ps). rewrite IH; [|done|unfold j in *; cbn [size written]; rewrite length_app; lia].
    cbn [size written]. by rewrite <- app_assoc.
  - destruct (put_int_fits i b Hp ltac:(lia)) as [-> Hl]. cbn [mbind outcome_bind].
    fold (arguments ps). rewrite IH; [|done|unfold j in *; cbn [size written]; rewrite length_app; lia].
    cbn [size written]. by rewrite <- app_assoc.
Qed.

(** What is written fits in the room of the first pass. *)
Lemma statement_length ps : Forall piece_ok ps -> Z.of_nat (List.length (statement ps)) <= rooms ps.
Proof.
  induction 1 as [|p ps Hok Hp IH]; [done|].
  change (statement (p :: ps)) with (match p with inl c => [c] | inr a => text_of a end ++ statement ps).
  rewrite length_app. cbn [rooms foldr]. fold (rooms ps). destruct p as [c|[s|i]].
  - simpl. lia.
  - destruct (put_string_fits s (mkBuffer (room (inr (ArgString s)) + 1) [])) as [_ Hl]; [unfold j; simpl; lia|lia].
  - destruct (put_int_fits i (mkBuffer (room (inr (ArgInt i)) + 1) []) Hok) as [_ Hl]; [unfold j; simpl; lia|lia].
Qed.

Lemma format_spec ps :
  Forall piece_ok ps -> rooms ps < 2 ^ 31 - 1 -> format (template ps) (arguments ps) = Ret (statement ps).
Proof.
  intros Hp Hr. unfold format. rewrite escaped_length_spec by (done || lia). cbn [mbind outcome_bind].
  rewrite escape_query_spec; [|done|unfold j; simpl; lia]. cbn [mbind outcome_bind size written app].
  rewrite put_fits; [cbn [mbind outcome_bind written]; by rewrite app_nil_r|].
  pose proof (statement_length ps Hp). unfold j. cbn [written size]. simpl. lia.
Qed.

(** C22: Whatever the strings and integers, as long as the room counted by
    the first pass fits in an int and the template has no other percent sign
    than its conversions, QueryPrintf never writes outside of the buffer
    that it allocates, and the statement it sends is the template with every
    argument replaced by its escaped and quoted text, its decimal digits or
    NULL. *)
Theorem QueryPrintf_bounds ps db :
  Forall piece_ok ps -> rooms ps < 2 ^ 31 - 1 ->
  QueryPrintf (string_of_list_ascii (template ps)) (arguments ps) db = Query (statement ps) db.
Proof.
  intros Hp Hr. unfold QueryPrintf, chars. by rewrite list_ascii_of_string_of_list_ascii, format_spec.
Qed.
End format.

(** A library that escapes quotes and backslashes, without a server. *)
Definition ex_escape (s : list ascii) : list ascii :=
  s ≫= fun c => if bool_decide (c = "'"%char \/ c = "\"%char) then ["\"%char; c] else [c].
Definition ex_mysql : Mysql := {| mysql_query := fun _ => Rows [[Some "7"]]; mysql_real_escape_string := ex_escape |}.

Lemma ex_mysql_laws : MysqlLaws ex_mysql.
Proof.
  intros s. cbn [mysql_real_escape_string ex_mysql]. induction s as [|c s IH]; [simpl; lia|].
  unfold ex_escape. rewrite bind_cons, length_app. fold (ex_escape s).
  case_bool_decide; simpl in *; lia.
Qed.

Definition ex_pieces : list (ascii + arg) :=
  (inl <$> chars "SELECT ") ++ [inr (ArgString (Some "it's")); inl ","%char; inr (ArgInt (Some (-5)))].

Lemma QueryPrintf_bounds_witness :
  string_of_list_ascii (template ex_pieces) = "SELECT %s,%i" /\
  string_of_list_ascii (@statement ex_mysql ex_pieces) = "SELECT 'it\'s',-5" /\
  @QueryPrintf ex_mysql (string_of_list_ascii (template ex_pieces)) (arguments ex_pieces) DB_new =
    @Query ex_mysql (@statement ex_mysql ex_pieces) DB_new.
Proof.
  split; [vm_compute; reflexivity|]. split; [vm_compute; reflexivity|].
  apply (@QueryPrintf_bounds ex_mysql ex_mysql_laws).
  - repeat constructor; simpl; try done; lia.
  - vm_compute. reflexivity.
Defined.
