(* ===== verification/DBConnection.v ===== *)
(** The objects of [DB.cpp] with what they hold of the client library: handles of
    connections and stored result sets.  An object made from another one shares
    its connection.  [DB] describes each object by a value. *)

From S2P Require Import Prelude CString DB.

Open Scope Z_scope.

Section DBConnection.
Context `{Mysql}.

(** * Objects and resources *)

(** [MYSQL_ROW row]: without a value, null, or a row of a result set. *)
Inductive MYSQL_ROW : Type := Unset | Null | RowOf (set : positive) (r : row_type).

Record DB : Type := mkDB {
  mysql : positive;
  res : option positive;
  row : MYSQL_ROW;
  is_copy : bool;
}.

(** The handles that are not closed and the result sets that are not freed, with
    the position of their next row.  An address is not used twice. *)
Record library : Type := mkLibrary {
  handles : gset positive;
  sets : gmap positive (list row_type * nat);
  next : positive;
}.

Definition library_empty : library := mkLibrary ∅ ∅ 1%positive.

Definition set_res (r : option positive) (db : DB) : DB := mkDB (mysql db) r (row db) (is_copy db).
Definition set_row (r : MYSQL_ROW) (db : DB) : DB := mkDB (mysql db) (res db) r (is_copy db).

(** A function of the library on a handle or on a result set. *)
Definition handle (m : positive) (s : library) : outcome unit :=
  if decide (m ∈ handles s) then Ret tt else Undef.
Definition mysql_free_result (r : positive) (s : library) : outcome library :=
  _ ← deref (sets s !! r);
  Ret (mkLibrary (handles s) (delete r (sets s)) (next s)).
Definition mysql_close (m : positive) (s : library) : outcome library :=
  _ ← handle m s;
  Ret (mkLibrary (handles s ∖ {[m]}) (sets s) (next s)).

(** * Operations *)

(** The constructor without arguments; [error]: why the server refused.  The
    handle of a connection that failed is not closed. *)
Definition DB_new (error : option string) (s : library) : outcome DB * library :=
  let m := next s in
  let s := mkLibrary ({[m]} ∪ handles s) (sets s) (Pos.succ m) in
  match error with
  | Some e => (Throw (mkException "DB" e), s)
  | None => (Ret (mkDB m None Unset false), s)
  end.

Definition DB_copy (db : DB) : DB := mkDB (mysql db) None Unset true.

Definition DB_delete (db : DB) (s : library) : outcome library :=
  s ← match res db with Some r => mysql_free_result r s | None => Ret s end;
  if is_copy db then Ret s else mysql_close (mysql db) s.

Definition Clone (db : DB) : DB := DB_copy db.

Definition Ping (error : option string) (db : DB) (s : library) : outcome unit :=
  _ ← handle (mysql db) s;
  match error with Some e => Throw (mkException "DB" e) | None => Ret tt end.

Definition Free (db : DB) (s : library) : outcome (DB * library) :=
  match res db with
  | Some r => s ← mysql_free_result r s; Ret (set_res None db, s)
  | None => Ret (db, s)
  end.

(** The exception, if any, and the object after it. *)
Definition Query (query : list ascii) (db : DB) (s : library) : outcome (option Exception * DB * library) :=
  '(db, s) ← Free db s;
  _ ← handle (mysql db) s;
  match mysql_query (string_of_list_ascii query) with
  | Error_ e | NotStored e => Ret (Some (mkException "DB" e), db, s)
  | NoResultSet => Ret (None, db, s)
  | Rows rows =>
      let r := next s in
      Ret (None, set_res (Some r) db, mkLibrary (handles s) (<[r := (rows, 0%nat)]> (sets s)) (Pos.succ r))
  end.

(** The constructor with the arguments of the connection. *)
Definition DB_connect (error : option string) (s : library) : outcome (outcome DB * library) :=
  match DB_new error s with
  | (Ret db, s) =>
      '(e, db, s) ← Query (chars "SET NAMES 'UTF8'") db s;
      Ret (match e with Some e => Throw e | None => Ret db end, s)
  | (o, s) => Ret (o, s)
  end.

Definition FetchRow (db : DB) (s : library) : outcome (bool * DB * library) :=
  match res db with
  | None => Ret (false, db, s)
  | Some r =>
      '(rows, n) ← deref (sets s !! r);
      match rows !! n with
      | Some x => Ret (true, set_row (RowOf r x) db, mkLibrary (handles s) (<[r := (rows, S n)]> (sets s)) (next s))
      | None => Ret (false, set_row Null db, s)
      end
  end.

Definition Seek (offset : Z) (db : DB) (s : library) : outcome library :=
  match res db with
  | None => Ret s
  | Some r =>
      '(rows, n) ← deref (sets s !! r);
      Ret (mkLibrary (handles s)
             (<[r := (rows, if offset <? 0 then List.length rows else Z.to_nat offset)]> (sets s)) (next s))
  end.

Definition NumRows (db : DB) (s : library) : outcome Z :=
  match res db with
  | None => Ret (-1)
  | Some r => '(rows, _) ← deref (sets s !! r); Ret (Z.of_nat (List.length rows))
  end.

(** [mysql_insert_id] and [mysql_affected_rows] give [v]. *)
Definition InsertID (v : Z) (db : DB) (s : library) : outcome Z := _ ← handle (mysql db) s; Ret (i32 v).
Definition AffectedRows (v : Z) (db : DB) (s : library) : outcome Z := _ ← handle (mysql db) s; Ret (i32 v).

Definition GetField (n : nat) (db : DB) (s : library) : outcome (option string) :=
  match res db, row db with
  | None, _ | Some _, Null => Ret None
  | Some _, Unset => Undef
  | Some _, RowOf r x => _ ← deref (sets s !! r); deref (x !! n)
  end.

(** * Scopes

    Objects live on the stack, the newest first; a call names an object by its
    position.  The scope of the newest one ends first. *)
Inductive call : Type :=
  | New (error : option string)
  | Copy (i : nat)
  | PingCall (i : nat) (error : option string)
  | QueryCall (i : nat) (query : list ascii)
  | FetchRowCall (i : nat)
  | SeekCall (i : nat) (offset : Z)
  | FreeCall (i : nat)
  | NumRowsCall (i : nat)
  | InsertIDCall (i : nat) (v : Z)
  | GetFieldCall (i n : nat)
  | End.

Inductive reply : Type := Done | Raised (e : Exception) | Bool (b : bool) | Int (z : Z) | Field (f : option string).

(** [End] on an empty stack, and a position out of it, are no calls of the
    program. *)
Definition step (c : call) (objs : list DB) (s : library) : outcome (reply * list DB * library) :=
  match c with
  | New error =>
      match DB_new error s with
      | (Ret db, s) => Ret (Done, db :: objs, s)
      | (Throw e, s) => Ret (Raised e, objs, s)
      | (Undef, _) => Undef
      end
  | Copy i => db ← deref (objs !! i); Ret (Done, DB_copy db :: objs, s)
  | PingCall i error =>
      db ← deref (objs !! i);
      match Ping error db s with
      | Ret _ => Ret (Done, objs, s)
      | Throw e => Ret (Raised e, objs, s)
      | Undef => Undef
      end
  | QueryCall i query =>
      db ← deref (objs !! i);
      '(e, db, s) ← Query query db s;
      Ret (match e with Some e => Raised e | None => Done end, <[i := db]> objs, s)
  | FetchRowCall i =>
      db ← deref (objs !! i);
      '(b, db, s) ← FetchRow db s;
      Ret (Bool b, <[i := db]> objs, s)
  | SeekCall i offset => db ← deref (objs !! i); s ← Seek offset db s; Ret (Done, objs, s)
  | FreeCall i => db ← deref (objs !! i); '(db, s) ← Free db s; Ret (Done, <[i := db]> objs, s)
  | NumRowsCall i => db ← deref (objs !! i); n ← NumRows db s; Ret (Int n, objs, s)
  | InsertIDCall i v => db ← deref (objs !! i); n ← InsertID v db s; Ret (Int n, objs, s)
  | GetFieldCall i n => db ← deref (objs !! i); f ← GetField n db s; Ret (Field f, objs, s)
  | End => match objs with db :: objs => s ← DB_delete db s; Ret (Done, objs, s) | [] => Undef end
  end.

Fixpoint run (l : list call) (objs : list DB) (s : library) : outcome (list reply * list DB * library) :=
  match l with
  | [] => Ret ([], objs, s)
  | c :: l =>
      '(a, objs, s) ← step c objs s;
      '(replies, objs, s) ← run l objs s;
      Ret (a :: replies, objs, s)
  end.

(** The same on independent values. *)
Definition step_values (c : call) (ds : list DB.DB) : outcome (reply * list DB.DB) :=
  match c with
  | New None => Ret (Done, DB.DB_new :: ds)
  | New (Some e) => Ret (Raised (mkException "DB" e), ds)
  | Copy i => _ ← deref (ds !! i); Ret (Done, DB.DB_new :: ds)
  | PingCall i error =>
      _ ← deref (ds !! i);
      Ret (match error with Some e => Raised (mkException "DB" e) | None => Done end, ds)
  | QueryCall i query =>
      d ← deref (ds !! i);
      match DB.Query query d with
      | Ret d => Ret (Done, <[i := d]> ds)
      | Throw e => Ret (Raised e, <[i := DB.Free d]> ds)
      | Undef => Undef
      end
  | FetchRowCall i => d ← deref (ds !! i); let '(b, d) := DB.FetchRow d in Ret (Bool b, <[i := d]> ds)
  | SeekCall i offset => d ← deref (ds !! i); Ret (Done, <[i := DB.Seek offset d]> ds)
  | FreeCall i => d ← deref (ds !! i); Ret (Done, <[i := DB.Free d]> ds)
  | NumRowsCall i => d ← deref (ds !! i); Ret (Int (DB.NumRows d), ds)
  | InsertIDCall i v => _ ← deref (ds !! i); Ret (Int (i32 v), ds)
  | GetFieldCall i n => d ← deref (ds !! i); f ← DB.GetField n d; Ret (Field f, ds)
  | End => match ds with _ :: ds => Ret (Done, ds) | [] => Undef end
  end.

Fixpoint run_values (l : list call) (ds : list DB.DB) : outcome (list reply * list DB.DB) :=
  match l with
  | [] => Ret ([], ds)
  | c :: l =>
      '(a, ds) ← step_values c ds;
      '(replies, ds) ← run_values l ds;
      Ret (a :: replies, ds)
  end.

(** The calls that are undefined: a position that names no object; a field, when no
    row was read since the present result set was stored, or out of the row. *)
Definition misuse (c : call) (ds : list DB.DB) : Prop :=
  match c with
  | New _ => False
  | End => ds = []
  | GetFieldCall i n =>
      match ds !! i with
      | None => True
      | Some d => is_Some (DB.res d) /\ (DB.row d = None \/ exists x, DB.row d = Some (Some x) /\ x !! n = None)
      end
  | Copy i | PingCall i _ | QueryCall i _ | FetchRowCall i | SeekCall i _ | FreeCall i | NumRowsCall i | InsertIDCall i _ =>
      ds !! i = None
  end.

(** The connections that failed. *)
Definition failures (l : list call) : nat :=
  List.length (List.filter (fun c => match c with New (Some _) => true | _ => false end) l).

(** * Invariant *)

Definition views (s : library) (db : DB) (d : DB.DB) : Prop :=
  match res db with
  | None => DB.res d = None
  | Some r => exists p, sets s !! r = Some p /\ DB.res d = Some p
  end /\
  DB.row d = match row db with
             | Unset => None
             | Null => Some None
             | RowOf r x => if decide (res db = Some r) then Some (Some x) else None
             end.

(** [lost]: the handles of the connections that failed. *)
Record good (lost : gset positive) (objs : list DB) (ds : list DB.DB) (s : library) : Prop := {
  g_views : Forall2 (views s) objs ds;
  g_sets r : is_Some (sets s !! r) -> exists i db, objs !! i = Some db /\ res db = Some r;
  g_own_set i j a b r : objs !! i = Some a -> objs !! j = Some b -> res a = Some r -> res b = Some r -> i = j;
  g_handles m : m ∈ handles s <-> m ∈ lost \/ exists i db, objs !! i = Some db /\ is_copy db = false /\ mysql db = m;
  g_lost i db : objs !! i = Some db -> is_copy db = false -> mysql db ∉ lost;
  g_own_handle i j a b :
    objs !! i = Some a -> objs !! j = Some b -> is_copy a = false -> is_copy b = false -> mysql a = mysql b -> i = j;
  g_copy i a : objs !! i = Some a -> is_copy a = true ->
    exists j b, (i < j)%nat /\ objs !! j = Some b /\ is_copy b = false /\ mysql b = mysql a;
  g_next_handle m : m ∈ handles s -> (m < next s)%positive;
  g_next_set r : is_Some (sets s !! r) -> (r < next s)%positive;
  g_next_row i db r x : objs !! i = Some db -> row db = RowOf r x -> (r < next s)%positive;
  g_row i db r x : objs !! i = Some db -> row db = RowOf r x -> res db = Some r \/ sets s !! r = None;
}.

Lemma good_handle lost objs ds s i db : good lost objs ds s -> objs !! i = Some db -> handle (mysql db) s = Ret tt.
Proof.
  intros G Hi. unfold handle. rewrite decide_True; [done|]. apply (g_handles _ _ _ _ G). right.
  destruct (is_copy db) eqn:C; [|by exists i, db]. destruct (g_copy _ _ _ _ G _ _ Hi C) as (j & b & _ & ? & ? & ?). eauto.
Qed.

Lemma good_view lost objs ds s i :
  good lost objs ds s ->
  match objs !! i with
  | Some db => exists d, ds !! i = Some d /\ views s db d
  | None => ds !! i = None
  end.
Proof.
  intros G. pose proof (g_views _ _ _ _ G) as F. destruct (objs !! i) as [db|] eqn:E.
  - destruct (Forall2_lookup_l _ _ _ _ _ F E) as (d & ? & ?). by exists d.
  - apply lookup_ge_None in E. apply lookup_ge_None. apply Forall2_length in F. lia.
Qed.

(** Only the object at [i] and its result set change. *)
Lemma good_update lost objs ds s i db db' d' s' :
  good lost objs ds s -> objs !! i = Some db ->
  mysql db' = mysql db -> is_copy db' = is_copy db -> handles s' = handles s -> (next s <= next s')%positive ->
  (forall r, Some r <> res db -> Some r <> res db' -> sets s' !! r = sets s !! r) ->
  (forall r, res db' = Some r -> (res db = Some r \/ (next s <= r)%positive) /\ (r < next s')%positive) ->
  (forall r, res db = Some r -> res db' <> Some r -> sets s' !! r = None) ->
  (forall r x, row db' = RowOf r x -> (r < next s')%positive /\ (res db' = Some r \/ sets s' !! r = None)) ->
  views s' db' d' ->
  good lost (<[i := db']> objs) (<[i := d']> ds) s'.
Proof.
  intros G Hi Em Ec Eh En Eo Er0 Ed Ew V.
  assert (forall r, res db' = Some r -> (res db = Some r \/ sets s !! r = None) /\ (r < next s')%positive) as Er.
  { intros r E. destruct (Er0 r E) as [[?|Hge] ?]; [auto|]. split; [|done]. right. apply eq_None_not_Some.
    intros Hs%(g_next_set _ _ _ _ G). lia. }
  assert (forall j b r, objs !! j = Some b -> j <> i -> res b = Some r -> sets s' !! r = sets s !! r /\ is_Some (sets s !! r)) as Ho.
  { intros j b r Hj Hne Hr.
    assert (is_Some (sets s !! r)) as Hs.
    { pose proof (good_view _ _ _ _ j G) as Hv. rewrite Hj in Hv. destruct Hv as (d & _ & V' & _). rewrite Hr in V'.
      destruct V' as (p & -> & _). done. }
    split; [|done]. apply Eo; intros E; symmetry in E.
    - by destruct Hne; eapply (g_own_set _ _ _ _ G).
    - destruct (Er _ E) as [[E'|E'] _]; [by destruct Hne; eapply (g_own_set _ _ _ _ G)|]. rewrite E' in Hs. by destruct Hs. }
  assert (forall j b, <[i := db']> objs !! j = Some b -> (j = i /\ b = db') \/ (j <> i /\ objs !! j = Some b)) as Hl.
  { intros j b. rewrite list_lookup_insert_Some. intros [(-> & -> & _)|[? ?]]; auto. }
  assert (<[i := db']> objs !! i = Some db') as Hi' by (apply list_lookup_insert_eq; by eapply lookup_lt_Some).
  split.
  - apply Forall2_lookup. intros j. pose proof (good_view _ _ _ _ j G) as Hv. destruct (decide (j = i)) as [->|Hne].
    + rewrite Hi in Hv. destruct Hv as (d & Hd & _). rewrite Hi', list_lookup_insert_eq by (by eapply lookup_lt_Some). by constructor.
    + rewrite !list_lookup_insert_ne by done. destruct (objs !! j) as [b|] eqn:Hj; [|rewrite Hv; constructor].
      destruct Hv as (d & -> & Vb & Vr). constructor. split; [|done]. destruct (res b) as [r|] eqn:Hr; [|done].
      by rewrite (proj1 (Ho j b r Hj Hne Hr)).
  - intros r Hs. destruct (decide (res db' = Some r)) as [E|Hne]; [by exists i, db'|].
    destruct (decide (res db = Some r)) as [E|Hne2].
    { rewrite (Ed r E Hne) in Hs. by destruct Hs. }
    rewrite Eo in Hs by congruence. destruct (g_sets _ _ _ _ G _ Hs) as (j & b & Hj & Hr). exists j, b.
    rewrite list_lookup_insert_ne; [done|]. intros ->. congruence.
  - intros j k a b r [[-> ->]|[Hj Ha]]%Hl [[-> ->]|[Hk Hb]]%Hl Hra Hrb; [done| | |by eapply (g_own_set _ _ _ _ G)].
    + destruct (Er _ Hra) as [[E|E] _]; [by eapply (g_own_set _ _ _ _ G)|].
      destruct (Ho k b r Hb Hk Hrb) as [_ [? ?]]. congruence.
    + destruct (Er _ Hrb) as [[E|E] _]; [by eapply (g_own_set _ _ _ _ G)|].
      destruct (Ho j a r Ha Hj Hra) as [_ [? ?]]. congruence.
  - intros m. rewrite Eh, (g_handles _ _ _ _ G). f_equiv. split.
    + intros (j & b & Hj & Hc & Hm). destruct (decide (j = i)) as [->|Hne].
      * exists i, db'. naive_solver congruence.
      * exists j, b. by rewrite list_lookup_insert_ne.
    + intros (j & b & [[-> ->]|[Hj Ha]]%Hl & Hc & Hm); [exists i, db|exists j, b]; naive_solver congruence.
  - intros j b [[-> ->]|[Hj Ha]]%Hl Hc; [rewrite Em; eapply (g_lost _ _ _ _ G); [done|congruence]|by eapply (g_lost _ _ _ _ G)].
  - intros j k a b [[-> ->]|[Hj Ha]]%Hl [[-> ->]|[Hk Hb]]%Hl Hca Hcb E; [done|..]; eapply (g_own_handle _ _ _ _ G);
      eauto; congruence.
  - intros j a Ha Hc.
    assert (exists a0, objs !! j = Some a0 /\ is_copy a0 = true /\ mysql a0 = mysql a) as (a0 & Ha0 & Hc0 & E0).
    { apply Hl in Ha as [[-> ->]|[Hj Ha]]; [exists db|exists a]; naive_solver congruence. }
    destruct (g_copy _ _ _ _ G _ _ Ha0 Hc0) as (k & b & Hk & Hb & Hcb & E). destruct (decide (k = i)) as [->|Hne].
    + exists i, db'. naive_solver congruence.
    + exists k, b. rewrite list_lookup_insert_ne by done. naive_solver congruence.
  - rewrite Eh. intros m Hm%(g_next_handle _ _ _ _ G). lia.
  - intros r Hs. destruct (decide (res db' = Some r)) as [E|Hne]; [by apply Er|].
    destruct (decide (res db = Some r)) as [E|Hne2]; [rewrite (Ed r E Hne) in Hs; by destruct Hs|].
    rewrite Eo in Hs by congruence. apply (g_next_set _ _ _ _ G) in Hs. lia.
  - intros j b r x [[-> ->]|[Hj Hb]]%Hl Hr; [by eapply Ew|]. pose proof (g_next_row _ _ _ _ G _ _ _ _ Hb Hr). lia.
  - intros j b r x [[-> ->]|[Hj Hb]]%Hl Hr; [by eapply Ew|]. pose proof (g_next_row _ _ _ _ G _ _ _ _ Hb Hr) as Hlt.
    destruct (g_row _ _ _ _ G _ _ _ _ Hb Hr) as [?|Hs]; [by left|]. right. rewrite Eo; [done|intros E; symmetry in E..].
    + pose proof (good_view _ _ _ _ i G) as Hv. rewrite Hi in Hv. destruct Hv as (d & _ & V' & _). rewrite E in V'.
      destruct V' as (p & Hp & _). congruence.
    + destruct (Er0 r E) as [[E'|Hge] _]; [|lia]. pose proof (good_view _ _ _ _ i G) as Hv. rewrite Hi in Hv.
      destruct Hv as (d & _ & V' & _). rewrite E' in V'. destruct V' as (p & Hp & _). congruence.
Qed.

(** ** Scopes begin and end *)

Lemma lookup_push {A} (x : A) l i y : (x :: l) !! i = Some y -> (i = 0%nat /\ y = x) \/ exists j, i = S j /\ l !! j = Some y.
Proof. destruct i as [|j]; simpl; [intros [= ->]; auto|eauto]. Qed.

Lemma good_empty : good ∅ [] [] library_empty.
Proof.
  split; cbn [handles sets library_empty]; try done.
  - by intros r [? ?].
  - intros m. split; [by left|]. by intros [?|(? & ? & ? & _)].
  - by intros r [? ?].
Qed.

Lemma good_new lost objs ds s :
  good lost objs ds s ->
  good lost (mkDB (next s) None Unset false :: objs) (DB.DB_new :: ds)
    (mkLibrary ({[next s]} ∪ handles s) (sets s) (Pos.succ (next s))).
Proof.
  intros G. assert (next s ∉ handles s) as Hf by (intros H1%(g_next_handle _ _ _ _ G); lia).
  assert (forall i b, objs !! i = Some b -> is_copy b = false -> mysql b <> next s) as Ho.
  { intros i b Hb Hc E. apply Hf, (g_handles _ _ _ _ G). right. eauto. }
  split; cbn [handles sets next].
  - constructor; [done|]. exact (g_views _ _ _ _ G).
  - intros r (i & b & ? & ?)%(g_sets _ _ _ _ G). by exists (S i), b.
  - intros i j a b r [[-> ->]|(i' & -> & Ha)]%lookup_push [[-> ->]|(j' & -> & Hb)]%lookup_push; try done.
    intros. f_equal. by eapply (g_own_set _ _ _ _ G).
  - intros m. rewrite elem_of_union, elem_of_singleton, (g_handles _ _ _ _ G). split.
    + intros [->|[?|(i & b & ? & ?)]]; [right; by eexists 0%nat, _|by left|right; by exists (S i), b].
    + intros [?|(i & b & [[-> ->]|(j & -> & Hb)]%lookup_push & Hc & Hm)]; [auto|by left|right; right; eauto].
  - intros i b [[-> ->]|(j & -> & Hb)]%lookup_push Hc; [|by eapply (g_lost _ _ _ _ G)].
    intros Hl. apply Hf, (g_handles _ _ _ _ G). by left.
  - intros i j a b [[-> ->]|(i' & -> & Ha)]%lookup_push [[-> ->]|(j' & -> & Hb)]%lookup_push Hca Hcb E; [done|..].
    + by destruct (Ho _ _ Hb Hcb).
    + by destruct (Ho _ _ Ha Hca).
    + f_equal. by eapply (g_own_handle _ _ _ _ G).
  - intros i a [[-> ->]|(i' & -> & Ha)]%lookup_push Hc; [done|].
    destruct (g_copy _ _ _ _ G _ _ Ha Hc) as (j & b & ? & ? & ?). exists (S j), b. split; [lia|done].
  - intros m [->%elem_of_singleton|Hm%(g_next_handle _ _ _ _ G)]%elem_of_union; lia.
  - intros r Hr%(g_next_set _ _ _ _ G). lia.
  - intros i b r x [[-> ->]|(j & -> & Hb)]%lookup_push Hr; [done|]. pose proof (g_next_row _ _ _ _ G _ _ _ _ Hb Hr). lia.
  - intros i b r x [[-> ->]|(j & -> & Hb)]%lookup_push Hr; [done|]. by eapply (g_row _ _ _ _ G).
Qed.

Lemma good_failed lost objs ds s :
  good lost objs ds s ->
  next s ∉ lost /\ good ({[next s]} ∪ lost) objs ds (mkLibrary ({[next s]} ∪ handles s) (sets s) (Pos.succ (next s))).
Proof.
  intros G. assert (next s ∉ handles s) as Hf by (intros H1%(g_next_handle _ _ _ _ G); lia).
  split; [intros Hl; apply Hf, (g_handles _ _ _ _ G); by left|].
  split; cbn [handles sets next]; try by apply G.
  - intros m. rewrite !elem_of_union, (g_handles _ _ _ _ G). tauto.
  - intros i b Hb Hc. rewrite elem_of_union, elem_of_singleton. intros [E|Hl]; [|by eapply (g_lost _ _ _ _ G)].
    apply Hf, (g_handles _ _ _ _ G). right. by exists i, b.
  - intros m [->%elem_of_singleton|Hm%(g_next_handle _ _ _ _ G)]%elem_of_union; lia.
  - intros r Hr%(g_next_set _ _ _ _ G). lia.
  - intros i b r x Hb Hr. pose proof (g_next_row _ _ _ _ G _ _ _ _ Hb Hr). lia.
Qed.

Lemma good_copy lost objs ds s i db :
  good lost objs ds s -> objs !! i = Some db -> good lost (DB_copy db :: objs) (DB.DB_new :: ds) s.
Proof.
  intros G Hi. split; try by apply G.
  - constructor; [done|]. exact (g_views _ _ _ _ G).
  - intros r (j & b & ? & ?)%(g_sets _ _ _ _ G). by exists (S j), b.
  - intros j k a b r [[-> ->]|(j' & -> & Ha)]%lookup_push [[-> ->]|(k' & -> & Hb)]%lookup_push; try done.
    intros. f_equal. by eapply (g_own_set _ _ _ _ G).
  - intros m. rewrite (g_handles _ _ _ _ G). f_equiv. split.
    + intros (j & b & ? & ?). by exists (S j), b.
    + intros (j & b & [[-> ->]|(j' & -> & Hb)]%lookup_push & Hc & Hm); [done|eauto].
  - intros j b [[-> ->]|(j' & -> & Hb)]%lookup_push Hc; [done|by eapply (g_lost _ _ _ _ G)].
  - intros j k a b [[-> ->]|(j' & -> & Ha)]%lookup_push [[-> ->]|(k' & -> & Hb)]%lookup_push Hca Hcb E; try done.
    f_equal. by eapply (g_own_handle _ _ _ _ G).
  - intros j a [[-> ->]|(j' & -> & Ha)]%lookup_push Hc.
    + destruct (is_copy db) eqn:C.
      * destruct (g_copy _ _ _ _ G _ _ Hi C) as (k & b & ? & ? & ? & ?). exists (S k), b. split; [lia|done].
      * exists (S i), db. split; [lia|done].
    + destruct (g_copy _ _ _ _ G _ _ Ha Hc) as (k & b & ? & ? & ?). exists (S k), b. split; [lia|done].
  - intros j b r x [[-> ->]|(j' & -> & Hb)]%lookup_push Hr; [done|by eapply (g_next_row _ _ _ _ G)].
  - intros j b r x [[-> ->]|(j' & -> & Hb)]%lookup_push Hr; [done|by eapply (g_row _ _ _ _ G)].
Qed.

(** The newest object is no original of another one. *)
Lemma good_pop lost db objs d ds s :
  good lost (db :: objs) (d :: ds) s -> res db = None ->
  exists s', (if is_copy db then Ret s else mysql_close (mysql db) s) = Ret s' /\ good lost objs ds s'.
Proof.
  intros G Hr.
  assert (forall m, m ∈ (if is_copy db then handles s else handles s ∖ {[mysql db]}) <->
                    m ∈ lost \/ exists i b, objs !! i = Some b /\ is_copy b = false /\ mysql b = m) as Hh.
  { intros m. pose proof (g_handles _ _ _ _ G m) as Hm. split.
    - intros Hin. assert (m ∈ handles s) as [?|(i & b & [[-> ->]|(j & -> & Hb)]%lookup_push & Hc & E)]%Hm
        by (destruct (is_copy db); set_solver); [by left| |right; eauto].
      rewrite Hc in Hin. set_solver.
    - intros Hin. assert (m ∈ handles s) as Hs.
      { apply Hm. destruct Hin as [?|(i & b & ? & ?)]; [by left|right; by exists (S i), b]. }
      destruct (is_copy db) eqn:C; [done|]. apply elem_of_difference. split; [done|]. rewrite elem_of_singleton. intros ->.
      destruct Hin as [Hl|(i & b & Hb & Hc & E)]; [by apply (g_lost _ _ _ _ G 0%nat db)|].
      by pose proof (g_own_handle _ _ _ _ G (S i) 0%nat b db Hb eq_refl Hc C E). }
  assert (forall s', sets s' = sets s -> next s' = next s ->
                     handles s' = (if is_copy db then handles s else handles s ∖ {[mysql db]}) -> good lost objs ds s') as K.
  { intros s' Es En Eh. pose proof (Forall2_cons_1 _ _ _ _ _ (g_views _ _ _ _ G)) as [_ Fv]. split; rewrite ?Es, ?En, ?Eh.
    - eapply Forall2_impl; [exact Fv|]. intros b e. unfold views. by rewrite Es.
    - intros r (i & b & [[-> ->]|(j & -> & Hb)]%lookup_push & E)%(g_sets _ _ _ _ G); [congruence|eauto].
    - intros i j a b r Ha Hb E1 E2. assert (S i = S j); [by eapply (g_own_set _ _ _ _ G)|lia].
    - exact Hh.
    - intros i b Hb. by apply (g_lost _ _ _ _ G (S i)).
    - intros i j a b Ha Hb Hca Hcb E. assert (S i = S j); [by eapply (g_own_handle _ _ _ _ G)|lia].
    - intros i a Ha Hc. destruct (g_copy _ _ _ _ G (S i) a Ha Hc) as (j & b & Hj & [[-> ->]|(k & -> & Hb)]%lookup_push & Hcb); [lia|].
      exists k, b. split; [lia|done].
    - intros m Hm. apply (g_next_handle _ _ _ _ G). destruct (is_copy db); set_solver.
    - apply (g_next_set _ _ _ _ G).
    - intros i b r x Hb. by apply (g_next_row _ _ _ _ G (S i)).
    - intros i b r x Hb. by apply (g_row _ _ _ _ G (S i)). }
  destruct (is_copy db) eqn:C; [exists s; split; [done|]; by apply K|].
  unfold mysql_close. rewrite (good_handle _ _ _ _ 0%nat db G eq_refl). eexists. split; [done|]. by apply K.
Qed.

(** ** The calls *)

Lemma Free_good lost objs ds s i db d :
  good lost objs ds s -> objs !! i = Some db -> ds !! i = Some d -> views s db d ->
  exists db' s', Free db s = Ret (db', s') /\ res db' = None /\ mysql db' = mysql db /\
    views s' db' (DB.Free d) /\ good lost (<[i := db']> objs) (<[i := DB.Free d]> ds) s'.
Proof.
  intros G Hi Hd [Vs Vr]. unfold Free. destruct (res db) as [r|] eqn:Er.
  - destruct Vs as (p & Hp & Ed). unfold mysql_free_result. rewrite Hp. simpl. eexists _, _. split; [done|].
    assert (views (mkLibrary (handles s) (delete r (sets s)) (next s)) (set_res None db) (DB.Free d)) as V.
    { split; [done|]. simpl. rewrite Vr. destruct (row db) as [| |r' x]; [done..|]. simpl. by destruct (decide _). }
    split; [done|]. split; [done|]. split; [done|]. eapply good_update; try done; simpl.
    + intros r' Hne _. apply lookup_delete_ne. congruence.
    + intros r' E _. rewrite Er in E. injection E as <-. apply lookup_delete_eq.
    + intros r' x Hr. split; [by eapply (g_next_row _ _ _ _ G)|]. right.
      destruct (g_row _ _ _ _ G _ _ _ _ Hi Hr) as [E|E]; [rewrite Er in E; injection E as <-; apply lookup_delete_eq|].
      apply lookup_delete_None. auto.
  - exists db, s. assert (DB.Free d = d) as E.
    { destruct d as [dr dw]. simpl in *. subst dr. unfold DB.Free. simpl. rewrite Vr. f_equal. by destruct (row db). }
    rewrite E, !list_insert_id by done. split; [done|]. split; [done|]. split; [done|]. split; [|done]. unfold views. by rewrite Er.
Qed.

Lemma FetchRow_good lost objs ds s i db d :
  good lost objs ds s -> objs !! i = Some db -> ds !! i = Some d -> views s db d ->
  exists db' s', FetchRow db s = Ret ((DB.FetchRow d).1, db', s') /\
    good lost (<[i := db']> objs) (<[i := (DB.FetchRow d).2]> ds) s'.
Proof.
  intros G Hi Hd [Vs Vr]. unfold FetchRow, DB.FetchRow. destruct (res db) as [r|] eqn:Er.
  - destruct Vs as ([rows n] & Hp & ->). rewrite Hp. simpl.
    pose proof (g_next_set _ _ _ _ G r (mk_is_Some _ _ Hp)) as Hr.
    assert (forall r', Some r' = res db -> r' = r) as Hu by (rewrite Er; congruence).
    destruct (rows !! n) as [x|]; eexists _, _; (split; [done|]); eapply good_update; try done; simpl.
    + intros r' Hne _. apply lookup_insert_ne. congruence.
    + intros r' E. split; [by left|]. by rewrite (Hu r').
    + intros r' x' [= <- <-]. auto.
    + split; simpl; rewrite Er; [rewrite lookup_insert_eq; eauto|by rewrite decide_True].
    + intros r' E. split; [by left|]. by rewrite (Hu r').
    + split; simpl; rewrite ?Er; eauto.
  - rewrite Vs. simpl. exists db, s. by rewrite !list_insert_id.
Qed.

Lemma Seek_good lost objs ds s i db d offset :
  good lost objs ds s -> objs !! i = Some db -> ds !! i = Some d -> views s db d ->
  exists s', Seek offset db s = Ret s' /\ good lost objs (<[i := DB.Seek offset d]> ds) s'.
Proof.
  intros G Hi Hd [Vs Vr]. unfold Seek, DB.Seek. destruct (res db) as [r|] eqn:Er.
  - destruct Vs as ([rows n] & Hp & ->). rewrite Hp. simpl. eexists. split; [done|].
    pose proof (g_next_set _ _ _ _ G r (mk_is_Some _ _ Hp)) as Hr.
    rewrite <- (list_insert_id objs i db) by done. eapply good_update; try done; simpl.
    + intros r' Hne _. apply lookup_insert_ne. congruence.
    + intros r' E. split; [by left|]. rewrite Er in E. by injection E as <-.
    + intros r' x Hx. split; [by eapply (g_next_row _ _ _ _ G)|].
      destruct (g_row _ _ _ _ G _ _ _ _ Hi Hx) as [E|E]; [by left|right]. rewrite lookup_insert_ne; congruence.
    + split; simpl; rewrite ?Er; [rewrite lookup_insert_eq; eauto|done].
  - rewrite Vs. exists s. by rewrite list_insert_id.
Qed.

Lemma Query_good lost objs ds s i db d query :
  good lost objs ds s -> objs !! i = Some db -> ds !! i = Some d -> views s db d ->
  exists e db' s', Query query db s = Ret (e, db', s') /\
    match DB.Query query d with
    | Ret d' => e = None /\ good lost (<[i := db']> objs) (<[i := d']> ds) s'
    | Throw e' => e = Some e' /\ good lost (<[i := db']> objs) (<[i := DB.Free d]> ds) s'
    | Undef => False
    end.
Proof.
  intros G Hi Hd V. destruct (Free_good _ _ _ _ _ _ _ G Hi Hd V) as (db1 & s1 & E & Hn & Hm & V1 & G1).
  unfold Query, DB.Query. rewrite E. simpl.
  assert (<[i := db1]> objs !! i = Some db1) as Hi1 by (apply list_lookup_insert_eq; by eapply lookup_lt_Some).
  rewrite (good_handle _ _ _ _ _ _ G1 Hi1). simpl. destruct (mysql_query _); try by eexists _, _, _.
  eexists _, _, _. split; [done|]. split; [done|].
  rewrite <- (list_insert_insert_eq objs i _ db1), <- (list_insert_insert_eq ds i _ (DB.Free d)).
  destruct V1 as [_ Vr].
  assert (sets s1 !! next s1 = None) as Hs.
  { apply eq_None_not_Some. intros Hs%(g_next_set _ _ _ _ G1). lia. }
  eapply good_update; try done; simpl.
  - lia.
  - intros r' _ Hne. apply lookup_insert_ne. congruence.
  - intros r' [= <-]. split; [right|]; lia.
  - intros r' E'. congruence.
  - intros r' x Hx. pose proof (g_next_row _ _ _ _ G1 _ _ _ _ Hi1 Hx). split; [lia|]. right.
    rewrite lookup_insert_ne by lia. destruct (g_row _ _ _ _ G1 _ _ _ _ Hi1 Hx); [congruence|done].
  - split; simpl; [rewrite lookup_insert_eq; eauto|]. rewrite Hn in Vr. simpl in Vr. rewrite Vr. destruct (row db1) as [| |r x] eqn:Ew; [done..|].
    rewrite decide_False; [done|]. intros [= <-]. pose proof (g_next_row _ _ _ _ G1 _ _ _ _ Hi1 Ew). lia.
Qed.

Lemma GetField_view lost objs ds s i db d n :
  good lost objs ds s -> objs !! i = Some db -> views s db d -> GetField n db s = DB.GetField n d.
Proof.
  intros G Hi [Vs Vr]. unfold GetField, DB.GetField. rewrite Vr. destruct (res db) as [r|] eqn:Er; [|by rewrite Vs].
  destruct Vs as (p & Hp & ->). destruct (row db) as [| |r' x] eqn:Ew; [done..|].
  destruct (g_row _ _ _ _ G _ _ _ _ Hi Ew) as [E|E].
  - rewrite Er in E. injection E as <-. by rewrite decide_True, Hp.
  - rewrite decide_False by congruence. by rewrite E.
Qed.

(** * The objects behave as independent values *)

Definition failure (c : call) : nat := match c with New (Some _) => 1 | _ => 0 end.

Ltac good_case G i :=
  let Hv := fresh in
  pose proof (good_view _ _ _ _ i G) as Hv;
  let db := fresh "db" in let Hi := fresh "Hi" in let d := fresh "d" in let Hd := fresh "Hd" in let V := fresh "V" in
  destruct (_ !! i) as [db|] eqn:Hi in Hv |- *;
  [destruct Hv as (d & Hd & V); rewrite Hd; cbn [deref mbind outcome_bind] | by rewrite Hv].

Lemma step_good c lost objs ds s :
  good lost objs ds s ->
  match step c objs s, step_values c ds with
  | Ret (a, objs', s'), Ret (a', ds') =>
      a = a' /\ exists lost', good lost' objs' ds' s' /\ base.size lost' = (base.size lost + failure c)%nat
  | Undef, Undef => True
  | _, _ => False
  end.
Proof.
  intros G. destruct c as [[e|]|i|i error|i query|i|i offset|i|i|i v|i n|]; cbn [step step_values failure].
  - destruct (good_failed _ _ _ _ G) as [Hn G']. cbn. split; [done|]. eexists. split; [exact G'|].
    rewrite size_union, size_singleton by set_solver. lia.
  - cbn. split; [done|]. exists lost. split; [by apply good_new|lia].
  - good_case G i. split; [done|]. exists lost. split; [by eapply good_copy|lia].
  - good_case G i. unfold Ping. rewrite (good_handle _ _ _ _ _ _ G Hi). cbn.
    destruct error; (split; [done|]; exists lost; split; [done|lia]).
  - good_case G i. destruct (Query_good _ _ _ _ _ _ _ query G Hi Hd V) as (e & db' & s' & -> & C). cbn.
    destruct (DB.Query query d) as [d'|e'|]; [| |done]; destruct C as [-> G']; (split; [done|]; exists lost; split; [done|lia]).
  - good_case G i. destruct (FetchRow_good _ _ _ _ _ _ _ G Hi Hd V) as (db' & s' & -> & G'). cbn.
    destruct (DB.FetchRow d) as [b d']. split; [done|]. exists lost. split; [done|lia].
  - good_case G i. destruct (Seek_good _ _ _ _ _ _ _ offset G Hi Hd V) as (s' & -> & G'). cbn.
    split; [done|]. exists lost. split; [done|lia].
  - good_case G i. destruct (Free_good _ _ _ _ _ _ _ G Hi Hd V) as (db' & s' & -> & _ & _ & _ & G'). cbn.
    split; [done|]. exists lost. split; [done|lia].
  - good_case G i. unfold NumRows, DB.NumRows. destruct V as [Vs _].
    destruct (res db) as [r|]; [destruct Vs as ([rows k] & -> & ->)|rewrite Vs]; cbn;
      (split; [done|]; exists lost; split; [done|lia]).
  - good_case G i. unfold InsertID. rewrite (good_handle _ _ _ _ _ _ G Hi). cbn. split; [done|]. exists lost. split; [done|lia].
  - good_case G i. rewrite (GetField_view _ _ _ _ _ _ _ n G Hi V).
    assert (DB.GetField n d = Undef \/ exists f, DB.GetField n d = Ret f) as [->|[f ->]].
    { unfold DB.GetField, deref. repeat case_match; eauto. }
    + done.
    + cbn. split; [done|]. exists lost. split; [done|lia].
  - destruct objs as [|db objs], ds as [|d ds]; [done|by pose proof (g_views _ _ _ _ G) as F; inversion F..|].
    pose proof (good_view _ _ _ _ 0%nat G) as (d' & [= <-] & V).
    destruct (Free_good _ _ _ _ 0%nat db d G eq_refl eq_refl V) as (db' & s' & E & Hn & Hm & _ & G'). simpl in G'.
    destruct (good_pop _ _ _ _ _ _ G' Hn) as (s2 & E2 & G2).
    assert (is_copy db' = is_copy db /\ (match res db with Some r => mysql_free_result r s | None => Ret s end) = Ret s') as [Ec Ef].
    { unfold Free in E. destruct (res db) as [r|]; [|by inv_ret]. destruct (mysql_free_result r s); [|done..]. by inv_ret. }
    unfold DB_delete. rewrite Ef. cbn. rewrite <- Ec, <- Hm, E2. cbn. split; [done|]. exists lost. split; [done|lia].
Qed.

Lemma run_good l lost objs ds s :
  good lost objs ds s ->
  match run l objs s, run_values l ds with
  | Ret (a, objs', s'), Ret (a', ds') =>
      a = a' /\ exists lost', good lost' objs' ds' s' /\ base.size lost' = (base.size lost + failures l)%nat
  | Undef, Undef => True
  | _, _ => False
  end.
Proof.
  revert lost objs ds s. induction l as [|c l IH]; intros lost objs ds s G; cbn [run run_values].
  - split; [done|]. exists lost. split; [done|]. unfold failures. simpl. lia.
  - pose proof (step_good c _ _ _ _ G) as C. destruct (step c objs s) as [[[a objs'] s']|e|], (step_values c ds) as [[a' ds']|e'|]; try done.
    destruct C as (-> & lost' & G' & Es). cbn. specialize (IH _ _ _ _ G').
    destruct (run l objs' s') as [[[r objs2] s2]|e|], (run_values l ds') as [[r' ds2]|e'|]; try done.
    destruct IH as (-> & lost2 & G2 & Es2). cbn. split; [done|]. exists lost2. split; [done|]. rewrite Es2, Es.
    unfold failures. destruct c as [[e|]|? | | | | | | | | | ]; simpl; lia.
Qed.

Lemma step_values_undef c ds : step_values c ds = Undef -> misuse c ds.
Proof.
  destruct c as [[e|]|i|i error|i query|i|i offset|i|i|i v|i n|]; cbn [step_values misuse]; try done;
    try (destruct (ds !! i) as [d|]; cbn [deref mbind outcome_bind]; [|done]); try done.
  - unfold DB.Query. by destruct (mysql_query (string_of_list_ascii query)).
  - by destruct (DB.FetchRow d).
  - unfold DB.GetField. destruct (DB.res d) as [p|]; [|done]. destruct (DB.row d) as [[x|]|]; [|done|].
    + destruct (x !! n) eqn:E; [done|]. intros _. split; [by eexists|]. right. by exists x.
    + intros _. split; [by eexists|]. by left.
  - by destruct ds.
Qed.

Lemma run_values_undef l ds : run_values l ds = Undef ->
  exists l1 c l2 replies ds', l = l1 ++ c :: l2 /\ run_values l1 ds = Ret (replies, ds') /\ misuse c ds'.
Proof.
  revert ds. induction l as [|c l IH]; intros ds; cbn [run_values]; [done|].
  destruct (step_values c ds) as [[a ds1]|e|] eqn:E; cbn [mbind outcome_bind]; [|done|].
  - destruct (run_values l ds1) as [[r ds2]|e|] eqn:E1; cbn [mbind outcome_bind]; [done..|]. intros _.
    destruct (IH ds1 E1) as (l1 & c' & l2 & r & ds' & -> & E2 & M). exists (c :: l1), c', l2, (a :: r), ds'.
    split; [done|]. split; [|done]. cbn [run_values]. rewrite E. cbn [mbind outcome_bind]. by rewrite E2.
  - intros _. exists [], c, l, [], ds. split; [done|]. split; [done|]. by apply step_values_undef.
Qed.

(** C31: Whatever the calls on database objects and their copies, in nested
    scopes, and whatever the server answers, up to the first call that reads
    a field without a row of the present result set, or outside of it, or
    uses an object that does not exist: copies that share a connection
    behave as independent values, no handle or result set is used after it
    was released or released twice, and when all scopes have ended every
    result set is freed and every connection closed, except the handles of
    connections that failed. *)
Theorem connections_refine_values l :
  match run l [] library_empty, run_values l [] with
  | Ret (replies, objs, s), Ret (replies', ds) =>
      replies = replies' /\
      (forall db, db ∈ objs -> mysql db ∈ handles s) /\
      (objs = [] -> sets s = ∅ /\ base.size (handles s) = failures l)
  | Undef, Undef =>
      exists l1 c l2 replies ds, l = l1 ++ c :: l2 /\ run_values l1 [] = Ret (replies, ds) /\ misuse c ds
  | _, _ => False
  end.
Proof.
  pose proof (run_good l _ _ _ _ good_empty) as C.
  destruct (run l [] library_empty) as [[[a objs] s]|e|], (run_values l []) as [[a' ds]|e'|] eqn:Ev; try done.
  2: by apply run_values_undef.
  destruct C as (-> & lost & G & Es). split; [done|]. split.
  - intros db [i Hi]%list_elem_of_lookup. pose proof (good_handle _ _ _ _ _ _ G Hi) as Hh. unfold handle in Hh.
    by destruct (decide _).
  - intros ->. split.
    + apply map_empty. intros r. apply eq_None_not_Some. intros (i & db & Hi & _)%(g_sets _ _ _ _ G). done.
    + assert (handles s = lost) as ->; [|by rewrite Es, size_empty].
      apply set_eq. intros m. rewrite (g_handles _ _ _ _ G). split; [|by left]. by intros [?|(i & db & Hi & _)].
Qed.
(** The row of a result set that [Query] has freed is still in the object. *)
Lemma stale_row_undefined (q : list ascii) x rows s db :
  mysql_query (string_of_list_ascii q) = Rows rows -> res db = Some s -> row db = RowOf s x ->
  forall lost objs ds lib i, good lost objs ds lib -> objs !! i = Some db ->
  exists db' lib', Query q db lib = Ret (None, db', lib') /\ forall n, GetField n db' lib' = Undef.
Proof.
  intros Hq Hr Hw lost objs ds lib i G Hi. pose proof (good_view _ _ _ _ i G) as Hv. rewrite Hi in Hv.
  destruct Hv as (d & Hd & Vs & _). rewrite Hr in Vs. destruct Vs as (p & Hp & _).
  pose proof (g_next_set _ _ _ _ G s (mk_is_Some _ _ Hp)) as Hlt.
  unfold Query, Free. rewrite Hr. unfold mysql_free_result. rewrite Hp. cbn [deref mbind outcome_bind].
  assert (handle (mysql (set_res None db)) (mkLibrary (handles lib) (delete s (sets lib)) (next lib)) = Ret tt) as ->.
  { pose proof (good_handle _ _ _ _ _ _ G Hi) as Hh. exact Hh. }
  cbn [mbind outcome_bind]. rewrite Hq. eexists _, _. split; [done|]. intros n.
  unfold GetField. cbn [res row set_res]. rewrite Hw. cbn [sets next].
  rewrite lookup_insert_ne by (intros E; rewrite E in Hlt; lia). by rewrite lookup_delete_eq.
Qed.
End DBConnection.
