(* ===== verification/Logger.v ===== *)
(** [Logger.cpp]: where a message goes, and what of it.  [syslog] and the client
    library are the system's. *)

From S2P Require Import Prelude CString Configuration DB.

Open Scope Z_scope.

Record Logger : Type := mkLogger { log_syslog : bool; log_db : bool }.

Definition Logger_new (config : Configuration.Configuration) : outcome Logger :=
  log_syslog ← GetBool "logger.syslog.enable" config;
  log_db ← GetBool "logger.db.enable" config;
  Ret (mkLogger log_syslog log_db).

Definition insert_log : string := "INSERT INTO t_log(log_level,log_message,log_timestamp) VALUES(%i,%s,NOW())".

(** [vsnprintf(buf,1024,...)] keeps 1023 characters of the text. *)
Definition buf_of (text : string) : string := string_of_list_ascii (take 1023 (chars text)).

Section Log.
Context `{Mysql}.

(** [text]: the message with its arguments, [None] when [vsnprintf] fails; [connect]:
    the new connection to the database.  What goes to [syslog], always with the
    priority [LOG_NOTICE].  There is no logger before the first one is made. *)
Definition Log (instance : option Logger) (connect : outcome unit) (level : Z) (text : option string) : outcome (list string) :=
  match text with
  | None => Ret []
  | Some text =>
      let buf := buf_of text in
      logger ← deref instance;
      _ ← (if log_db logger
           then _ ← connect; QueryPrintf insert_log [ArgInt (Some level); ArgString (Some buf)] DB_new
           else Ret DB_new);
      Ret (if log_syslog logger then [buf] else [])
  end.
End Log.

Section log.
Context `{M : Mysql} {L : MysqlLaws M}.

(** The statement, as pieces. *)
Definition log_pieces (level : Z) (buf : string) : list (ascii + arg) :=
  (inl <$> chars "INSERT INTO t_log(log_level,log_message,log_timestamp) VALUES(") ++
  [inr (ArgInt (Some level)); inl ","%char; inr (ArgString (Some buf))] ++ (inl <$> chars ",NOW())").

Lemma buf_of_length text : strlen (buf_of text) <= 1023.
Proof.
  rewrite strlen_chars. unfold buf_of, chars. rewrite list_ascii_of_string_of_list_ascii, length_take. lia.
Qed.

Lemma literals_ok (l : list ascii) : "%"%char ∉ l -> Forall piece_ok (inl <$> l).
Proof. induction l as [|c l IH]; intros Hc; constructor; [set_solver|]. apply IH. set_solver. Qed.

Lemma rooms_app ps qs : rooms (ps ++ qs) = rooms ps + rooms qs.
Proof. unfold rooms. induction ps as [|p ps IH]; simpl; [done|]. lia. Qed.

(** With a working database, a message is kept up to 1023 characters, escaped and
    inserted with its level; without one the exception leaves the function. *)
Lemma Log_spec l connect level text :
  - 2 ^ 31 <= level < 2 ^ 31 ->
  Log (Some l) connect level (Some text) =
    let buf := buf_of text in
    _ ← (if log_db l then _ ← connect; Query (statement (log_pieces level buf)) DB_new else Ret DB_new);
    Ret (if log_syslog l then [buf] else []).
Proof.
  intros Hl. unfold Log. cbn [deref mbind outcome_bind]. destruct (log_db l); [|done].
  destruct connect; [|done..]. cbn [mbind outcome_bind]. unfold QueryPrintf.
  change (chars insert_log) with (template (log_pieces level (buf_of text))).
  change [ArgInt (Some level); ArgString (Some (buf_of text))] with (arguments (log_pieces level (buf_of text))).
  rewrite format_spec; [done| |].
  - unfold log_pieces. rewrite !Forall_app. split; [apply literals_ok; by apply (bool_decide_unpack _); vm_compute|].
    split; [|apply literals_ok; by apply (bool_decide_unpack _); vm_compute]. repeat constructor; [lia..|done].
  - unfold log_pieces. rewrite !rooms_app. pose proof (buf_of_length text).
    change (rooms (inl <$> chars "INSERT INTO t_log(log_level,log_message,log_timestamp) VALUES(")) with 62.
    change (rooms (inl <$> chars ",NOW())")) with 7. cbn [rooms foldr room]. lia.
Qed.

Lemma Log_before_creation connect level text : Log None connect level (Some text) = Undef.
Proof. done. Qed.

Lemma Log_database_down l e level text :
  log_db l = true -> Log (Some l) (Throw e) level (Some text) = Throw e.
Proof. intros E. unfold Log. cbn. by rewrite E. Qed.
End log.
