(* ===== verification/Statistics.v ===== *)
(** [Statistics.cpp]: the counters of the engine; and [SequenceGenerator.cpp]. *)

From S2P Require Import Prelude CString DB.

Open Scope Z_scope.

(** * Statistics *)

(** The fields are [unsigned int]. *)
Record Statistics : Type := mkStatistics {
  accepted_connections : Z;
  input_errors : Z;
  workflow_queries : Z;
  workflow_status_queries : Z;
  workflow_cancel_queries : Z;
  statistics_queries : Z;
  workflow_exceptions : Z;
  workflow_instance_launched : Z;
  workflow_instance_executing : Z;
  workflow_instance_errors : Z;
}.

Definition Statistics_new : Statistics := mkStatistics 0 0 0 0 0 0 0 0 0 0.

Definition IncAcceptedConnections '(mkStatistics a b c d e f g h i j) : Statistics :=
  mkStatistics (u32 (a + 1)) b c d e f g h i j.
Definition IncInputErrors '(mkStatistics a b c d e f g h i j) : Statistics :=
  mkStatistics a (u32 (b + 1)) c d e f g h i j.
Definition IncWorkflowQueries '(mkStatistics a b c d e f g h i j) : Statistics :=
  mkStatistics a b (u32 (c + 1)) d e f g h i j.
Definition IncWorkflowStatusQueries '(mkStatistics a b c d e f g h i j) : Statistics :=
  mkStatistics a b c (u32 (d + 1)) e f g h i j.
Definition IncWorkflowCancelQueries '(mkStatistics a b c d e f g h i j) : Statistics :=
  mkStatistics a b c d (u32 (e + 1)) f g h i j.
Definition IncStatisticsQueries '(mkStatistics a b c d e f g h i j) : Statistics :=
  mkStatistics a b c d e (u32 (f + 1)) g h i j.
Definition IncWorkflowExceptions '(mkStatistics a b c d e f g h i j) : Statistics :=
  mkStatistics a b c d e f (u32 (g + 1)) h i j.
Definition IncWorkflowInstanceExecuting '(mkStatistics a b c d e f g h i j) : Statistics :=
  mkStatistics a b c d e f g (u32 (h + 1)) (u32 (i + 1)) j.
Definition DecWorkflowInstanceExecuting '(mkStatistics a b c d e f g h i j) : Statistics :=
  mkStatistics a b c d e f g h (if i >? 0 then u32 (i - 1) else i) j.
Definition IncWorkflowInstanceErrors '(mkStatistics a b c d e f g h i j) : Statistics :=
  mkStatistics a b c d e f g h i (u32 (j + 1)).

Definition ResetGlobalStatistics (s : Statistics) : Statistics := Statistics_new.

(** The attributes of the element [statistics] that [SendGlobalStatistics] sends;
    [%d] prints an [unsigned int] as a signed one. *)
Definition SendGlobalStatistics (s : Statistics) : list (string * string) :=
  [("accepted_connections", sprintf_d (i32 (accepted_connections s)));
   ("input_errors", sprintf_d (i32 (input_errors s)));
   ("workflow_queries", sprintf_d (i32 (workflow_queries s)));
   ("workflow_status_queries", sprintf_d (i32 (workflow_status_queries s)));
   ("workflow_cancel_queries", sprintf_d (i32 (workflow_cancel_queries s)));
   ("statistics_queries", sprintf_d (i32 (statistics_queries s)));
   ("workflow_exceptions", sprintf_d (i32 (workflow_exceptions s)));
   ("workflow_instance_launched", sprintf_d (i32 (workflow_instance_launched s)));
   ("workflow_instance_executing", sprintf_d (i32 (workflow_instance_executing s)));
   ("workflow_instance_errors", sprintf_d (i32 (workflow_instance_errors s)))]%string.

(** Every text fits in the buffer of 16 bytes. *)
Lemma SendGlobalStatistics_fits s : Forall (fun x => strlen x.2 + 1 <= 16) (SendGlobalStatistics s).
Proof.
  assert (H : forall z, strlen (sprintf_d (i32 z)) + 1 <= 16).
  { intros z. pose proof (strlen_sprintf_d (i32 z)). unfold i32 in *. pose proof (Z.mod_pos_bound (z + 2 ^ 31) (2 ^ 32)). lia. }
  unfold SendGlobalStatistics. repeat constructor; cbn [snd]; apply H.
Qed.

(** ** The instances that are executing *)

(** An instance starts, an instance ends, or the counters are reset. *)
Inductive event : Type := Launched | Over | Reset.

Definition count_event (e : event) (s : Statistics) : Statistics :=
  match e with
  | Launched => IncWorkflowInstanceExecuting s
  | Over => DecWorkflowInstanceExecuting s
  | Reset => ResetGlobalStatistics s
  end.

Definition alive_after (e : event) (alive : Z) : Z :=
  match e with Launched => alive + 1 | Over => alive - 1 | Reset => alive end.

(** The number of instances that are alive never goes below 0 nor over [2^32-1]. *)
Fixpoint plausible (es : list event) (alive : Z) : Prop :=
  match es with
  | [] => True
  | e :: es => 0 <= alive_after e alive < 2 ^ 32 /\ plausible es (alive_after e alive)
  end.

(** The counter never exceeds the number of instances that are alive, and it is
    this number as long as the counters are not reset. *)
Lemma executing_count es s alive :
  0 <= workflow_instance_executing s <= alive -> alive < 2 ^ 32 -> plausible es alive ->
  let s' := fold_left (fun s e => count_event e s) es s in
  let alive' := fold_left (fun n e => alive_after e n) es alive in
  0 <= workflow_instance_executing s' <= alive' /\
  (Reset ∉ es -> workflow_instance_executing s = alive -> workflow_instance_executing s' = alive').
Proof.
  revert s alive. induction es as [|e es IH]; intros s alive Hs Ha Hp; [done|].
  cbn [plausible] in Hp. destruct Hp as [Hr Hp]. cbn [fold_left].
  assert (H1 : 0 <= workflow_instance_executing (count_event e s) <= alive_after e alive /\
    (e <> Reset -> workflow_instance_executing s = alive -> workflow_instance_executing (count_event e s) = alive_after e alive)).
  { destruct s as [a b c d e0 f g h i j], e; cbn [count_event IncWorkflowInstanceExecuting DecWorkflowInstanceExecuting
      ResetGlobalStatistics Statistics_new workflow_instance_executing alive_after] in *.
    - rewrite u32_small by lia. lia.
    - destruct (Z.gtb_spec i 0); [rewrite u32_small by lia; lia|]. split; [lia|]. intros _ ->. lia.
    - split; [lia|done]. }
  destruct H1 as [H1 H2]. destruct (IH (count_event e s) (alive_after e alive) H1 ltac:(lia) Hp) as [H3 H4].
  split; [done|]. intros Hno Hs0. apply H4; [set_solver|]. apply H2; [set_solver|done].
Qed.

(** * The sequence of instance identifiers *)

Definition SequenceGenerator : Type := Z.

(** The constructor, on the row of [SELECT MAX(workflow_instance_id)]. *)
Definition SequenceGenerator_new (max : option string) : SequenceGenerator :=
  u32 (i32 (match max with Some v => atoi v | None => 0 end + 1)).

Definition GetInc (seq : SequenceGenerator) : Z * SequenceGenerator := (seq, u32 (seq + 1)).

Fixpoint get_incs (n : nat) (seq : SequenceGenerator) : list Z :=
  match n with
  | O => []
  | S n => let '(x, seq) := GetInc seq in x :: get_incs n seq
  end.

(** The identifiers are distinct, and larger than those of the database, until
    the counter wraps around. *)
Lemma get_incs_seq n seq : 0 <= seq -> seq + Z.of_nat n <= 2 ^ 32 -> get_incs n seq = seqZ seq (Z.of_nat n).
Proof.
  revert seq. induction n as [|n IH]; intros seq H0 Hn; [done|].
  rewrite seqZ_cons by lia. cbn [get_incs GetInc]. f_equal.
  replace (Z.pred (Z.of_nat (S n))) with (Z.of_nat n) by lia. destruct n as [|n]; [done|].
  rewrite u32_small by lia. apply IH; lia.
Qed.

Lemma get_incs_fresh n max : 0 <= atoi max -> atoi max + 1 + Z.of_nat n < 2 ^ 31 ->
  NoDup (get_incs n (SequenceGenerator_new (Some max))) /\
  forall x, x ∈ get_incs n (SequenceGenerator_new (Some max)) -> atoi max < x.
Proof.
  intros H0 Hn. assert (SequenceGenerator_new (Some max) = atoi max + 1) as ->.
  { unfold SequenceGenerator_new. rewrite u32_small; unfold i32; rewrite Z.mod_small; lia. }
  rewrite get_incs_seq by lia. split; [apply NoDup_seqZ|]. intros x Hx%elem_of_seqZ. lia.
Qed.
