(* ===== verification/GarbageCollector.v ===== *)
(** [GarbageCollector.cpp]: the thread that deletes old entries of the database,
    and when it sees a shutdown. *)

From S2P Require Import Prelude CString Configuration DB.

Open Scope Z_scope.

(** * State *)

Record GarbageCollector : Type := mkGarbageCollector {
  enable : bool;
  delay : Z;
  interval : Z;
  limit : Z;
  workflowinstance_retention : Z;
  logs_retention : Z;
  is_shutting_down : bool;
}.

Definition GarbageCollector_new (config : Configuration.Configuration) : outcome GarbageCollector :=
  enable ← GetBool "gc.enable" config;
  delay ← GetInt "gc.delay" config;
  interval ← GetInt "gc.interval" config;
  limit ← GetInt "gc.limit" config;
  workflowinstance_retention ← GetInt "gc.workflowinstance.retention" config;
  logs_retention ← GetInt "gc.logs.retention" config;
  Ret (mkGarbageCollector enable delay interval limit workflowinstance_retention logs_retention false).

Definition Shutdown (gc : GarbageCollector) : GarbageCollector :=
  mkGarbageCollector (enable gc) (delay gc) (interval gc) (limit gc) (workflowinstance_retention gc)
    (logs_retention gc) true.

(** * [purge] *)

(** The product of two [int] that does not fit is undefined behaviour. *)
Definition int (z : Z) : outcome Z := if (- 2 ^ 31 <=? z) && (z <? 2 ^ 31) then Ret z else Undef.

(** The statements, with their arguments, and whether the rows that they delete
    are counted.  [format_time] is [localtime_r] followed by [strftime]. *)
Definition purge_statements (format_time : Z -> string) (now : Z) (gc : GarbageCollector)
    : outcome (list (string * list arg * bool)) :=
  wfi ← int (workflowinstance_retention gc * 86400);
  logs ← int (logs_retention gc * 86400);
  Ret [("DELETE FROM t_workflow_instance WHERE workflow_instance_status='TERMINATED' AND workflow_instance_end <= %s LIMIT %i",
        [ArgString (Some (format_time (now - wfi))); ArgInt (Some (limit gc))], true);
       ("DELETE wip FROM t_workflow_instance_parameters wip LEFT JOIN t_workflow_instance wi ON wip.workflow_instance_id=wi.workflow_instance_id WHERE wi.workflow_instance_id IS NULL",
        [], false);
       ("DELETE FROM t_log WHERE log_timestamp <= %s LIMIT %i",
        [ArgString (Some (format_time (now - logs))); ArgInt (Some (limit gc))], true)]%string.

Section purge.
Context `{Mysql}.

(** [affected]: [AffectedRows] after each statement.  An exception of the
    database gives 0. *)
Fixpoint run_statements (statements : list (string * list arg * bool)) (affected : list Z) (deleted_rows : Z)
    : outcome Z :=
  match statements with
  | [] => Ret deleted_rows
  | (query, args, counted) :: statements =>
      _ ← QueryPrintf query args DB_new;
      let n := match affected with n :: _ => n | [] => 0 end in
      run_statements statements (tl affected) (if counted : bool then i32 (deleted_rows + n) else deleted_rows)
  end.

Definition purge (format_time : Z -> string) (now : Z) (connection : outcome unit) (affected : list Z)
    (gc : GarbageCollector) : outcome Z :=
  statements ← purge_statements format_time now gc;
  match (_ ← connection; run_statements statements affected 0) with
  | Throw _ => Ret 0
  | o => o
  end.
End purge.

(** * The thread *)

(** In the loop on [iinterval]; before [purge]; in the loop on [idelay], after a
    [purge] that returned [deleted_rows]; the thread has returned. *)
Inductive pc : Type :=
  | Interval (iinterval : Z)
  | Purge
  | Delay (idelay deleted_rows : Z)
  | Exited.

(** One iteration; [deleted] is what [purge] returns. *)
Definition gc_thread (gc : GarbageCollector) (deleted : Z) (c : pc) : pc :=
  match c with
  | Interval i =>
      if i <? interval gc then (if is_shutting_down gc then Exited else Interval (i + 1)) else Purge
  | Purge => if negb (deleted =? 0) then Delay 0 deleted else Interval 0
  | Delay i n =>
      if i <? delay gc then (if is_shutting_down gc then Exited else Delay (i + 1) n)
      else if n >? 0 then Purge else Interval 0
  | Exited => Exited
  end.

(** The thread, when [purge] returns the numbers of the list in turn, and 0
    afterwards. *)
Fixpoint gc_run (fuel : nat) (gc : GarbageCollector) (deleted : list Z) (c : pc) : pc :=
  match fuel with
  | O => c
  | S fuel =>
      gc_run fuel gc (match c with Purge => tl deleted | _ => deleted end)
        (gc_thread gc (match deleted with n :: _ => n | [] => 0 end) c)
  end.

(** After a shutdown the thread sees it within three iterations for each [purge]
    that deletes something, provided that it waits between two of them. *)
Lemma gc_stops gc deleted c :
  is_shutting_down gc = true -> 0 < interval gc ->
  exists n, gc_run n gc deleted c = Exited.
Proof.
  intros Hs Hi. assert (HI : forall i ds, i <= 0 -> exists n, gc_run n gc ds (Interval i) = Exited).
  { intros i ds H0. exists 1%nat. cbn. rewrite (proj2 (Z.ltb_lt i _)) by lia. by rewrite Hs. }
  assert (HP : forall ds, exists n, gc_run n gc ds Purge = Exited).
  { induction ds as [|d ds [n IH]].
    - destruct (HI 0 [] ltac:(lia)) as [n Hn]. exists (S n). exact Hn.
    - destruct (Z.eqb_spec d 0) as [->|Hd]; [destruct (HI 0 ds ltac:(lia)) as [m Hm]; by exists (S m)|].
      destruct (Z.ltb_spec 0 (delay gc)) as [Hdel|Hdel].
      + exists 2%nat. cbn. rewrite (proj2 (Z.eqb_neq d 0)) by done. cbn. rewrite (proj2 (Z.ltb_lt 0 _)) by lia. by rewrite Hs.
      + destruct (Z.gtb_spec d 0) as [Hp|Hp].
        * exists (S (S n)). cbn. rewrite (proj2 (Z.eqb_neq d 0)) by done. cbn [negb gc_thread].
          rewrite (proj2 (Z.ltb_ge 0 _)) by lia. rewrite (proj2 (Z.gtb_lt d 0)) by lia. exact IH.
        * destruct (HI 0 ds ltac:(lia)) as [m Hm]. exists (S (S m)). cbn. rewrite (proj2 (Z.eqb_neq d 0)) by done.
          cbn [negb gc_thread]. rewrite (proj2 (Z.ltb_ge 0 _)) by lia.
          assert (d >? 0 = false) as -> by lia. exact Hm. }
  destruct c as [i| |i n|].
  - destruct (Z.ltb_spec i (interval gc)) as [H|H].
    + exists 1%nat. cbn. rewrite (proj2 (Z.ltb_lt i _)) by lia. by rewrite Hs.
    + destruct (HP deleted) as [n Hn]. exists (S n). cbn. rewrite (proj2 (Z.ltb_ge i _)) by lia. exact Hn.
  - apply HP.
  - destruct (Z.ltb_spec i (delay gc)) as [H|H].
    + exists 1%nat. cbn. rewrite (proj2 (Z.ltb_lt i _)) by lia. by rewrite Hs.
    + destruct (HP deleted) as [m Hm]. destruct (HI 0 deleted ltac:(lia)) as [k Hk].
      destruct (n >? 0) eqn:En; [exists (S m)|exists (S k)]; cbn; rewrite (proj2 (Z.ltb_ge i _)) by lia; by rewrite En.
  - by exists 0%nat.
Qed.

(** Without an interval the thread never looks at the shutdown once there is
    nothing to delete: whoever waits for it waits for ever. *)
Lemma gc_never_stops gc n c : interval gc <= 0 -> c = Purge \/ c = Interval 0 -> gc_run n gc [] c <> Exited.
Proof.
  intros Hi. revert c. induction n as [|n IH]; intros c [->| ->]; [done|done| |]; cbn [gc_run tl gc_thread].
  - apply IH. by right.
  - rewrite (proj2 (Z.ltb_ge 0 _)) by lia. apply IH. by left.
Qed.

(** From 24856 days on, a retention is too long for the computation of its date. *)
Lemma purge_overflow `{Mysql} format_time now connection affected gc :
  24856 <= workflowinstance_retention gc -> purge format_time now connection affected gc = Undef.
Proof.
  intros Hr. unfold purge, purge_statements. assert (int (workflowinstance_retention gc * 86400) = Undef) as ->; [|done].
  unfold int. by rewrite (proj2 (Z.ltb_ge (workflowinstance_retention gc * 86400) (2 ^ 31))), andb_false_r by lia.
Qed.
