(* ===== verification/WorkflowParameters.v ===== *)
(** [WorkflowParameters.cpp]: the parameters of a launch, a linked list with a
    cursor. *)

From S2P Require Import Prelude CString Lookup.

Open Scope Z_scope.

(** A pointer to a [Parameter] is the list from it on; null is the empty list.
    [Add] only prepends, so that the lists behind the cursor never change. *)
Record WorkflowParameters : Type := mkWorkflowParameters {
  first_parameter : list (string * string);
  current_parameter : list (string * string);
}.

Definition WorkflowParameters_new : WorkflowParameters := mkWorkflowParameters [] [].

(** The [while] loop of [Add]: is there a parameter of this name? *)
Fixpoint has_name (cur : list (string * string)) (name : string) : bool :=
  match cur with
  | [] => false
  | (n, _) :: next =>
      match strcmp n name with
      | Eq => true
      | _ => has_name next name
      end
  end.

Definition Add (name value : string) (p : WorkflowParameters) : bool * WorkflowParameters :=
  if has_name (first_parameter p) name then (false, p)
  else (true, mkWorkflowParameters ((name, value) :: first_parameter p) (current_parameter p)).

Definition SeekStart (p : WorkflowParameters) : WorkflowParameters :=
  mkWorkflowParameters (first_parameter p) (first_parameter p).

Definition Get (p : WorkflowParameters) : option (string * string) * WorkflowParameters :=
  match current_parameter p with
  | [] => (None, p)
  | param :: next => (Some param, mkWorkflowParameters (first_parameter p) next)
  end.

(** * Names are unique *)

Lemma has_name_iff cur name : has_name cur name = true <-> name ∈ cur.*1.
Proof.
  induction cur as [|[n v] cur IH]; cbn [has_name]; [split; [done|by intros ?%elem_of_nil]|].
  rewrite fmap_cons, elem_of_cons, <- IH. unfold strcmp. destruct (String.compare n name) eqn:E.
  1: { apply string_compare_eq in E as ->. split; auto. }
  all: split; [auto|intros [->|H]; [|done]]; rewrite (proj2 (string_compare_eq _ _)) in E; done.
Qed.

(** The calls of a reader: [SeekStart], then [Get] until it returns false. *)
Fixpoint read_all (fuel : nat) (p : WorkflowParameters) : list (string * string) :=
  match fuel with
  | O => []
  | S fuel =>
      match Get p with
      | (Some param, p) => param :: read_all fuel p
      | (None, _) => []
      end
  end.

Definition add_all (l : list (string * string)) (p : WorkflowParameters) : WorkflowParameters :=
  foldl (fun p '(n, v) => snd (Add n v p)) p l.

Lemma read_all_cursor fuel p :
  (List.length (current_parameter p) < fuel)%nat -> read_all fuel p = current_parameter p.
Proof.
  revert p. induction fuel as [|fuel IH]; intros p Hf; [lia|]. cbn [read_all Get].
  unfold Get. destruct (current_parameter p) as [|x r] eqn:E; [done|]. f_equal. rewrite IH; [done|simpl in *; lia].
Qed.

Lemma Add_names name value p :
  NoDup (first_parameter p).*1 ->
  NoDup (first_parameter (snd (Add name value p))).*1 /\
  (list_to_map (first_parameter (snd (Add name value p))) : gmap string string) =
    list_to_map (first_parameter p) ∪ {[ name := value ]} /\
  (fst (Add name value p) = true <-> (list_to_map (first_parameter p) : gmap string string) !! name = None).
Proof.
  intros Hnd. unfold Add. pose proof (has_name_iff (first_parameter p) name) as Hn.
  assert (Hnone : (list_to_map (first_parameter p) : gmap string string) !! name = None <-> name ∉ (first_parameter p).*1)
    by (split; [apply not_elem_of_list_to_map_2|apply not_elem_of_list_to_map_1]).
  destruct (has_name _ name) eqn:E; cbn [fst snd first_parameter].
  - split; [done|]. split; [|rewrite Hnone; naive_solver]. symmetry.
    apply map_eq. intros k. rewrite lookup_union, lookup_singleton. case_decide as Hk; [subst k|by rewrite right_id_L by apply _].
    destruct (_ !! name) as [v|] eqn:Ev; [done|]. naive_solver.
  - assert (Hni : name ∉ (first_parameter p).*1) by (intros H; apply Hn in H; done).
    split; [by constructor|]. split; [|rewrite Hnone; naive_solver]. cbn [list_to_map foldr]. fold (list_to_map (M := gmap string string) (first_parameter p)).
    rewrite insert_union_singleton_r; [done|]. by apply Hnone.
Qed.

(** After any additions the linked list of parameters holds, for each
    name, the first value added, Add returns false exactly for a name that
    is there already and then changes nothing, and SeekStart followed by Get
    until it returns false gives each parameter once. *)
Theorem parameters_refine_map l :
  NoDup (first_parameter (add_all l WorkflowParameters_new)).*1 /\
  exists fuel, forall f, (fuel <= f)%nat ->
    (list_to_map (read_all f (SeekStart (add_all l WorkflowParameters_new))) : gmap string string) = list_to_map l /\
    NoDup (read_all f (SeekStart (add_all l WorkflowParameters_new))).*1.
Proof.
  assert (H : forall p, NoDup (first_parameter p).*1 ->
    NoDup (first_parameter (add_all l p)).*1 /\
    (list_to_map (first_parameter (add_all l p)) : gmap string string) = list_to_map (first_parameter p) ∪ list_to_map l).
  { induction l as [|[n v] l IH]; intros p Hp; [split; [done|]; by rewrite list_to_map_nil, (right_id_L ∅ (∪))|].
    destruct (Add_names n v p Hp) as (H1 & H2 & _). cbn [add_all foldl]. destruct (IH _ H1) as [H3 H4].
    split; [exact H3|]. unfold add_all in H4. rewrite H4, H2. rewrite <- (assoc_L (∪)). f_equal.
    cbn [list_to_map foldr]. by rewrite insert_union_singleton_l. }
  destruct (H WorkflowParameters_new) as [H1 H2]; [constructor|]. split; [done|].
  exists (S (List.length (first_parameter (add_all l WorkflowParameters_new)))). intros f Hf.
  rewrite read_all_cursor by (cbn [SeekStart current_parameter]; lia). cbn [SeekStart current_parameter].
  split; [|done]. rewrite H2. cbn [first_parameter WorkflowParameters_new]. by rewrite list_to_map_nil, (left_id_L ∅ (∪)).
Qed.
