(* ===== verification/SocketQuerySAX2Handler.v ===== *)
(** [SocketQuerySAX2Handler.cpp]: the handler of the SAX events of a query.
    Names and values are strings of ASCII characters, on which
    [XMLString::transcode] changes nothing; [XMLString::parseInt] is a
    parameter, [None] is its exception. *)

From S2P Require Import Prelude CString WorkflowParameters.

Open Scope Z_scope.

Definition PARAMETER_NAME_MAX_LEN : Z := 64.

Definition QUERY_WORKFLOW_LAUNCH : Z := 1.
Definition QUERY_WORKFLOW_INFO : Z := 2.
Definition QUERY_QUEUE_STATS : Z := 3.
Definition QUERY_GLOBAL_STATS : Z := 4.
Definition QUERY_WORKFLOWS_STATUS : Z := 5.
Definition QUERY_SCHEDULER_STATUS : Z := 6.
Definition QUERY_WORKFLOW_CANCEL : Z := 7.
Definition QUERY_WORKFLOW_WAIT : Z := 8.
Definition QUERY_WORKFLOW_KILLTASK : Z := 9.
Definition RESET_GLOBAL_STATS : Z := 10.
Definition PING : Z := 11.

Definition QUERY_OPTION_MODE_SYNCHRONOUS : Z := 1.
Definition QUERY_OPTION_MODE_ASYNCHRONOUS : Z := 2.

(** * State *)

(** The integers that the constructor leaves alone are [None] until they are
    set. *)
Record SocketQuerySAX2Handler : Type := mkHandler {
  query_type : option Z;
  query_options : option Z;
  workflow_id : option Z;
  task_pid : option Z;
  workflow_name : option string;
  workflow_host : option string;
  workflow_user : option string;
  ready : bool;
  level : Z;
  params : WorkflowParameters;
}.

Definition SocketQuerySAX2Handler_new : SocketQuerySAX2Handler :=
  mkHandler None None None None None None None false 0 WorkflowParameters_new.

Definition set_query_type (q : Z) (h : SocketQuerySAX2Handler) : SocketQuerySAX2Handler :=
  mkHandler (Some q) (query_options h) (workflow_id h) (task_pid h) (workflow_name h)
    (workflow_host h) (workflow_user h) (ready h) (level h) (params h).
Definition set_level (n : Z) (h : SocketQuerySAX2Handler) : SocketQuerySAX2Handler :=
  mkHandler (query_type h) (query_options h) (workflow_id h) (task_pid h) (workflow_name h)
    (workflow_host h) (workflow_user h) (ready h) n (params h).
Definition set_ready (b : bool) (h : SocketQuerySAX2Handler) : SocketQuerySAX2Handler :=
  mkHandler (query_type h) (query_options h) (workflow_id h) (task_pid h) (workflow_name h)
    (workflow_host h) (workflow_user h) b (level h) (params h).
Definition set_params (p : WorkflowParameters) (h : SocketQuerySAX2Handler) : SocketQuerySAX2Handler :=
  mkHandler (query_type h) (query_options h) (workflow_id h) (task_pid h) (workflow_name h)
    (workflow_host h) (workflow_user h) (ready h) (level h) p.
Definition set_launch (options : option Z) (name host user : option string)
    (h : SocketQuerySAX2Handler) : SocketQuerySAX2Handler :=
  mkHandler (query_type h) options (workflow_id h) (task_pid h) name host user (ready h) (level h) (params h).
Definition set_workflow_id (id : Z) (h : SocketQuerySAX2Handler) : SocketQuerySAX2Handler :=
  mkHandler (query_type h) (query_options h) (Some id) (task_pid h) (workflow_name h)
    (workflow_host h) (workflow_user h) (ready h) (level h) (params h).
Definition set_task_pid (pid : Z) (h : SocketQuerySAX2Handler) : SocketQuerySAX2Handler :=
  mkHandler (query_type h) (query_options h) (workflow_id h) (Some pid) (workflow_name h)
    (workflow_host h) (workflow_user h) (ready h) (level h) (params h).

(** * Events *)

(** What leaves a callback: the handler goes on, an exception of the program or
    of a library, [throw 0] at the end of the query, or the use of an
    indeterminate value. *)
Inductive result : Type :=
  | Next (h : SocketQuerySAX2Handler)
  | Raise (e : Exception)
  | LibraryException
  | Complete (h : SocketQuerySAX2Handler)
  | Indeterminate.

Definition and_then (r : result) (k : SocketQuerySAX2Handler -> result) : result :=
  match r with
  | Next h => k h
  | _ => r
  end.

Definition Attributes : Type := list (string * string).

Definition getValue (name : string) (attrs : Attributes) : option string :=
  snd <$> List.find (fun '(n, _) => bool_decide (n = name)) attrs.

Definition failure (error : string) : result := Raise (mkException "SocketQuerySAX2Handler" error).

Definition valid_name (s : string) : bool :=
  forallb (fun c => isalnum c || bool_decide (c = "_"%char)) (chars s).

Section handler.
Context (parseInt : string -> option Z).

Definition statistics_query (attrs : Attributes) (h : SocketQuerySAX2Handler) : result :=
  match getValue "type" attrs with
  | None => failure "Missing type attribute on node statistics"
  | Some type_attr =>
      if bool_decide (type_attr = "global"%string) then
        match getValue "action" attrs with
        | None => Next (set_query_type QUERY_GLOBAL_STATS h)
        | Some action_attr =>
            if bool_decide (action_attr = "query"%string) then Next (set_query_type QUERY_GLOBAL_STATS h)
            else if bool_decide (action_attr = "reset"%string) then Next (set_query_type RESET_GLOBAL_STATS h)
            else failure "Unknown statistics action"
        end
      else if bool_decide (type_attr = "queue"%string) then Next (set_query_type QUERY_QUEUE_STATS h)
      else failure "Unknown statistics type"
  end.

Definition status_query (attrs : Attributes) (h : SocketQuerySAX2Handler) : result :=
  match getValue "type" attrs with
  | None => failure "Missing type attribute on node statistics"
  | Some type_attr =>
      if bool_decide (type_attr = "scheduler"%string) then Next (set_query_type QUERY_SCHEDULER_STATUS h)
      else if bool_decide (type_attr = "workflows"%string) then Next (set_query_type QUERY_WORKFLOWS_STATUS h)
      else failure "Unknown statistics type"
  end.

Definition launch_query (name_attr : string) (attrs : Attributes) (h : SocketQuerySAX2Handler) : result :=
  let h := set_query_type QUERY_WORKFLOW_LAUNCH h in
  if negb (valid_name name_attr) then failure "Invalid workflow name"
  else
    let options :=
      match getValue "mode" attrs with
      | None => Some QUERY_OPTION_MODE_ASYNCHRONOUS
      | Some mode_attr =>
          if bool_decide (mode_attr = "asynchronous"%string) then Some QUERY_OPTION_MODE_ASYNCHRONOUS
          else if bool_decide (mode_attr = "synchronous"%string) then Some QUERY_OPTION_MODE_SYNCHRONOUS
          else query_options h
      end in
    Next (set_launch options (Some name_attr) (getValue "host" attrs) (getValue "user" attrs) h).

Definition instance_query (id_attr : string) (attrs : Attributes) (h : SocketQuerySAX2Handler) : result :=
  match parseInt id_attr with
  | None => LibraryException
  | Some id =>
      let h := set_workflow_id id h in
      match getValue "action" attrs with
      | None => Next (set_query_type QUERY_WORKFLOW_INFO h)
      | Some action_attr =>
          if bool_decide (action_attr = "info"%string) then Next (set_query_type QUERY_WORKFLOW_INFO h)
          else if bool_decide (action_attr = "cancel"%string) then Next (set_query_type QUERY_WORKFLOW_CANCEL h)
          else if bool_decide (action_attr = "wait"%string) then Next (set_query_type QUERY_WORKFLOW_WAIT h)
          else if bool_decide (action_attr = "killtask"%string) then
            let h := set_query_type QUERY_WORKFLOW_KILLTASK h in
            match getValue "pid" attrs with
            | None => failure "Action killtask requires a PID"
            | Some pid_attr =>
                match parseInt pid_attr with
                | None => LibraryException
                | Some pid => Next (set_task_pid pid h)
                end
            end
          else Next h
      end
  end.

(** The root node: [level==1]. *)
Definition root_query (node_name : string) (attrs : Attributes) (h : SocketQuerySAX2Handler) : result :=
  if bool_decide (node_name = "ping"%string) then Next (set_query_type PING h)
  else if bool_decide (node_name = "statistics"%string) then statistics_query attrs h
  else if bool_decide (node_name = "status"%string) then status_query attrs h
  else if bool_decide (node_name = "workflow"%string) then
    match getValue "name" attrs, getValue "id" attrs with
    | None, None => failure "Missing name or id attribute on node workflow"
    | Some name_attr, _ => launch_query name_attr attrs h
    | None, Some id_attr => instance_query id_attr attrs h
    end
  else failure "Invalid root node name, expecting 'workflow' or 'statistics'".

Definition parameter_node (node_name : string) (attrs : Attributes) (h : SocketQuerySAX2Handler) : result :=
  if negb (bool_decide (node_name = "parameter"%string)) then failure "Expecting parameter node"
  else
    match getValue "name" attrs, getValue "value" attrs with
    | Some name, Some value =>
        if PARAMETER_NAME_MAX_LEN <? strlen name then failure "Parameter name is too long"
        else if negb (valid_name name) then failure "Invalid parameter name"
        else
          let '(added, p) := Add name value (params h) in
          if added then Next (set_params p h) else failure "Duplicate parameter name"
    | _, _ => failure "Invalue parameter node, missing name or value attributes"
    end.

Definition refuses_subnodes (q : Z) : bool :=
  (q =? QUERY_WORKFLOW_INFO) || (q =? QUERY_QUEUE_STATS) || (q =? QUERY_GLOBAL_STATS) || (q =? QUERY_SCHEDULER_STATUS).

Definition startElement (node_name : string) (attrs : Attributes) (h : SocketQuerySAX2Handler) : result :=
  let h := set_level (level h + 1) h in
  and_then (if level h =? 1 then root_query node_name attrs h else Next h) (fun h =>
  match query_type h with
  | None => Indeterminate
  | Some q =>
      if refuses_subnodes q && (2 <=? level h) then failure "Unexpected subnode"
      else
        and_then (if (q =? QUERY_WORKFLOW_LAUNCH) && (level h =? 2) then parameter_node node_name attrs h else Next h) (fun h =>
        if (q =? QUERY_WORKFLOW_LAUNCH) && (2 <? level h)
        then failure "parameter node does not accept subnodes"
        else Next h)
  end).

Definition endElement (h : SocketQuerySAX2Handler) : result :=
  let h := set_level (level h - 1) h in
  if level h =? 0 then Complete (set_ready true h) else Next h.

Definition endDocument (h : SocketQuerySAX2Handler) : SocketQuerySAX2Handler := set_ready true h.

(** * The events of a document *)

Inductive event : Type :=
  | Start (node_name : string) (attrs : Attributes)
  | End.

Definition handle (e : event) (h : SocketQuerySAX2Handler) : result :=
  match e with
  | Start node_name attrs => startElement node_name attrs h
  | End => endElement h
  end.

(** The parser calls the handler event after event, until a call throws. *)
Fixpoint run (es : list event) (h : SocketQuerySAX2Handler) : result :=
  match es with
  | [] => Next h
  | e :: es => and_then (handle e h) (run es)
  end.
End handler.

Inductive element : Type := Element (node_name : string) (attrs : Attributes) (children : list element).

Fixpoint events (x : element) : list event :=
  let fix all (l : list element) : list event :=
    match l with
    | [] => []
    | c :: l => events c ++ all l
    end in
  match x with
  | Element node_name attrs children => Start node_name attrs :: all children ++ [End]
  end.

(** * The query of a document

    The same language without events and levels: the root says what is asked,
    and only a launch looks at what is below it. *)

Section query.
Context (parseInt : string -> option Z).

Abbreviation run := (run parseInt).
Abbreviation root_query := (root_query parseInt).

Fixpoint add_parameters (children : list element) (h : SocketQuerySAX2Handler) : result :=
  match children with
  | [] => Next h
  | Element node_name attrs below :: children =>
      and_then (parameter_node node_name attrs h) (fun h =>
      match below with
      | [] => add_parameters children h
      | _ => failure "parameter node does not accept subnodes"
      end)
  end.

Definition query_of (x : element) : result :=
  let 'Element node_name attrs children := x in
  and_then (root_query node_name attrs SocketQuerySAX2Handler_new) (fun h =>
  match query_type h with
  | None => Indeterminate
  | Some q =>
      and_then
        (if q =? QUERY_WORKFLOW_LAUNCH then add_parameters children h
         else if refuses_subnodes q && bool_decide (children <> []) then failure "Unexpected subnode"
         else Next h)
        (fun h => Complete (set_ready true h))
  end).

(** Results up to the level of nesting. *)
Definition at_level (n : Z) (r : result) : result :=
  match r with
  | Next h => Next (set_level n h)
  | Complete h => Complete (set_level n h)
  | _ => r
  end.

Lemma at_level_and_then n r k :
  (forall h, at_level n (k h) = k (set_level n h)) -> at_level n (and_then r k) = and_then (at_level n r) k.
Proof. intros Hk. destruct r; try done. apply Hk. Qed.

Lemma set_level_id h : set_level (level h) h = h.
Proof. by destruct h. Qed.

Lemma root_query_level n name attrs h : root_query name attrs (set_level n h) = at_level n (root_query name attrs h).
Proof.
  unfold SocketQuerySAX2Handler.root_query, statistics_query, status_query, launch_query, instance_query, failure.
  repeat break_match; simplify_eq; reflexivity.
Qed.

Lemma root_query_new_level name attrs h :
  root_query name attrs SocketQuerySAX2Handler_new = Next h -> level h = 0 /\ ready h = false.
Proof.
  unfold SocketQuerySAX2Handler.root_query, statistics_query, status_query, launch_query, instance_query, failure.
  intros E. repeat break_match_hyp E; simplify_eq; done.
Qed.

Lemma parameter_node_level n name attrs h :
  parameter_node name attrs (set_level n h) = at_level n (parameter_node name attrs h).
Proof. unfold parameter_node, failure. cbn [params set_level]. repeat break_match; simplify_eq; reflexivity. Qed.

Lemma parameter_node_same name attrs h h' :
  parameter_node name attrs h = Next h' -> query_type h' = query_type h /\ level h' = level h.
Proof. unfold parameter_node, failure. intros E. repeat break_match_hyp E; simplify_eq; done. Qed.

Lemma no_complete h' :
  (forall name attrs h, parameter_node name attrs h <> Complete h') /\
  (forall name attrs h, root_query name attrs h <> Complete h').
Proof.
  split; intros name attrs h E;
    unfold parameter_node, SocketQuerySAX2Handler.root_query, statistics_query, status_query, launch_query,
      instance_query, failure in E; repeat break_match_hyp E; simplify_eq.
Qed.

Lemma run_app es es' h : run (es ++ es') h = and_then (run es h) (run es').
Proof.
  revert h. induction es as [|e es IH]; intros h; [done|]. cbn [app SocketQuerySAX2Handler.run].
  destruct (handle parseInt e h); try done. apply IH.
Qed.

Fixpoint all_events (l : list element) : list event :=
  match l with
  | [] => []
  | c :: l => events c ++ all_events l
  end.

Lemma events_element name attrs children :
  events (Element name attrs children) = Start name attrs :: all_events children ++ [End].
Proof. reflexivity. Qed.

(** The start of a node that is not the root. *)
Lemma start_below name attrs h q :
  1 <= level h -> query_type h = Some q ->
  handle parseInt (Start name attrs) h =
    if refuses_subnodes q then failure "Unexpected subnode"
    else and_then (if (q =? QUERY_WORKFLOW_LAUNCH) && (level h =? 1) then at_level 2 (parameter_node name attrs h)
                   else Next (set_level (level h + 1) h)) (fun h' =>
         if (q =? QUERY_WORKFLOW_LAUNCH) && (1 <? level h) then failure "parameter node does not accept subnodes" else Next h').
Proof.
  intros Hl Hq. cbn [handle startElement]. unfold startElement. cbn [level set_level].
  rewrite (proj2 (Z.eqb_neq (level h + 1) 1)) by lia. cbn [and_then query_type set_level level]. rewrite Hq.
  rewrite (proj2 (Z.leb_le 2 (level h + 1))) by lia. rewrite andb_true_r. destruct (refuses_subnodes q); [done|].
  cbn [level set_level]. destruct (q =? QUERY_WORKFLOW_LAUNCH) eqn:E; cbn [andb].
  2: { cbn [and_then]. done. }
  destruct (Z.eqb_spec (level h) 1) as [E1|E1].
  - rewrite E1. change (1 + 1 =? 2) with true. cbv iota. rewrite parameter_node_level.
    destruct (parameter_node name attrs h) as [h'| | | |]; try done.
  - rewrite (proj2 (Z.eqb_neq (level h + 1) 2)) by lia. cbn [and_then level set_level].
    rewrite (proj2 (Z.ltb_lt 2 (level h + 1))) by lia. by rewrite (proj2 (Z.ltb_lt 1 (level h))) by lia.
Qed.

Lemma end_below h : 2 <= level h -> handle parseInt End h = Next (set_level (level h - 1) h).
Proof.
  intros Hl. cbn [handle]. unfold endElement. cbn [level set_level]. by rewrite (proj2 (Z.eqb_neq (level h - 1) 0)) by lia.
Qed.

(** Below a root that does not care, nothing happens. *)
Lemma run_passive q : q <> QUERY_WORKFLOW_LAUNCH -> refuses_subnodes q = false ->
  forall x h, 1 <= level h -> query_type h = Some q -> run (events x) h = Next h.
Proof.
  intros Hq Hr. fix IH 1. intros [name attrs children] h Hl Hqt.
  assert (H : forall h, 1 <= level h -> query_type h = Some q -> run (all_events children) h = Next h).
  { clear h Hl Hqt. induction children as [|c children IHc]; intros h Hl Hqt; [done|].
    cbn [all_events]. rewrite run_app, (IH c h Hl Hqt). by apply IHc. }
  rewrite events_element. cbn [SocketQuerySAX2Handler.run]. rewrite (start_below _ _ _ q Hl Hqt), Hr.
  rewrite (proj2 (Z.eqb_neq q _) Hq). cbn [andb and_then].
  rewrite run_app, H by (cbn [level set_level query_type]; done || lia). cbn [and_then SocketQuerySAX2Handler.run].
  rewrite end_below by (cbn [level set_level]; lia). cbn [and_then level set_level].
  f_equal. destruct h. unfold set_level. cbn. f_equal. lia.
Qed.

Lemma run_parameters children h :
  level h = 1 -> query_type h = Some QUERY_WORKFLOW_LAUNCH ->
  run (all_events children) h = add_parameters children h.
Proof.
  revert h. induction children as [|[name attrs below] children IH]; intros h Hl Hq; [done|].
  cbn [all_events add_parameters]. rewrite events_element. cbn [app SocketQuerySAX2Handler.run].
  rewrite (start_below name attrs h _ ltac:(lia) Hq). change (refuses_subnodes QUERY_WORKFLOW_LAUNCH) with false. cbv iota.
  rewrite Hl. cbn [Z.eqb Pos.eqb QUERY_WORKFLOW_LAUNCH andb Z.ltb Z.compare Pos.compare Pos.compare_cont].
  destruct (parameter_node name attrs h) as [h'| | | |] eqn:E; try done; [|by apply no_complete in E].
  apply parameter_node_same in E as [Eq El]. cbn [at_level and_then]. rewrite Hq in Eq. rewrite Hl in El.
  destruct below as [|[name2 attrs2 below2] below].
  - cbn [all_events app SocketQuerySAX2Handler.run]. rewrite end_below by (cbn [level set_level]; lia).
    cbn [and_then level set_level]. change (2 - 1) with 1.
    replace (set_level 1 (set_level 2 h')) with h' by (rewrite <- El at 1; by destruct h').
    by apply IH.
  - cbn [all_events]. rewrite events_element. cbn [app SocketQuerySAX2Handler.run].
    rewrite (start_below _ _ _ QUERY_WORKFLOW_LAUNCH); [|cbn; lia|exact Eq]. reflexivity.
Qed.

Lemma add_parameters_level n children h :
  add_parameters children (set_level n h) = at_level n (add_parameters children h).
Proof.
  revert h. induction children as [|[name attrs below] children IH]; intros h; [done|]. cbn [add_parameters].
  rewrite parameter_node_level. destruct (parameter_node name attrs h) as [h'| | | |]; try done.
  cbn [at_level and_then]. destruct below; [apply IH|done].
Qed.

Lemma add_parameters_same children h h' : add_parameters children h = Next h' -> level h' = level h.
Proof.
  revert h. induction children as [|[name attrs below] children IH]; intros h E; [cbn in E; congruence|].
  cbn [add_parameters] in E. destruct (parameter_node name attrs h) as [h1| | | |] eqn:Ep; try done.
  cbn [and_then] in E. apply parameter_node_same in Ep as [_ Ep]. destruct below; [|done]. apply IH in E. congruence.
Qed.

Lemma add_parameters_not_complete children h h' : add_parameters children h <> Complete h'.
Proof.
  revert h. induction children as [|[name attrs below] children IH]; intros h E; [done|]. cbn [add_parameters] in E.
  destruct (parameter_node name attrs h) as [h1| | | |] eqn:Ep; try done; [|by apply no_complete in Ep].
  cbn [and_then] in E. destruct below; [by apply IH in E|done].
Qed.

(** The state machine, with its level counter, follows the tree. *)
Lemma run_query_of x : run (events x) SocketQuerySAX2Handler_new = query_of x.
Proof.
  destruct x as [name attrs children]. rewrite events_element. cbn [SocketQuerySAX2Handler.run handle query_of].
  unfold startElement. cbn [level SocketQuerySAX2Handler_new set_level].
  change (0 + 1 =? 1) with true. cbv iota. fold SocketQuerySAX2Handler_new.
  change (mkHandler None None None None None None None false 1 WorkflowParameters_new)
    with (set_level 1 SocketQuerySAX2Handler_new).
  rewrite root_query_level. destruct (root_query name attrs SocketQuerySAX2Handler_new) as [h| | | |] eqn:E; try done;
    [|by apply no_complete in E].
  apply root_query_new_level in E as [Hl Hr]. cbn [at_level and_then query_type set_level].
  destruct (query_type h) as [q|] eqn:Hq; [|done]. cbn [level set_level]. change (2 <=? 1) with false.
  rewrite andb_false_r. change (1 =? 2) with false. rewrite andb_false_r. cbn [and_then level set_level].
  change (2 <? 1) with false. rewrite andb_false_r. cbn [and_then]. rewrite run_app.
  assert (Hend : forall h0, level h0 = 1 -> run [End] h0 = Complete (set_ready true (set_level 0 h0))).
  { intros h0 E0. cbn [SocketQuerySAX2Handler.run handle]. unfold endElement. rewrite E0. reflexivity. }
  destruct (Z.eqb_spec q QUERY_WORKFLOW_LAUNCH) as [->|Hne].
  - change (refuses_subnodes QUERY_WORKFLOW_LAUNCH) with false. rewrite run_parameters by done.
    rewrite add_parameters_level. destruct (add_parameters children h) as [h'| | | |] eqn:Ea; try done.
    + cbn [at_level and_then]. rewrite Hend by done. f_equal. apply add_parameters_same in Ea. rewrite Hl in Ea.
      destruct h'. cbn in *. by subst.
    + by apply add_parameters_not_complete in Ea.
  - destruct (refuses_subnodes q) eqn:Hrf; cbn [andb].
    + destruct children as [|[name2 attrs2 below2] children].
      * change (run (all_events []) ?x) with (Next x). cbn [and_then bool_decide]. rewrite Hend by done. f_equal. destruct h. cbn in *. by subst.
      * cbn [all_events]. rewrite events_element. cbn [app SocketQuerySAX2Handler.run].
        rewrite (start_below _ _ _ q); [|cbn; lia|exact Hq]. by rewrite Hrf.
    + assert (Hrun : forall l h0, level h0 = 1 -> query_type h0 = Some q -> run (all_events l) h0 = Next h0).
      { induction l as [|c l IH]; intros h0 H1 H2; [done|]. cbn [all_events]. rewrite run_app.
        rewrite (run_passive q Hne Hrf) by (done || lia). by apply IH. }
      rewrite Hrun by done. cbn [and_then]. rewrite Hend by done. f_equal. destruct h. cbn in *. by subst.
Qed.
End query.

(** * The language of the queries

    What a document asks, said of the document alone. *)

Inductive query : Type :=
  | Asks (query_type : Z)
  | Launches (name : string) (options : option Z) (host user : option string) (parameters : list (string * string))
  | OfInstance (query_type id : Z)
  | Kills (id pid : Z).

(** The handler after the document. *)
Definition handler_of (q : query) : SocketQuerySAX2Handler :=
  match q with
  | Asks q => mkHandler (Some q) None None None None None None true 0 WorkflowParameters_new
  | Launches name options host user parameters =>
      mkHandler (Some QUERY_WORKFLOW_LAUNCH) options None None (Some name) host user true 0
        (mkWorkflowParameters (reverse parameters) [])
  | OfInstance q id => mkHandler (Some q) None (Some id) None None None None true 0 WorkflowParameters_new
  | Kills id pid => mkHandler (Some QUERY_WORKFLOW_KILLTASK) None (Some id) (Some pid) None None None true 0 WorkflowParameters_new
  end.

Definition word (s : string) : Prop := Forall (fun c => isalnum c = true \/ c = "_"%char) (chars s).

Inductive parameter : element -> string * string -> Prop :=
  | a_parameter attrs name value :
      getValue "name" attrs = Some name -> getValue "value" attrs = Some value -> strlen name <= 64 -> word name ->
      parameter (Element "parameter" attrs []) (name, value).

(** A mode that is neither of the two leaves the option unset. *)
Inductive mode : option string -> option Z -> Prop :=
  | m_default : mode None (Some QUERY_OPTION_MODE_ASYNCHRONOUS)
  | m_asynchronous : mode (Some "asynchronous"%string) (Some QUERY_OPTION_MODE_ASYNCHRONOUS)
  | m_synchronous : mode (Some "synchronous"%string) (Some QUERY_OPTION_MODE_SYNCHRONOUS)
  | m_unknown m : m <> "asynchronous"%string -> m <> "synchronous"%string -> mode (Some m) None.

Section language.
Context (parseInt : string -> option Z).

(** The content of [ping], and of the queries to reset the statistics, on the
    workflows, to cancel, to wait and to kill, is not looked at. *)
Inductive reads : element -> query -> Prop :=
  | r_ping attrs below : reads (Element "ping" attrs below) (Asks PING)
  | r_global attrs :
      getValue "type" attrs = Some "global"%string ->
      getValue "action" attrs = None \/ getValue "action" attrs = Some "query"%string ->
      reads (Element "statistics" attrs []) (Asks QUERY_GLOBAL_STATS)
  | r_reset attrs below :
      getValue "type" attrs = Some "global"%string -> getValue "action" attrs = Some "reset"%string ->
      reads (Element "statistics" attrs below) (Asks RESET_GLOBAL_STATS)
  | r_queue attrs :
      getValue "type" attrs = Some "queue"%string -> reads (Element "statistics" attrs []) (Asks QUERY_QUEUE_STATS)
  | r_scheduler attrs :
      getValue "type" attrs = Some "scheduler"%string -> reads (Element "status" attrs []) (Asks QUERY_SCHEDULER_STATUS)
  | r_workflows attrs below :
      getValue "type" attrs = Some "workflows"%string -> reads (Element "status" attrs below) (Asks QUERY_WORKFLOWS_STATUS)
  | r_launch attrs name options children parameters :
      getValue "name" attrs = Some name -> word name -> mode (getValue "mode" attrs) options ->
      Forall2 parameter children parameters -> NoDup parameters.*1 ->
      reads (Element "workflow" attrs children)
        (Launches name options (getValue "host" attrs) (getValue "user" attrs) parameters)
  | r_info attrs id n :
      getValue "name" attrs = None -> getValue "id" attrs = Some id -> parseInt id = Some n ->
      getValue "action" attrs = None \/ getValue "action" attrs = Some "info"%string ->
      reads (Element "workflow" attrs []) (OfInstance QUERY_WORKFLOW_INFO n)
  | r_cancel attrs id n below :
      getValue "name" attrs = None -> getValue "id" attrs = Some id -> parseInt id = Some n ->
      getValue "action" attrs = Some "cancel"%string ->
      reads (Element "workflow" attrs below) (OfInstance QUERY_WORKFLOW_CANCEL n)
  | r_wait attrs id n below :
      getValue "name" attrs = None -> getValue "id" attrs = Some id -> parseInt id = Some n ->
      getValue "action" attrs = Some "wait"%string ->
      reads (Element "workflow" attrs below) (OfInstance QUERY_WORKFLOW_WAIT n)
  | r_kill attrs id n pid k below :
      getValue "name" attrs = None -> getValue "id" attrs = Some id -> parseInt id = Some n ->
      getValue "action" attrs = Some "killtask"%string -> getValue "pid" attrs = Some pid -> parseInt pid = Some k ->
      reads (Element "workflow" attrs below) (Kills n k).

(** An action that is not one of the four: the query is then dispatched on a
    variable that was never set. *)
Inductive undecided : element -> Prop :=
  | u_action attrs id n action below :
      getValue "name" attrs = None -> getValue "id" attrs = Some id -> parseInt id = Some n ->
      getValue "action" attrs = Some action -> action ∉ ["info"; "cancel"; "wait"; "killtask"]%string ->
      undecided (Element "workflow" attrs below).

Lemma valid_name_word s : valid_name s = true <-> word s.
Proof.
  unfold valid_name, word. induction (chars s) as [|c l IH]; cbn; [by split; [constructor|]|].
  by rewrite Forall_cons, andb_true_iff, orb_true_iff, bool_decide_eq_true, IH.
Qed.

Lemma parameter_node_iff name attrs h h' :
  parameter_node name attrs h = Next h' <->
  exists n v, name = "parameter"%string /\ getValue "name" attrs = Some n /\ getValue "value" attrs = Some v /\
    strlen n <= 64 /\ word n /\ n ∉ (first_parameter (params h)).*1 /\
    h' = set_params (mkWorkflowParameters ((n, v) :: first_parameter (params h)) (current_parameter (params h))) h.
Proof.
  unfold parameter_node, failure, Add. split.
  - intros E. case_bool_decide as Hn; [|done]. cbn [negb] in E.
    destruct (getValue "name" attrs) as [n|]; [|done]. destruct (getValue "value" attrs) as [v|]; [|done].
    destruct (Z.ltb_spec PARAMETER_NAME_MAX_LEN (strlen n)) as [|Hl]; [done|].
    destruct (valid_name n) eqn:Ev; [|done]. cbn [negb] in E.
    destruct (has_name (first_parameter (params h)) n) eqn:Eh; [done|]. injection E as <-. exists n, v.
    split_and!; try done; [by apply valid_name_word|]. intros Hin%has_name_iff. congruence.
  - intros (n & v & -> & -> & -> & Hl & Hw & Hn & ->). rewrite bool_decide_eq_true_2 by done. cbn [negb].
    rewrite (proj2 (Z.ltb_ge _ _)) by exact Hl. rewrite (proj2 (valid_name_word n) Hw). cbn [negb].
    destruct (has_name (first_parameter (params h)) n) eqn:Eh; [by apply has_name_iff in Eh|done].
Qed.

(** The parameters, in front of those that are there. *)
Lemma add_parameters_iff children h h' :
  add_parameters children h = Next h' <->
  exists ps, Forall2 parameter children ps /\ NoDup ps.*1 /\
    (forall n, n ∈ ps.*1 -> n ∉ (first_parameter (params h)).*1) /\
    h' = set_params (mkWorkflowParameters (reverse ps ++ first_parameter (params h)) (current_parameter (params h))) h.
Proof.
  revert h. induction children as [|[name attrs below] children IH]; intros h; cbn [add_parameters].
  - split.
    + intros [= <-]. exists []. split_and!; [constructor|constructor|by intros ? ?%elem_of_nil|by destruct h as [? ? ? ? ? ? ? ? ? []]].
    + intros (ps & ->%Forall2_nil_inv_l & _ & _ & ->). cbn. by destruct h as [? ? ? ? ? ? ? ? ? []].
  - split.
    + intros E. destruct (parameter_node name attrs h) as [h1| | | |] eqn:E1; try done. cbn [and_then] in E.
      apply parameter_node_iff in E1 as (n & v & -> & Hn & Hv & Hl & Hw & Hx & ->). destruct below; [|done].
      apply IH in E as (ps & Hps & Hnd & Hd & ->). exists ((n, v) :: ps). cbn [params set_params first_parameter current_parameter] in *.
      split_and!.
      * by repeat constructor.
      * cbn. apply NoDup_cons. split; [|done]. intros Hin. apply (Hd _ Hin). by left.
      * cbn. intros m [->|Hm]%elem_of_cons; [done|]. intros Hm2. apply (Hd _ Hm). by right.
      * by rewrite reverse_cons, <- app_assoc.
    + intros (ps & Hps & Hnd & Hd & ->). apply Forall2_cons_inv_l in Hps as ([n v] & ps' & Hp & Hps & ->).
      inversion_clear Hp. cbn in Hnd, Hd. apply NoDup_cons in Hnd as [Hnd1 Hnd].
      set (h1 := set_params (mkWorkflowParameters ((n, v) :: first_parameter (params h)) (current_parameter (params h))) h).
      assert (parameter_node "parameter" attrs h = Next h1) as ->.
      { apply parameter_node_iff. exists n, v. split_and!; try done. apply Hd. by left. }
      cbn [and_then]. apply IH. exists ps'. split_and!; try done.
      * cbn. intros m Hm [->|Hm2]%elem_of_cons; [done|]. revert Hm2. apply Hd. by right.
      * by rewrite reverse_cons, <- app_assoc.
Qed.

(** The end of a query whose root has been read. *)
Definition below_root (children : list element) (h : SocketQuerySAX2Handler) : result :=
  match query_type h with
  | None => Indeterminate
  | Some q =>
      and_then
        (if q =? QUERY_WORKFLOW_LAUNCH then add_parameters children h
         else if refuses_subnodes q && bool_decide (children <> []) then failure "Unexpected subnode"
         else Next h)
        (fun h => Complete (set_ready true h))
  end.

Lemma query_of_below name attrs children :
  query_of parseInt (Element name attrs children) =
    and_then (root_query parseInt name attrs SocketQuerySAX2Handler_new) (below_root children).
Proof. reflexivity. Qed.

Lemma below_root_bare q h :
  query_type h = Some q -> q <> QUERY_WORKFLOW_LAUNCH -> below_root [] h = Complete (set_ready true h).
Proof.
  intros E Hq. unfold below_root. rewrite E, (proj2 (Z.eqb_neq _ _) Hq). cbn [negb]. by rewrite andb_false_r.
Qed.

Lemma below_root_any q children h :
  query_type h = Some q -> q <> QUERY_WORKFLOW_LAUNCH -> refuses_subnodes q = false ->
  below_root children h = Complete (set_ready true h).
Proof. intros E Hq Hr. unfold below_root. by rewrite E, (proj2 (Z.eqb_neq _ _) Hq), Hr. Qed.

Lemma below_root_refuses q children h h' :
  query_type h = Some q -> q <> QUERY_WORKFLOW_LAUNCH -> refuses_subnodes q = true ->
  below_root children h = Complete h' -> children = [].
Proof.
  intros E Hq Hr. unfold below_root. rewrite E, (proj2 (Z.eqb_neq _ _) Hq), Hr. by destruct children.
Qed.

(** What the handler knows after the parameters of a launch. *)
Lemma below_root_launch children name options host user h :
  below_root children (mkHandler (Some QUERY_WORKFLOW_LAUNCH) options None None (Some name) host user false 0 WorkflowParameters_new)
    = Complete h <->
  exists ps, Forall2 parameter children ps /\ NoDup ps.*1 /\ h = handler_of (Launches name options host user ps).
Proof.
  unfold below_root. cbn [query_type]. change (QUERY_WORKFLOW_LAUNCH =? QUERY_WORKFLOW_LAUNCH) with true. cbv iota.
  set (h0 := mkHandler _ _ _ _ _ _ _ _ _ _). split.
  - intros E. destruct (add_parameters children h0) as [h1| | | |] eqn:Ea; try done; [|by apply add_parameters_not_complete in Ea].
    apply add_parameters_iff in Ea as (ps & Hps & Hnd & _ & ->). injection E as <-. exists ps. split_and!; try done.
    cbn. by rewrite app_nil_r.
  - intros (ps & Hps & Hnd & ->).
    rewrite (proj2 (add_parameters_iff children h0 (set_params (mkWorkflowParameters (reverse ps ++ []) []) h0))).
    + cbn. by rewrite app_nil_r.
    + exists ps. split_and!; try done. intros n _ Hn. by apply elem_of_nil in Hn.
Qed.

Lemma mode_iff m options :
  mode m options <->
  options = match m with
            | None => Some QUERY_OPTION_MODE_ASYNCHRONOUS
            | Some mode_attr =>
                if bool_decide (mode_attr = "asynchronous"%string) then Some QUERY_OPTION_MODE_ASYNCHRONOUS
                else if bool_decide (mode_attr = "synchronous"%string) then Some QUERY_OPTION_MODE_SYNCHRONOUS
                else None
            end.
Proof.
  split.
  - intros [| | |m' H1 H2]; try done. by rewrite !bool_decide_eq_false_2.
  - intros ->. destruct m as [m|]; [|constructor]. repeat case_bool_decide; subst; by constructor.
Qed.

(** A root that stands alone, one whose content is not looked at. *)
Ltac read_any E rule :=
  erewrite below_root_any in E; [|reflexivity|done|reflexivity];
  injection E as <-; eexists; split; [eapply rule; eauto|reflexivity].
Ltac read_bare E rule :=
  match type of E with
  | below_root ?children ?h = _ =>
      assert (children = []) as -> by (refine (below_root_refuses _ children h _ _ _ _ E); [reflexivity|done|reflexivity])
  end;
  erewrite below_root_bare in E; [|reflexivity|done];
  injection E as <-; eexists; split; [eapply rule; eauto|reflexivity].

Lemma statistics_reads attrs children h :
  and_then (statistics_query attrs SocketQuerySAX2Handler_new) (below_root children) = Complete h ->
  exists q, reads (Element "statistics" attrs children) q /\ h = handler_of q.
Proof.
  unfold statistics_query, failure. intros E. destruct (getValue "type" attrs) as [t|] eqn:Et; [|done].
  case_bool_decide; [subst t|].
  - destruct (getValue "action" attrs) as [a|] eqn:Ea; [|cbn [and_then] in E; read_bare E r_global].
    case_bool_decide; [subst a; cbn [and_then] in E; read_bare E r_global|].
    case_bool_decide; [subst a; cbn [and_then] in E; read_any E r_reset|done].
  - case_bool_decide; [subst t; cbn [and_then] in E; read_bare E r_queue|done].
Qed.

Lemma status_reads attrs children h :
  and_then (status_query attrs SocketQuerySAX2Handler_new) (below_root children) = Complete h ->
  exists q, reads (Element "status" attrs children) q /\ h = handler_of q.
Proof.
  unfold status_query, failure. intros E. destruct (getValue "type" attrs) as [t|] eqn:Et; [|done].
  case_bool_decide; [subst t; cbn [and_then] in E; read_bare E r_scheduler|].
  case_bool_decide; [subst t; cbn [and_then] in E; read_any E r_workflows|done].
Qed.

Lemma launch_reads attrs children name h :
  getValue "name" attrs = Some name ->
  and_then (launch_query name attrs SocketQuerySAX2Handler_new) (below_root children) = Complete h ->
  exists q, reads (Element "workflow" attrs children) q /\ h = handler_of q.
Proof.
  unfold launch_query, failure. intros En E. destruct (valid_name name) eqn:Ev; [|done]. cbn [negb and_then] in E.
  cbn in E. change (mkWorkflowParameters [] []) with WorkflowParameters_new in E.
  apply below_root_launch in E as (ps & Hps & Hnd & ->).
  eexists. split; [|reflexivity]. apply r_launch; try done; [by apply valid_name_word|by apply mode_iff].
Qed.

Lemma instance_reads attrs children id h :
  getValue "name" attrs = None -> getValue "id" attrs = Some id ->
  and_then (instance_query parseInt id attrs SocketQuerySAX2Handler_new) (below_root children) = Complete h ->
  exists q, reads (Element "workflow" attrs children) q /\ h = handler_of q.
Proof.
  unfold instance_query, failure. intros En Ei E. destruct (parseInt id) as [n|] eqn:Ep; [|done].
  destruct (getValue "action" attrs) as [a|] eqn:Ea; [|cbn [and_then] in E; read_bare E r_info].
  case_bool_decide; [subst a; cbn [and_then] in E; read_bare E r_info|].
  case_bool_decide; [subst a; cbn [and_then] in E; read_any E r_cancel|].
  case_bool_decide; [subst a; cbn [and_then] in E; read_any E r_wait|].
  case_bool_decide; [subst a|done]. destruct (getValue "pid" attrs) as [pid|] eqn:Epid; [|done].
  destruct (parseInt pid) as [k|] eqn:Ek; [|done]. cbn [and_then] in E; read_any E r_kill.
Qed.

Lemma query_of_reads x h : query_of parseInt x = Complete h -> exists q, reads x q /\ h = handler_of q.
Proof.
  destruct x as [name attrs children]. rewrite query_of_below. unfold root_query, failure. intros E.
  case_bool_decide; [subst name; cbn [and_then] in E; read_any E r_ping|].
  case_bool_decide; [subst name; by apply statistics_reads|].
  case_bool_decide; [subst name; by apply status_reads|].
  case_bool_decide; [subst name|done].
  destruct (getValue "name" attrs) as [nm|] eqn:En; [by eapply launch_reads|].
  destruct (getValue "id" attrs) as [id|] eqn:Ei; [by eapply instance_reads|done].
Qed.

Lemma reads_query_of x q : reads x q -> query_of parseInt x = Complete (handler_of q).
Proof.
  intros R. destruct R as [attrs below|attrs Et Ea|attrs below Et Ea|attrs Et|attrs Et|attrs below Et
    |attrs name options children ps En Hw Hm Hps Hnd|attrs id n En Ei Ep Ea|attrs id n below En Ei Ep Ea
    |attrs id n below En Ei Ep Ea|attrs id n pid k below En Ei Ep Ea Epid Ek];
    rewrite query_of_below; unfold root_query; cbn -[below_root getValue launch_query]; unfold statistics_query, status_query, instance_query;
    try (destruct Ea as [Ea|Ea]); rewrite ?Et, ?En, ?Ei, ?Ep, ?Ea, ?Epid, ?Ek; try reflexivity.
  unfold launch_query. rewrite (proj2 (valid_name_word name) Hw). cbn -[below_root getValue].
  change (mkWorkflowParameters [] []) with WorkflowParameters_new. apply mode_iff in Hm. rewrite <- Hm.
  apply below_root_launch. eauto.
Qed.

Lemma decided name attrs h :
  parameter_node name attrs h <> Indeterminate /\ root_query parseInt name attrs h <> Indeterminate.
Proof.
  split; intros E;
    unfold parameter_node, root_query, statistics_query, status_query, launch_query, instance_query, failure in E;
    repeat break_match_hyp E; simplify_eq.
Qed.

Lemma below_root_decided children h q : query_type h = Some q -> below_root children h <> Indeterminate.
Proof.
  intros Hq. unfold below_root. rewrite Hq. destruct (q =? QUERY_WORKFLOW_LAUNCH); [|by destruct (_ && _)]. clear Hq.
  revert h. induction children as [|[name attrs below] children IH]; intros h; [done|]. cbn [add_parameters].
  destruct (parameter_node name attrs h) as [h1| | | |] eqn:E; cbn [and_then]; try done; [|by apply decided in E].
  destruct below; [apply IH|done].
Qed.

Lemma root_unset name attrs below h :
  root_query parseInt name attrs SocketQuerySAX2Handler_new = Next h -> query_type h = None ->
  undecided (Element name attrs below).
Proof.
  unfold root_query, statistics_query, status_query, launch_query, instance_query, failure.
  intros E Hq. repeat break_match_hyp E; simplify_eq; try done.
  repeat match goal with
  | H : bool_decide _ = true |- _ => apply bool_decide_eq_true in H
  | H : bool_decide _ = false |- _ => apply bool_decide_eq_false in H
  end; subst. eapply u_action; try eassumption. rewrite !not_elem_of_cons. split_and!; try done. by intros ?%elem_of_nil.
Qed.

Lemma undecided_iff x : query_of parseInt x = Indeterminate <-> undecided x.
Proof.
  split.
  - destruct x as [name attrs children]. rewrite query_of_below. intros E.
    destruct (root_query parseInt name attrs SocketQuerySAX2Handler_new) as [h| | | |] eqn:Er; try done; [|by apply decided in Er].
    cbn [and_then] in E. destruct (query_type h) as [q|] eqn:Hq; [by apply (below_root_decided _ _ _ Hq) in E|].
    by eapply root_unset.
  - intros [attrs id n action below En Ei Ep Ea Hn]. rewrite query_of_below. unfold root_query, instance_query.
    rewrite !not_elem_of_cons in Hn. cbn -[below_root getValue]. rewrite En, Ei, Ep, Ea.
    destruct Hn as (H1 & H2 & H3 & H4 & _).
    rewrite (bool_decide_eq_false_2 _ H1), (bool_decide_eq_false_2 _ H2), (bool_decide_eq_false_2 _ H3), (bool_decide_eq_false_2 _ H4).
    reflexivity.
Qed.

(** C23: Run on the events of any XML document, the handler completes
    exactly on the documents of the language of queries and then holds
    exactly what they ask: ping, statistics and status queries of a known
    type and action, a launch with a name, a mode, a host, a user and
    parameter children, each with a valid new name, a value and no child,
    and the queries on an instance with their numbers; ping, the reset, the
    status of workflows and the cancellation, wait and kill queries accept
    any content, and an unknown mode leaves the option unset. On an unknown
    action it uses a variable that was never set, and on any other document
    it throws before the end. *)
Theorem handler_equivalent x :
  (forall h, run parseInt (events x) SocketQuerySAX2Handler_new = Complete h <-> exists q, reads x q /\ h = handler_of q) /\
  (run parseInt (events x) SocketQuerySAX2Handler_new = Indeterminate <-> undecided x) /\
  (forall h, run parseInt (events x) SocketQuerySAX2Handler_new <> Next h).
Proof.
  rewrite run_query_of. split_and!.
  - intros h. split; [apply query_of_reads|]. intros (q & R & ->). by apply reads_query_of.
  - apply undecided_iff.
  - intros h. destruct x as [name attrs children]. rewrite query_of_below. unfold below_root.
    destruct (root_query _ _ _ _) as [h0| | | |] eqn:E; try done; cbn [and_then]. destruct (query_type h0); [|done].
    match goal with |- and_then ?r _ <> _ => by destruct r end.
Qed.
End language.
