(* ===== verification/WorkflowInstances.v ===== *)
(** [WorkflowInstances.cpp]: the map of the instances that are executing, and
    the threads that wait for the end of one of them. *)

From stdpp Require Import sorting.
From S2P Require Import Prelude.

Open Scope Z_scope.

Abbreviation cond_ref := positive (only parsing).

(** * State and operations *)

Record WorkflowInstances : Type := mkWorkflowInstances {
  wi : gmap Z wi_ref;
  wi_wait : gmap Z cond_ref;
}.

Definition WorkflowInstances_new : WorkflowInstances := mkWorkflowInstances ∅ ∅.

Definition Add (workflow_instance_id : Z) (workflow_instance : wi_ref) (s : WorkflowInstances) : WorkflowInstances :=
  mkWorkflowInstances (<[workflow_instance_id := workflow_instance]> (wi s)) (wi_wait s).

(** Also returns the condition that is broadcast and destroyed. *)
Definition Remove (workflow_instance_id : Z) (s : WorkflowInstances) : option cond_ref * WorkflowInstances :=
  let s := mkWorkflowInstances (delete workflow_instance_id (wi s)) (wi_wait s) in
  match wi_wait s !! workflow_instance_id with
  | None => (None, s)
  | Some wait_cond => (Some wait_cond, mkWorkflowInstances (wi s) (delete workflow_instance_id (wi_wait s)))
  end.

(** The instance whose [Cancel], [KillTask] or [SendStatus] is called; none:
    [false]. *)
Definition Cancel (workflow_instance_id : Z) (s : WorkflowInstances) : option wi_ref := wi s !! workflow_instance_id.
Definition KillTask (workflow_instance_id : Z) (s : WorkflowInstances) : option wi_ref := wi s !! workflow_instance_id.
Definition SendStatus (workflow_instance_id : Z) (s : WorkflowInstances) : option wi_ref := wi s !! workflow_instance_id.

(** [Wait] up to [pthread_cond_wait]: the condition, on which the thread then
    waits; [None]: it returns false.  [fresh_cond] is the result of [new]. *)
Definition Wait (workflow_instance_id : Z) (fresh_cond : cond_ref) (s : WorkflowInstances)
    : option (cond_ref * WorkflowInstances) :=
  match wi s !! workflow_instance_id with
  | None => None
  | Some _ =>
      match wi_wait s !! workflow_instance_id with
      | None =>
          Some (fresh_cond, mkWorkflowInstances (wi s) (<[workflow_instance_id := fresh_cond]> (wi_wait s)))
      | Some wait_cond => Some (wait_cond, s)
      end
  end.

(** The instances whose [RecordSavepoint] is called, in the order of the map. *)
Definition id_le (a b : Z * wi_ref) : Prop := a.1 <= b.1.
#[export] Instance id_le_dec a b : Decision (id_le a b) := Z_le_dec a.1 b.1.

Definition RecordSavepoint (s : WorkflowInstances) : list wi_ref :=
  (merge_sort id_le (map_to_list (wi s))).*2.

(** * Threads *)

(** Every operation runs under [lock].  A waiting thread leaves the list when
    its condition is broadcast, or spuriously; then its [Wait] returns true. *)
Record system : Type := mkSystem {
  instances : WorkflowInstances;
  blocked : gmap nat (Z * cond_ref);
}.

Definition system_new : system := mkSystem WorkflowInstances_new ∅.

Definition broadcast (c : cond_ref) (b : gmap nat (Z * cond_ref)) : gmap nat (Z * cond_ref) :=
  filter (fun x => x.2.2 <> c) b.

Definition do_remove (id : Z) (s : system) : system :=
  let '(c, w) := Remove id (instances s) in
  mkSystem w (match c with Some c => broadcast c (blocked s) | None => blocked s end).

Inductive step : system -> system -> Prop :=
  | step_add s id w : step s (mkSystem (Add id w (instances s)) (blocked s))
  | step_remove s id : step s (do_remove id s)
  | step_wait s t id fresh_cond c w :
      blocked s !! t = None ->
      (forall i, wi_wait (instances s) !! i <> Some fresh_cond) ->
      Wait id fresh_cond (instances s) = Some (c, w) ->
      step s (mkSystem w (<[t := (id, c)]> (blocked s)))
  | step_spurious s t : step s (mkSystem (instances s) (delete t (blocked s))).

Inductive reachable : system -> Prop :=
  | reachable_new : reachable system_new
  | reachable_step s s' : reachable s -> step s s' -> reachable s'.

(** * The waiting threads and the map agree *)

Record inv (s : system) : Prop := {
  inv_running : forall id c, wi_wait (instances s) !! id = Some c -> is_Some (wi (instances s) !! id);
  inv_unique : forall id id' c,
    wi_wait (instances s) !! id = Some c -> wi_wait (instances s) !! id' = Some c -> id = id';
  inv_blocked : forall t id c, blocked s !! t = Some (id, c) -> wi_wait (instances s) !! id = Some c;
}.

Lemma inv_remove id s : inv s -> inv (do_remove id s).
Proof.
  intros [H1 H2 H3]. unfold do_remove, Remove. cbn [wi wi_wait].
  destruct (wi_wait (instances s) !! id) as [c|] eqn:E; split; cbn [instances blocked wi wi_wait].
  - intros i c' Hi. apply lookup_delete_Some in Hi as [Hne Hi]. rewrite lookup_delete_ne by done. eauto.
  - intros i i' c' Hi Hi'. apply lookup_delete_Some in Hi as [_ Hi], Hi' as [_ Hi']. eauto.
  - intros t i c' Ht. unfold broadcast in Ht. apply map_lookup_filter_Some in Ht as [Ht Hne].
    apply H3 in Ht. cbn in Hne. apply lookup_delete_Some. split; [|done]. intros <-. congruence.
  - intros i c' Hi. rewrite lookup_delete_ne; [eauto|]. intros <-. congruence.
  - eauto.
  - eauto.
Qed.

Lemma inv_step s s' : inv s -> step s s' -> inv s'.
Proof.
  intros Hi Hs. destruct Hs as [s id w|s id|s t id f c w Ht Hf Hw|s t].
  - destruct Hi as [H1 H2 H3]. split; cbn [instances blocked Add wi wi_wait]; [|done|done].
    intros i c Hc. destruct (decide (i = id)) as [->|]; [by rewrite lookup_insert_eq|].
    rewrite lookup_insert_ne by done. eauto.
  - by apply inv_remove.
  - destruct Hi as [H1 H2 H3]. unfold Wait in Hw.
    destruct (wi (instances s) !! id) eqn:Ei; [|done].
    destruct (wi_wait (instances s) !! id) as [c'|] eqn:Ew; simplify_eq; split; cbn [instances blocked wi wi_wait].
    + eauto.
    + eauto.
    + intros t' i c' Ht'. apply lookup_insert_Some in Ht' as [[_ [= <- <-]]|[_ Ht']]; eauto.
    + intros i c' Hc. apply lookup_insert_Some in Hc as [[<- _]|[_ Hc]]; eauto.
    + intros i i' c' Hc Hc'. apply lookup_insert_Some in Hc as [[<- <-]|[Hne Hc]], Hc' as [[<- E]|[Hne' Hc']];
        naive_solver.
    + intros t' i c' Ht'. apply lookup_insert_Some in Ht' as [[_ [= <- <-]]|[_ Ht']].
      * apply lookup_insert_eq.
      * apply H3 in Ht'. rewrite lookup_insert_ne; [done|]. intros <-. congruence.
  - destruct Hi as [H1 H2 H3]. split; cbn [instances blocked]; [done|done|].
    intros t' i c Ht'. apply lookup_delete_Some in Ht' as [_ Ht']. eauto.
Qed.

Lemma inv_reachable s : reachable s -> inv s.
Proof.
  induction 1 as [|s s' _ IH Hs]; [|by eapply inv_step].
  split; cbn; intros *; rewrite ?lookup_empty; done.
Qed.

(** C19: Through any interleaving of Add, Remove, Wait and spurious wakeups,
    a thread that waits for an instance waits on an instance that is
    registered, on the condition of that instance alone: Remove wakes up
    every thread that waits for its instance and no other. *)
Theorem waiters_released s id :
  reachable s ->
  (forall t i c, blocked s !! t = Some (i, c) -> is_Some (wi (instances s) !! i)) /\
  (forall t x, blocked (do_remove id s) !! t = Some x <-> blocked s !! t = Some x /\ x.1 <> id).
Proof.
  intros Hr. pose proof (inv_reachable s Hr) as [H1 H2 H3]. split; [eauto|].
  intros t [i c]. cbn [fst]. unfold do_remove, Remove. cbn [wi wi_wait].
  destruct (wi_wait (instances s) !! id) as [c'|] eqn:E; cbn [blocked].
  - unfold broadcast. rewrite map_lookup_filter_Some. cbn [snd].
    split; intros [Ht Hne]; (split; [done|]); intros ->; apply H3 in Ht; [congruence|]. eauto.
  - split; [|tauto]. intros Ht. split; [done|]. intros ->. apply H3 in Ht. congruence.
Qed.

(** Two threads wait for instance 7 and one for instance 8. *)
Definition ex_running : system := mkSystem (Add 7 1%positive (Add 8 2%positive WorkflowInstances_new)) ∅.
Definition ex_system : system :=
  mkSystem
    (mkWorkflowInstances (wi (instances ex_running)) (<[7 := 10%positive]> (<[8 := 11%positive]> ∅)))
    (<[1%nat := (7, 10%positive)]> (<[2%nat := (7, 10%positive)]> (<[3%nat := (8, 11%positive)]> ∅))).

Lemma reachable_wait s t id f c w :
  reachable s -> blocked s !! t = None -> (forall i, wi_wait (instances s) !! i <> Some f) ->
  Wait id f (instances s) = Some (c, w) -> reachable (mkSystem w (<[t := (id, c)]> (blocked s))).
Proof. intros Hr Ht Hf Hw. eapply reachable_step; [exact Hr|by eapply step_wait]. Qed.

Lemma ex_system_reachable : reachable ex_system.
Proof.
  pose proof (reachable_step _ _ reachable_new (step_add system_new 8 2%positive)) as H1.
  pose proof (reachable_step _ _ H1 (step_add _ 7 1%positive)) as H2. change (reachable ex_running) in H2.
  assert (forall i c, (∅ : gmap Z positive) !! i <> Some c) as He by (intros i c; by rewrite lookup_empty).
  assert (forall c i, c <> 11%positive -> (<[8 := 11%positive]> ∅ : gmap Z positive) !! i <> Some c) as He'.
  { intros c i Hc [[_ ?]|[_ H]]%lookup_insert_Some; [done|]. by apply He in H. }
  pose proof (reachable_wait _ 3%nat 8 11%positive 11%positive _ H2 eq_refl (fun i => He i _) eq_refl) as H3.
  pose proof (reachable_wait _ 2%nat 7 10%positive 10%positive _ H3 eq_refl
    (fun i => He' 10%positive i ltac:(done)) eq_refl) as H4.
  refine (reachable_wait _ 1%nat 7 12%positive 10%positive _ H4 eq_refl _ eq_refl).
  cbn [instances wi_wait]. intros i [[_ ?]|[_ H]]%lookup_insert_Some; [done|]. by apply He' in H.
Qed.

Lemma waiters_released_witness :
  (forall t i c, blocked ex_system !! t = Some (i, c) -> is_Some (wi (instances ex_system) !! i)) /\
  (forall t x, blocked (do_remove 7 ex_system) !! t = Some x <-> blocked ex_system !! t = Some x /\ x.1 <> 7).
Proof. apply waiters_released. exact ex_system_reachable. Defined.
