(* ===== verification/NetworkInput.v ===== *)
(** [NetworkInputSource.cpp] and [BinNetworkInputStream.cpp]: the XML parser reads a
    query from a socket. *)

From S2P Require Import Prelude.

Open Scope Z_scope.

Record BinNetworkInputStream : Type := mkStream { socket : Z; pos : Z }.

Definition BinNetworkInputStream_new (s : Z) : BinNetworkInputStream := mkStream s 0.

Definition curPos (i : BinNetworkInputStream) : Z := pos i.

(** [recv]: the bytes that the system gives for this socket and this room, [None]
    for an error.  [pos] is an [int]. *)
Definition readBytes (recv : Z -> Z -> option (list Byte.byte)) (maxToRead : Z) (i : BinNetworkInputStream)
    : outcome (list Byte.byte * BinNetworkInputStream) :=
  match recv (socket i) maxToRead with
  | None => Throw (mkException "BinNetworkInputStream" "Error reading socket")
  | Some bytes =>
      let pos := pos i + Z.of_nat (List.length bytes) in
      if pos <? 2 ^ 31 then Ret (bytes, mkStream (socket i) pos) else Undef
  end.

Definition getContentType : option string := None.

(** [NetworkInputSource] keeps a socket, of which it makes a stream. *)
Definition makeStream (socket : Z) : BinNetworkInputStream := BinNetworkInputStream_new socket.

(** The parser reads until the end of the stream, an empty read: [chunks] are
    what [recv] gives in turn. *)
Fixpoint read_all (chunks : list (option (list Byte.byte))) (maxToRead : Z) (i : BinNetworkInputStream)
    : outcome (list Byte.byte * BinNetworkInputStream) :=
  match chunks with
  | [] => Ret ([], i)
  | c :: chunks =>
      '(bytes, i) ← readBytes (fun _ _ => c) maxToRead i;
      match bytes with
      | [] => Ret ([], i)
      | _ => '(rest, i) ← read_all chunks maxToRead i; Ret (bytes ++ rest, i)
      end
  end.

(** The position is the number of bytes read. *)
Lemma read_all_pos chunks maxToRead i bytes i' :
  read_all chunks maxToRead i = Ret (bytes, i') -> curPos i' = curPos i + Z.of_nat (List.length bytes) /\ socket i' = socket i.
Proof.
  revert i bytes i'. induction chunks as [|[c|] chunks IH]; intros i bytes i' E; cbn in E; inv_ret; [simpl; lia|].
  unfold readBytes in *. destruct (_ <? _); inv_ret. destruct c as [|b c]; inv_ret; [unfold curPos; simpl; lia|].
  match goal with x : (list Byte.byte * BinNetworkInputStream)%type |- _ => destruct x end. inv_ret.
  match goal with E : read_all _ _ _ = _ |- _ => apply IH in E as [E1 E2] end.
  unfold curPos in *. cbn [pos socket] in *. split; [|done]. rewrite E1. simpl. rewrite length_app. lia.
Qed.

(** Everything that the client sends is read, in order, up to 2^31 bytes. *)
Lemma read_all_spec l maxToRead i :
  Forall (fun c => c <> []) l -> 0 <= pos i -> pos i + Z.of_nat (List.length (concat l)) < 2 ^ 31 ->
  read_all ((Some <$> l) ++ [Some []]) maxToRead i =
    Ret (concat l, mkStream (socket i) (pos i + Z.of_nat (List.length (concat l)))).
Proof.
  intros F. revert i. induction F as [|c l Hc F IH]; intros i Hp Hb.
  - cbn. unfold readBytes. cbn. rewrite Z.add_0_r in *. destruct i. cbn in *. by destruct (Z.ltb_spec pos0 (2 ^ 31)); [|lia].
  - cbn [concat fmap list_fmap app read_all]. cbn [concat] in Hb. rewrite length_app in Hb. unfold readBytes at 1.
    destruct (Z.ltb_spec (pos i + Z.of_nat (List.length c)) (2 ^ 31)); [|lia]. cbn [mbind outcome_bind].
    destruct c as [|b c]; [done|]. unfold fmap in IH. rewrite IH; cbn [pos socket]; [|lia|lia].
    cbn [mbind outcome_bind]. rewrite length_app. do 3 f_equal. lia.
Qed.
