(* ===== verification/Locking.v ===== *)
(** The mutexes of the engine: the order in which its operations take them, why
    the operations that keep to this order never block one another for ever, and
    how [Scheduler::Flush] on the retrier and the rounds of a retry thread that keep
    the mutex of the events, which do not, can. *)

From S2P Require Import Prelude.

Open Scope Z_scope.

(** * Mutexes and what a thread does with them *)

Inductive lock : Type :=
  | LInstances            (* WorkflowInstances::lock *)
  | LInstance (id : Z)    (* WorkflowInstance::lock *)
  | LRetrier              (* Retrier::retrier_lock *)
  | LRetrierEvents        (* Scheduler::mutex of the retrier *)
  | LPool                 (* QueuePool::mutex *)
  | LTasks                (* Tasks::lock *)
  | LWorkflows            (* Workflows::lock *)
  | LRetrySchedules       (* RetrySchedules::lock *)
  | LSequence             (* SequenceGenerator::lock *)
  | LCollector            (* GarbageCollector::lock *)
  | LWfs                  (* WorkflowScheduler::wfs_mutex *)
  | LWfsEvents            (* Scheduler::mutex of the workflow scheduler *)
  | LStatistics.          (* Statistics::lock *)

#[export] Instance lock_eq : EqDecision lock.
Proof. solve_decision. Defined.

#[export] Instance lock_countable : Countable lock.
Proof.
  refine (inj_countable'
    (fun l => match l with
              | LInstances => inl 0%nat | LInstance id => inr id | LRetrier => inl 1%nat
              | LRetrierEvents => inl 2%nat | LPool => inl 3%nat | LTasks => inl 4%nat
              | LWfs => inl 5%nat | LWfsEvents => inl 6%nat | LStatistics => inl 7%nat
              | LWorkflows => inl 8%nat | LRetrySchedules => inl 9%nat | LSequence => inl 10%nat | LCollector => inl 11%nat
              end)
    (fun x => match x with
              | inr id => LInstance id | inl 0%nat => LInstances | inl 1%nat => LRetrier
              | inl 2%nat => LRetrierEvents | inl 3%nat => LPool | inl 4%nat => LTasks
              | inl 5%nat => LWfs | inl 6%nat => LWfsEvents | inl 8%nat => LWorkflows
              | inl 9%nat => LRetrySchedules | inl 10%nat => LSequence | inl 11%nat => LCollector | inl _ => LStatistics
              end) _).
  by intros [].
Defined.

Inductive instr : Type := Acquire (l : lock) | Release (l : lock).

Definition program : Type := list instr.

Definition critical (l : lock) (p : program) : program := Acquire l :: p ++ [Release l].

Fixpoint repeatedly (n : nat) (p : program) : program :=
  match n with
  | O => []
  | S n => p ++ repeatedly n p
  end.

(** * The operations *)

(** [ScheduledWorkflowInstanceStop]; the second acquisition of the recursive
    mutex in [ScheduleWorkflow] changes nothing. *)
Definition schedule_stop (rescheduled : bool) : program :=
  critical LWfs (if rescheduled then critical LWfsEvents [] else []).

(** [~WorkflowInstance]. *)
Definition destructor (scheduled : option bool) : program :=
  critical LInstances [] ++
  match scheduled with Some rescheduled => schedule_stop rescheduled | None => [] end ++
  critical LStatistics [].

(** The constructor of an instance: [schedules] global retry schedules are
    imported, and the identifier comes from the sequence or from the database. *)
Definition constructor (schedules : nat) (sequence : bool) : program :=
  critical LWorkflows [] ++ repeatedly schedules (critical LRetrySchedules []) ++
  (if sequence then critical LSequence [] else []) ++ critical LInstances [] ++ critical LStatistics [].

(** The constructor from a savepoint. *)
Definition constructor_resumed : program := critical LInstances [] ++ critical LStatistics [].

(** How an operation of an instance ends for its caller: [Some _] when the
    workflow is over, with tasks in error or not, and the instance is deleted. *)
Record over : Type := Over { errors : bool; scheduled : option bool }.
Definition ending : Type := option over.

Definition delete_if_over (e : ending) : program :=
  match e with Some o => destructor (scheduled o) | None => [] end.

(** [workflow_ended]. *)
Definition workflow_ended (e : ending) : program :=
  match e with Some o => if errors o then critical LStatistics [] else [] | None => [] end.

(** [TaskRestart], which puts the task in its queue or not. *)
Definition task_restart (id : Z) (queued : bool) (e : ending) : program :=
  critical (LInstance id) ((if queued then critical LPool [] else []) ++ workflow_ended e).

(** One event of [Flush]: [event_removed] of the retrier. *)
Definition restarted : Type := Z * bool * ending.

Definition event_removed (e : restarted) : program :=
  let '(id, queued, over) := e in task_restart id queued over ++ delete_if_over over.

(** [Flush] of the retrier, which calls [event_removed] under its mutex. *)
Definition flush (events : list restarted) : program :=
  critical LRetrierEvents (events ≫= event_removed).

Definition flush_workflow_instance (events : list restarted) : program := critical LRetrier (flush events).

(** [TaskStop]: the description of a task that succeeded is looked up, or a
    failed one is put in the retrier, and the next jobs put tasks in the pool. *)
Definition task_stop (id : Z) (described retried : bool) (queued : nat) (e : ending) : program :=
  critical (LInstance id)
    ((if described then critical LTasks [] else []) ++
     (if retried then critical LRetrierEvents [] else []) ++
     repeatedly queued (critical LPool []) ++ workflow_ended e).

Definition task_execute (id : Z) (described : bool) (e : ending) : program :=
  critical (LInstance id) ((if described then critical LTasks [] else []) ++ workflow_ended e).

Definition start (id : Z) (queued : nat) (e : ending) : program :=
  critical (LInstance id) (repeatedly queued (critical LPool []) ++ workflow_ended e).

(** [Resume]: each of the tasks is put in its queue or in the retrier. *)
Definition resume (id : Z) (tasks : list bool) (e : ending) : program :=
  critical (LInstance id)
    ((tasks ≫= fun retried : bool => critical (if retried then LRetrierEvents else LPool) []) ++ workflow_ended e).

(** [WorkflowInstances::Cancel], [KillTask] and [SendStatus]. *)
Definition instance_call (id : Z) : program := critical LInstances (critical (LInstance id) []).

Definition record_savepoint (ids : list Z) : program :=
  critical LInstances (ids ≫= fun id => critical (LInstance id) []).

(** How the second half of the loop of [retry_thread] goes: no event is left and the
    thread ends; it waits, and goes round; the shutdown is seen before or after the
    wait; the first event is due already, as it was inserted meanwhile. *)
Inductive check : Type := Empty | Waits | ShutdownBefore | ShutdownAfter | Overdue.

(** The mutex is kept in the last three cases.  [pthread_cond_timedwait] releases
    it and takes it again. *)
Definition check_events (l : lock) (c : check) : program :=
  match c with
  | Empty => critical l []
  | Waits => critical l [] ++ critical l []
  | ShutdownBefore | Overdue => [Acquire l]
  | ShutdownAfter => critical l [] ++ [Acquire l]
  end.

(** One round of [retry_thread] for the mutex [l] of a scheduler: each [shift_event]
    takes an event that is handled, the last one finds none that is due. *)
Definition retry_round (l : lock) (handled : list program) (c : check) : program :=
  (handled ≫= fun p => critical l [] ++ p) ++ critical l [] ++ check_events l c.

(** [event_removed] of the workflow scheduler for an alarm: the instance is
    constructed, put in its slot and started; [None]: the constructor throws after it
    looked for the workflow. *)
Definition schedule_alarm (built : option (nat * bool * (Z * nat * ending))) : program :=
  match built with
  | Some (schedules, sequence, (id, queued, e)) =>
      constructor schedules sequence ++ critical LWfs [] ++ start id queued e ++ delete_if_over e
  | None => critical LWorkflows [] ++ critical LStatistics []
  end.

Definition schedule_reload (inserted : nat) : program :=
  critical LWfs (critical LWfsEvents [] ++ repeatedly inserted (critical LWfsEvents [])).

(** [WorkflowScheduler::SendStatus]. *)
Definition scheduler_status : program := critical LWfs (critical LWfsEvents []).

(** What a thread does from holding no mutex to holding none: an operation, and
    the deletion of the instance by its caller. *)
Inductive operation : Type :=
  | TaskStop (id : Z) (described retried : bool) (queued : nat) (e : ending)
  | TaskExecute (id : Z) (described : bool) (e : ending)
  | Construct (schedules : nat) (sequence : bool)
  | ConstructResumed
  | Start (id : Z) (queued : nat) (e : ending)
  | Resume (id : Z) (tasks : list bool) (e : ending)
  | InstanceCall (id : Z)
  | RecordSavepoint (ids : list Z)
  | AddOrWait
  | PoolCall
  | StatisticsCall
  | CollectorCall
  | Reload
  | RetryRound (events : list restarted) (c : check)
  | ScheduleRound (events : list (option (nat * bool * (Z * nat * ending)))) (c : check)
  | ScheduleReload (inserted : nat)
  | SchedulerStatus
  | Flush (events : list restarted)
  | FlushWorkflowInstance (events : list restarted).

Definition program_of (o : operation) : program :=
  match o with
  | TaskStop id described retried queued e =>
      critical LPool [] ++ task_stop id described retried queued e ++ delete_if_over e
  | TaskExecute id described e => task_execute id described e ++ delete_if_over e
  | Construct schedules sequence => constructor schedules sequence
  | ConstructResumed => constructor_resumed
  | Start id queued e => start id queued e ++ delete_if_over e
  | Resume id tasks e => resume id tasks e ++ delete_if_over e
  | InstanceCall id => instance_call id
  | RecordSavepoint ids => record_savepoint ids
  | AddOrWait => critical LInstances []
  | PoolCall => critical LPool []
  | StatisticsCall => critical LStatistics []
  | CollectorCall => critical LCollector []
  (* [Tasks::Reload], [Workflows::Reload] and [RetrySchedules::Reload] *)
  | Reload => critical LTasks [] ++ critical LWorkflows [] ++ critical LRetrySchedules []
  | RetryRound events c => retry_round LRetrierEvents (event_removed <$> events) c
  | ScheduleRound events c => retry_round LWfsEvents (schedule_alarm <$> events) c
  | ScheduleReload inserted => schedule_reload inserted
  | SchedulerStatus => scheduler_status
  | Flush events => flush events
  | FlushWorkflowInstance events => flush_workflow_instance events
  end.

(** * Threads *)

(** Who holds each mutex, and what is left to do for each thread. *)
Record system : Type := mkSystem {
  holder : gmap lock nat;
  threads : list program;
}.

Inductive step : system -> system -> Prop :=
  | step_acquire h ts i l p :
      ts !! i = Some (Acquire l :: p) -> h !! l = None ->
      step (mkSystem h ts) (mkSystem (<[l := i]> h) (<[i := p]> ts))
  | step_release h ts i l p :
      ts !! i = Some (Release l :: p) -> h !! l = Some i ->
      step (mkSystem h ts) (mkSystem (delete l h) (<[i := p]> ts)).

Definition finished (y : system) : Prop := Forall (fun p => p = []) (threads y).

(** Each thread executes its operations one after the other. *)
Definition running (os : list (list operation)) : system := mkSystem ∅ ((fun l => l ≫= program_of) <$> os).

(** * The order *)

Definition rank (l : lock) : nat :=
  match l with
  | LInstances | LWfs | LRetrier => 0
  | LInstance _ => 1
  | LRetrierEvents | LPool | LTasks | LWorkflows | LRetrySchedules | LSequence | LCollector | LWfsEvents | LStatistics => 2
  end.

(** The program, by a thread that holds [held], last taken first, takes mutexes
    of growing rank only and releases them in the reverse order. *)
Fixpoint ordered (held : list lock) (p : program) : Prop :=
  match p with
  | [] => held = []
  | Acquire l :: p => Forall (fun k => rank k < rank l)%nat held /\ ordered (l :: held) p
  | Release l :: p => match held with k :: held => k = l /\ ordered held p | [] => False end
  end.

(** Same, up to what follows: after [p] the thread holds [held] again. *)
Definition nested (held : list lock) (p : program) : Prop := forall q, ordered held q -> ordered held (p ++ q).

Lemma nested_nil held : nested held [].
Proof. by intros q Hq. Qed.

Lemma nested_app held p q : nested held p -> nested held q -> nested held (p ++ q).
Proof. intros Hp Hq r Hr. rewrite <- app_assoc. by apply Hp, Hq. Qed.

Lemma nested_critical held l p :
  Forall (fun k => rank k < rank l)%nat held -> nested (l :: held) p -> nested held (critical l p).
Proof.
  intros Hl Hp q Hq. unfold critical. cbn. split; [done|]. rewrite <- app_assoc. apply Hp. by cbn.
Qed.

Lemma nested_repeatedly held n p : nested held p -> nested held (repeatedly n p).
Proof. intros Hp. induction n; [apply nested_nil|by apply nested_app]. Qed.

Lemma nested_bind {A} held (f : A -> program) l : (forall x, nested held (f x)) -> nested held (l ≫= f).
Proof. intros Hf. induction l as [|x l IH]; [apply nested_nil|]. cbn. by apply nested_app. Qed.

Lemma nested_ordered p : nested [] p -> ordered [] p.
Proof. intros Hp. rewrite <- (app_nil_r p). by apply Hp. Qed.

Ltac nest :=
  repeat first
    [apply nested_nil | apply nested_app | apply nested_repeatedly | apply nested_bind; intros
    |apply nested_critical; [by repeat constructor|] | case_match | progress cbn].

(** No operation but a flush of the retrier goes against the order; but a round of a
    retry thread may keep its mutex. *)
Definition flushes (o : operation) : bool :=
  match o with Flush _ | FlushWorkflowInstance _ => true | _ => false end.

Definition keeps_mutex (c : check) : bool :=
  match c with Empty | Waits => false | ShutdownBefore | ShutdownAfter | Overdue => true end.

Definition disorders (o : operation) : bool :=
  match o with
  | RetryRound _ c | ScheduleRound _ c => keeps_mutex c
  | _ => flushes o
  end.

Lemma ordered_destructor s : nested [] (destructor s).
Proof. unfold destructor, schedule_stop. nest. Qed.

Lemma nested_check l c : keeps_mutex c = false -> nested [] (check_events l c).
Proof. destruct c; try done; cbn; intros _; nest. Qed.

Lemma nested_round l handled c :
  Forall (nested []) handled -> keeps_mutex c = false -> nested [] (retry_round l handled c).
Proof.
  intros Hh Hc. unfold retry_round. apply nested_app; [|apply nested_app; [nest|by apply nested_check]].
  induction Hh as [|p handled Hp _ IH]; [apply nested_nil|]. rewrite bind_cons. apply nested_app; [|done].
  apply nested_app; [nest|done].
Qed.

Ltac nest_operations :=
  unfold task_stop, task_execute, constructor, constructor_resumed, start, resume, instance_call, record_savepoint,
    schedule_alarm, schedule_reload, scheduler_status, event_removed, delete_if_over, task_restart, workflow_ended;
  nest; try apply ordered_destructor.

Lemma nested_operation o : disorders o = false -> nested [] (program_of o).
Proof.
  intros Ho. destruct o; try done; cbn [program_of]; try solve [nest_operations].
  - apply nested_round; [|done]. apply Forall_fmap, Forall_true. intros [[id q] e]. nest_operations.
  - apply nested_round; [|done]. apply Forall_fmap, Forall_true. intros [[[n s] [[id q] e]]|]; unfold compose; cbn [schedule_alarm]; nest_operations.
Qed.

Definition keeps_order (os : list (list operation)) : Prop := Forall (Forall (fun o => disorders o = false)) os.

Lemma ordered_operations l : Forall (fun o => disorders o = false) l -> ordered [] (l ≫= program_of).
Proof.
  intros Hl. apply nested_ordered. induction Hl as [|o l Ho _ IH]; [apply nested_nil|]. cbn.
  apply nested_app; [by apply nested_operation|done].
Qed.

(** * Threads that keep to the order *)

(** [hs]: the mutexes that each thread holds. *)
Record inv (y : system) (hs : list (list lock)) : Prop := {
  i_ordered : Forall2 ordered hs (threads y);
  i_distinct : Forall NoDup hs;
  i_holder : forall l i, holder y !! l = Some i <-> exists held, hs !! i = Some held /\ l ∈ held;
}.

Lemma inv_running os : keeps_order os -> inv (running os) (replicate (List.length os) []).
Proof.
  intros Hos. split; cbn [running threads holder].
  - apply Forall2_same_length_lookup_2; [by rewrite length_replicate, length_fmap|].
    intros i h p Hh Hp. apply lookup_replicate in Hh as [-> _].
    apply list_lookup_fmap_Some in Hp as (o & -> & Ho). apply ordered_operations.
    by eapply Forall_lookup_1 in Hos.
  - apply Forall_replicate. constructor.
  - intros l i. rewrite lookup_empty. split; [done|]. intros (h & Hh & Hl).
    apply lookup_replicate in Hh as [-> _]. by apply not_elem_of_nil in Hl.
Qed.

Lemma inv_acquire h ts hs i l p :
  inv (mkSystem h ts) hs -> ts !! i = Some (Acquire l :: p) -> h !! l = None ->
  exists hs', inv (mkSystem (<[l := i]> h) (<[i := p]> ts)) hs'.
Proof.
  intros [Ho Hd Hh] Hi Hl. cbn [threads holder] in *.
  destruct (Forall2_lookup_r _ _ _ _ _ Ho Hi) as (held & Hheld & [Hr Hp]).
  pose proof (lookup_lt_Some _ _ _ Hheld) as Hlt.
  exists (<[i := l :: held]> hs). split; cbn [threads holder].
  - by apply Forall2_insert.
  - apply Forall_insert; [done|]. constructor; [|by eapply Forall_lookup_1 in Hd].
    intros Hin. assert (h !! l = Some i) by (apply Hh; eauto). congruence.
  - intros k j. destruct (decide (i = j)) as [->|Hne].
    + rewrite list_lookup_insert_eq by done. destruct (decide (l = k)) as [->|Hk].
      * rewrite lookup_insert_eq. split; [|done]. intros _. eexists. split; [done|by left].
      * rewrite lookup_insert_ne by done. rewrite Hh. split.
        { intros (x & Hx & Hin). simplify_eq. eexists. split; [done|by right]. }
        intros (x & [= <-] & [?|Hin]%elem_of_cons); [done|eauto].
    + rewrite list_lookup_insert_ne by done. destruct (decide (l = k)) as [->|Hk].
      * rewrite lookup_insert_eq. split; [congruence|]. intros Hx. apply Hh in Hx. congruence.
      * rewrite lookup_insert_ne by done. apply Hh.
Qed.

Lemma inv_release h ts hs i l p :
  inv (mkSystem h ts) hs -> ts !! i = Some (Release l :: p) ->
  exists hs', inv (mkSystem (delete l h) (<[i := p]> ts)) hs'.
Proof.
  intros [Ho Hd Hh] Hi. cbn [threads holder] in *.
  destruct (Forall2_lookup_r _ _ _ _ _ Ho Hi) as (held & Hheld & Hp).
  destruct held as [|k held]; cbn in Hp; [done|]. destruct Hp as [-> Hp].
  pose proof (lookup_lt_Some _ _ _ Hheld) as Hlt.
  pose proof (Forall_lookup_1 _ _ _ _ Hd Hheld) as [Hnot Hnd]%NoDup_cons.
  assert (Hl : h !! l = Some i) by (apply Hh; eexists; split; [done|by left]).
  exists (<[i := held]> hs). split; cbn [threads holder].
  - by apply Forall2_insert.
  - by apply Forall_insert.
  - intros k j. rewrite lookup_delete_Some, Hh. destruct (decide (i = j)) as [->|Hne].
    + rewrite list_lookup_insert_eq by done. split.
      * intros (Hk & x & Hx & Hin). simplify_eq. apply elem_of_cons in Hin as [?|Hin]; [done|eauto].
      * intros (x & [= <-] & Hin). split; [by intros ->|]. eexists. split; [done|by right].
    + rewrite list_lookup_insert_ne by done. split; [tauto|]. intros Hx. split; [|done]. intros ->.
      apply Hh in Hx. congruence.
Qed.

Lemma locking_step_inv y y' hs : inv y hs -> step y y' -> exists hs', inv y' hs'.
Proof. intros I S. destruct S; [by eapply inv_acquire|by eapply inv_release]. Qed.

Lemma rank_bound l : (rank l <= 2)%nat.
Proof. destruct l; simpl; lia. Qed.

(** The thread that waits for [l], or the thread that holds it, or the one that
    holds what this one waits for, and so on, can go on. *)
Lemma acquire_progress y hs n i l p : inv y hs -> (3 - rank l <= n)%nat ->
  threads y !! i = Some (Acquire l :: p) -> exists y', step y y'.
Proof.
  intros I. revert i l p. induction n as [|n IH]; intros i l p Hn Hi; [pose proof (rank_bound l); lia|].
  destruct y as [h ts]. cbn [threads] in *. destruct (h !! l) as [j|] eqn:El; [|eexists; by eapply step_acquire].
  destruct I as [Ho Hd Hh]. cbn [threads holder] in *.
  destruct (proj1 (Hh l j) El) as (held & Hheld & Hin).
  destruct (Forall2_lookup_l _ _ _ _ _ Ho Hheld) as (q & Hq & Hord).
  destruct q as [|[k|k] q]; cbn in Hord.
  - subst held. by apply not_elem_of_nil in Hin.
  - destruct Hord as [Hr _]. rewrite Forall_forall in Hr. specialize (Hr _ Hin).
    apply (IH j k q); [lia|done].
  - destruct held as [|k' held]; [done|]. destruct Hord as [-> _]. eexists. eapply step_release; [done|].
    apply Hh. eexists. split; [done|by left].
Qed.

Lemma progress y hs : inv y hs -> finished y \/ exists y', step y y'.
Proof.
  intros I. destruct (decide (Forall (fun p => p = []) (threads y))) as [Hf|Hf]; [by left|right].
  apply not_Forall_Exists in Hf; [|apply _]. apply Exists_exists in Hf as (p & Hin & Hp).
  apply list_elem_of_lookup_1 in Hin as [i Hi]. destruct p as [|[l|l] p]; [by destruct Hp| |].
  - eapply (acquire_progress y hs 3 i l p); [done|lia|done].
  - destruct y as [h ts], I as [Ho _ Hh]. cbn [threads holder] in *.
    destruct (Forall2_lookup_r _ _ _ _ _ Ho Hi) as (held & Hheld & Hord).
    destruct held as [|k held]; [done|]. destruct Hord as [-> _]. eexists. eapply step_release; [done|].
    apply Hh. eexists. split; [done|by left].
Qed.

(** Each step does one of the instructions that are left. *)
Definition remaining (y : system) : nat := sum_list_with List.length (threads y).

Lemma remaining_insert ts i (x : instr) p :
  ts !! i = Some (x :: p) -> (sum_list_with List.length (<[i := p]> ts) < sum_list_with List.length ts)%nat.
Proof.
  revert i. induction ts as [|q ts IH]; intros [|i] Hi; simplify_eq/=; [lia|]. specialize (IH i Hi). lia.
Qed.

Lemma step_remaining y y' : step y y' -> (remaining y' < remaining y)%nat.
Proof. intros S. destruct S; by eapply remaining_insert. Qed.

Lemma runs_to_end y hs : inv y hs -> exists y', rtc step y y' /\ finished y'.
Proof.
  revert hs. induction (Wf_nat.well_founded_ltof _ remaining y) as [y _ IH]; intros hs I.
  destruct (progress y hs I) as [Hf|[y1 S]]; [by exists y|].
  destruct (locking_step_inv _ _ _ I S) as [hs1 I1].
  destruct (IH y1 (step_remaining _ _ S) hs1 I1) as (y' & R & Hf). exists y'. split; [by eapply rtc_l|done].
Qed.

(** C17: Threads that execute any sequences of the engine's operations,
    other than flushes of the retrier and rounds of a retry thread that end
    with its mutex locked (an event due at once was inserted during the
    round, or a shutdown), take the mutexes in one order and never block one
    another: from every reachable state some thread can go on until all have
    finished, and they can all finish. *)
Theorem ordered_operations_finish (os : list (list operation)) y :
  keeps_order os -> rtc step (running os) y ->
  (finished y \/ exists y', step y y') /\ exists y', rtc step y y' /\ finished y'.
Proof.
  intros Hos R. assert (exists hs, inv y hs) as [hs I].
  { pose proof (inv_running os Hos) as I. revert I. generalize (replicate (List.length os) ([] : list lock)).
    induction R as [y|x y z S _ IH]; intros hs I; [by eexists|]. destruct (locking_step_inv _ _ _ I S) as [hs' I']. eauto. }
  split; [by eapply progress|by eapply runs_to_end].
Qed.

(** * The flush of the retrier *)

Definition stuck (y : system) : Prop := ~ finished y /\ forall y', ~ step y y'.

Lemma stuck_if y :
  (exists i p, threads y !! i = Some p /\ p <> []) ->
  (forall i p, threads y !! i = Some p ->
     match p with [] => True | Acquire l :: _ => is_Some (holder y !! l) | Release _ :: _ => False end) ->
  stuck y.
Proof.
  intros (i & p & Hi & Hp) Hall. split.
  - intros Hf. apply Hp. by eapply Forall_lookup_1 in Hf.
  - intros y' S. destruct S as [h ts j l q Hj Hl|h ts j l q Hj _]; cbn [threads holder] in *.
    + specialize (Hall j _ Hj). cbn in Hall. rewrite Hl in Hall. by destruct Hall.
    + by specialize (Hall j _ Hj).
Qed.

(** A task of the instance has failed and is put in the retrier. *)
Definition failing (id : Z) : operation := TaskStop id false true 0 None.

(** The thread of index [i] executes its next instruction. *)
Definition next (i : nat) (y : system) : option system :=
  match threads y !! i with
  | Some (Acquire l :: p) =>
      match holder y !! l with
      | None => Some (mkSystem (<[l := i]> (holder y)) (<[i := p]> (threads y)))
      | Some _ => None
      end
  | Some (Release l :: p) =>
      if bool_decide (holder y !! l = Some i) then Some (mkSystem (delete l (holder y)) (<[i := p]> (threads y))) else None
  | _ => None
  end.

Lemma next_step i y y' : next i y = Some y' -> step y y'.
Proof.
  destruct y as [h ts]. unfold next. cbn [threads holder]. destruct (ts !! i) as [[|[l|l] p]|] eqn:Ei; try done.
  - destruct (h !! l) eqn:El; [done|]. intros [= <-]. by apply step_acquire.
  - case_bool_decide; [|done]. intros [= <-]. by apply step_release.
Qed.

Fixpoint nexts (order : list nat) (y : system) : option system :=
  match order with
  | [] => Some y
  | i :: order => match next i y with Some y => nexts order y | None => None end
  end.

Lemma nexts_rtc order y y' : nexts order y = Some y' -> rtc step y y'.
Proof.
  revert y. induction order as [|i order IH]; intros y E; cbn [nexts] in E; [injection E as ->; apply rtc_refl|].
  destruct (next i y) as [y1|] eqn:E1; [|done]. eapply rtc_l; [by apply next_step in E1|by apply IH].
Qed.

(** No thread can do anything any more. *)
Definition blocked (y : system) : bool :=
  existsb (fun p => match p with [] => false | _ => true end) (threads y) &&
  forallb (fun p => match p with
                    | [] => true
                    | Acquire l :: _ => bool_decide (is_Some (holder y !! l))
                    | Release _ :: _ => false
                    end) (threads y).

Lemma blocked_stuck y : blocked y = true -> stuck y.
Proof.
  unfold blocked. rewrite andb_true_iff, existsb_exists, forallb_forall. intros [(p & Hp & Hb) Hall]. apply stuck_if.
  - apply list_elem_of_In, list_elem_of_lookup_1 in Hp as [i Hi]. exists i, p. split; [done|]. by destruct p.
  - intros i q Hi. assert (Hq : In q (threads y)) by (by apply list_elem_of_In, (list_elem_of_lookup_2 _ i)).
    apply Hall in Hq. destruct q as [|[l|l] q]; [done| |done]. by apply bool_decide_eq_true in Hq.
Qed.

Lemma run_blocks os order : match nexts order (running os) with Some y => blocked y | None => false end = true ->
  exists y, rtc step (running os) y /\ stuck y.
Proof.
  destruct (nexts order (running os)) as [y|] eqn:E; [|done]. intros Hb. exists y.
  split; [by eapply nexts_rtc|by apply blocked_stuck].
Qed.

(** A round of the retry thread that keeps the mutex of the events blocks the thread
    itself when it goes round, and with it an instance whose task fails and all who ask
    for the state of this instance. *)
Theorem overdue_round_deadlocks :
  exists y, rtc step (running [[RetryRound [] Overdue; RetryRound [] Empty]; [failing 1]; [InstanceCall 1]]) y /\ stuck y /\
    exists i p, threads y !! i = Some (Acquire (LInstance 1) :: p).
Proof.
  destruct (nexts [0; 0; 0; 1; 1; 1; 2]%nat (running [[RetryRound [] Overdue; RetryRound [] Empty]; [failing 1]; [InstanceCall 1]]))
    as [y|] eqn:E; [|by vm_compute in E].
  exists y. split; [by eapply nexts_rtc|]. vm_compute in E. injection E as <-.
  split; [by apply blocked_stuck; vm_compute|]. by eexists 2%nat, _.
Qed.

(** C34: A flush of the retrier holds the mutex of the events while it takes
    those of an instance and of the map of instances: runs exist where it
    blocks for ever with a task of the same instance that fails, and where
    the cancellation of an instance, the failure of a task of another one
    and a query about the latter block one another for ever. *)
Theorem retrier_flush_deadlocks :
  (** The retrier order flushed while a task of the same instance fails. *)
  (exists y, rtc step (running [[Flush [(1, true, None)]]; [failing 1]]) y /\ stuck y) /\
  (** Instance 1 order cancelled and ends with the flush, while a task of instance 2
      fails and a client asks for the status of instance 2. *)
  (exists y, rtc step (running [[FlushWorkflowInstance [(1, false, Some (Over false None))]]; [failing 2]; [InstanceCall 2]]) y /\ stuck y).
Proof.
  split.
  - apply (run_blocks [[Flush [(1, true, None)]]; [failing 1]] [0; 1; 1; 1]%nat). vm_compute. reflexivity.
  - apply (run_blocks [[FlushWorkflowInstance [(1, false, Some (Over false None))]]; [failing 2]; [InstanceCall 2]]
      [0; 0; 1; 1; 1; 2; 0; 0]%nat). vm_compute. reflexivity.
Qed.

Definition ex_operations : list (list operation) :=
  [[failing 1; failing 1]; [RetryRound [(1, true, None)] Waits]; [InstanceCall 1; PoolCall]; [TaskExecute 2 true (Some (Over true (Some true)))];
   [ScheduleReload 2; Reload]; [Construct 1 true; Start 3 1 None]; [ConstructResumed; Resume 4 [true; false] None];
   [ScheduleRound [Some (0%nat, false, (5, 1%nat, None)); None] Empty; StatisticsCall]; [CollectorCall; SchedulerStatus]].

Lemma ordered_operations_finish_witness :
  (finished (running ex_operations) \/ exists y', step (running ex_operations) y') /\
  exists y', rtc step (running ex_operations) y' /\ finished y'.
Proof.
  apply (ordered_operations_finish ex_operations (running ex_operations)); [repeat constructor|apply rtc_refl].
Defined.
