(* ===== verification/HandleConnection.v ===== *)
(** [handle_connection.cpp]: what the engine does with a query that a client
    sends.  The calls to the other components are recorded in order; what they
    answer is an environment. *)

From S2P Require Import Prelude CString WorkflowParameters SocketQuerySAX2Handler.

Open Scope Z_scope.

(** * Calls and answers *)

(** Consecutive [send]s of one reply are one text. *)
Inductive action : Type :=
  | IncAcceptedConnections
  | IncInputErrors
  | IncWorkflowQueries
  | IncWorkflowExceptions
  | IncWorkflowStatusQueries
  | IncWorkflowCancelQueries
  | IncStatisticsQueries
  | ResetGlobalStatistics
  | StartInstance (id : Z)
  | DeleteInstance (id : Z)
  | CancelInstance (id : Z)
  | FlushWorkflowInstance (id : Z)
  | CancelTasks (id : Z)
  | WaitInstance (id : Z)
  | KillTask (id pid : Z)
  | Send (text : string)
  | SendInstanceStatus (id : Z)
  | SendQueueStatistics
  | SendGlobalStatistics
  | SendWorkflowsStatus
  | SendSchedulerStatus
  | Close.

(** [start] tells whether the workflow ended at once.  Otherwise another thread
    deletes the instance when it ends: [freed n] tells whether that happened
    before this thread looks at the instance for the [n]th time.  [executing] and
    [wait] are what [WorkflowInstances] answers about an identifier; [wait] is
    [None] when the call never returns (see [SystemClients]). *)
Record environment : Type := mkEnvironment {
  new_instance : option string -> list (string * string) -> option string -> option string -> outcome Z;
  start : Z -> outcome bool;
  freed : nat -> bool;
  executing : Z -> bool;
  wait : Z -> option bool;
  connect_db : option Exception;
  savepoint : Z -> outcome (option (option string));
}.

(** How the thread goes on: it returns; an exception leaves it, which ends the
    process; it waits for ever; it runs off the end of the function, without a
    return value and without closing the socket; undefined behaviour. *)
Inductive ending : Type := Returned | Terminates | Blocks | RunsOff | Undefined.

Definition trace : Type := list action * ending.

Definition first (a : list action) (t : trace) : trace := (a ++ fst t, snd t).

(** [throw (void * )0] to the handler at the end of the function. *)
Definition finish : trace := ([Close], Returned).

Definition unknown_instance : string := "<return status='KO' error='UNKNOWN-WORKFLOW-INSTANCE' />".
Definition ok : string := "<return status='OK' />".
Definition launched (id : Z) : string :=
  "<return status='OK' workflow-instance-id='" +:+ sprintf_d id +:+ "' />".
Definition quote : string := String (ascii_of_nat 34) EmptyString.
Definition refused (error : string) : string :=
  "<return status='KO' error=" +:+ quote +:+ error +:+ quote +:+ " />".

Section handle_connection.
Context (env : environment).

(** [WorkflowInstances::Wait]. *)
Definition wait_instance (id : Z) (k : bool -> trace) : trace :=
  match wait env id with
  | Some found => first [WaitInstance id] (k found)
  | None => ([WaitInstance id], Blocks)
  end.

(** Lines 169 to 182.  An instance that has ended at once is still in the map,
    and nobody but this thread removes it. *)
Definition launch_started (h : SocketQuerySAX2Handler) (id : Z) (workflow_terminated : bool) : trace :=
  let use n k := if negb workflow_terminated && freed env n then ([], Undefined) else k in
  let reply :=
    use 2%nat (first [Send (launched id)]
      (first (if workflow_terminated then [DeleteInstance id] else []) finish)) in
  use 0%nat
    match query_options h with
    | None => ([], Undefined)
    | Some options =>
        if options =? QUERY_OPTION_MODE_SYNCHRONOUS then use 1%nat (wait_instance id (fun _ => reply)) else reply
    end.

Definition launch (h : SocketQuerySAX2Handler) : trace :=
  first [IncWorkflowQueries]
    match new_instance env (workflow_name h) (first_parameter (params h)) (workflow_host h) (workflow_user h) with
    | Throw e => first [IncWorkflowExceptions; Send (refused (error e))] finish
    | Undef => ([], Terminates)
    | Ret id =>
        first [StartInstance id]
          match start env id with
          | Ret workflow_terminated => launch_started h id workflow_terminated
          | Throw _ | Undef => ([], Terminates)
          end
    end.

Definition info (id : Z) : trace :=
  match connect_db env with
  | Some _ => ([], Terminates)
  | None =>
      first [IncWorkflowStatusQueries]
        (if executing env (u32 id) then first [SendInstanceStatus (u32 id)] finish
         else
           match savepoint env id with
           | Throw _ => ([], Terminates)
           | Undef | Ret (Some None) => ([], Undefined)
           | Ret (Some (Some text)) => first [Send text] finish
           | Ret None => first [Send unknown_instance] finish
           end)
  end.

Definition cancel (id : Z) : trace :=
  first [IncWorkflowCancelQueries]
    (if executing env id
     then first [CancelInstance id; FlushWorkflowInstance id; CancelTasks id; Send ok] finish
     else first [Send unknown_instance] finish).

Definition wait_query (id : Z) : trace :=
  wait_instance id
    (fun found => first [Send (if found : bool then ok else unknown_instance)] finish).

Definition killtask (id pid : Z) : trace :=
  if executing env id then first [KillTask id pid; Send ok] finish
  else first [Send unknown_instance] finish.

(** The use of a field that was never set. *)
Definition with_field (f : option Z) (k : Z -> trace) : trace :=
  match f with
  | Some z => k z
  | None => ([], Undefined)
  end.

Definition dispatch (h : SocketQuerySAX2Handler) : trace :=
  with_field (query_type h) (fun q =>
  if q =? PING then first [Send "<pong />"] finish
  else if q =? QUERY_WORKFLOW_LAUNCH then launch h
  else if q =? QUERY_WORKFLOW_INFO then with_field (workflow_id h) info
  else if q =? QUERY_WORKFLOW_CANCEL then with_field (workflow_id h) (fun id => cancel (u32 id))
  else if q =? QUERY_WORKFLOW_WAIT then with_field (workflow_id h) (fun id => wait_query (u32 id))
  else if q =? QUERY_WORKFLOW_KILLTASK then
    with_field (workflow_id h) (fun id => with_field (task_pid h) (fun pid => killtask (u32 id) pid))
  else if q =? QUERY_QUEUE_STATS then first [IncStatisticsQueries; SendQueueStatistics] finish
  else if q =? QUERY_GLOBAL_STATS then first [IncStatisticsQueries; SendGlobalStatistics] finish
  else if q =? RESET_GLOBAL_STATS then first [ResetGlobalStatistics; Send ok] finish
  else if q =? QUERY_WORKFLOWS_STATUS then first [IncStatisticsQueries; SendWorkflowsStatus] finish
  else if q =? QUERY_SCHEDULER_STATUS then first [IncStatisticsQueries; SendSchedulerStatus] finish
  else ([], RunsOff)).

(** What the parser made of the input: it is not well-formed XML, or the handler
    saw its events. *)
Inductive input : Type :=
  | NotXML
  | Events (r : result).

Definition handle_connection (i : input) : trace :=
  first [IncAcceptedConnections]
    match i with
    | NotXML => finish
    | Events (Raise _) | Events LibraryException => first [IncInputErrors] finish
    | Events Indeterminate => ([], Undefined)
    | Events (Next h) | Events (Complete h) => dispatch h
    end.

(** A query received as an XML document. *)
Definition serve (parseInt : string -> option Z) (x : element) : trace :=
  handle_connection (Events (run parseInt (events x) SocketQuerySAX2Handler_new)).
End handle_connection.

(** * Every query is answered *)






Definition is_reply (a : action) : bool :=
  match a with
  | Send _ | SendInstanceStatus _ | SendQueueStatistics | SendGlobalStatistics
  | SendWorkflowsStatus | SendSchedulerStatus => true
  | _ => false
  end.

(** One reply, then the socket is closed, once, and the thread returns. *)
Definition served (t : trace) : Prop :=
  exists before, t = (before ++ [Close], Returned) /\ Close ∉ before /\ count is_reply before = 1.

(** The database answers, the library throws nothing, and calls of [Wait] return. *)
Record well_behaved (env : environment) : Prop := {
  wb_new : forall n p host user, new_instance env n p host user <> Undef;
  wb_start : forall id, exists b, start env id = Ret b;
  wb_wait : forall id, is_Some (wait env id);
  wb_db : connect_db env = None;
  wb_savepoint : forall id, exists s, savepoint env id = Ret s /\ s <> Some None;
}.

Lemma served_actions (before : list action) :
  (forall a, a ∈ before -> a <> Close) -> count is_reply before = 1 -> served (before ++ [Close], Returned).
Proof. intros H1 H2. exists before. split; [done|]. split; [|done]. intros H. by apply (H1 Close). Qed.

(** Solves [served] on an explicit list of actions. *)
Ltac serve :=
  unfold first, finish; cbn [app fst snd];
  match goal with
  | |- served (?l, Returned) =>
      let rec split_last l :=
        match l with
        | [Close] => constr:(@nil action)
        | ?a :: ?r => let r := split_last r in constr:(a :: r)
        end in
      let b := split_last l in
      apply (served_actions b);
      [let a := fresh in let H := fresh in intros a H;
       repeat (apply elem_of_cons in H as [->|H]; [discriminate|]); by apply elem_of_nil in H
      |reflexivity]
  end.

Section served.
Context (env : environment) (Hwb : well_behaved env).




End served.





(** * Where no answer comes *)

(** An action that [startElement] does not know leaves [query_type] unset. *)
Lemma unknown_action_undefined env parseInt n :
  parseInt "5"%string = Some n ->
  serve env parseInt (Element "workflow" [("id", "5"); ("action", "restart")]%string []) =
    ([IncAcceptedConnections], Undefined).
Proof.
  intros Hn. unfold serve. rewrite run_query_of. cbn [query_of].
  assert (root_query parseInt "workflow" [("id", "5"); ("action", "restart")]%string SocketQuerySAX2Handler_new =
    instance_query parseInt "5" [("id", "5"); ("action", "restart")]%string SocketQuerySAX2Handler_new) as -> by reflexivity.
  unfold instance_query. rewrite Hn. reflexivity.
Qed.

(** An unreachable database ends the process when a client asks about an
    instance: nothing catches the exception of [DB]. *)
Lemma info_terminates env h id e :
  query_type h = Some QUERY_WORKFLOW_INFO -> workflow_id h = Some id -> connect_db env = Some e ->
  handle_connection env (Events (Complete h)) = ([IncAcceptedConnections], Terminates).
Proof.
  intros Hq Hid Hdb. unfold handle_connection, dispatch, with_field. rewrite Hq, Hid.
  change (QUERY_WORKFLOW_INFO =? PING) with false. change (QUERY_WORKFLOW_INFO =? QUERY_WORKFLOW_LAUNCH) with false.
  change (QUERY_WORKFLOW_INFO =? QUERY_WORKFLOW_INFO) with true. cbv iota. unfold info. by rewrite Hdb.
Qed.
