(* ===== verification/Monitor.v ===== *)
(** [evqueue_monitor.cpp]: the program that runs a task, on this host or
    through SSH, and reports its end to the engine; what the remote shell reads. *)

From S2P Require Import Prelude CString.

Open Scope Z_scope.

(** * The argument vector of the task *)

(** An element of [task_argv]. *)
Inductive cell : Type := Unset | Null | Str (s : string).

(** [current_arg] and [task_argv]. *)
Definition argv_state : Type := Z * list cell.

Definition store (v : string) (st : argv_state) : outcome argv_state :=
  a ← aset (snd st) (fst st) (Str v);
  Ret (fst st + 1, a).

(** A string written in an allocation of [size] bytes. *)
Definition fits (size : Z) (s : string) : outcome string :=
  if strlen s + 1 <=? size then Ret s else Undef.

Fixpoint escape (l : list ascii) : list ascii :=
  match l with
  | [] => []
  | c :: l => (if bool_decide (c = "'"%char) then ["\"%char; "'"%char] else [c]) ++ escape l
  end.

Definition quote_arg (s : string) : string :=
  string_of_list_ascii ("'"%char :: escape (chars s) ++ ["'"%char]).

(** What reaches [execv], after [chdir] and the lines written to the output. *)
Record request : Type := mkRequest {
  working_directory : option string;
  printed : list string;
  path : string;
  args : list string;
}.

(** [execv] reads the vector up to the null pointer. *)
Fixpoint read_argv (l : list cell) : outcome (list string) :=
  match l with
  | Str s :: l => r ← read_argv l; Ret (s :: r)
  | Null :: _ => Ret []
  | _ => Undef
  end.

Section monitor.
Context (getenv : string -> option string).

Definition ssh_nargs : Z :=
  let n := 0 in
  let n := match getenv "EVQUEUE_SSH_HOST" with Some _ => n + 1 | None => n end in
  let n := match getenv "EVQUEUE_SSH_KEY" with Some _ => n + 2 | None => n end in
  let n := match getenv "EVQUEUE_WORKING_DIRECTORY" with Some _ => if 0 <? n then n + 1 else n | None => n end in
  if 0 <? n then n + 1 else n.

(** The branch [ssh_nargs>0]. *)
Definition ssh_arguments (binary : string) (st : argv_state) : outcome argv_state :=
  ssh_path ← deref (getenv "EVQUEUE_SSH_PATH");
  a ← aset (snd st) 0 (Str ssh_path);
  let st := (fst st, a) in
  st ← (match getenv "EVQUEUE_SSH_KEY" with
        | Some ssh_key => st ← store "-i" st; store ssh_key st
        | None => Ret st
        end);
  ssh_host ← deref (getenv "EVQUEUE_SSH_HOST");
  st ← (match getenv "EVQUEUE_SSH_USER" with
        | Some ssh_user =>
            v ← fits (strlen ssh_host + strlen ssh_user + 2) (ssh_user +:+ "@" +:+ ssh_host); store v st
        | None => store ssh_host st
        end);
  st ← (match getenv "EVQUEUE_WORKING_DIRECTORY" with
        | Some working_directory =>
            v ← fits (strlen working_directory + 32) ("cd " +:+ working_directory +:+ ";"); store v st
        | None => Ret st
        end);
  store binary st.

(** The loop on the task parameters. *)
Fixpoint task_parameters (ssh : bool) (parameters : list string) (st : argv_state) : outcome argv_state :=
  match parameters with
  | [] => Ret st
  | p :: parameters =>
      v ← (if ssh then fits (2 * strlen p + 3) (quote_arg p) else Ret p);
      st ← store v st;
      task_parameters ssh parameters st
  end.

(** The child process, with [argv] from [argv[1]] on: the binary, the task
    identifier and the parameters. *)
Definition child (binary : string) (parameters : list string) : outcome request :=
  let ssh := 0 <? ssh_nargs in
  let task_nargs := Z.of_nat (List.length parameters) in
  let task_argv := replicate (Z.to_nat (1 + ssh_nargs + task_nargs + 1)) Unset in
  task_argv ← aset task_argv 0 (Str binary);
  st ← (if ssh then ssh_arguments binary (1, task_argv) else Ret (1, task_argv));
  st ← task_parameters ssh parameters st;
  task_argv ← aset (snd st) (fst st) Null;
  first ← aget task_argv 0;
  path ← deref (match first with Str p => Some p | _ => None end);
  args ← read_argv task_argv;
  Ret (mkRequest (if ssh then None else getenv "EVQUEUE_WORKING_DIRECTORY")
         (if ssh then quote_arg <$> parameters else []) path args).

(** [main], for [argv]: [None] when it returns at once. *)
Definition main (argv : list string) : option (outcome request) :=
  match argv with
  | _ :: binary :: _ :: parameters => Some (child binary parameters)
  | _ => None
  end.
End monitor.

(** * The message to the engine *)

Inductive wait_status : Type := Exited (code : Z) | Signaled (signal : Z).

Definition i8 (z : Z) : Z := (z + 128) mod 256 - 128.

Definition retcode (status : wait_status) : Z :=
  match status with
  | Exited code => i8 code
  | Signaled _ => -1
  end.

Record st_msgbuf : Type := mkMsgbuf { msg_pid : Z; msg_tid : Z; msg_retcode : Z }.

(** [None]: no message, for lack of arguments. *)
Definition notification (argv : list string) (pid : Z) (status : wait_status) : option st_msgbuf :=
  match argv with
  | _ :: _ :: tid :: _ => Some (mkMsgbuf pid (atoi tid) (retcode status))
  | _ => None
  end.

(** * What is executed *)

Section arguments.
Context (getenv : string -> option string).

(** The command line that the environment asks for. *)
Definition command (binary : string) (parameters : list string) : request :=
  match getenv "EVQUEUE_SSH_HOST" with
  | None =>
      mkRequest (getenv "EVQUEUE_WORKING_DIRECTORY") [] binary (binary :: parameters)
  | Some host =>
      let ssh_path := default ""%string (getenv "EVQUEUE_SSH_PATH") in
      mkRequest None (quote_arg <$> parameters) ssh_path
        ([ssh_path] ++
         match getenv "EVQUEUE_SSH_KEY" with Some key => ["-i"%string; key] | None => [] end ++
         [match getenv "EVQUEUE_SSH_USER" with Some user => user +:+ "@" +:+ host | None => host end] ++
         match getenv "EVQUEUE_WORKING_DIRECTORY" with Some d => ["cd " +:+ d +:+ ";"] | None => [] end ++
         [binary] ++ (quote_arg <$> parameters))
  end.

Lemma fits_ok size s : strlen s + 1 <= size -> fits size s = Ret s.
Proof. intros H. unfold fits. by rewrite (proj2 (Z.leb_le _ _)). Qed.

Lemma quote_arg_fits s : strlen (quote_arg s) + 1 <= 2 * strlen s + 3.
Proof.
  unfold quote_arg. rewrite !strlen_chars. unfold chars at 1. rewrite list_ascii_of_string_of_list_ascii.
  rewrite length_cons, length_app. simpl List.length.
  assert (List.length (escape (chars s)) <= 2 * List.length (chars s))%nat; [|lia].
  induction (chars s) as [|c l IH]; [simpl; lia|]. cbn [escape]. rewrite length_app.
  case_bool_decide; simpl in *; lia.
Qed.

(** The elements written so far, and the room that is left. *)
Definition filled (done_ : list string) (room : nat) (st : argv_state) : Prop :=
  st = (Z.of_nat (List.length done_), (Str <$> done_) ++ replicate room Unset).

Lemma store_filled v done_ room st :
  filled done_ (S room) st -> exists st', store v st = Ret st' /\ filled (done_ ++ [v]) room st'.
Proof.
  intros ->. unfold store. cbn [fst snd].
  rewrite (proj2 (aset_Ret _ ((Str <$> done_) ++ Str v :: replicate room Unset) _ _)).
  - cbn [mbind outcome_bind]. eexists. split; [done|]. unfold filled. rewrite length_app, fmap_app, <- app_assoc.
    simpl. f_equal. lia.
  - rewrite length_app, length_fmap, length_replicate. split; [lia|]. rewrite Nat2Z.id.
    rewrite <- (length_fmap Str done_) at 1. rewrite <- (Nat.add_0_r (List.length _)). by rewrite insert_app_r.
Qed.

Lemma task_parameters_filled ssh parameters done_ room st :
  filled done_ (List.length parameters + room) st ->
  exists st', task_parameters ssh parameters st = Ret st' /\
    filled (done_ ++ (if ssh then quote_arg <$> parameters else parameters)) room st'.
Proof.
  revert done_ st. induction parameters as [|p parameters IH]; intros done_ st Hf; cbn [task_parameters].
  - exists st. split; [done|]. destruct ssh; by rewrite app_nil_r.
  - rewrite fits_ok by apply quote_arg_fits.
    assert ((if ssh then Ret (quote_arg p) else Ret p) = Ret (if ssh then quote_arg p else p)) as -> by by destruct ssh.
    cbn [mbind outcome_bind].
    destruct (store_filled (if ssh then quote_arg p else p) _ _ _ Hf) as (st1 & -> & Hf1). cbn [mbind outcome_bind].
    destruct (IH _ _ Hf1) as (st2 & -> & Hf2). exists st2. split; [done|].
    rewrite <- app_assoc in Hf2. destruct ssh; exact Hf2.
Qed.

Lemma read_argv_filled done_ rest : read_argv ((Str <$> done_) ++ Null :: rest) = Ret done_.
Proof. induction done_ as [|s l IH]; [done|]. cbn [fmap list_fmap app read_argv] in *. by rewrite IH. Qed.

Lemma store_optional {A} (o : option A) (f : A -> string) (g : A -> outcome string) done_ room st :
  (forall x, g x = Ret (f x)) ->
  filled done_ ((match o with Some _ => 1 | None => 0 end) + room) st ->
  exists st', (match o with Some x => v ← g x; store v st | None => Ret st end) = Ret st' /\
    filled (done_ ++ match o with Some x => [f x] | None => [] end) room st'.
Proof.
  intros Hg Hf. destruct o as [x|]; [|exists st; rewrite app_nil_r; done].
  rewrite Hg. cbn [mbind outcome_bind]. by apply store_filled.
Qed.

(** The arguments before the parameters, through SSH. *)
Lemma ssh_arguments_filled binary ssh_path host room st :
  getenv "EVQUEUE_SSH_PATH" = Some ssh_path -> getenv "EVQUEUE_SSH_HOST" = Some host ->
  filled [binary] (Z.to_nat (ssh_nargs getenv) + room) st ->
  exists st', ssh_arguments getenv binary st = Ret st' /\
    filled ([ssh_path] ++
      match getenv "EVQUEUE_SSH_KEY" with Some key => ["-i"%string; key] | None => [] end ++
      [match getenv "EVQUEUE_SSH_USER" with Some user => user +:+ "@" +:+ host | None => host end] ++
      match getenv "EVQUEUE_WORKING_DIRECTORY" with Some d => ["cd " +:+ d +:+ ";"] | None => [] end ++ [binary]) room st'.
Proof.
  intros Hp Hh Hf. unfold ssh_nargs in Hf. unfold ssh_arguments. rewrite Hp, Hh in *. cbn [deref mbind outcome_bind].
  rewrite Hf. cbn [fst snd fmap list_fmap app].
  rewrite (proj2 (aset_Ret _ (Str ssh_path :: replicate _ Unset) 0 _)) by (split; [simpl; lia|done]).
  cbn [mbind outcome_bind].
  set (n := (match getenv "EVQUEUE_WORKING_DIRECTORY" with Some _ => 1 | None => 0 end + S room)%nat).
  match goal with |- context [replicate ?k Unset] =>
    replace k with ((match getenv "EVQUEUE_SSH_KEY" with Some _ => 2 | None => 0 end) + S n)%nat end.
  2: { subst n. destruct (getenv "EVQUEUE_SSH_KEY"), (getenv "EVQUEUE_WORKING_DIRECTORY"); cbv -[Nat.add]; lia. }
  assert (Hk : exists st1, (match getenv "EVQUEUE_SSH_KEY" with
      | Some ssh_key => st ← store "-i" (Z.of_nat (List.length [binary]), Str ssh_path :: replicate (match getenv "EVQUEUE_SSH_KEY" with Some _ => 2 | None => 0 end + S n) Unset); store ssh_key st
      | None => Ret (Z.of_nat (List.length [binary]), Str ssh_path :: replicate (match getenv "EVQUEUE_SSH_KEY" with Some _ => 2 | None => 0 end + S n) Unset) end) = Ret st1 /\
    filled ([ssh_path] ++ match getenv "EVQUEUE_SSH_KEY" with Some key => ["-i"%string; key] | None => [] end) (S n) st1).
  { destruct (getenv "EVQUEUE_SSH_KEY") as [key|]; [|eexists; split; done].
    edestruct (store_filled "-i" [ssh_path] (S (S n))) as (st1 & -> & H1); [reflexivity|]. cbn [mbind outcome_bind].
    destruct (store_filled key _ _ _ H1) as (st2 & -> & H2). exists st2. split; [done|]. by rewrite <- app_assoc in H2. }
  destruct Hk as (st1 & -> & H1). cbn [mbind outcome_bind].
  assert (Hu : exists st2, (match getenv "EVQUEUE_SSH_USER" with
      | Some ssh_user => v ← fits (strlen host + strlen ssh_user + 2) (ssh_user +:+ "@" +:+ host); store v st1
      | None => store host st1 end) = Ret st2 /\
      filled (([ssh_path] ++ match getenv "EVQUEUE_SSH_KEY" with Some key => ["-i"%string; key] | None => [] end) ++
        [match getenv "EVQUEUE_SSH_USER" with Some user => user +:+ "@" +:+ host | None => host end]) n st2).
  { destruct (getenv "EVQUEUE_SSH_USER") as [user|]; [|by apply store_filled].
    rewrite fits_ok by (rewrite !strlen_app; change (strlen "@") with 1; lia). by apply store_filled. }
  destruct Hu as (st2 & -> & H2). cbn [mbind outcome_bind].
  edestruct (store_optional (getenv "EVQUEUE_WORKING_DIRECTORY") (fun d => "cd " +:+ d +:+ ";")
    (fun d => fits (strlen d + 32) ("cd " +:+ d +:+ ";"))) as (st3 & -> & H3).
  { intros d. apply fits_ok. rewrite !strlen_app. change (strlen "cd ") with 3. change (strlen ";") with 1. lia. }
  { exact H2. }
  cbn [mbind outcome_bind]. destruct (store_filled binary _ _ _ H3) as (st4 & -> & H4). exists st4. split; [done|].
  by rewrite <- !app_assoc in H4.
Qed.

Lemma ssh_nargs_zero : (getenv "EVQUEUE_SSH_KEY" = None) -> getenv "EVQUEUE_SSH_HOST" = None -> ssh_nargs getenv = 0.
Proof. intros Hk Hh. unfold ssh_nargs. rewrite Hk, Hh. destruct (getenv "EVQUEUE_WORKING_DIRECTORY"%string); reflexivity. Qed.

Lemma ssh_nargs_pos host : getenv "EVQUEUE_SSH_HOST" = Some host -> 0 < ssh_nargs getenv.
Proof. intros Hh. unfold ssh_nargs. rewrite Hh. destruct (getenv "EVQUEUE_SSH_KEY"), (getenv "EVQUEUE_WORKING_DIRECTORY"%string); cbv; (done || discriminate). Qed.

(** The end of [child], once everything is written but the null pointer. *)
Lemma child_end ssh printed0 wd first rest st :
  filled (first :: rest) 1 st ->
  (a ← aset (snd st) (fst st) Null;
   c ← aget a 0;
   path ← deref (match c with Str p => Some p | _ => None end);
   args ← read_argv a;
   Ret (mkRequest (if ssh : bool then None else wd) printed0 path args)) =
  Ret (mkRequest (if ssh then None else wd) printed0 first (first :: rest)).
Proof.
  intros ->. cbn [fst snd].
  rewrite (proj2 (aset_Ret _ ((Str <$> (first :: rest)) ++ [Null]) _ _)).
  - cbn [mbind outcome_bind]. rewrite (proj2 (aget_Ret _ 0 (Str first))) by done. cbn [mbind outcome_bind deref].
    by rewrite read_argv_filled.
  - rewrite length_app, length_fmap, length_replicate. split; [lia|]. rewrite Nat2Z.id.
    rewrite <- (length_fmap Str (first :: rest)) at 1. rewrite <- (Nat.add_0_r (List.length _)). by rewrite insert_app_r.
Qed.

Lemma child_command binary parameters :
  (is_Some (getenv "EVQUEUE_SSH_HOST") -> is_Some (getenv "EVQUEUE_SSH_PATH")) ->
  (is_Some (getenv "EVQUEUE_SSH_KEY") -> is_Some (getenv "EVQUEUE_SSH_HOST")) ->
  child getenv binary parameters = Ret (command binary parameters).
Proof.
  intros Hp Hk. unfold child.
  assert (Hn : 0 <= ssh_nargs getenv).
  { unfold ssh_nargs. destruct (getenv "EVQUEUE_SSH_HOST"), (getenv "EVQUEUE_SSH_KEY"), (getenv "EVQUEUE_WORKING_DIRECTORY"%string); cbv; (done || discriminate). }
  set (room := (List.length parameters + 1)%nat).
  replace (Z.to_nat (1 + ssh_nargs getenv + Z.of_nat (List.length parameters) + 1))
    with (S (Z.to_nat (ssh_nargs getenv) + room)) by lia.
  rewrite (proj2 (aset_Ret _ (Str binary :: replicate (Z.to_nat (ssh_nargs getenv) + room) Unset) 0 _)) by (split; [simpl; lia|done]).
  cbn [mbind outcome_bind].
  assert (H0 : filled [binary] (Z.to_nat (ssh_nargs getenv) + room) (1, Str binary :: replicate (Z.to_nat (ssh_nargs getenv) + room) Unset)) by done.
  destruct (getenv "EVQUEUE_SSH_HOST") as [host|] eqn:Eh; unfold command; rewrite Eh.
  - destruct (Hp ltac:(eauto)) as [ssh_path Ep]. rewrite (proj2 (Z.ltb_lt 0 _)) by (by apply (ssh_nargs_pos host)).
    destruct (ssh_arguments_filled binary ssh_path host room _ Ep Eh H0) as (st & -> & H1). cbn [mbind outcome_bind].
    destruct (task_parameters_filled true parameters _ _ _ H1) as (st2 & -> & H2). cbn [mbind outcome_bind].
    rewrite <- !app_assoc in H2. cbn [app] in H2. rewrite (child_end true (quote_arg <$> parameters) (getenv "EVQUEUE_WORKING_DIRECTORY") _ _ _ H2). rewrite Ep. done.
  - assert (Ek : getenv "EVQUEUE_SSH_KEY" = None).
    { destruct (getenv "EVQUEUE_SSH_KEY"); [|done]. destruct Hk as [? ?]; [eauto|done]. }
    rewrite ssh_nargs_zero in * by done. cbn [Z.ltb Z.compare mbind outcome_bind].
    destruct (task_parameters_filled false parameters _ _ _ H0) as (st2 & -> & H2). cbn [mbind outcome_bind].
    cbn [app] in H2. by rewrite (child_end false [] (getenv "EVQUEUE_WORKING_DIRECTORY") _ _ _ H2).
Qed.
End arguments.

(** With a key and no host, [strlen] gets a null pointer. *)
Lemma child_key_without_host getenv key path binary parameters :
  getenv "EVQUEUE_SSH_KEY"%string = Some key -> getenv "EVQUEUE_SSH_HOST"%string = None ->
  getenv "EVQUEUE_SSH_PATH"%string = Some path ->
  child getenv binary parameters = Undef.
Proof.
  intros Hk Hh Hp. unfold child. destruct (aset _ 0 _) as [a| |] eqn:Ea; [|by unfold aset in Ea; destruct (in_bounds _ _)|done].
  cbn [mbind outcome_bind].
  assert (0 <? ssh_nargs getenv = true) as ->.
  { unfold ssh_nargs. rewrite Hk, Hh. destruct (getenv "EVQUEUE_WORKING_DIRECTORY"%string); reflexivity. }
  unfold ssh_arguments. rewrite Hk, Hh, Hp. cbn [deref mbind outcome_bind fst snd].
  destruct (aset a 0 _) as [a1| |] eqn:E1; [|by unfold aset in E1; destruct (in_bounds _ _)|done]. cbn [mbind outcome_bind].
  unfold store. cbn [fst snd].
  destruct (aset a1 _ _) as [a2| |] eqn:E2; [|by unfold aset in E2; destruct (in_bounds _ _)|done]. cbn [mbind outcome_bind fst snd].
  destruct (aset a2 _ _) as [a3| |] eqn:E3; [|by unfold aset in E3; destruct (in_bounds _ _)|done]. done.
Qed.

(** * What the remote shell reads *)

(** [ssh] hands its arguments, separated by spaces, to the remote shell.  This is the
    shell's reading of a line into words: blanks separate, a single quote quotes up to
    the next one, a backslash outside of quotes stands for the next character.  [None]:
    a quote or a backslash is left open, or a character stands for something else than
    itself.  [word] is the word that has begun, if any. *)
Definition special (c : ascii) : bool := bool_decide (c ∈ chars "|&;<>()$`*?[]#~=%!{}" \/ code c = 34 \/ code c = 10).
Definition blank (c : ascii) : bool := (code c =? 32) || (code c =? 9).

Fixpoint shell_read (quoted : bool) (word : option (list ascii)) (l : list ascii) : option (list (list ascii)) :=
  match l with
  | [] => if quoted then None else Some (option_list word)
  | c :: l =>
      let more c' := Some (default [] word ++ [c']) in
      if quoted then
        if bool_decide (c = "'"%char) then shell_read false (Some (default [] word)) l else shell_read true (more c) l
      else if bool_decide (c = "'"%char) then shell_read true (Some (default [] word)) l
      else if blank c then
        match word with
        | None => shell_read false None l
        | Some w => cons w <$> shell_read false None l
        end
      else if bool_decide (c = "\"%char) then
        match l with c' :: l => shell_read false (more c') l | [] => None end
      else if special c then None
      else shell_read false (more c) l
  end.

Definition shell_words (line : string) : option (list (list ascii)) := shell_read false None (chars line).

Definition quoteless (s : string) : Prop := "'"%char ∉ chars s.
#[export] Instance quoteless_dec s : Decision (quoteless s).
Proof. unfold quoteless. apply _. Defined.

Lemma chars_app s t : chars (s +:+ t) = chars s ++ chars t.
Proof.
  induction s as [|c s IH]; [done|]. change (chars (String c s +:+ t)) with (c :: chars (s +:+ t)). by rewrite IH.
Qed.

Lemma chars_quote_arg s : chars (quote_arg s) = "'"%char :: escape (chars s) ++ ["'"%char].
Proof. apply list_ascii_of_string_of_list_ascii. Qed.

Lemma escape_quoteless l : "'"%char ∉ l -> escape l = l.
Proof.
  induction l as [|c l IH]; [done|]. intros [Hc Hl]%not_elem_of_cons. cbn. rewrite bool_decide_eq_false_2 by congruence. cbn. by rewrite IH.
Qed.

(** Up to a single quote, quoted characters stand for themselves. *)
Lemma shell_read_quoted w l l' :
  "'"%char ∉ l -> shell_read true (Some w) (l ++ "'"%char :: l') = shell_read false (Some (w ++ l)) l'.
Proof.
  revert w. induction l as [|c l IH]; intros w; cbn; [by rewrite app_nil_r|]. intros [Hc Hl]%not_elem_of_cons.
  rewrite bool_decide_eq_false_2 by congruence. rewrite IH by done. by rewrite <- app_assoc.
Qed.

Lemma shell_read_arg s l :
  quoteless s -> shell_read false None (chars (quote_arg s) ++ l) = shell_read false (Some (chars s)) l.
Proof.
  intros Hs. rewrite chars_quote_arg, escape_quoteless by done. cbn. rewrite <- app_assoc. by apply (shell_read_quoted []).
Qed.

(** The words that the shell reads are the parameters. *)
Lemma quoted_parameters parameters :
  Forall quoteless parameters ->
  shell_words (String.concat " " (quote_arg <$> parameters)) = Some (chars <$> parameters).
Proof.
  unfold shell_words. induction 1 as [|p l Hp Hl IH]; [done|]. destruct l as [|q l].
  - cbn [fmap list_fmap String.concat]. pose proof (shell_read_arg p [] Hp) as E. rewrite app_nil_r in E. by rewrite E.
  - change (quote_arg <$> p :: q :: l) with (quote_arg p :: (quote_arg <$> q :: l)).
    change (String.concat " " (quote_arg p :: (quote_arg <$> q :: l))) with
      (quote_arg p +:+ " " +:+ String.concat " " (quote_arg <$> q :: l)).
    rewrite !chars_app, shell_read_arg by done. cbn [chars list_ascii_of_string app shell_read].
    change (shell_read false None (list_ascii_of_string (String.concat " " (quote_arg <$> q :: l)))) with
      (shell_words (String.concat " " (quote_arg <$> q :: l))).
    unfold shell_words. cbn. unfold chars in IH at 1. cbn in IH. rewrite IH. done.
Qed.

(** What the shell has read of a word stays. *)
Lemma shell_read_word quoted w l ws : shell_read quoted (Some w) l = Some ws -> exists w' ws', ws = (w ++ w') :: ws'.
Proof.
  revert quoted w ws. induction l as [l IH] using (induction_ltof1 _ (@List.length ascii)). unfold ltof in IH.
  intros quoted w ws E. destruct l as [|c l]; cbn in E.
  - destruct quoted; [done|]. injection E as <-. exists [], []. by rewrite app_nil_r.
  - assert (forall q l' d, (List.length l' < List.length (c :: l))%nat -> shell_read q (Some (w ++ [d])) l' = Some ws ->
      exists w' ws', ws = (w ++ w') :: ws') as K.
    { intros q l' d Hl E'. destruct (IH _ Hl _ _ _ E') as (w' & ws' & ->). exists (d :: w'), ws'. by rewrite <- app_assoc. }
    destruct quoted; repeat case_bool_decide; repeat case_match; try done;
      first [eapply IH; [|exact E]; cbn; lia|eapply K; [|exact E]; cbn; lia|idtac].
    all: destruct (shell_read false None l) as [ws0|]; [injection E as <-; exists [], ws0; by rewrite app_nil_r|done].
Qed.

(** A single quote in a parameter ends the quoting, for within single quotes a
    backslash stands for itself. *)
Lemma quote_arg_read s : shell_words (quote_arg s) = Some [chars s] <-> quoteless s.
Proof.
  split.
  - intros E Hq. apply list_elem_of_split_l in Hq as (l1 & l2 & Es & Hl).
    unfold shell_words in E. rewrite chars_quote_arg, Es in E.
    assert (forall l1 l2, escape (l1 ++ l2) = escape l1 ++ escape l2) as Ha.
    { clear. induction l1 as [|c l1 IH]; intros l2; [done|]. cbn. by rewrite IH, app_assoc. }
    assert (escape (l1 ++ "'"%char :: l2) = (l1 ++ ["\"%char]) ++ "'"%char :: escape l2) as He
      by (rewrite Ha, (escape_quoteless l1), <- app_assoc by done; done).
    rewrite He, <- app_assoc in E. change (shell_read true (Some []) ((l1 ++ ["\"%char]) ++ "'"%char :: (escape l2 ++ ["'"%char])) =
      Some [l1 ++ "'"%char :: l2]) in E.
    rewrite shell_read_quoted in E by (intros [?|[=]%list_elem_of_singleton]%elem_of_app; done).
    apply shell_read_word in E as (w' & ws' & E). injection E as E _. cbn in E. rewrite <- app_assoc in E.
    apply app_inv_head in E. done.
  - intros Hs. pose proof (quoted_parameters [s]) as E. apply E. by repeat constructor.
Qed.

Example quote_arg_quote : quote_arg "it's" = "'it\'s'"%string.
Proof. reflexivity. Qed.

(** Exit codes from 128 on become negative. *)
Lemma retcode_exited code : 0 <= code < 256 -> retcode (Exited code) = if code <? 128 then code else code - 256.
Proof.
  intros H. unfold retcode, i8. destruct (Z.ltb_spec code 128).
  - rewrite Z.mod_small; lia.
  - rewrite <- (Z.mod_unique_pos (code + 128) 256 1 (code - 128)); lia.
Qed.
