(* ===== verification/ProcessManager.v ===== *)
(** [ProcessManager.cpp]: the forker, which takes the tasks of the queues and
    launches their processes, and the gatherer, which receives the message of the
    monitor when a process ends; and how they share the identifiers of the pool. *)

From S2P Require Import Prelude CString Lookup Configuration QueueIface Queue QueuePool Monitor.

Open Scope Z_scope.

(** * State *)

(** [log_filename] is an allocation of [log_filename_size] bytes. *)
Record ProcessManager : Type := mkProcessManager {
  logs_directory : string;
  logs_delete : bool;
  log_filename_size : Z;
  msgqid : Z;
  is_shutting_down : bool;
}.

(** The constructor; [msgget] is the result of the system call. *)
Definition ProcessManager_new (config : Configuration.Configuration) (msgget : Z) (is_shutting_down : bool)
    : outcome ProcessManager :=
  logs_directory ← Configuration.Get "processmanager.logs.directory" config;
  logs_directory ← deref logs_directory;
  logs_delete ← Configuration.GetBool "processmanager.logs.delete" config;
  if msgget =? -1 then Throw (mkException "ProcessManager" "Unable to get message queue")
  else Ret (mkProcessManager logs_directory logs_delete (strlen logs_directory + 16) msgget is_shutting_down).

(** What the threads do besides using the pool. *)
Inductive action : Type :=
  | WaitPid (pid : Z)
  | Unlink (filename : string)
  | TaskStop (w : wi_ref) (task : option node_ref) (retcode : Z) (output : string)
  | DeleteInstance (w : wi_ref)
  | FreeOutput.

(** * Operations *)

Definition no_log : string :=
  "[ ProcessManager ] Could not read task log, setting retcode to -1 to block subjobs".

Section ProcessManager.
Context {Q : Type} `{QueueImpl Q}.

(** The loop of [Fork] after [ExecuteTask], once [TaskExecute] has returned
    [pid] and [workflow_terminated]. *)
Definition Fork_launched (w : wi_ref) (tid pid : Z) (workflow_terminated : bool) (p : QueuePool Q)
    : outcome (list action * QueuePool Q) :=
  p ← (if pid =? -1 then '(_, p) ← TerminateTask tid p; Ret p else Ret p);
  Ret (if workflow_terminated then [DeleteInstance w] else [], p).

(** [sprintf(pm->log_filename,"%s/%d.log",...)]. *)
Definition log_filename (tid : Z) (pm : ProcessManager) : outcome string :=
  fits (log_filename_size pm) (logs_directory pm +:+ "/" +:+ sprintf_d tid +:+ ".log").

(** The loop of [Gather], for a message.  [read_log] gives the contents of a file
    that can be opened, [workflow_terminated] is the answer of [TaskStop];
    [false]: the thread returns. *)
Definition Gather (pm : ProcessManager) (read_log : string -> option string) (workflow_terminated : bool)
    (msgbuf : st_msgbuf) (p : QueuePool Q) : outcome (list action * bool * QueuePool Q) :=
  let pid := msg_pid msgbuf in
  let tid := msg_tid msgbuf in
  if pid =? 0 then
    if negb (is_shutting_down pm) then Ret ([], true, p) else Ret ([], false, p)
  else
    filename ← log_filename tid pm;
    let output := read_log filename in
    let unlink := if logs_delete pm then [Unlink filename] else [] in
    '(r, p) ← TerminateTask tid p;
    match r with
    | None => Ret (WaitPid pid :: unlink, true, p)
    | Some (w, task) =>
        let stop := match output with
                    | Some output => TaskStop w task (msg_retcode msgbuf) output
                    | None => TaskStop w task (-1) no_log
                    end in
        Ret (WaitPid pid :: unlink ++ [stop] ++
               (if workflow_terminated then [DeleteInstance w] else []) ++
               match output with Some _ => [FreeOutput] | None => [] end, true, p)
    end.

(** The message that the gatherer then receives, and the pool. *)
Definition Shutdown (pm : ProcessManager) (p : QueuePool Q) : ProcessManager * QueuePool Q * st_msgbuf :=
  (mkProcessManager (logs_directory pm) (logs_delete pm) (log_filename_size pm) (msgqid pm) true,
   QueuePool.Shutdown p, mkMsgbuf 0 0 0).

(** * The threads, the processes and the messages *)

(** A process that the forker launched, and the task that it was launched for. *)
Record process : Type := mkProcess { pr_pid : Z; pr_tid : Z; pr_instance : wi_ref; pr_task : node_ref }.

Inductive message : Type :=
  | Ended (x : process) (retcode : Z)
  | ShutdownRequest.

Definition message_buf (m : message) : st_msgbuf :=
  match m with
  | Ended x retcode => mkMsgbuf (pr_pid x) (pr_tid x) retcode
  | ShutdownRequest => mkMsgbuf 0 0 0
  end.

(** The forker: in [DequeueTask] or with the task that it got, or with an
    identifier for the task and its process not yet launched. *)
Inductive fork_pc : Type :=
  | InPool (f : forker)
  | Registered (w : wi_ref) (task : node_ref) (tid : Z).

Record system : Type := mkSystem {
  manager : ProcessManager;
  pc : fork_pc;
  pool : QueuePool Q;
  processes : list process;
  messages : list message;
  gathering : bool;
}.

(** The pool, used by other threads and by the forker. *)
Inductive other_step (GetInstanceID : wi_ref -> Z) : QueuePool Q -> QueuePool Q -> Prop :=
  | other_enqueue p nm w t r p' :
      sizes_ok p -> EnqueueTask nm w t p = Ret (r, p') -> other_step GetInstanceID p p'
  | other_cancel p i r p' :
      CancelTasks GetInstanceID i p = Ret (r, p') -> other_step GetInstanceID p p'.

Inductive forker_step : forker * QueuePool Q -> forker * QueuePool Q -> Prop :=
  | forker_returns p r p' :
      DequeueTask p = Ret (Returned r p') -> forker_step (FReady, p) (forker_after r, p')
  | forker_blocks p p' :
      DequeueTask p = Ret (Blocked p') -> forker_step (FReady, p) (FWaiting, p')
  | forker_wakes p r p' :
      fork_signal p = true -> DequeueTask_awake (set_fork_signal false p) = Ret (r, p') ->
      forker_step (FWaiting, p) (forker_after r, p').

(** An identifier is free when the forker asks for one; a process identifier is
    positive, and the process of a task sends one message. *)
Inductive step (GetInstanceID : wi_ref -> Z) : system -> system -> Prop :=
  | step_other m c p p' l q g :
      other_step GetInstanceID p p' -> step GetInstanceID (mkSystem m c p l q g) (mkSystem m c p' l q g)
  | step_shutdown m c p l q g m' p' b :
      Shutdown m p = (m', p', b) ->
      step GetInstanceID (mkSystem m c p l q g) (mkSystem m' c p' l (q ++ [ShutdownRequest]) g)
  | step_dequeue m f p f' p' l q g :
      forker_step (f, p) (f', p') -> step GetInstanceID (mkSystem m (InPool f) p l q g) (mkSystem m (InPool f') p' l q g)
  | step_execute m nm w t p l q g free tid p' :
      0 <= free < maxpid p -> tid_workflow_instance p !! Z.to_nat free = Some None ->
      ExecuteTask w t nm 0 p = Ret (tid, p') ->
      step GetInstanceID (mkSystem m (InPool (FGot nm w t)) p l q g) (mkSystem m (Registered w t tid) p' l q g)
  | step_launch m w t tid p l q g pid b a p' :
      0 < pid -> Fork_launched w tid pid b p = Ret (a, p') ->
      step GetInstanceID (mkSystem m (Registered w t tid) p l q g)
        (mkSystem m (InPool FReady) p' (mkProcess pid tid w t :: l) q g)
  | step_launch_fails m w t tid p l q g b a p' :
      Fork_launched w tid (-1) b p = Ret (a, p') ->
      step GetInstanceID (mkSystem m (Registered w t tid) p l q g) (mkSystem m (InPool FReady) p' l q g)
  | step_ends m c p l1 x l2 q g retcode :
      step GetInstanceID (mkSystem m c p (l1 ++ x :: l2) q g) (mkSystem m c p (l1 ++ l2) (q ++ [Ended x retcode]) g)
  | step_gather m c p l x q read_log b a k p' :
      Gather m read_log b (message_buf x) p = Ret (a, k, p') ->
      step GetInstanceID (mkSystem m c p l (x :: q) true) (mkSystem m c p' l q k).

(** * Invariant *)

(** A task that holds an identifier. *)
Definition entry : Type := Z * (wi_ref * node_ref).

Definition of_process (x : process) : entry := (pr_tid x, (pr_instance x, pr_task x)).

Definition of_message (m : message) : list entry :=
  match m with
  | Ended x _ => [of_process x]
  | ShutdownRequest => []
  end.

Definition of_forker (c : fork_pc) : list entry :=
  match c with
  | InPool _ => []
  | Registered w t tid => [(tid, (w, t))]
  end.

Definition entries (y : system) : list entry :=
  of_forker (pc y) ++ (of_process <$> processes y) ++ (messages y ≫= of_message).

Definition slot_ok (p : QueuePool Q) (e : entry) : Prop :=
  let '(tid, (w, t)) := e in
  0 <= tid <= maxpid p /\
  tid_workflow_instance p !! Z.to_nat tid = Some (Some w) /\
  tid_task p !! Z.to_nat tid = Some (Some t) /\
  exists i, tid_queue_index p !! Z.to_nat tid = Some i /\ 0 <= i < Z.of_nat (List.length (queue p)).

(** The identifiers in use are those of the entries. *)
Record tracks (p : QueuePool Q) (l : list entry) : Prop := {
  t_distinct : NoDup l.*1;
  t_slots : forall e, e ∈ l -> slot_ok p e;
  t_only : forall k w, tid_workflow_instance p !! k = Some (Some w) -> exists t, (Z.of_nat k, (w, t)) ∈ l;
}.

Definition pool_forker (c : fork_pc) : forker :=
  match c with
  | InPool f => f
  | Registered _ _ _ => FReady
  end.

(** The forker got its task from a queue of the pool. *)
Definition known_queue (c : fork_pc) (p : QueuePool Q) : Prop :=
  match c with
  | InPool (FGot nm _ _) => nm ∈ name p
  | _ => True
  end.

Record inv (y : system) : Prop := {
  i_pool : QueuePool.inv (pool_forker (pc y), pool y);
  i_known : known_queue (pc y) (pool y);
  i_tracks : tracks (pool y) (entries y);
  i_pids : Forall (fun x => 0 < pr_pid x) (processes y);
  i_messages : Forall (fun m => match m with Ended x _ => 0 < pr_pid x | _ => True end) (messages y);
  i_log : log_filename_size (manager y) = strlen (logs_directory (manager y)) + 16;
}.
End ProcessManager.

(** * Proofs *)

Section proofs.
Context {Q : Type} `{QueueLaws Q}.
Implicit Types (p : QueuePool Q).

(** ** The tables of the pool *)

Record same_tables p p' : Prop := {
  s_name : name p' = name p;
  s_maxpid : maxpid p' = maxpid p;
  s_index : tid_queue_index p' = tid_queue_index p;
  s_task : tid_task p' = tid_task p;
  s_instance : tid_workflow_instance p' = tid_workflow_instance p;
  s_queue : List.length (queue p') = List.length (queue p);
}.

Lemma same_tables_trans p1 p2 p3 : same_tables p1 p2 -> same_tables p2 p3 -> same_tables p1 p3.
Proof. intros [] []. split; congruence. Qed.

Lemma same_update p : same_tables p (update_fork_possible p).
Proof. unfold update_fork_possible. cbn. by destruct (_ && _). Qed.

Lemma same_set_queue p qs : List.length qs = List.length (queue p) -> same_tables p (set_queue qs p).
Proof. by split. Qed.

Lemma tracks_same p p' l : same_tables p p' -> tracks p l -> tracks p' l.
Proof.
  intros [E1 E2 E3 E4 E5 E6] [H1 H2 H3]. split; [done| |].
  - intros [tid [w t]] He. specialize (H2 _ He). unfold slot_ok in *. by rewrite E2, E3, E4, E5, E6.
  - intros k w. rewrite E5. apply H3.
Qed.

Lemma tracks_perm p l l' : l ≡ₚ l' -> tracks p l -> tracks p l'.
Proof.
  intros E [H1 H2 H3]. split.
  - by rewrite <- E.
  - intros e. rewrite <- E. apply H2.
  - intros k w Hk. destruct (H3 k w Hk) as [t Ht]. exists t. by rewrite <- E.
Qed.

Lemma cancel_all_length GetInstanceID i qs qs' :
  cancel_all GetInstanceID i qs = Ret qs' -> List.length qs' = List.length qs.
Proof.
  revert qs'. induction qs as [|q qs IH]; intros qs' E; cbn [cancel_all] in E; inv_ret; [done|].
  cbn. f_equal. eauto.
Qed.

Lemma dequeue_scan_length i qs r qs' : dequeue_scan i qs = Ret (r, qs') -> List.length qs' = List.length qs.
Proof.
  revert i r qs'. induction qs as [|q qs IH]; intros i r qs' E; cbn [dequeue_scan] in E; [by inv_ret|].
  apply bind_Ret in E as ([r1 q1] & _ & E). destruct r1 as [x|]; [by inv_ret|].
  apply bind_Ret in E as ([r2 qs2] & E2 & E). inv_ret. cbn. f_equal. eauto.
Qed.

Lemma other_same GetInstanceID p p' : other_step GetInstanceID p p' -> same_tables p p'.
Proof.
  intros [p1 nm w t r p2 _ E|p1 i r p2 E].
  - unfold EnqueueTask in E. apply bind_Ret in E as (i & _ & E). case_match; [by inv_ret|].
    apply bind_Ret in E as (q & _ & E). apply bind_Ret in E as (q' & _ & E).
    apply bind_Ret in E as (qs & [_ ->]%aset_Ret & E). inv_ret.
    eapply same_tables_trans; [|apply same_update]. apply same_set_queue. by rewrite length_insert.
  - unfold CancelTasks in E. apply bind_Ret in E as (qs & Hqs & E). inv_ret.
    eapply same_tables_trans; [|apply same_update]. apply same_set_queue. by eapply cancel_all_length.
Qed.

(** The forker also gets the name of a queue of the pool. *)
Lemma awake_same p r p' : DequeueTask_awake p = Ret (r, p') ->
  same_tables p p' /\ known_queue (InPool (forker_after r)) p'.
Proof.
  unfold DequeueTask_awake. intros E. destruct (QueuePool.is_shutting_down p); [by inv_ret|].
  apply bind_Ret in E as ([[[i [w t]]|] qs] & Hs%dequeue_scan_length & E).
  - apply bind_Ret in E as (nm & Hn%deref_Ret & E). inv_ret. split; [by split|]. cbn. by eapply list_elem_of_lookup_2.
  - inv_ret. split; [by split|done].
Qed.

Lemma forker_same f p f' p' : forker_step (f, p) (f', p') ->
  same_tables p p' /\ known_queue (InPool f') p'.
Proof.
  intros S. inversion S as [? r ? E|? ? E|? r ? Hs E]; simplify_eq.
  - unfold DequeueTask in E. case_match; [by inv_ret|]. destruct (fork_possible p); cbn [negb] in E; [|done].
    apply bind_Ret in E as ([r1 p1] & E1 & E). inv_ret. by apply awake_same.
  - unfold DequeueTask in E. case_match; [by inv_ret|]. destruct (fork_possible p); cbn [negb] in E.
    + apply bind_Ret in E as ([r1 p1] & _ & E). by inv_ret.
    + by inv_ret.
  - apply awake_same in E as [E1 E2]. split; [|done]. eapply same_tables_trans; [|done]. by split.
Qed.

(** ** Registering and releasing an identifier *)

Lemma tracks_add p t i w n q l :
  QueuePool.wf p -> free_tid p t -> 0 <= i -> queue p !! Z.to_nat i = Some q -> tracks p l ->
  tracks (with_slot (set_lasttid t p) t i w n q) ((t, (w, n)) :: l).
Proof.
  intros W [Ht Hf] Hi Hq [H1 H2 H3]. apply lookup_lt_Some in Hq.
  pose proof (wf_index_len _ W) as L1. pose proof (wf_task_len _ W) as L2. pose proof (wf_instance_len _ W) as L3.
  apply (tracks_same (set_queue (<[Z.to_nat i := qi_ExecuteTask q]> (queue p))
    (set_tids (<[Z.to_nat t := i]> (tid_queue_index p)) (<[Z.to_nat t := Some n]> (tid_task p))
       (<[Z.to_nat t := Some w]> (tid_workflow_instance p)) p))).
  { eapply same_tables_trans; [|apply same_update]. by split. }
  assert (Hne : forall t' x, (t', x) ∈ l -> t' <> t).
  { intros t' [w' n'] Hin ->. apply H2 in Hin as (_ & Hw & _). congruence. }
  split; cbn [set_queue set_tids tid_workflow_instance fmap list_fmap fst].
  - constructor; [|done]. intros ([t' x] & -> & Hin)%list_elem_of_fmap. by eapply Hne.
  - intros [t' [w' n']] [[= -> -> ->]|Hin]%elem_of_cons; cbn -[Z.to_nat].
    + rewrite !list_lookup_insert_eq by lia. rewrite length_insert. split; [lia|]. eauto 10 with lia.
    + pose proof (Hne _ _ Hin) as Hd. apply H2 in Hin as (Hr & Hw & Hn & j & Hj & Hl).
      assert (Z.to_nat t <> Z.to_nat t') by lia. rewrite !list_lookup_insert_ne by done. rewrite length_insert. eauto 10.
  - intros k w'. destruct (decide (k = Z.to_nat t)) as [->|Hd].
    + rewrite list_lookup_insert_eq by lia. intros [= <-]. exists n. rewrite Z2Nat.id by lia. by left.
    + rewrite list_lookup_insert_ne by done. intros Hk. destruct (H3 k w' Hk) as [n' Hn]. exists n'. by right.
Qed.

Lemma tracks_remove p tid w n l :
  tracks p ((tid, (w, n)) :: l) ->
  exists p', TerminateTask tid p = Ret (Some (w, Some n), p') /\ tracks p' l /\ name p' = name p.
Proof.
  intros [H1 H2 H3]. destruct (H2 (tid, (w, n))) as (Ht & Hw & Hn & i & Hi & Hl); [by left|].
  destruct (lookup_lt_is_Some_2 (queue p) (Z.to_nat i)) as [q Hq]; [lia|].
  unfold TerminateTask. rewrite (proj2 (aget_Ret _ _ _) (conj (proj1 Ht) Hw)). cbn [mbind outcome_bind].
  rewrite (proj2 (aget_Ret _ _ _) (conj (proj1 Ht) Hi)). cbn [mbind outcome_bind].
  rewrite (proj2 (aget_Ret _ _ _) (conj (proj1 Hl) Hq)). cbn [mbind outcome_bind].
  pose proof (lookup_lt_Some _ _ _ Hi). pose proof (lookup_lt_Some _ _ _ Hw). pose proof (lookup_lt_Some _ _ _ Hn).
  rewrite (aset_in_bounds (queue p)) by lia. cbn [mbind outcome_bind].
  rewrite (proj2 (aget_Ret _ _ _) (conj (proj1 Ht) Hn)). cbn [mbind outcome_bind].
  rewrite !aset_in_bounds by lia. cbn [mbind outcome_bind]. eexists. split; [done|].
  split; [|by destruct (same_update (set_tids (<[Z.to_nat tid:=0]> (tid_queue_index p)) (<[Z.to_nat tid:=None]> (tid_task p))
           (<[Z.to_nat tid:=None]> (tid_workflow_instance p)) (set_queue (<[Z.to_nat i:=qi_TerminateTask q]> (queue p)) p)))].
  eapply tracks_same; [apply same_update|].
  apply NoDup_cons in H1 as [Hnot H1]. cbn [fst] in Hnot.
  assert (Hne : forall t' x, (t', x) ∈ l -> t' <> tid).
  { intros t' x Hin ->. apply Hnot, list_elem_of_fmap. by exists (tid, x). }
  split; cbn [set_queue set_tids tid_workflow_instance]; [done| |].
  - intros [t' [w' n']] Hin. pose proof (Hne _ _ Hin) as Hd.
    destruct (H2 (t', (w', n'))) as (Hr & Hw' & Hn' & j & Hj & Hl'); [by right|]. cbn -[Z.to_nat].
    assert (Z.to_nat tid <> Z.to_nat t') by lia. rewrite !list_lookup_insert_ne by done. rewrite length_insert. eauto 10.
  - intros k w'. destruct (decide (k = Z.to_nat tid)) as [->|Hd]; [by rewrite list_lookup_insert_eq by lia|].
    rewrite list_lookup_insert_ne by done. intros Hk. destruct (H3 k w' Hk) as [n' [[= Hk' _ _]|Hin]%elem_of_cons]; [lia|eauto].
Qed.

(** ** The gatherer *)

Definition manager_ok (pm : ProcessManager) : Prop := log_filename_size pm = strlen (logs_directory pm) + 16.

(** The room for the identifier is enough. *)
Lemma log_filename_fits pm tid : manager_ok pm -> 0 <= tid < 2 ^ 31 ->
  log_filename tid pm = Ret (logs_directory pm +:+ "/" +:+ sprintf_d tid +:+ ".log").
Proof.
  intros Hm Ht. unfold log_filename. apply fits_ok. rewrite Hm, !strlen_app.
  pose proof (strlen_sprintf_d_pos tid ltac:(lia)). change (strlen "/") with 1. change (strlen ".log") with 4. lia.
Qed.

(** What the gatherer does when the process of a task has ended. *)
Definition gathered (pm : ProcessManager) (read_log : string -> option string) (terminated : bool) (x : process)
    (retcode : Z) : list action :=
  let filename := logs_directory pm +:+ "/" +:+ sprintf_d (pr_tid x) +:+ ".log" in
  [WaitPid (pr_pid x)] ++ (if logs_delete pm then [Unlink filename] else []) ++
  [match read_log filename with
   | Some output => TaskStop (pr_instance x) (Some (pr_task x)) retcode output
   | None => TaskStop (pr_instance x) (Some (pr_task x)) (-1) no_log
   end] ++
  (if terminated then [DeleteInstance (pr_instance x)] else []) ++
  match read_log filename with Some _ => [FreeOutput] | None => [] end.

Lemma Gather_ended pm read_log terminated x retcode p l :
  manager_ok pm -> QueuePool.wf p -> 0 < pr_pid x -> tracks p (of_process x :: l) ->
  exists p', TerminateTask (pr_tid x) p = Ret (Some (pr_instance x, Some (pr_task x)), p') /\
    Gather pm read_log terminated (message_buf (Ended x retcode)) p =
      Ret (gathered pm read_log terminated x retcode, true, p') /\
    tracks p' l /\ name p' = name p.
Proof.
  intros Hm W Hp Ht. destruct (t_slots _ _ Ht (of_process x)) as (Hr & _); [by left|].
  destruct (tracks_remove _ _ _ _ _ Ht) as (p' & E & Ht' & En). exists p'. split; [done|]. split; [|done].
  unfold Gather. cbn [message_buf msg_pid msg_tid msg_retcode].
  rewrite (proj2 (Z.eqb_neq _ _)) by lia. pose proof (wf_maxpid _ W).
  rewrite log_filename_fits by (done || lia). cbn [mbind outcome_bind]. rewrite E. cbn [mbind outcome_bind].
  unfold gathered. by destruct (read_log _).
Qed.

Lemma Gather_shutdown pm read_log terminated p :
  Gather pm read_log terminated (message_buf ShutdownRequest) p = Ret ([], negb (is_shutting_down pm), p).
Proof. unfold Gather. cbn. by destruct (is_shutting_down pm). Qed.

(** ** The invariant is kept *)

Lemma inv_tables c m p l q g c' p' :
  inv (mkSystem m c p l q g) -> same_tables p p' -> QueuePool.inv (pool_forker c', p') -> known_queue c' p' ->
  of_forker c' = of_forker c -> inv (mkSystem m c' p' l q g).
Proof.
  intros [_ _ Ht Hp Hq Hm] S Hi Hk E. split; try done. eapply tracks_same; [done|].
  unfold entries in *. cbn [pc processes messages] in *. by rewrite E.
Qed.

Lemma known_same c p p' : same_tables p p' -> known_queue c p -> known_queue c p'.
Proof. intros S. destruct c as [[]|]; cbn; try done. by rewrite (s_name _ _ S). Qed.

Lemma other_inv GetInstanceID f p p' :
  QueuePool.inv (f, p) -> other_step GetInstanceID p p' -> QueuePool.inv (f, p').
Proof.
  intros I S. destruct S as [p1 nm w t r p2 Hs E|p1 i r p2 E]; [exact (EnqueueTask_inv f nm w t p1 r p2 I Hs E)|].
  exact (CancelTasks_inv _ f i p1 r p2 I E).
Qed.

Lemma forker_inv f p f' p' : QueuePool.inv (f, p) -> forker_step (f, p) (f', p') -> QueuePool.inv (f', p').
Proof.
  intros I S. apply (step_inv (fun _ => 0) (f, p)); [done|].
  inversion S; simplify_eq; [by apply QueuePool.step_dequeue_returns|by apply QueuePool.step_dequeue_blocks|
    by eapply QueuePool.step_wake].
Qed.

Lemma execute_inv m nm w n p l q g free tid p' :
  inv (mkSystem m (InPool (FGot nm w n)) p l q g) ->
  0 <= free < maxpid p -> tid_workflow_instance p !! Z.to_nat free = Some None ->
  ExecuteTask w n nm 0 p = Ret (tid, p') -> inv (mkSystem m (Registered w n tid) p' l q g).
Proof.
  intros [Hi Hk Ht Hp Hq Hm] Hf Hn E. pose proof (inv_wf _ Hi) as W. cbn [pc pool snd known_queue] in *.
  destruct (lookup_known nm p W Hk) as (i & qu & El & Hi0 & _ & Hqu).
  destruct (ExecuteTask_new w n nm i qu p W El Hi0 Hqu) as [(t & F & E')|(N & _)].
  2: { exfalso. by apply (N free). }
  pose proof E as E2. rewrite E' in E2. injection E2 as -> <-. split; try done; cbn.
  - eapply ExecuteTask_inv; [exact Hi|done].
  - by apply tracks_add.
Qed.

Lemma release_inv m w n tid p l q g b a p' :
  inv (mkSystem m (Registered w n tid) p l q g) -> Fork_launched w tid (-1) b p = Ret (a, p') ->
  inv (mkSystem m (InPool FReady) p' l q g).
Proof.
  intros [Hi Hk Ht Hp Hq Hm] E. unfold Fork_launched in E. change (-1 =? -1) with true in E. cbv iota in E. cbn [pool] in Ht.
  destruct (tracks_remove _ _ _ _ _ Ht) as (p1 & E1 & Ht1 & _). rewrite E1 in E. injection E as _ <-.
  split; try done. cbn [pc pool pool_forker]. by eapply TerminateTask_inv.
Qed.

Lemma entries_ended m c p l1 x l2 q rc g :
  entries (mkSystem (Q:=Q) m c p (l1 ++ x :: l2) q g) ≡ₚ entries (mkSystem m c p (l1 ++ l2) (q ++ [Ended x rc]) g).
Proof.
  unfold entries. cbn [pc processes messages]. rewrite bind_app, !fmap_app, fmap_cons. cbn.
  apply Permutation_app_head. rewrite <- !app_assoc. cbn. apply Permutation_app_head.
  rewrite !app_assoc. rewrite <- Permutation_middle. by rewrite app_nil_r, Permutation_app_comm.
Qed.

Lemma entries_message m c p l q x rc q1 q2 g :
  q = q1 ++ Ended x rc :: q2 ->
  entries (mkSystem (Q:=Q) m c p l q g) ≡ₚ of_process x :: entries (mkSystem m c p l (q1 ++ q2) g).
Proof.
  intros ->. unfold entries. cbn [pc processes messages]. rewrite !bind_app. cbn.
  rewrite !app_assoc. by rewrite <- Permutation_middle.
Qed.

Lemma gather_inv m c p l x q read_log b a k p' :
  inv (mkSystem m c p l (x :: q) true) -> Gather m read_log b (message_buf x) p = Ret (a, k, p') ->
  inv (mkSystem m c p' l q k).
Proof.
  intros [Hi Hk Ht Hp Hq Hm] E. cbn [pc pool messages processes manager] in *. apply Forall_cons in Hq as [Hx Hq]. destruct x as [x rc|].
  - eapply tracks_perm in Ht; [|by apply (entries_message m c p l _ x rc [] q)].
    destruct (Gather_ended m read_log b x rc p _ Hm (inv_wf _ Hi) Hx Ht) as (p1 & E1 & E2 & Ht1 & En).
    rewrite E2 in E. injection E as _ <- <-. split; try done; cbn.
    + by eapply TerminateTask_inv.
    + destruct c as [[]|]; cbn in *; try done. by rewrite En.
  - rewrite Gather_shutdown in E. injection E as _ <- <-. by split.
Qed.

Lemma manager_step_inv GetInstanceID y y' : inv y -> step GetInstanceID y y' -> inv y'.
Proof.
  intros I St. destruct St as [m c p p' l q g S|m c p l q g m' p' b S|m f p f' p' l q g S|m nm w n p l q g free tid p' F1 F2 S
           |m w n tid p l q g pid b a p' Hpid S|m w n tid p l q g b a p' S|m c p l1 x l2 q g rc
           |m c p l x q rl b a k p' S].
  - eapply inv_tables; [exact I|by eapply other_same|eapply other_inv; [apply I|done]| |done].
    eapply known_same; [by eapply other_same|apply I].
  - injection S as <- <- <-. destruct I as [Hi Hk Ht Hp Hq Hm]. cbn in *.
    assert (same_tables p (QueuePool.Shutdown p)) as Sm by (unfold QueuePool.Shutdown; cbn; by destruct (fork_locked p)).
    split; cbn; try done.
    + by apply Shutdown_inv.
    + by eapply known_same.
    + eapply tracks_same; [done|]. unfold entries in *. cbn [pc processes messages] in *.
      rewrite bind_app. cbn. by rewrite app_nil_r.
    + apply Forall_app. by split; [|constructor].
  - destruct (forker_same _ _ _ _ S) as [Sm Hk]. eapply inv_tables; [exact I|done| |done|done].
    eapply forker_inv; [apply I|done].
  - by eapply execute_inv.
  - unfold Fork_launched in S. rewrite (proj2 (Z.eqb_neq _ _)) in S by lia. cbn in S. injection S as _ <-.
    destruct I as [Hi Hk Ht Hp Hq Hm]. split; try done. cbn. by constructor.
  - by eapply release_inv.
  - destruct I as [Hi Hk Ht Hp Hq Hm]. cbn in *. apply Forall_app in Hp as [Hp1 [Hp Hp2]%Forall_cons]. split; try done; cbn.
    + eapply tracks_perm; [|exact Ht]. apply entries_ended.
    + apply Forall_app. by split.
    + apply Forall_app. by split; [|constructor].
  - by eapply gather_inv.
Qed.
End proofs.

(** * Properties *)

Section properties.
Context {Q : Type} `{QueueLaws Q}.
Context (GetInstanceID : wi_ref -> Z).
Context (new_Queue : string -> outcome Q) (names : list string) (pid_max : string).

Definition initial (pm : ProcessManager) (p : QueuePool Q) : system := mkSystem pm (InPool FReady) p [] [] true.

Lemma start_tracks p : start new_Queue names pid_max p -> tracks p [].
Proof.
  intros [_ _ _ _ E]. unfold QueuePool_new in E. apply bind_Ret in E as (qs & _ & E). injection E as <-.
  split; cbn -[Z.to_nat replicate]; [constructor|by intros e He%not_elem_of_nil|].
  intros k w Hk. by apply lookup_replicate in Hk as [? _].
Qed.

Lemma run_inv pm p y : start new_Queue names pid_max p -> manager_ok pm ->
  rtc (step GetInstanceID) (initial pm p) y -> inv y.
Proof.
  intros S Hm R. assert (inv (initial pm p)) as I.
  { split; try done; cbn; [by eapply start_inv|by apply start_tracks]. }
  clear S. induction R as [y|x y z Hs _ IH]; [done|]. by apply IH, (manager_step_inv GetInstanceID x).
Qed.

(** C11: While the forker, the gatherer, the monitors' messages and the
    threads that use the pool interleave, as long as an identifier is free
    for each task: the identifiers registered in the pool are, without
    duplicates, those of the tasks being launched, running or whose message
    is not yet received, and the gatherer hands each end of a process to the
    instance and the node that the forker launched it for, with its output,
    its log name fitting in the buffer. *)
Theorem tasks_gathered pm p y :
  start new_Queue names pid_max p -> log_filename_size pm = strlen (logs_directory pm) + 16 ->
  rtc (step GetInstanceID) (initial pm p) y ->
  NoDup (entries y).*1 /\
  (forall k w, tid_workflow_instance (pool y) !! k = Some (Some w) <-> exists t, (Z.of_nat k, (w, t)) ∈ entries y) /\
  forall x retcode, Ended x retcode ∈ messages y -> forall read_log terminated,
    exists p', TerminateTask (pr_tid x) (pool y) = Ret (Some (pr_instance x, Some (pr_task x)), p') /\
      Gather (manager y) read_log terminated (message_buf (Ended x retcode)) (pool y) =
        Ret (gathered (manager y) read_log terminated x retcode, true, p').
Proof.
  intros S Hm R. destruct (run_inv _ _ _ S Hm R) as [Hi _ Ht _ Hq Hl].
  split; [apply Ht|]. split.
  - intros k w. split; [apply Ht|]. intros [t Hin]. apply Ht in Hin as (_ & Hw & _). by rewrite Nat2Z.id in Hw.
  - intros x rc Hin rl b. rewrite Forall_forall in Hq. pose proof (Hq _ Hin) as Hp. cbn in Hp.
    apply list_elem_of_split in Hin as (q1 & q2 & E). destruct y as [m c p1 l q g]. cbn [messages] in E.
    eapply tracks_perm in Ht; [|by apply (entries_message m c p1 l q x rc q1 q2 g E)].
    destruct (Gather_ended m rl b x rc p1 _ Hl (inv_wf _ Hi) Hp Ht) as (p' & E1 & E2 & _). eauto.
Qed.
End properties.

(** When no identifier is free the task is launched with identifier 0: the end of
    its process is taken for the end of the task that has this identifier. *)
Lemma no_identifier_left {Q} `{QueueLaws Q} pm read_log terminated (p : QueuePool Q) nm w t pid retcode w0 t0 l :
  wf p -> nm ∈ name p -> tracks p ((0, (w0, t0)) :: l) ->
  (forall k, 0 <= k < maxpid p -> tid_workflow_instance p !! Z.to_nat k <> Some None) ->
  manager_ok pm -> 0 < pid ->
  exists p1 p2, ExecuteTask w t nm 0 p = Ret (0, p1) /\
    Gather pm read_log terminated (mkMsgbuf pid 0 retcode) p1 =
      Ret (gathered pm read_log terminated (mkProcess pid 0 w0 t0) retcode, true, p2).
Proof.
  intros W Hin Ht Hall Hm Hp. destruct (lookup_known nm p W Hin) as (i & q & El & Hi0 & _ & Hq).
  destruct (ExecuteTask_new w t nm i q p W El Hi0 Hq) as [(k & [Hk Hf] & _)|(_ & last & Hl & E)].
  { by apply Hall in Hf. }
  exists (set_lasttid last p).
  destruct (Gather_ended pm read_log terminated (mkProcess pid 0 w0 t0) retcode (set_lasttid last p) l)
    as (p2 & _ & E2 & _); [done|by apply wf_set_lasttid|done| |].
  { eapply tracks_same; [|exact Ht]. by split. }
  by exists p2.
Qed.

(** * Example *)

Definition ex_manager : ProcessManager := mkProcessManager "/tmp" true 20 7 false.

(** A task of queue [a] is launched with identifier 1 and its process ends. *)
Lemma tasks_gathered_witness :
  exists y, rtc (step Z.pos) (initial ex_manager ex_pool) y /\
    messages y = [Ended (mkProcess 100 1 7%positive 70%positive) 0] /\
    NoDup (entries y).*1 /\
    (forall k w, tid_workflow_instance (pool y) !! k = Some (Some w) <-> exists t, (Z.of_nat k, (w, t)) ∈ entries y) /\
    forall x retcode, Ended x retcode ∈ messages y -> forall read_log terminated,
      exists p', TerminateTask (pr_tid x) (pool y) = Ret (Some (pr_instance x, Some (pr_task x)), p') /\
        Gather (manager y) read_log terminated (message_buf (Ended x retcode)) (pool y) =
          Ret (gathered (manager y) read_log terminated x retcode, true, p').
Proof.
  eassert (rtc (step Z.pos) (initial ex_manager ex_pool) (mkSystem _ _ _ _ [Ended (mkProcess 100 1 7%positive 70%positive) 0] _)) as R.
  { eapply rtc_l; [eapply step_other, (other_enqueue _ _ "a" 7 70); [repeat constructor|vm_compute; reflexivity]|].
    eapply rtc_l; [eapply step_dequeue, forker_returns; vm_compute; reflexivity|].
    eapply rtc_l; [eapply (step_execute _ _ _ _ _ _ _ _ _ 0); [done|vm_compute; reflexivity..]|].
    eapply rtc_l; [eapply (step_launch _ _ _ _ _ _ _ _ _ 100 false); [done|vm_compute; reflexivity]|].
    eapply rtc_l; [apply (step_ends _ _ _ _ [])|]. apply rtc_refl. }
  eexists. split; [exact R|]. split; [done|].
  exact (tasks_gathered Z.pos ex_new_Queue ["a"; "b"] "3" ex_manager ex_pool _ ex_start eq_refl R).
Defined.
