(* ===== verification/PoolTasks.v ===== *)
(** The tasks that the queues of the pool hold, with the one in the hand of the
    forker: what the operations of [QueuePool] do to them. *)

From S2P Require Import Prelude CString Lookup QueueIface Queue QueuePool ProcessManager.

Open Scope Z_scope.

Section tasks.
Context {Q : Type} `{QueueTasks Q}.

Definition pool_tasks (p : QueuePool Q) : list (wi_ref * node_ref) := queue p ≫= qi_tasks.
Definition pool_ok (p : QueuePool Q) : Prop := Forall qi_ok (queue p).

(** The queue of this name can take a task without losing others. *)
Definition pool_accepts (nm : string) (p : QueuePool Q) : bool :=
  match GetQueue nm p with Ret (Some q) => qi_accepts q | _ => false end.

(** The task that the forker took out of the queues. *)
Definition in_hand (f : forker) : list (wi_ref * node_ref) :=
  match f with FGot _ w t => [(w, t)] | _ => [] end.
End tasks.

Section proofs.
Context {Q : Type} `{QueueLaws Q, !QueueTasks Q, !QueueTasksLaws Q}.
Implicit Types (p : QueuePool Q) (qs : list Q).

Lemma pool_tasks_update p : pool_tasks (update_fork_possible p) = pool_tasks p.
Proof. unfold update_fork_possible. cbn. by destruct (_ && _). Qed.
Lemma pool_ok_update p : pool_ok (update_fork_possible p) <-> pool_ok p.
Proof. unfold update_fork_possible. cbn. by destruct (_ && _). Qed.

(** A change of one queue. *)
Lemma tasks_insert qs i q q' a b :
  qs !! i = Some q -> a ++ qi_tasks q' ≡ₚ b ++ qi_tasks q ->
  a ++ (<[i := q']> qs ≫= qi_tasks) ≡ₚ b ++ (qs ≫= qi_tasks).
Proof.
  intros Hi E. pose proof (lookup_lt_Some _ _ _ Hi) as Hl.
  rewrite <- (take_drop_middle _ _ _ Hi) at 2. rewrite insert_take_drop by done.
  rewrite !bind_app, !bind_cons.
  assert (Hs : forall x (l1 l2 l3 : list (wi_ref * node_ref)), x ++ l1 ++ l2 ++ l3 ≡ₚ (x ++ l2) ++ l1 ++ l3).
  { intros. rewrite <- app_assoc. apply Permutation_app_head. apply Permutation_app_swap_app. }
  rewrite !Hs. by rewrite E.
Qed.

Lemma EnqueueTask_tasks nm w t p r p' :
  wf p -> pool_ok p -> nm ∈ name p -> sizes_ok p -> pool_accepts nm p = true ->
  EnqueueTask nm w t p = Ret (r, p') ->
  r = true /\ pool_ok p' /\ pool_tasks p' ≡ₚ (w, t) :: pool_tasks p.
Proof.
  intros W O Hin S A E. destruct (lookup_known nm p W Hin) as (i & q & El & Hi & _ & Hq).
  unfold pool_accepts, GetQueue in A. unfold EnqueueTask in E. rewrite El in *. cbn [mbind outcome_bind] in *.
  rewrite (proj2 (Z.eqb_neq i (-1))) in * by lia. cbn [negb] in *.
  assert (aget (queue p) i = Ret q) as Eq by (apply aget_Ret; done). rewrite Eq in *. cbn [mbind outcome_bind] in *.
  pose proof (Forall_lookup_1 _ _ _ _ S Hq) as Hs. pose proof (Forall_lookup_1 _ _ _ _ O Hq) as Ho.
  destruct (tasks_enqueue w t q Ho A Hs) as (q' & E1 & Ho' & P).
  rewrite E1 in E. cbn [mbind outcome_bind] in E. pose proof (lookup_lt_Some _ _ _ Hq).
  rewrite aset_in_bounds in E by lia. injection E as <- <-. split; [done|]. split.
  - apply pool_ok_update. by apply Forall_insert.
  - rewrite pool_tasks_update. cbn. by apply (tasks_insert (queue p) (Z.to_nat i) q q' [] [(w, t)]).
Qed.

Lemma cancel_all_tasks GetInstanceID i qs qs' :
  Forall qi_ok qs -> cancel_all GetInstanceID i qs = Ret qs' ->
  Forall qi_ok qs' /\ (qs' ≫= qi_tasks) ≡ₚ (qs ≫= qi_tasks).
Proof.
  revert qs'. induction qs as [|q qs IH]; intros qs' O E; cbn [cancel_all] in E; [by inv_ret|].
  apply Forall_cons in O as [Oq O]. destruct (tasks_cancel GetInstanceID i q Oq) as (q' & E1 & O1 & P1).
  rewrite E1 in E. cbn [mbind outcome_bind] in E. apply bind_Ret in E as (qs1 & E2 & E). injection E as <-.
  destruct (IH _ O E2) as [O2 P2]. split; [by constructor|]. rewrite !bind_cons. by rewrite P1, P2.
Qed.

Lemma CancelTasks_tasks GetInstanceID i p r p' :
  pool_ok p -> CancelTasks GetInstanceID i p = Ret (r, p') -> pool_ok p' /\ pool_tasks p' ≡ₚ pool_tasks p.
Proof.
  intros O E. unfold CancelTasks in E. apply bind_Ret in E as (qs & E1 & E). injection E as _ <-.
  rewrite pool_ok_update, pool_tasks_update. cbn. by eapply cancel_all_tasks.
Qed.

Lemma Shutdown_tasks p : pool_tasks (QueuePool.Shutdown p) = pool_tasks p /\ (pool_ok (QueuePool.Shutdown p) <-> pool_ok p).
Proof. unfold QueuePool.Shutdown. cbn. by destruct (fork_locked p). Qed.

(** The scan gives what a queue gives, wherever it stops. *)
Lemma dequeue_scan_tasks i qs r qs' :
  Forall qi_ok qs -> dequeue_scan i qs = Ret (r, qs') ->
  Forall qi_ok qs' /\ (qs ≫= qi_tasks) ≡ₚ option_list (snd <$> r) ++ (qs' ≫= qi_tasks).
Proof.
  revert i r qs'. induction qs as [|q qs IH]; intros i r qs' O E; cbn [dequeue_scan] in E; [by inv_ret|].
  apply Forall_cons in O as [Oq O]. destruct (tasks_dequeue q Oq) as (r1 & q1 & E1 & O1 & P1).
  rewrite E1 in E. cbn [mbind outcome_bind] in E. destruct r1 as [x|].
  - injection E as <- <-. split; [by constructor|]. rewrite !bind_cons. by rewrite P1.
  - apply bind_Ret in E as ([r2 qs2] & E2 & E). injection E as <- <-. destruct (IH _ _ _ O E2) as [O2 P2].
    split; [by constructor|]. rewrite !bind_cons. rewrite P1, P2. cbn. apply Permutation_app_swap_app.
Qed.

Lemma awake_tasks p r p' : pool_ok p -> DequeueTask_awake p = Ret (r, p') ->
  pool_ok p' /\ pool_tasks p ≡ₚ in_hand (forker_after r) ++ pool_tasks p'.
Proof.
  unfold DequeueTask_awake. intros O E. destruct (QueuePool.is_shutting_down p); [by inv_ret|].
  apply bind_Ret in E as ([[[i [w t]]|] qs] & Hs & E); cbn in Hs; apply (dequeue_scan_tasks _ _ _ _ O) in Hs as [O' P].
  - apply bind_Ret in E as (nm & _ & E). injection E as <- <-. split; [exact O'|exact P].
  - injection E as <- <-. split; [exact O'|exact P].
Qed.

Lemma forker_tasks f p f' p' : pool_ok p -> forker_step (f, p) (f', p') ->
  pool_ok p' /\ in_hand f ++ pool_tasks p ≡ₚ in_hand f' ++ pool_tasks p'.
Proof.
  intros O S. inversion S as [? r ? E|? ? E|? r ? Hs E]; simplify_eq.
  - unfold DequeueTask in E. case_match; [by inv_ret|]. destruct (fork_possible p); cbn [negb] in E; [|done].
    apply bind_Ret in E as ([r1 p1] & E1 & E). injection E as <- <-. by apply awake_tasks in E1.
  - unfold DequeueTask in E. case_match; [by inv_ret|]. destruct (fork_possible p); cbn [negb] in E; [|by injection E as <-].
    apply bind_Ret in E as ([r1 p1] & _ & E). by injection E.
  - by apply awake_tasks in E.
Qed.

(** Identifiers change the count of running tasks of a queue only. *)
Lemma same_tasks_insert p i q q' :
  queue p !! i = Some q -> qi_ok q' -> qi_tasks q' = qi_tasks q -> pool_ok p ->
  Forall qi_ok (<[i := q']> (queue p)) /\ (<[i := q']> (queue p) ≫= qi_tasks) ≡ₚ pool_tasks p.
Proof.
  intros Hq O' E O. split; [by apply Forall_insert|]. apply (tasks_insert (queue p) i q q' [] []); [done|]. by rewrite E.
Qed.

Lemma ExecuteTask_tasks w tn nm tid p r p' :
  pool_ok p -> ExecuteTask w tn nm tid p = Ret (r, p') -> pool_ok p' /\ pool_tasks p' ≡ₚ pool_tasks p.
Proof.
  intros O E. unfold ExecuteTask in E. apply bind_Ret in E as (i & _ & E). case_match; [by inv_ret|].
  apply bind_Ret in E as ([[tid' full] p1] & E1 & E).
  assert (queue p1 = queue p) as Eq.
  { destruct (tid =? 0); [|by inv_ret]. apply bind_Ret in E1 as ([n k] & _ & E1). by inv_ret. }
  destruct full; [injection E as _ <-; unfold pool_ok, pool_tasks; by rewrite Eq|].
  apply bind_Ret in E as (ix & _ & E). apply bind_Ret in E as (ts & _ & E). apply bind_Ret in E as (ws & _ & E).
  apply bind_Ret in E as (q & [Hi Hq]%aget_Ret & E). apply bind_Ret in E as (qs & [_ ->]%aset_Ret & E). injection E as _ <-.
  rewrite pool_ok_update, pool_tasks_update. cbn in *. rewrite Eq in *.
  destruct (tasks_execute q) as [O' Et]; [by eapply (Forall_lookup_1 _ _ _ _ O)|].
  by apply (same_tasks_insert p (Z.to_nat i) q).
Qed.

Lemma ExecuteTask_name w tn nm tid p r p' : ExecuteTask w tn nm tid p = Ret (r, p') -> name p' = name p.
Proof.
  intros E. unfold ExecuteTask in E. apply bind_Ret in E as (i & _ & E). case_match; [by inv_ret|].
  apply bind_Ret in E as ([[tid' full] p1] & E1 & E).
  assert (name p1 = name p) as Eq.
  { destruct (tid =? 0); [|by inv_ret]. apply bind_Ret in E1 as ([n k] & _ & E1). by inv_ret. }
  destruct full; [by injection E as _ <-|]. repeat (apply bind_Ret in E as (? & _ & E)). injection E as _ <-.
  unfold update_fork_possible. cbn. by destruct (_ && _).
Qed.

Lemma TerminateTask_tasks tid p r p' :
  pool_ok p -> TerminateTask tid p = Ret (r, p') -> pool_ok p' /\ pool_tasks p' ≡ₚ pool_tasks p.
Proof.
  intros O E. unfold TerminateTask in E. apply bind_Ret in E as ([w|] & _ & E); [|by inv_ret].
  apply bind_Ret in E as (i & _ & E). apply bind_Ret in E as (q & [Hi Hq]%aget_Ret & E).
  apply bind_Ret in E as (qs & [_ ->]%aset_Ret & E). apply bind_Ret in E as (t & _ & E).
  apply bind_Ret in E as (ix & _ & E). apply bind_Ret in E as (ts & _ & E). apply bind_Ret in E as (ws & _ & E).
  injection E as _ <-. rewrite pool_ok_update, pool_tasks_update. cbn in *.
  destruct (tasks_terminate q) as [O' Et]; [by eapply (Forall_lookup_1 _ _ _ _ O)|].
  by apply (same_tasks_insert p (Z.to_nat i) q).
Qed.
End proofs.
