(* ===== verification/Calendar.v ===== *)
(** The calendar functions of the C library that [Schedule.cpp] calls,
    [localtime_r] and [mktime], as an interface, and their instance for a time
    zone at a fixed offset from UTC: the proleptic Gregorian calendar.

    Times are seconds since the epoch; the days of a month and the months
    count from 0 in the functions on dates, as the schedule does. *)

From S2P Require Import Prelude.

Open Scope Z_scope.

(** * The interface *)

(** The fields of [struct tm] that the program uses. *)
Record tm : Type := mk_tm {
  tm_sec : Z;
  tm_min : Z;
  tm_hour : Z;
  tm_mday : Z;
  tm_mon : Z;
  tm_year : Z;
  tm_wday : Z;
  tm_isdst : Z;
}.

(** [mktime] returns the time and the [struct tm] with its fields normalised. *)
Class TimeZone : Type := {
  localtime_r : Z -> tm;
  mktime : tm -> Z * tm;
}.

(** * Dates *)

Definition leap (y : Z) : bool :=
  (y mod 4 =? 0) && (negb (y mod 100 =? 0) || (y mod 400 =? 0)).

(** The days of the years before [y], up to a constant. *)
Definition year_days (y : Z) : Z :=
  365 * y + (y - 1) / 4 - (y - 1) / 100 + (y - 1) / 400.

Definition month_lengths (leap : bool) : list Z :=
  [31; if leap then 29 else 28; 31; 30; 31; 30; 31; 31; 30; 31; 30; 31].

Definition month_length (y m : Z) : Z := month_lengths (leap y) !!! Z.to_nat m.

Definition sum_Z (l : list Z) : Z := foldr Z.add 0 l.

Definition month_days (y m : Z) : Z := sum_Z (take (Z.to_nat m) (month_lengths (leap y))).

(** The number of a date; the day need not be in its month. *)
Definition date_number (y m d : Z) : Z := year_days y - year_days 1970 + month_days y m + d.

Definition weekday (days : Z) : Z := (days + 4) mod 7.

(** The year that contains a day: an estimate, which is one off at most. *)
Definition find_year (days : Z) : Z :=
  let y := 1970 + days * 400 / 146097 in
  if days <? date_number y 0 0 then y - 1
  else if date_number (y + 1) 0 0 <=? days then y + 1
  else y.

Fixpoint find_month (lengths : list Z) (m d : Z) : Z * Z :=
  match lengths with
  | n :: r => if d <? n then (m, d) else find_month r (m + 1) (d - n)
  | [] => (m, d)
  end.

Definition date_of (days : Z) : Z * Z * Z :=
  let y := find_year days in
  let '(m, d) := find_month (month_lengths (leap y)) 0 (days - date_number y 0 0) in
  (y, m, d).

Definition valid_date (y m d : Z) : Prop := 0 <= m < 12 /\ 0 <= d < month_length y m.

(** * Zones at a fixed offset *)

Definition gmtime (t : Z) : tm :=
  let '(y, m, d) := date_of (t / 86400) in
  mk_tm (t mod 60) (t / 60 mod 60) (t / 3600 mod 24) (d + 1) m (y - 1900) (weekday (t / 86400)) 0.

Definition timegm (x : tm) : Z :=
  let y := tm_year x + 1900 + tm_mon x / 12 in
  date_number y (tm_mon x mod 12) (tm_mday x - 1) * 86400
  + tm_hour x * 3600 + tm_min x * 60 + tm_sec x.

Definition fixed_zone (offset : Z) : TimeZone := {|
  localtime_r t := gmtime (t + offset);
  mktime x := (timegm x - offset, gmtime (timegm x));
|}.

(** * Years and months *)

Lemma year_days_succ y : year_days (y + 1) = year_days y + (if leap y then 366 else 365).
Proof.
  unfold year_days, leap. replace (y + 1 - 1) with y by lia.
  assert (H : forall k, 0 < k -> y / k = (y - 1) / k + (if y mod k =? 0 then 1 else 0)).
  { intros k Hk. pose proof (Z.div_mod y k ltac:(lia)). pose proof (Z.mod_pos_bound y k Hk).
    destruct (Z.eqb_spec (y mod k) 0) as [E|E].
    - symmetry. apply Z.add_move_r. symmetry.
      apply (Z.div_unique_pos (y - 1) k _ (k - 1)); lia.
    - rewrite Z.add_0_r. apply (Z.div_unique_pos (y - 1) k _ (y mod k - 1)); lia. }
  rewrite (H 4), (H 100), (H 400) by lia.
  destruct (Z.eqb_spec (y mod 4) 0), (Z.eqb_spec (y mod 100) 0), (Z.eqb_spec (y mod 400) 0);
    cbn [andb orb negb]; try lia.
  all: exfalso; Z.to_euclidean_division_equations; lia.
Qed.

Lemma month_days_12 y : month_days y 12 = if leap y then 366 else 365.
Proof. unfold month_days. by destruct (leap y). Qed.

Lemma month_cases m : 0 <= m < 12 ->
  m = 0 \/ m = 1 \/ m = 2 \/ m = 3 \/ m = 4 \/ m = 5 \/ m = 6 \/ m = 7 \/ m = 8 \/ m = 9 \/ m = 10 \/ m = 11.
Proof. lia. Qed.

Lemma month_days_succ y m : 0 <= m < 12 -> month_days y (m + 1) = month_days y m + month_length y m.
Proof.
  intros H. apply month_cases in H. unfold month_days, month_length.
  destruct (leap y); repeat destruct H as [->|H]; try subst m; reflexivity.
Qed.

Lemma month_length_bounds y m : 0 <= m < 12 -> 28 <= month_length y m <= 31.
Proof.
  intros H. apply month_cases in H. unfold month_length.
  destruct (leap y); repeat destruct H as [->|H]; try subst m; simpl; lia.
Qed.

(** The first day of the next month is the day after the last of this one. *)
Lemma date_number_carry y m d : 0 <= m < 12 ->
  date_number y m (month_length y m + d) =
    if m =? 11 then date_number (y + 1) 0 d else date_number y (m + 1) d.
Proof.
  intros Hm. unfold date_number. pose proof (month_days_succ y m Hm) as H.
  destruct (Z.eqb_spec m 11) as [->|].
  - change (11 + 1) with 12 in H. rewrite month_days_12 in H. rewrite year_days_succ.
    change (month_days (y + 1) 0) with 0. lia.
  - lia.
Qed.

Lemma month_days_mono y m m' : 0 <= m <= m' -> m' <= 12 -> month_days y m <= month_days y m'.
Proof.
  intros H1 H2. replace m' with (m + Z.of_nat (Z.to_nat (m' - m))) by lia.
  assert (Hk : (m + Z.of_nat (Z.to_nat (m' - m)) <= 12)) by lia.
  induction (Z.to_nat (m' - m)) as [|k IH]; [rewrite Z.add_0_r; lia|].
  replace (m + Z.of_nat (S k)) with (m + Z.of_nat k + 1) by lia.
  rewrite month_days_succ by lia. pose proof (month_length_bounds y (m + Z.of_nat k)). lia.
Qed.

Lemma year_days_mono y y' : y <= y' -> year_days y <= year_days y'.
Proof.
  intros H. replace y' with (y + Z.of_nat (Z.to_nat (y' - y))) by lia.
  induction (Z.to_nat (y' - y)) as [|k IH]; [rewrite Z.add_0_r; lia|].
  replace (y + Z.of_nat (S k)) with (y + Z.of_nat k + 1) by lia.
  rewrite year_days_succ. destruct (leap _); lia.
Qed.

(** * Dates are ordered like their numbers *)

Lemma valid_date_bounds y m d : valid_date y m d ->
  0 <= month_days y m + d < (if leap y then 366 else 365).
Proof.
  intros [Hm Hd]. pose proof (month_days_succ y m Hm). pose proof (month_days_mono y 0 m ltac:(lia) ltac:(lia)).
  pose proof (month_days_mono y (m + 1) 12 ltac:(lia) ltac:(lia)). rewrite month_days_12 in *.
  change (month_days y 0) with 0 in *. lia.
Qed.

Lemma date_number_year y m d y' : valid_date y m d -> y < y' -> date_number y m d < date_number y' 0 0.
Proof.
  intros H%valid_date_bounds Hy. unfold date_number. change (month_days y' 0) with 0.
  pose proof (year_days_mono (y + 1) y' ltac:(lia)). rewrite year_days_succ in *. lia.
Qed.

Lemma date_number_month y m d m' :
  valid_date y m d -> m < m' <= 12 -> date_number y m d < date_number y m' 0.
Proof.
  intros [Hm Hd] Hy. unfold date_number.
  pose proof (month_days_mono y (m + 1) m' ltac:(lia) ltac:(lia)). rewrite month_days_succ in * by done. lia.
Qed.

Definition date_lt (y m d y' m' d' : Z) : Prop := y < y' \/ y = y' /\ (m < m' \/ m = m' /\ d < d').

Lemma date_number_lt y m d y' m' d' :
  valid_date y m d -> 0 <= m' < 12 -> 0 <= d' -> date_lt y m d y' m' d' ->
  date_number y m d < date_number y' m' d'.
Proof.
  intros Hv Hm' Hd' [Hy|[-> [Hm|[-> Hd]]]].
  - pose proof (date_number_year _ _ _ _ Hv Hy). unfold date_number in *.
    pose proof (month_days_mono y' 0 m' ltac:(lia) ltac:(lia)). lia.
  - pose proof (date_number_month _ _ _ m' Hv ltac:(lia)). unfold date_number in *. lia.
  - unfold date_number. lia.
Qed.

Lemma date_number_inj y m d y' m' d' :
  valid_date y m d -> valid_date y' m' d' -> date_number y m d = date_number y' m' d' ->
  y = y' /\ m = m' /\ d = d'.
Proof.
  intros Hv [Hm' Hd'] E. pose proof Hv as [Hm Hd].
  assert (H : ~ date_lt y m d y' m' d').
  { intros H. apply date_number_lt in H; [lia|done|done|lia]. }
  assert (H' : ~ date_lt y' m' d' y m d).
  { intros H0. apply date_number_lt in H0; [lia|done|done|lia]. }
  unfold date_lt in *. lia.
Qed.

(** * Every day has a date *)

Lemma find_year_spec days :
  date_number (find_year days) 0 0 <= days < date_number (find_year days + 1) 0 0.
Proof.
  unfold find_year. set (y := 1970 + days * 400 / 146097).
  assert (H1 : forall z, date_number z 0 0 =
    365 * z + (z - 1) / 4 - (z - 1) / 100 + (z - 1) / 400 - 719527).
  { intros z. unfold date_number. change (month_days z 0) with 0. change (year_days 1970) with 719527.
    unfold year_days. lia. }
  assert (H : date_number (y - 1) 0 0 <= days < date_number (y + 2) 0 0).
  { rewrite !H1. subst y. Z.to_euclidean_division_equations. lia. }
  destruct (Z.ltb_spec days (date_number y 0 0)); [replace (y - 1 + 1) with y by lia; lia|].
  destruct (Z.leb_spec (date_number (y + 1) 0 0) days); [|lia].
  replace (y + 1 + 1) with (y + 2) by lia. lia.
Qed.

Lemma find_month_spec lengths m d m' d' :
  find_month lengths m d = (m', d') -> Forall (Z.lt 0) lengths -> 0 <= d < sum_Z lengths ->
  exists k n, m' = m + Z.of_nat k /\ lengths !! k = Some n /\ 0 <= d' < n /\ d = sum_Z (take k lengths) + d'.
Proof.
  revert m d. induction lengths as [|n r IH]; intros m d; simpl; [lia|].
  intros E [Hn Hr]%Forall_cons Hd. destruct (Z.ltb_spec d n).
  - simplify_eq. exists 0%nat, n. simpl. repeat split; lia.
  - apply IH in E as (k & n' & -> & Hk & Hd' & E); [|done|lia].
    exists (S k), n'. simpl. repeat split; try done; lia.
Qed.

Lemma date_of_spec days y m d :
  date_of days = (y, m, d) -> valid_date y m d /\ date_number y m d = days.
Proof.
  unfold date_of. intros E. pose proof (find_year_spec days) as Hy. revert E Hy.
  generalize (find_year days) as z. intros z E Hy.
  destruct (find_month _ _ _) as [m' d'] eqn:Em. simplify_eq.
  unfold date_number in Hy. rewrite year_days_succ in Hy.
  change (month_days y 0) with 0 in *. change (month_days (y + 1) 0) with 0 in *.
  apply find_month_spec in Em as (k & n & -> & Hk & Hd & E).
  - assert (k < 12)%nat by (apply lookup_lt_Some in Hk; by destruct (leap y)).
    unfold valid_date, date_number, month_length, month_days. rewrite Z.add_0_l, Nat2Z.id.
    rewrite (list_lookup_total_correct _ _ _ Hk). unfold date_number in E.
    change (month_days y 0) with 0 in E. repeat split; lia.
  - destruct (leap y); repeat constructor.
  - unfold date_number. change (month_days y 0) with 0. destruct (leap y); simpl; lia.
Qed.

Lemma date_of_number y m d : valid_date y m d -> date_of (date_number y m d) = (y, m, d).
Proof.
  intros H. destruct (date_of (date_number y m d)) as [[y' m'] d'] eqn:E.
  apply date_of_spec in E as [H' E].
  destruct (date_number_inj _ _ _ _ _ _ H' H E) as (-> & -> & ->). done.
Qed.

(** * The calendar repeats after 400 years *)

Lemma leap_period y : leap (y + 400) = leap y.
Proof.
  unfold leap. replace (y + 400) with (y + 100 * 4) at 1 by lia. rewrite Z.mod_add by lia.
  replace (y + 400) with (y + 4 * 100) at 1 by lia. rewrite Z.mod_add by lia.
  replace (y + 400) with (y + 1 * 400) by lia. by rewrite Z.mod_add by lia.
Qed.

Lemma date_number_period y m d : date_number (y + 400) m d = date_number y m d + 146097.
Proof.
  unfold date_number, month_days. rewrite leap_period. unfold year_days.
  replace (y + 400 - 1) with (y - 1 + 100 * 4) at 1 by lia. rewrite Z.div_add by lia.
  replace (y + 400 - 1) with (y - 1 + 4 * 100) at 1 by lia. rewrite Z.div_add by lia.
  replace (y + 400 - 1) with (y - 1 + 1 * 400) by lia. rewrite Z.div_add by lia. lia.
Qed.

Lemma date_number_periods y m d k :
  date_number (y + 400 * k) m d = date_number y m d + 146097 * k /\ leap (y + 400 * k) = leap y.
Proof.
  assert (H : forall (k : nat) z, date_number (z + 400 * Z.of_nat k) m d =
                date_number z m d + 146097 * Z.of_nat k /\ leap (z + 400 * Z.of_nat k) = leap z).
  { clear. induction k as [|k IH]; intros z; [rewrite !Z.mul_0_r, !Z.add_0_r; done|].
    destruct (IH (z + 400)) as [H1 H2]. rewrite date_number_period in H1. rewrite leap_period in H2.
    replace (z + 400 * Z.of_nat (S k)) with (z + 400 + 400 * Z.of_nat k) by lia.
    split; [lia|done]. }
  destruct (Z.le_ge_cases 0 k).
  - replace k with (Z.of_nat (Z.to_nat k)) by lia. apply H.
  - destruct (H (Z.to_nat (- k)) (y + 400 * k)) as [H1 H2].
    replace (y + 400 * k + 400 * Z.of_nat (Z.to_nat (- k))) with y in H1, H2 by lia.
    split; [lia|done].
Qed.

(** * Reading a time *)

Lemma time_parts t : t = t / 86400 * 86400 + (t / 3600 mod 24) * 3600 + (t / 60 mod 60) * 60 + t mod 60.
Proof.
  replace (t / 86400) with (t / 3600 / 24) by (rewrite Z.div_div; [done|lia..]).
  replace (t / 3600) with (t / 60 / 60) by (rewrite Z.div_div; [done|lia..]).
  pose proof (Z.div_mod t 60). pose proof (Z.div_mod (t / 60) 60). pose proof (Z.div_mod (t / 60 / 60) 24). lia.
Qed.

Lemma time_of_parts days h mi s :
  0 <= h < 24 -> 0 <= mi < 60 -> 0 <= s < 60 ->
  let t := days * 86400 + h * 3600 + mi * 60 + s in
  t / 86400 = days /\ t / 3600 mod 24 = h /\ t / 60 mod 60 = mi /\ t mod 60 = s.
Proof.
  intros Hh Hm Hs t.
  assert (E1 : t / 60 = days * 1440 + h * 60 + mi) by (symmetry; apply (Z.div_unique_pos t 60 _ s); lia).
  assert (E2 : t / 3600 = days * 24 + h) by (symmetry; apply (Z.div_unique_pos t 3600 _ (mi * 60 + s)); lia).
  repeat split.
  - symmetry. apply (Z.div_unique_pos t 86400 _ (h * 3600 + mi * 60 + s)); lia.
  - rewrite E2. symmetry. apply (Z.mod_unique_pos _ 24 days); lia.
  - rewrite E1. symmetry. apply (Z.mod_unique_pos _ 60 (days * 24 + h)); lia.
  - symmetry. apply (Z.mod_unique_pos _ 60 (days * 1440 + h * 60 + mi)); lia.
Qed.

Record tm_ok (x : tm) : Prop := {
  ok_sec : 0 <= tm_sec x < 60;
  ok_min : 0 <= tm_min x < 60;
  ok_hour : 0 <= tm_hour x < 24;
  ok_date : valid_date (tm_year x + 1900) (tm_mon x) (tm_mday x - 1);
  ok_wday : tm_wday x = weekday (date_number (tm_year x + 1900) (tm_mon x) (tm_mday x - 1));
}.

Lemma gmtime_ok t : tm_ok (gmtime t) /\ timegm (gmtime t) = t.
Proof.
  unfold gmtime. destruct (date_of (t / 86400)) as [[y m] d] eqn:E.
  apply date_of_spec in E as [[Hm Hd] E].
  split; [split|unfold timegm]; cbn [tm_sec tm_min tm_hour tm_mday tm_mon tm_year tm_wday].
  - by apply Z.mod_pos_bound.
  - by apply Z.mod_pos_bound.
  - by apply Z.mod_pos_bound.
  - replace (y - 1900 + 1900) with y by lia. replace (d + 1 - 1) with d by lia. done.
  - replace (y - 1900 + 1900) with y by lia. replace (d + 1 - 1) with d by lia. by rewrite E.
  - rewrite Z.div_small, Z.mod_small by lia. replace (y - 1900 + 1900 + 0) with y by lia.
    replace (d + 1 - 1) with d by lia. rewrite E. symmetry. apply time_parts.
Qed.

(** A [struct tm] with a month in range and a time of day in range. *)
Lemma gmtime_timegm s mi h md mo y wd dst :
  0 <= s < 60 -> 0 <= mi < 60 -> 0 <= h < 24 -> valid_date (y + 1900) mo (md - 1) ->
  gmtime (timegm (mk_tm s mi h md mo y wd dst)) =
    mk_tm s mi h md mo y (weekday (date_number (y + 1900) mo (md - 1))) 0.
Proof.
  intros Hs Hmi Hh Hv. pose proof Hv as [Hmo Hd]. unfold timegm, gmtime.
  cbn [tm_sec tm_min tm_hour tm_mday tm_mon tm_year tm_wday].
  rewrite (Z.div_small mo 12), (Z.mod_small mo 12), Z.add_0_r by lia.
  destruct (time_of_parts (date_number (y + 1900) mo (md - 1)) h mi s Hh Hmi Hs) as (E1 & E2 & E3 & E4).
  cbv zeta in *. rewrite E1, E2, E3, E4. rewrite date_of_number by done.
  f_equal; lia.
Qed.
