(* ===== verification/Schedule.v ===== *)
(** [Schedule.cpp]: the description of a schedule, a table of the seconds,
    minutes, hours, days, months and days of the week when it fires, and the
    search of the next time that it describes. *)

From S2P Require Import Prelude CString Calendar.

Open Scope Z_scope.

(** * The levels *)

Definition SCHEDULE_LEVEL_SEC : Z := 0.
Definition SCHEDULE_LEVEL_MIN : Z := 1.
Definition SCHEDULE_LEVEL_HOUR : Z := 2.
Definition SCHEDULE_LEVEL_DAY : Z := 3.
Definition SCHEDULE_LEVEL_MONTH : Z := 4.
Definition SCHEDULE_LEVEL_WDAY : Z := 5.
Definition SCHEDULE_LENGTH : nat := 194.

Definition GetScheduleLength (level : Z) : Z :=
  if level =? SCHEDULE_LEVEL_SEC then 60
  else if level =? SCHEDULE_LEVEL_MIN then 60
  else if level =? SCHEDULE_LEVEL_HOUR then 24
  else if level =? SCHEDULE_LEVEL_DAY then 31
  else if level =? SCHEDULE_LEVEL_MONTH then 12
  else if level =? SCHEDULE_LEVEL_WDAY then 7
  else -1.

Definition GetScheduleOffset (level : Z) : Z :=
  if level =? SCHEDULE_LEVEL_SEC then 0
  else if level =? SCHEDULE_LEVEL_MIN then 60
  else if level =? SCHEDULE_LEVEL_HOUR then 120
  else if level =? SCHEDULE_LEVEL_DAY then 144
  else if level =? SCHEDULE_LEVEL_MONTH then 175
  else if level =? SCHEDULE_LEVEL_WDAY then 187
  else -1.

(** * The constructor *)

Definition non_numeric : Exception :=
  mkException "Schedule" "Non numeric data in schedule offset".
Definition out_of_range : Exception :=
  mkException "Schedule" "Out of range schedule offset".
Definition garbage : Exception := mkException "Schedule" "Garbage at end of schedule".
Definition impossible : Exception :=
  mkException "Schedule" "Schedule constraints are impossible to satisfy".

(** What the loops of the constructor change: [schedule_description+i], the
    array and [min_day]. *)
Record parse : Type := mkParse {
  left_ : list ascii;
  schedule : list bool;
  min_day : Z;
}.

Definition ends_level (l : list ascii) : bool :=
  match l with
  | [] => true
  | c :: _ => bool_decide (c = ";"%char)
  end.

Definition skip (x : ascii) (l : list ascii) : list ascii :=
  match l with
  | c :: r => if bool_decide (c = x) then r else l
  | [] => []
  end.

(** The inner [while] loop; also returns [empty_level].  Every iteration reads
    a digit at least. *)
Fixpoint read_level (fuel : nat) (level offset length : Z) (empty_level : bool) (p : parse)
    : outcome (bool * parse) :=
  match fuel with
  | O => Undef
  | S fuel =>
      if ends_level (left_ p) then Ret (empty_level, p)
      else
        match strtol (left_ p) with
        | (_, None) => Throw non_numeric
        | (v, Some end_ptr) =>
            if (v <? 0) || (length <=? v) then Throw out_of_range
            else
              s ← aset (schedule p) (offset + v) true;
              let m := if (level =? SCHEDULE_LEVEL_DAY) && (v <? min_day p) then v else min_day p in
              read_level fuel level offset length false (mkParse (skip ","%char end_ptr) s m)
        end
  end.

(** [for(int i=offset;i<offset+length;i++) schedule[i] = true;] *)
Fixpoint fill (n : nat) (i : Z) (s : list bool) : outcome (list bool) :=
  match n with
  | O => Ret s
  | S n => s ← aset s i true; fill n (i + 1) s
  end.

(** The [do] loop, for the [n] levels from [level] on. *)
Fixpoint read_levels (n : nat) (level offset : Z) (p : parse) : outcome parse :=
  match n with
  | O => Ret p
  | S n =>
      let length := GetScheduleLength level in
      '(empty_level, p) ← read_level (S (List.length (left_ p))) level offset length true p;
      s ← (if empty_level : bool then fill (Z.to_nat length) offset (schedule p) else Ret (schedule p));
      read_levels n (level + 1) (offset + length) (mkParse (skip ";"%char (left_ p)) s (min_day p))
  end.

Definition read_description (schedule_description : list ascii) : outcome parse :=
  read_levels 6 0 0 (mkParse schedule_description (replicate SCHEDULE_LENGTH false) 32).

(** No entry of the array at these indices is set. *)
Fixpoint none_set (indices : list Z) (s : list bool) : outcome bool :=
  match indices with
  | [] => Ret true
  | i :: r => b ← aget s i; if b : bool then Ret false else none_set r s
  end.

Definition Schedule_new (schedule_description : list ascii) : outcome (list bool) :=
  p ← read_description schedule_description;
  match left_ p with
  | _ :: _ => Throw garbage
  | [] =>
      no30 ← (if min_day p =? 29
              then none_set [175; 177; 178; 179; 180; 181; 182; 183; 184; 185; 186] (schedule p)
              else Ret false);
      if no30 : bool then Throw impossible
      else
        no31 ← (if min_day p =? 30
                then none_set [175; 177; 179; 181; 182; 184; 186] (schedule p)
                else Ret false);
        if no31 : bool then Throw impossible else Ret (schedule p)
  end.

(** * The search *)

Section search.
Context `{TimeZone}.
Context (schedule : list bool).

Fixpoint levels_valid (time_level_now : list Z) (levels : list Z) : outcome bool :=
  match levels with
  | [] => Ret true
  | k :: r =>
      n ← aget time_level_now k;
      b ← aget schedule (GetScheduleOffset k + n);
      if b : bool then levels_valid time_level_now r else Ret false
  end.

(** The [for] loop on [i]: [time_level_first[level]], if it is set. *)
Fixpoint find_first (fuel : nat) (offset length now_ current_level_offset : Z)
    (next_levels_valid : bool) (i : Z) : outcome (option Z) :=
  match fuel with
  | O => Ret None
  | S fuel =>
      let j := if next_levels_valid then (now_ + i + current_level_offset) mod length else i in
      b ← aget schedule (offset + j);
      if b : bool then Ret (Some j)
      else find_first fuel offset length now_ current_level_offset next_levels_valid (i + 1)
  end.

(** The [for] loop on the levels, lowest first: [time_level_first] and
    [next_level_offset]. *)
Fixpoint find_levels (time_level_now levels : list Z) (next_level_offset : Z)
    : outcome (list (option Z) * Z) :=
  match levels with
  | [] => Ret ([], next_level_offset)
  | level :: higher =>
      let offset := GetScheduleOffset level in
      let length := GetScheduleLength level in
      let current_level_offset := next_level_offset in
      next_levels_valid ← levels_valid time_level_now higher;
      now_ ← aget time_level_now level;
      first ← find_first (Z.to_nat length) offset length now_ current_level_offset next_levels_valid 0;
      let carry :=
        match first with
        | Some j => if next_levels_valid && (j <? now_ + current_level_offset) then 1 else 0
        | None => 0
        end in
      '(firsts, last) ← find_levels time_level_now higher carry;
      Ret (first :: firsts, last)
  end.

Definition time_levels (now_t : tm) : list Z :=
  [tm_sec now_t; tm_min now_t; tm_hour now_t; tm_mday now_t - 1; tm_mon now_t].

(** The recursion goes on as long as the date found does not exist or has the
    wrong weekday; without fuel the result is [Undef].  Reading an element of
    [time_level_first] that was not set is undefined behaviour. *)
Fixpoint get_next_time (fuel : nat) (now : Z) : outcome Z :=
  match fuel with
  | O => Undef
  | S fuel =>
      let now_t := localtime_r now in
      '(time_level_first, next_level_offset) ←
        find_levels (time_levels now_t)
          [SCHEDULE_LEVEL_SEC; SCHEDULE_LEVEL_MIN; SCHEDULE_LEVEL_HOUR; SCHEDULE_LEVEL_DAY; SCHEDULE_LEVEL_MONTH] 0;
      match time_level_first with
      | [Some sec; Some min; Some hour; Some day; Some month] =>
          let '(first, first_t) :=
            mktime (mk_tm sec min hour (day + 1) month (tm_year now_t + next_level_offset) 0 (-1)) in
          if negb (tm_mday first_t =? day + 1) || negb (tm_mon first_t =? month)
          then get_next_time fuel first
          else
            b ← aget schedule (GetScheduleOffset SCHEDULE_LEVEL_WDAY + tm_wday first_t);
            if b : bool then Ret first
            else
              let '(first, _) :=
                mktime (mk_tm (tm_sec first_t) 0 0 (tm_mday first_t + 1) (tm_mon first_t)
                          (tm_year first_t) (tm_wday first_t) (-1)) in
              get_next_time fuel first
      | _ => Undef
      end
  end.

(** [now] is the result of [time]. *)
Definition GetNextTime (fuel : nat) (now : Z) : outcome Z :=
  next_time ← get_next_time fuel (now + 1);
  if next_time <=? now then Ret (now + 86400 * 365) else Ret next_time.
End search.
