(* ===== verification/ScheduleSearch.v ===== *)
(** The search of [Schedule.cpp] for the next time of a schedule: what it
    finds, that it ends, and which times it misses. *)

From S2P Require Import Prelude CString Calendar Schedule.

Open Scope Z_scope.

(** * What a schedule means *)

Definition flag (s : list bool) (level v : Z) : bool :=
  default false (s !! Z.to_nat (GetScheduleOffset level + v)).

(** The array of an accepted description: every level has an entry. *)
Record well_formed (s : list bool) : Prop := {
  wf_length : List.length s = SCHEDULE_LENGTH;
  wf_level : forall level, 0 <= level <= 5 ->
    exists v, 0 <= v < GetScheduleLength level /\ flag s level v = true;
}.

(** The broken-down time is one of those that the schedule describes. *)
Definition matches_tm (s : list bool) (x : tm) : bool :=
  flag s SCHEDULE_LEVEL_SEC (tm_sec x) && flag s SCHEDULE_LEVEL_MIN (tm_min x) &&
  flag s SCHEDULE_LEVEL_HOUR (tm_hour x) && flag s SCHEDULE_LEVEL_DAY (tm_mday x - 1) &&
  flag s SCHEDULE_LEVEL_MONTH (tm_mon x) && flag s SCHEDULE_LEVEL_WDAY (tm_wday x).

Definition matches `{TimeZone} (s : list bool) (t : Z) : bool := matches_tm s (localtime_r t).

(** A time of the first two days of March is missed by the search when the
    schedule has February and a day after the 29th. *)
Definition skipped (s : list bool) (x : tm) : Prop :=
  tm_mon x = 2 /\ tm_mday x <= 2 /\ flag s SCHEDULE_LEVEL_MONTH 1 = true /\
  exists d, 29 <= d < 31 /\ flag s SCHEDULE_LEVEL_DAY d = true.

Definition every_weekday (s : list bool) : Prop :=
  forall v, 0 <= v < 7 -> flag s SCHEDULE_LEVEL_WDAY v = true.

Definition single_second (s : list bool) : Prop :=
  forall v w, flag s SCHEDULE_LEVEL_SEC v = true -> flag s SCHEDULE_LEVEL_SEC w = true ->
    0 <= v < 60 -> 0 <= w < 60 -> v = w.

Lemma level_cases level : 0 <= level <= 5 ->
  level = 0 \/ level = 1 \/ level = 2 \/ level = 3 \/ level = 4 \/ level = 5.
Proof. lia. Qed.

Lemma level_index_bounds level v : 0 <= level <= 5 -> 0 <= v < GetScheduleLength level ->
  0 <= GetScheduleOffset level + v < 194.
Proof.
  intros Hl. apply level_cases in Hl.
  destruct Hl as [-> |[-> |[-> |[-> |[-> | ->]]]]]; cbv -[Z.add Z.le Z.lt]; lia.
Qed.

Lemma aget_flag s level v : List.length s = SCHEDULE_LENGTH -> 0 <= level <= 5 ->
  0 <= v < GetScheduleLength level -> aget s (GetScheduleOffset level + v) = Ret (flag s level v).
Proof.
  intros Hs Hl Hv. pose proof (level_index_bounds level v Hl Hv). apply aget_Ret. split; [lia|].
  unfold flag. destruct (s !! _) eqn:E; [done|].
  apply lookup_ge_None in E. rewrite Hs in E. unfold SCHEDULE_LENGTH in E. lia.
Qed.

(** * The first time of each level

    The levels from the lowest on are the digits of a number in a mixed base,
    whose highest digit is the year. *)

Fixpoint number (levels values : list Z) (top : Z) : Z :=
  match levels, values with
  | l :: ls, v :: vs => v + GetScheduleLength l * number ls vs top
  | _, _ => top
  end.

Definition digits (levels values : list Z) : Prop :=
  Forall2 (fun l v => 0 <= v < GetScheduleLength l) levels values.

Definition scheduled (s : list bool) (levels values : list Z) : bool :=
  forallb (fun '(l, v) => flag s l v) (zip levels values).

Lemma digit_inj n x y a b : 0 <= x < n -> 0 <= y < n -> x + n * a = y + n * b -> x = y /\ a = b.
Proof.
  intros Hx Hy E. assert (a = b); [|nia].
  transitivity ((x + n * a) / n); [|rewrite E; symmetry].
  - apply (Z.div_unique_pos _ n a x); lia.
  - apply (Z.div_unique_pos _ n b y); lia.
Qed.

Lemma number_inj levels xs ys a b :
  digits levels xs -> digits levels ys -> number levels xs a = number levels ys b -> xs = ys /\ a = b.
Proof.
  intros Hx. revert ys. induction Hx as [|l x ls xs Hlx Hx IH]; intros ys Hy;
    [by apply Forall2_nil_inv_l in Hy as ->|].
  apply Forall2_cons_inv_l in Hy as (y & ys' & Hly & Hy & ->). cbn [number].
  intros [-> E]%digit_inj; [|done..]. apply IH in E as [-> ->]; done.
Qed.

Section find.
Context (s : list bool) (Hlen : List.length s = SCHEDULE_LENGTH).

Lemma levels_valid_spec now_ levels ns :
  Forall (fun l => 0 <= l <= 5) levels -> digits levels ns ->
  Forall2 (fun l n => aget now_ l = Ret n) levels ns ->
  levels_valid s now_ levels = Ret (scheduled s levels ns).
Proof.
  intros Hl Hd. revert Hl. induction Hd as [|l n ls ns Hn Hd IH]; intros Hl Hnow; [done|].
  apply Forall_cons in Hl as [Hl Hls]. apply Forall2_cons in Hnow as [E Hnow].
  cbn [levels_valid]. rewrite E. cbn [mbind outcome_bind]. rewrite aget_flag by done.
  cbn [mbind outcome_bind]. unfold scheduled. cbn [zip zip_with forallb].
  destruct (flag s l n); [by apply IH|done].
Qed.

(** The loop looks at the values in cyclic order. *)
Lemma find_first_spec level now_ carry valid fuel i v :
  0 <= level <= 5 -> 0 < GetScheduleLength level -> 0 <= i -> 0 <= now_ + carry ->
  i + Z.of_nat fuel = GetScheduleLength level ->
  let at_ k := if valid : bool then (now_ + k + carry) mod GetScheduleLength level else k in
  i <= v < GetScheduleLength level -> flag s level (at_ v) = true ->
  exists k, i <= k <= v /\ flag s level (at_ k) = true /\
    (forall k', i <= k' < k -> flag s level (at_ k') = false) /\
    find_first s fuel (GetScheduleOffset level) (GetScheduleLength level) now_ carry valid i = Ret (Some (at_ k)).
Proof.
  intros Hl HL Hi Hc Hf at_. revert i Hi Hf. induction fuel as [|fuel IH]; intros i Hi Hf Hv Hfl; [lia|].
  cbn [find_first]. change (if valid then _ else i) with (at_ i).
  assert (0 <= at_ i < GetScheduleLength level).
  { unfold at_. destruct valid; [apply Z.mod_pos_bound; lia|lia]. }
  rewrite aget_flag by done. cbn [mbind outcome_bind]. destruct (flag s level (at_ i)) eqn:E.
  - exists i. repeat split; [lia..|done|intros; lia].
  - assert (v <> i) by congruence.
    destruct (IH (i + 1)) as (k & Hk & Hk1 & Hk2 & ->); [lia|lia|lia|done|].
    exists k. repeat split; [lia..|done|]. intros k' ?.
    destruct (decide (k' = i)) as [->|]; [done|]. apply Hk2. lia.
Qed.

Lemma mod_cases L x : 0 <= x < 2 * L -> x mod L = if x <? L then x else x - L.
Proof.
  intros Hx. destruct (Z.ltb_spec x L).
  - apply Z.mod_small. lia.
  - symmetry. apply (Z.mod_unique_pos _ L 1); lia.
Qed.

(** From now on, when the higher levels are right; [j < now_ + carry] when the
    level starts again. *)
Lemma find_first_valid level now_ carry v0 :
  0 <= level <= 5 -> 0 <= now_ < GetScheduleLength level -> 0 <= carry <= 1 ->
  0 <= v0 < GetScheduleLength level -> flag s level v0 = true ->
  exists j, find_first s (Z.to_nat (GetScheduleLength level)) (GetScheduleOffset level)
              (GetScheduleLength level) now_ carry true 0 = Ret (Some j) /\
    0 <= j < GetScheduleLength level /\ flag s level j = true /\
    forall v, 0 <= v < GetScheduleLength level -> flag s level v = true ->
      if j <? now_ + carry then v < now_ + carry /\ j <= v else now_ + carry <= v -> j <= v.
Proof.
  intros Hl Hn Hc Hv0 Hf0. set (L := GetScheduleLength level) in *.
  assert (Hat : forall v, 0 <= v < L -> exists k, 0 <= k < L /\ (now_ + k + carry) mod L = v /\
                 k = (if now_ + carry <=? v then v - now_ - carry else v + L - now_ - carry)).
  { intros v Hv. eexists. split; [|split; [|reflexivity]]; destruct (Z.leb_spec (now_ + carry) v); try lia.
    - rewrite Z.mod_small; lia.
    - symmetry. apply (Z.mod_unique_pos _ L 1); lia. }
  destruct (Hat v0 Hv0) as (k0 & Hk0 & Ek0 & _).
  destruct (find_first_spec level now_ carry true (Z.to_nat L) 0 k0) as (k & Hk & Hfk & Hmin & E);
    [done|lia|lia|lia|fold L; lia|fold L; lia|cbv beta iota; fold L; by rewrite Ek0|].
  fold L in Hfk, Hmin, E. cbv beta iota in Hfk, Hmin, E. exists ((now_ + k + carry) mod L).
  split; [exact E|]. split; [apply Z.mod_pos_bound; lia|]. split; [done|].
  intros v Hv Hfv. destruct (Hat v Hv) as (k' & Hk' & Ek' & Dk').
  assert (Hge : k <= k').
  { destruct (Z.le_gt_cases k k') as [|G]; [done|]. specialize (Hmin k' ltac:(lia)).
    rewrite Ek' in Hmin. congruence. }
  rewrite mod_cases by lia. destruct (Z.leb_spec (now_ + carry) v);
    destruct (Z.ltb_spec (now_ + k + carry) L);
    match goal with |- context [?x <? ?y] => destruct (Z.ltb_spec x y) end; lia.
Qed.

(** From the start, otherwise. *)
Lemma find_first_start level now_ carry v0 :
  0 <= level <= 5 -> 0 <= now_ + carry -> 0 <= v0 < GetScheduleLength level -> flag s level v0 = true ->
  exists j, find_first s (Z.to_nat (GetScheduleLength level)) (GetScheduleOffset level)
              (GetScheduleLength level) now_ carry false 0 = Ret (Some j) /\
    0 <= j < GetScheduleLength level /\ flag s level j = true /\
    forall v, 0 <= v < GetScheduleLength level -> flag s level v = true -> j <= v.
Proof.
  intros Hl Hn Hv0 Hf0.
  destruct (find_first_spec level now_ carry false (Z.to_nat (GetScheduleLength level)) 0 v0)
    as (k & Hk & Hfk & Hmin & E); [done|lia|lia|lia|lia|lia|done|].
  exists k. repeat split; [exact E|lia|lia|done|]. intros v Hv Hfv.
  destruct (Z.le_gt_cases k v) as [|G]; [done|]. specialize (Hmin v ltac:(lia)). cbv beta iota in Hmin. congruence.
Qed.

(** [xs] with the year [top] is the least number of scheduled digits that is
    not below [bound]. *)
Record least (levels : list Z) (bound : Z) (xs : list Z) (top : Z) : Prop := {
  least_digits : digits levels xs;
  least_scheduled : scheduled s levels xs = true;
  least_bound : bound <= number levels xs top;
  least_least : forall ys b, digits levels ys -> scheduled s levels ys = true ->
    bound <= number levels ys b -> number levels xs top <= number levels ys b;
}.

Lemma least_cons levels level bound bound' x xs top :
  0 <= x < GetScheduleLength level -> flag s level x = true -> least levels bound xs top ->
  bound' <= x + GetScheduleLength level * number levels xs top ->
  (forall v n, 0 <= v < GetScheduleLength level -> flag s level v = true ->
     bound' <= v + GetScheduleLength level * n -> bound <= n /\ (n = number levels xs top -> x <= v)) ->
  least (level :: levels) bound' (x :: xs) top.
Proof.
  intros Hx Hfx [Hd Hs Hb Hl] Hb' Hbb. split.
  - by constructor.
  - unfold scheduled. cbn [zip zip_with forallb]. by rewrite Hfx.
  - done.
  - intros ys b Hys Hsys Hle. apply Forall2_cons_inv_l in Hys as (v & vs & Hv & Hvs & ->).
    unfold scheduled in Hsys. cbn [zip zip_with forallb] in Hsys. apply andb_true_iff in Hsys as [Hfv Hsv].
    cbn [number] in *. destruct (Hbb v _ Hv Hfv Hle) as [Hle' Heq]. specialize (Hl vs b Hvs Hsv Hle'). nia.
Qed.

Definition level_ok (level : Z) : Prop :=
  0 <= level <= 5 /\ exists v, 0 <= v < GetScheduleLength level /\ flag s level v = true.

Lemma find_levels_spec now_ levels ns c :
  Forall level_ok levels -> digits levels ns ->
  Forall2 (fun l n => aget now_ l = Ret n) levels ns ->
  (c = 0 \/ c = 1 /\ scheduled s levels ns = true) ->
  exists xs top, find_levels s now_ levels c = Ret (Some <$> xs, top) /\ least levels (number levels ns 0 + c) xs top.
Proof.
  intros Hok Hd. revert Hok c. induction Hd as [|level n levels ns Hn Hd IH]; intros Hok c Hnow Hc.
  { exists [], c. split; [done|]. split; [by constructor|done|done|]. intros ys b Hys _ Hb.
    apply Forall2_nil_inv_l in Hys as ->. done. }
  apply Forall_cons in Hok as [[Hl (v0 & Hv0 & Hf0)] Hok]. apply Forall2_cons in Hnow as [En Hnow].
  cbn [find_levels]. rewrite (levels_valid_spec _ _ ns) by (try done; by apply (Forall_impl _ _ _ Hok); intros ? [? _]).
  cbn [mbind outcome_bind]. rewrite En. cbn [mbind outcome_bind].
  unfold scheduled in Hc. cbn [zip zip_with forallb] in Hc. fold (scheduled s levels ns) in Hc.
  destruct (scheduled s levels ns) eqn:V.
  - destruct (find_first_valid level n c v0) as (j & -> & Hj & Hfj & Hmin); [done|done|lia|done|done|].
    cbn [mbind outcome_bind andb]. destruct (j <? n + c) eqn:W.
    + destruct (IH Hok 1 Hnow (or_intror (conj eq_refl eq_refl))) as (xs & top & -> & HL).
      exists (j :: xs), top. split; [done|]. pose proof (least_bound _ _ _ _ HL).
      apply (least_cons _ _ (number levels ns 0 + 1)); [done|done|done|cbn [number]; nia|].
      intros v k Hv Hfv Hle. destruct (Hmin v Hv Hfv). cbn [number] in Hle. split; [nia|lia].
    + destruct (IH Hok 0 Hnow (or_introl eq_refl)) as (xs & top & -> & HL).
      exists (j :: xs), top. split; [done|]. pose proof (least_bound _ _ _ _ HL).
      pose proof (least_least _ _ _ _ HL ns 0 Hd V ltac:(lia)). apply Z.ltb_ge in W.
      apply (least_cons _ _ (number levels ns 0 + 0)); [done|done|done|cbn [number]; nia|].
      intros v k Hv Hfv Hle. cbn [number] in Hle. split; [nia|]. intros ->. apply (Hmin v Hv Hfv). nia.
  - assert (c = 0) as -> by (destruct Hc as [?|[_ ?]]; [done|]; rewrite andb_false_r in *; done).
    destruct (find_first_start level n 0 v0) as (j & -> & Hj & Hfj & Hmin); [done|lia|done|done|].
    cbn [mbind outcome_bind andb].
    destruct (IH Hok 0 Hnow (or_introl eq_refl)) as (xs & top & -> & HL).
    exists (j :: xs), top. split; [done|]. pose proof (least_bound _ _ _ _ HL).
    assert (number levels xs top <> number levels ns 0).
    { intros E%number_inj; [|apply HL|done]. destruct E as [-> _].
      pose proof (least_scheduled _ _ _ _ HL). congruence. }
    apply (least_cons _ _ (number levels ns 0 + 0)); [done|done|done|cbn [number]; nia|].
    intros v k Hv Hfv Hle. cbn [number] in Hle. split; [nia|]. intros _. auto.
Qed.
End find.

(** * Times and their digits *)

Definition time_levels_list : list Z :=
  [SCHEDULE_LEVEL_SEC; SCHEDULE_LEVEL_MIN; SCHEDULE_LEVEL_HOUR; SCHEDULE_LEVEL_DAY; SCHEDULE_LEVEL_MONTH].

Definition pack (sec mi h d mo y : Z) : Z :=
  sec + 60 * (mi + 60 * (h + 24 * (d + 31 * (mo + 12 * y)))).

Record in_range (sec mi h d mo : Z) : Prop := {
  r_sec : 0 <= sec < 60;
  r_min : 0 <= mi < 60;
  r_hour : 0 <= h < 24;
  r_day : 0 <= d < 31;
  r_month : 0 <= mo < 12;
}.

Definition flags (s : list bool) (sec mi h d mo : Z) : bool :=
  flag s 0 sec && flag s 1 mi && flag s 2 h && flag s 3 d && flag s 4 mo.

Definition seconds (sec mi h d mo y : Z) : Z :=
  date_number y mo d * 86400 + h * 3600 + mi * 60 + sec.

Lemma timegm_seconds sec mi h d mo y wd dst :
  0 <= mo < 12 -> timegm (mk_tm sec mi h (d + 1) mo y wd dst) = seconds sec mi h d mo (y + 1900).
Proof.
  intros Hm. unfold timegm, seconds. cbn [tm_sec tm_min tm_hour tm_mday tm_mon tm_year].
  rewrite (Z.div_small mo 12), (Z.mod_small mo 12) by lia. replace (d + 1 - 1) with d by lia. by rewrite Z.add_0_r.
Qed.

Lemma ok_in_range x : tm_ok x -> in_range (tm_sec x) (tm_min x) (tm_hour x) (tm_mday x - 1) (tm_mon x).
Proof.
  intros [H1 H2 H3 [Hm Hd] _]. pose proof (month_length_bounds (tm_year x + 1900) _ Hm). split; lia.
Qed.

Lemma ok_seconds x : tm_ok x ->
  timegm x = seconds (tm_sec x) (tm_min x) (tm_hour x) (tm_mday x - 1) (tm_mon x) (tm_year x + 1900).
Proof.
  intros [_ _ _ [Hm _] _]. rewrite <- (timegm_seconds _ _ _ _ _ _ (tm_wday x) (tm_isdst x) Hm).
  replace (tm_mday x - 1 + 1) with (tm_mday x) by lia. by destruct x.
Qed.

(** Times are ordered like their digits when the earlier one exists. *)
Lemma pack_seconds sec mi h d mo y sec' mi' h' d' mo' y' :
  in_range sec mi h d mo -> valid_date y mo d -> in_range sec' mi' h' d' mo' ->
  pack sec mi h d mo y <= pack sec' mi' h' d' mo' y' ->
  seconds sec mi h d mo y <= seconds sec' mi' h' d' mo' y'.
Proof.
  intros [] Hv [] Hp. unfold pack in Hp. unfold seconds.
  assert (date_lt y mo d y' mo' d' \/ (y = y' /\ mo = mo' /\ d = d')) as [Hlt|(-> & -> & ->)]
    by (unfold date_lt; lia).
  - apply date_number_lt in Hlt; [lia|done|lia|lia].
  - lia.
Qed.

Lemma seconds_pack sec mi h d mo y sec' mi' h' d' mo' y' :
  in_range sec mi h d mo -> in_range sec' mi' h' d' mo' -> valid_date y' mo' d' ->
  seconds sec mi h d mo y <= seconds sec' mi' h' d' mo' y' ->
  pack sec mi h d mo y <= pack sec' mi' h' d' mo' y'.
Proof.
  intros Hr Hr' Hv Hs. destruct (Z.le_gt_cases (pack sec mi h d mo y) (pack sec' mi' h' d' mo' y')) as [|G]; [done|].
  destruct Hr, Hr'. unfold pack in *. unfold seconds in Hs.
  assert (date_lt y' mo' d' y mo d \/ (y = y' /\ mo = mo' /\ d = d')) as [Hlt|(-> & -> & ->)]
    by (unfold date_lt; lia).
  - apply date_number_lt in Hlt; [lia|done|lia|lia].
  - lia.
Qed.

(** * The first candidate *)

Lemma number_pack sec mi h d mo top :
  number [SCHEDULE_LEVEL_SEC; SCHEDULE_LEVEL_MIN; SCHEDULE_LEVEL_HOUR; SCHEDULE_LEVEL_DAY; SCHEDULE_LEVEL_MONTH]
    [sec; mi; h; d; mo] top = pack sec mi h d mo top.
Proof. reflexivity. Qed.

Section candidate.
Context (s : list bool) (Hwf : well_formed s).

Lemma wf_level_ok l : 0 <= l <= 5 -> level_ok s l.
Proof. intros H. split; [done|]. by apply (wf_level _ Hwf). Qed.

Lemma first_candidate x : tm_ok x ->
  exists sec mi h d mo top,
    find_levels s (time_levels x) time_levels_list 0 = Ret ([Some sec; Some mi; Some h; Some d; Some mo], top) /\
    in_range sec mi h d mo /\ flags s sec mi h d mo = true /\
    let bound := pack (tm_sec x) (tm_min x) (tm_hour x) (tm_mday x - 1) (tm_mon x) (tm_year x) in
    bound <= pack sec mi h d mo (tm_year x + top) /\
    forall sec' mi' h' d' mo' y', in_range sec' mi' h' d' mo' -> flags s sec' mi' h' d' mo' = true ->
      bound <= pack sec' mi' h' d' mo' y' ->
      pack sec mi h d mo (tm_year x + top) <= pack sec' mi' h' d' mo' y'.
Proof.
  intros Hx. pose proof (ok_in_range x Hx) as [].
  destruct (find_levels_spec s (wf_length _ Hwf) (time_levels x) time_levels_list (time_levels x) 0)
    as (xs & top & E & [Hd Hs Hb Hl]).
  - repeat constructor; apply wf_level_ok; cbv; split; discriminate.
  - do 5 (apply Forall2_cons_2; [assumption|]). apply Forall2_nil_2.
  - do 5 (apply Forall2_cons_2; [reflexivity|]). apply Forall2_nil_2.
  - by left.
  - unfold time_levels_list in *. apply Forall2_cons_inv_l in Hd as (sec & ? & ? & Hd & ->).
    apply Forall2_cons_inv_l in Hd as (mi & ? & ? & Hd & ->).
    apply Forall2_cons_inv_l in Hd as (h & ? & ? & Hd & ->).
    apply Forall2_cons_inv_l in Hd as (d & ? & ? & Hd & ->).
    apply Forall2_cons_inv_l in Hd as (mo & ? & ? & Hd & ->).
    apply Forall2_nil_inv_l in Hd as ->. exists sec, mi, h, d, mo, top. split; [exact E|].
    split; [split; assumption|]. unfold scheduled in Hs. cbn [zip zip_with forallb] in Hs.
    split; [unfold flags; rewrite !andb_true_iff in *; tauto|]. cbn zeta.
    unfold time_levels in Hb, Hl. setoid_rewrite number_pack in Hl. rewrite !number_pack in Hb.
    split; [unfold pack in *; lia|]. intros sec' mi' h' d' mo' y' [] Hf Hle.
    assert (H' : pack sec mi h d mo top <= pack sec' mi' h' d' mo' (y' - tm_year x)); [|unfold pack in *; lia].
    apply (Hl [sec'; mi'; h'; d'; mo']).
    + do 5 (apply Forall2_cons_2; [assumption|]). apply Forall2_nil_2.
    + unfold scheduled. cbn [zip zip_with forallb]. unfold flags in Hf. rewrite !andb_true_iff in *. tauto.
    + rewrite number_pack. unfold pack in *. lia.
Qed.
End candidate.

(** * One round of the search *)

Section round.
Context (s : list bool) (Hwf : well_formed s) (off : Z).

Abbreviation next := (@get_next_time (fixed_zone off) s).
Abbreviation local t := (gmtime (t + off)).

Lemma valid_date_dec y m d : 0 <= m < 12 -> 0 <= d -> valid_date y m d \/ month_length y m <= d.
Proof. intros. unfold valid_date. lia. Qed.

(** The month after, for a date that does not exist. *)
Definition next_month (y m : Z) : Z * Z := if m =? 11 then (y + 1, 0) else (y, m + 1).

Lemma overflow_date y m d : 0 <= m < 12 -> month_length y m <= d -> d < 31 ->
  let '(y', m') := next_month y m in
  date_number y m d = date_number y' m' (d - month_length y m) /\ valid_date y' m' (d - month_length y m) /\ m' <> m.
Proof.
  intros Hm Hd Hd'. pose proof (date_number_carry y m (d - month_length y m) Hm) as E.
  replace (month_length y m + (d - month_length y m)) with d in E by lia.
  pose proof (month_length_bounds y m Hm). unfold next_month. destruct (Z.eqb_spec m 11) as [->|Hne].
  - pose proof (month_length_bounds (y + 1) 0 ltac:(lia)). unfold valid_date. repeat split; try lia; done.
  - pose proof (month_length_bounds y (m + 1) ltac:(lia)). unfold valid_date. repeat split; try lia; done.
Qed.

(** What a round computes from its candidate. *)
Definition round (f : nat) (sec mi h d mo y : Z) : outcome Z :=
  if d <? month_length y mo then
    if flag s SCHEDULE_LEVEL_WDAY (weekday (date_number y mo d)) then Ret (seconds sec mi h d mo y - off)
    else next f (seconds sec 0 0 (d + 1) mo y - off)
  else next f (seconds sec mi h d mo y - off).

Lemma get_next_time_round f now sec mi h d mo top :
  find_levels s (time_levels (local now)) time_levels_list 0
    = Ret ([Some sec; Some mi; Some h; Some d; Some mo], top) ->
  in_range sec mi h d mo ->
  next (S f) now = round f sec mi h d mo (tm_year (local now) + top + 1900).
Proof.
  intros E Hr. pose proof Hr as []. cbn [get_next_time]. change (localtime_r now) with (local now).
  fold time_levels_list. rewrite E. cbn [mbind outcome_bind]. unfold round.
  set (y := tm_year (local now) + top). cbn [mktime fixed_zone].
  rewrite timegm_seconds by done.
  destruct (Z.ltb_spec d (month_length (y + 1900) mo)) as [Hd|Hd].
  - assert (Hv : valid_date (y + 1900) mo (d + 1 - 1)) by (replace (d + 1 - 1) with d by lia; split; lia).
    rewrite <- (timegm_seconds _ _ _ _ _ _ 0 (-1)) by done. rewrite gmtime_timegm by done.
    cbn [tm_sec tm_min tm_hour tm_mday tm_mon tm_year tm_wday]. rewrite !Z.eqb_refl. cbn [negb orb].
    replace (d + 1 - 1) with d by lia.
    rewrite aget_flag; [|apply Hwf|done|exact (Z.mod_pos_bound _ 7 eq_refl)]. cbn [mbind outcome_bind].
    destruct (flag _ _ _); [done|]. by rewrite !timegm_seconds.
  - assert (negb (tm_mday (gmtime (seconds sec mi h d mo (y + 1900))) =? d + 1)
            || negb (tm_mon (gmtime (seconds sec mi h d mo (y + 1900))) =? mo) = true) as ->; [|done].
    apply orb_true_iff. right. pose proof (overflow_date (y + 1900) mo d r_month0 Hd ltac:(lia)) as Ho.
    destruct (next_month (y + 1900) mo) as [y' m']. destruct Ho as (En & Hv & Hne).
    unfold seconds. rewrite En. pose proof (timegm_seconds sec mi h (d - month_length (y + 1900) mo) m' (y' - 1900) 0 0 ltac:(apply Hv)) as Et.
    unfold seconds in Et. replace (y' - 1900 + 1900) with y' in Et by lia. rewrite <- Et.
    rewrite gmtime_timegm; [|done..|].
    + cbn [tm_mon]. apply negb_true_iff. by apply Z.eqb_neq.
    + replace (y' - 1900 + 1900) with y' by lia. by replace (d - month_length (y + 1900) mo + 1 - 1) with (d - month_length (y + 1900) mo) by lia.
Qed.

Lemma local_ok t : tm_ok (local t).
Proof. apply gmtime_ok. Qed.

Lemma local_seconds t : let x := local t in
  t + off = seconds (tm_sec x) (tm_min x) (tm_hour x) (tm_mday x - 1) (tm_mon x) (tm_year x + 1900).
Proof. cbn zeta. rewrite <- ok_seconds by apply local_ok. symmetry. apply gmtime_ok. Qed.

Lemma matches_flags x : matches_tm s x = true <->
  flags s (tm_sec x) (tm_min x) (tm_hour x) (tm_mday x - 1) (tm_mon x) = true /\
  flag s SCHEDULE_LEVEL_WDAY (tm_wday x) = true.
Proof. unfold matches_tm, flags. rewrite !andb_true_iff. tauto. Qed.

Definition matching (t : Z) : Prop := matches_tm s (local t) = true.

(** The candidate of a round, with the year as it is written. *)
Record candidate (now sec mi h d mo y : Z) : Prop := {
  c_range : in_range sec mi h d mo;
  c_flags : flags s sec mi h d mo = true;
  c_round : forall f, next (S f) now = round f sec mi h d mo y;
  c_pack : let x := local now in
    pack (tm_sec x) (tm_min x) (tm_hour x) (tm_mday x - 1) (tm_mon x) (tm_year x + 1900) <= pack sec mi h d mo y;
  c_least : forall t, matching t -> now <= t ->
    let x := local t in
    pack sec mi h d mo y <=
      pack (tm_sec x) (tm_min x) (tm_hour x) (tm_mday x - 1) (tm_mon x) (tm_year x + 1900);
  c_time : forall sec' mi' h', in_range sec' mi' h' d mo -> flags s sec' mi' h' d mo = true ->
    let x := local now in
    (tm_year x + 1900, tm_mon x, tm_mday x - 1) <> (y, mo, d) ->
    sec + 60 * (mi + 60 * h) <= sec' + 60 * (mi' + 60 * h');
}.

Lemma candidate_exists now : exists sec mi h d mo y, candidate now sec mi h d mo y.
Proof.
  pose proof (local_ok now) as Hok. pose proof (ok_in_range _ Hok) as Hr.
  destruct (first_candidate s Hwf (local now) Hok) as (sec & mi & h & d & mo & top & E & Hr' & Hf & Hb & Hl).
  exists sec, mi, h, d, mo, (tm_year (local now) + top + 1900). split; [done|done|..].
  - intros f. by apply get_next_time_round.
  - cbn zeta. unfold pack in *. lia.
  - intros t [Hft _]%matches_flags Ht. cbn zeta.
    assert (Hp : pack sec mi h d mo (tm_year (local now) + top) <=
      pack (tm_sec (local t)) (tm_min (local t)) (tm_hour (local t)) (tm_mday (local t) - 1)
        (tm_mon (local t)) (tm_year (local t))); [|unfold pack in *; lia].
    apply Hl; [apply ok_in_range, local_ok|done|].
    pose proof (local_seconds t) as Et. pose proof (local_seconds now) as En. cbn zeta in Et, En.
    assert (Hp : now + off <= t + off) by lia. rewrite Et in Hp at 1. rewrite En in Hp at 1.
    apply seconds_pack in Hp; [unfold pack in *; lia|done|apply ok_in_range, local_ok|apply local_ok].
  - intros sec' mi' h' Hr'' Hf'' x Hne. subst x.
    assert (Hp : pack sec mi h d mo (tm_year (local now) + top) <= pack sec' mi' h' d mo (tm_year (local now) + top));
      [|unfold pack in *; lia].
    apply Hl; [done|done|]. destruct Hr, Hr', Hr''.
    assert (~ (tm_year (local now) = tm_year (local now) + top /\ tm_mon (local now) = mo /\ tm_mday (local now) - 1 = d)).
    { intros (E1 & E2 & E3). apply Hne. rewrite E2, E3. f_equal. f_equal. lia. }
    clear Hne Hl Hf Hf'' E Hok Hf. unfold pack in *. lia.
Qed.

Definition day (t : Z) : Z := (t + off) / 86400.

Lemma seconds_day sec mi h d mo y :
  0 <= sec < 60 -> 0 <= mi < 60 -> 0 <= h < 24 -> seconds sec mi h d mo y / 86400 = date_number y mo d.
Proof. intros H1 H2 H3. by destruct (time_of_parts (date_number y mo d) h mi sec H3 H2 H1). Qed.

Lemma local_of_seconds sec mi h d mo y :
  in_range sec mi h d mo -> valid_date y mo d ->
  local (seconds sec mi h d mo y - off) =
    mk_tm sec mi h (d + 1) mo (y - 1900) (weekday (date_number y mo d)) 0.
Proof.
  intros [] Hv. replace (seconds sec mi h d mo y - off + off) with (seconds sec mi h d mo y) by lia.
  pose proof (timegm_seconds sec mi h d mo (y - 1900) 0 0 r_month0) as E.
  replace (y - 1900 + 1900) with y in E by lia. rewrite <- E.
  rewrite gmtime_timegm; replace (y - 1900 + 1900) with y by lia; replace (d + 1 - 1) with d by lia; done.
Qed.

Lemma local_day t : let x := local t in
  day t = date_number (tm_year x + 1900) (tm_mon x) (tm_mday x - 1) /\ tm_wday x = weekday (day t).
Proof.
  cbn zeta. pose proof (local_ok t) as H. pose proof (ok_in_range _ H) as [].
  assert (E : day t = date_number (tm_year (local t) + 1900) (tm_mon (local t)) (tm_mday (local t) - 1)).
  { unfold day. rewrite (local_seconds t) at 1. by apply seconds_day. }
  split; [done|]. rewrite E. apply H.
Qed.

Lemma local_time t : let x := local t in
  t + off = day t * 86400 + tm_hour x * 3600 + tm_min x * 60 + tm_sec x.
Proof.
  cbn zeta. destruct (local_day t) as [-> _]. rewrite (local_seconds t) at 1. unfold seconds. reflexivity.
Qed.

Lemma candidate_now now sec mi h d mo y :
  candidate now sec mi h d mo y -> now + off <= seconds sec mi h d mo y.
Proof.
  intros C. rewrite (local_seconds now) at 1. apply pack_seconds; [|apply local_ok|apply C|apply C].
  apply ok_in_range, local_ok.
Qed.

Lemma candidate_least now sec mi h d mo y t :
  candidate now sec mi h d mo y -> valid_date y mo d -> matching t -> now <= t ->
  seconds sec mi h d mo y <= t + off.
Proof.
  intros C Hv Ht Hle. rewrite (local_seconds t) at 1.
  apply pack_seconds; [apply C|done|apply ok_in_range, local_ok|]. by apply (c_least _ _ _ _ _ _ _ C).
Qed.

Definition answers (now t : Z) : Prop :=
  (forall f, next (S f) now = Ret t) /\ now <= t /\ matching t /\ forall t', matching t' -> now <= t' -> t <= t'.

Lemma round_found now sec mi h d mo y :
  candidate now sec mi h d mo y -> valid_date y mo d ->
  flag s SCHEDULE_LEVEL_WDAY (weekday (date_number y mo d)) = true ->
  answers now (seconds sec mi h d mo y - off).
Proof.
  intros C Hv Hw. split; [|split; [|split]].
  - intros f. rewrite (c_round _ _ _ _ _ _ _ C). unfold round.
    rewrite (proj2 (Z.ltb_lt d _)) by apply Hv. by rewrite Hw.
  - pose proof (candidate_now _ _ _ _ _ _ _ C). lia.
  - unfold matching. rewrite local_of_seconds by (done || apply C). apply matches_flags.
    cbn [tm_sec tm_min tm_hour tm_mday tm_mon tm_wday]. replace (d + 1 - 1) with d by lia. split; [apply C|done].
  - intros t' Ht' Hle. pose proof (candidate_least _ _ _ _ _ _ _ _ C Hv Ht' Hle). lia.
Qed.

(** The search goes on from [now'], which is on a later day; what was to be
    found is still there, unless it is skipped. *)
Record continues (now now' : Z) : Prop := {
  k_next : forall f, next (S f) now = next f now';
  k_day : day now < day now';
  k_now : now <= now';
  k_kept : forall t, matching t -> now <= t -> ~ skipped s (local t) ->
    exists t', matching t' /\ ~ skipped s (local t') /\ now' <= t' /\ day t' = day t;
  k_least : forall t, matching t -> now <= t -> ~ skipped s (local t) ->
    every_weekday s \/ single_second s -> now' <= t;
}.

(** A wrong weekday: every time to be found is on a later day. *)
Lemma weekday_later now sec mi h d mo y t :
  candidate now sec mi h d mo y -> valid_date y mo d ->
  flag s SCHEDULE_LEVEL_WDAY (weekday (date_number y mo d)) = false ->
  matching t -> now <= t -> date_number y mo d < day t.
Proof.
  intros C Hv Hw Ht Hle. pose proof (candidate_least _ _ _ _ _ _ _ _ C Hv Ht Hle) as Hs.
  pose proof (c_range _ _ _ _ _ _ _ C) as [].
  apply (Z.div_le_mono _ _ 86400) in Hs; [|lia]. rewrite seconds_day in Hs by lia.
  assert (day t <> date_number y mo d); [|unfold day in *; lia]. intros E.
  apply matches_flags in Ht as [_ Ht]. destruct (local_day t) as [_ Ew]. rewrite Ew, E, Hw in Ht. done.
Qed.

(** The same day with another second. *)
Definition at_second (sec t : Z) : Z :=
  let x := local t in
  seconds sec (tm_min x) (tm_hour x) (tm_mday x - 1) (tm_mon x) (tm_year x + 1900) - off.

Lemma at_second_spec sec t :
  0 <= sec < 60 -> flag s SCHEDULE_LEVEL_SEC sec = true -> matching t ->
  matching (at_second sec t) /\ day (at_second sec t) = day t /\
  tm_mon (local (at_second sec t)) = tm_mon (local t) /\ tm_mday (local (at_second sec t)) = tm_mday (local t) /\
  day t * 86400 + sec <= at_second sec t + off.
Proof.
  intros Hsec Hf Ht. pose proof (local_ok t) as Hok. destruct (ok_in_range _ Hok).
  destruct (local_day t) as [Et Ew]. apply matches_flags in Ht as [Hft Hfw].
  assert (El : local (at_second sec t) =
    mk_tm sec (tm_min (local t)) (tm_hour (local t)) (tm_mday (local t)) (tm_mon (local t)) (tm_year (local t))
      (tm_wday (local t)) 0).
  { unfold at_second. cbn zeta. rewrite local_of_seconds by (done || apply Hok). rewrite Ew, Et. f_equal; lia. }
  unfold matching. rewrite El, matches_flags. cbn [tm_sec tm_min tm_hour tm_mday tm_mon tm_wday].
  split; [split; [|done]|split; [|split; [done|split; [done|]]]].
  - unfold flags in *. rewrite !andb_true_iff in *. tauto.
  - destruct (local_day (at_second sec t)) as [Es _]. rewrite Es, El, Et. done.
  - unfold at_second, seconds. cbn zeta. rewrite <- Et. lia.
Qed.

Lemma next_day_day sec mo y d :
  0 <= sec < 60 -> day (seconds sec 0 0 (d + 1) mo y - off) = date_number y mo d + 1 /\
    seconds sec 0 0 (d + 1) mo y = (date_number y mo d + 1) * 86400 + sec.
Proof.
  intros H. unfold day. replace (seconds sec 0 0 (d + 1) mo y - off + off) with (seconds sec 0 0 (d + 1) mo y) by lia.
  rewrite seconds_day by lia. unfold seconds, date_number. lia.
Qed.

Lemma candidate_day now sec mi h d mo y : candidate now sec mi h d mo y -> day now <= date_number y mo d.
Proof.
  intros C. pose proof (c_range _ _ _ _ _ _ _ C) as []. rewrite <- (seconds_day sec mi h d mo y) by lia.
  apply Z.div_le_mono; [lia|]. by apply candidate_now.
Qed.

Lemma skipped_date x y : tm_mon x = tm_mon y -> tm_mday x = tm_mday y -> skipped s x -> skipped s y.
Proof. unfold skipped. intros -> ->. done. Qed.

Lemma round_weekday now sec mi h d mo y :
  candidate now sec mi h d mo y -> valid_date y mo d ->
  flag s SCHEDULE_LEVEL_WDAY (weekday (date_number y mo d)) = false ->
  continues now (seconds sec 0 0 (d + 1) mo y - off).
Proof.
  intros C Hv Hw. pose proof (c_range _ _ _ _ _ _ _ C) as [Hsec _ _ _ _].
  destruct (next_day_day sec mo y d Hsec) as [Ed Es]. pose proof (candidate_day _ _ _ _ _ _ _ C) as Hd.
  pose proof (c_flags _ _ _ _ _ _ _ C) as Hc. unfold flags in Hc. rewrite !andb_true_iff in Hc.
  assert (Hin : now <= seconds sec 0 0 (d + 1) mo y - off).
  { rewrite Es. unfold day in Hd. pose proof (Z.div_mod (now + off) 86400). 
    pose proof (Z.mod_pos_bound (now + off) 86400). lia. }
  split.
  - intros f. rewrite (c_round _ _ _ _ _ _ _ C). unfold round.
    rewrite (proj2 (Z.ltb_lt d _)) by apply Hv. by rewrite Hw.
  - lia.
  - done.
  - intros t Ht Hle Hns. pose proof (weekday_later _ _ _ _ _ _ _ _ C Hv Hw Ht Hle).
    destruct (at_second_spec sec t Hsec ltac:(tauto) Ht) as (H1 & H2 & H3 & H4 & H5).
    exists (at_second sec t). split; [done|]. split; [|split; [|done]].
    + intros Hsk. by apply Hns, (skipped_date _ _ H3 H4).
    + rewrite Es. lia.
  - intros t Ht Hle _ [He|Hs].
    + rewrite He in Hw; [done|]. by apply (Z.mod_pos_bound _ 7).
    + pose proof (weekday_later _ _ _ _ _ _ _ _ C Hv Hw Ht Hle). apply matches_flags in Ht as [Hf _].
      pose proof (ok_in_range _ (local_ok t)) as []. unfold flags in Hf. rewrite !andb_true_iff in Hf.
      assert (sec = tm_sec (local t)) as E by (apply Hs; tauto).
      pose proof (local_time t). cbn zeta in *. rewrite Es. lia.
Qed.

(** A candidate on a day that does not exist: the search goes on from the day
    that [mktime] makes of it. *)
Lemma invalid_today now sec mi h d mo y :
  candidate now sec mi h d mo y -> month_length y mo <= d ->
  let x := local now in
  (tm_year x + 1900, tm_mon x, tm_mday x - 1) <> (y, mo, d) /\ day now < date_number y mo d.
Proof.
  intros C Hd. pose proof (c_pack _ _ _ _ _ _ _ C) as Hp. pose proof (c_range _ _ _ _ _ _ _ C) as [].
  pose proof (local_ok now) as Hok. pose proof (ok_in_range _ Hok) as []. pose proof (ok_date _ Hok) as Hv.
  destruct (local_day now) as [-> _]. cbn zeta in *.
  assert (Hne : (tm_year (local now) + 1900, tm_mon (local now), tm_mday (local now) - 1) <> (y, mo, d)).
  { intros E. injection E as E1 E2 E3. rewrite E1, E2, E3 in Hv. destruct Hv. lia. }
  split; [done|]. apply date_number_lt; [done|done|lia|].
  assert (~ (tm_year (local now) + 1900 = y /\ tm_mon (local now) = mo /\ tm_mday (local now) - 1 = d))
    by (intros (E1 & E2 & E3); apply Hne; by rewrite E1, E2, E3).
  unfold pack in Hp. unfold date_lt. lia.
Qed.

Lemma invalid_later now sec mi h d mo y t :
  candidate now sec mi h d mo y -> month_length y mo <= d -> matching t -> now <= t ->
  ~ skipped s (local t) -> date_number y mo d <= day t.
Proof.
  intros C Hd Ht Hle Hns. pose proof (c_least _ _ _ _ _ _ _ C t Ht Hle) as Hp.
  pose proof (c_range _ _ _ _ _ _ _ C) as []. pose proof (local_ok t) as Hok.
  pose proof (ok_in_range _ Hok) as []. pose proof (ok_date _ Hok) as Hv. cbn zeta in *.
  pose proof (c_flags _ _ _ _ _ _ _ C) as Hc. unfold flags in Hc. rewrite !andb_true_iff in Hc.
  destruct (local_day t) as [-> _]. unfold skipped in Hns.
  pose proof (overflow_date y mo d r_month0 Hd ltac:(lia)) as Ho.
  destruct (next_month y mo) as [y2 m2] eqn:En. destruct Ho as (-> & Hv2 & _).
  destruct (Z.le_gt_cases (date_number y2 m2 (d - month_length y mo))
    (date_number (tm_year (local t) + 1900) (tm_mon (local t)) (tm_mday (local t) - 1))) as [|G]; [done|].
  exfalso. apply Hns.
  set (x := local t) in *. set (y' := tm_year x + 1900) in *.
  assert (Hlt : date_lt y' (tm_mon x) (tm_mday x - 1) y2 m2 (d - month_length y mo)).
  { assert (~ date_lt y2 m2 (d - month_length y mo) y' (tm_mon x) (tm_mday x - 1)).
    { intros H. apply date_number_lt in H; [lia|done|lia|lia]. }
    assert (~ (y' = y2 /\ tm_mon x = m2 /\ tm_mday x - 1 = d - month_length y mo))
      by (intros (E1 & E2 & E3); rewrite E1, E2, E3 in G; lia).
    unfold date_lt in *. lia. }
  assert (Hm : y < y' \/ y = y' /\ mo < tm_mon x).
  { unfold pack in Hp. destruct Hv as [_ Hv].
    assert (~ (y = y' /\ mo = tm_mon x)) by (intros [-> E]; rewrite <- E in Hv; lia). lia. }
  assert (E : y' = y2 /\ tm_mon x = m2 /\ tm_mday x - 1 < d - month_length y mo).
  { unfold next_month in En. destruct (Z.eqb_spec mo 11); simplify_eq; unfold date_lt in Hlt; lia. }
  assert (mo = 1) as ->.
  { destruct (Z.eq_dec mo 1) as [|Hne]; [done|].
    assert (30 <= month_length y mo); [|lia]. pose proof (month_cases mo r_month0) as Hc'. clear - Hc' Hne.
    unfold month_length. destruct (leap y); repeat destruct Hc' as [->|Hc']; try subst mo; simpl; lia. }
  pose proof (month_length_bounds y 1 ltac:(lia)).
  unfold next_month in En. cbn in En. simplify_eq. split; [lia|]. split; [lia|]. split; [tauto|].
  exists d. split; [lia|tauto].
Qed.

Lemma round_invalid now sec mi h d mo y :
  candidate now sec mi h d mo y -> month_length y mo <= d -> continues now (seconds sec mi h d mo y - off).
Proof.
  intros C Hd. destruct (invalid_today _ _ _ _ _ _ _ C Hd) as [Hne Hday].
  pose proof (c_range _ _ _ _ _ _ _ C) as []. pose proof (candidate_now _ _ _ _ _ _ _ C) as Hnow.
  assert (Ed : day (seconds sec mi h d mo y - off) = date_number y mo d).
  { unfold day. replace (seconds sec mi h d mo y - off + off) with (seconds sec mi h d mo y) by lia.
    by apply seconds_day. }
  assert (Hkeep : forall t, matching t -> now <= t -> ~ skipped s (local t) -> seconds sec mi h d mo y - off <= t).
  { intros t Ht Hle Hns. pose proof (invalid_later _ _ _ _ _ _ _ _ C Hd Ht Hle Hns) as Hl.
    pose proof (ok_in_range _ (local_ok t)) as []. apply matches_flags in Ht as [Hf _].
    pose proof (c_flags _ _ _ _ _ _ _ C) as Hc. unfold flags in Hf, Hc. rewrite !andb_true_iff in Hf, Hc.
    pose proof (c_time _ _ _ _ _ _ _ C (tm_sec (local t)) (tm_min (local t)) (tm_hour (local t))) as Htime.
    assert (sec + 60 * (mi + 60 * h) <= tm_sec (local t) + 60 * (tm_min (local t) + 60 * tm_hour (local t))).
    { apply Htime; [done| |done]. unfold flags. rewrite !andb_true_iff. tauto. }
    pose proof (local_time t). cbn zeta in *. unfold seconds. lia. }
  split; [|lia|lia| |].
  - intros f. rewrite (c_round _ _ _ _ _ _ _ C). unfold round. by rewrite (proj2 (Z.ltb_ge d _)).
  - intros t Ht Hle Hns. exists t. auto.
  - intros t Ht Hle Hns _. auto.
Qed.

Lemma round_cases now : (exists t, answers now t) \/ (exists now', continues now now').
Proof.
  destruct (candidate_exists now) as (sec & mi & h & d & mo & y & C).
  pose proof (c_range _ _ _ _ _ _ _ C) as [].
  destruct (valid_date_dec y mo d) as [Hv|Hv]; [lia|lia| |].
  - destruct (flag s SCHEDULE_LEVEL_WDAY (weekday (date_number y mo d))) eqn:Hw.
    + left. eexists. by apply (round_found _ _ _ _ _ _ _ C).
    + right. eexists. by apply (round_weekday _ _ _ _ _ _ _ C).
  - right. eexists. by apply (round_invalid _ _ _ _ _ _ _ C).
Qed.

(** * The whole search *)

Lemma search_sound f now t : next f now = Ret t ->
  now <= t /\ matching t /\
  (every_weekday s \/ single_second s ->
   forall t', matching t' -> now <= t' -> ~ skipped s (local t') -> t <= t').
Proof.
  revert now. induction f as [|f IH]; intros now E; [done|].
  destruct (round_cases now) as [[t0 (Ea & H1 & H2 & H3)]|[now' K]].
  - rewrite Ea in E. simplify_eq. auto.
  - rewrite (k_next _ _ K) in E. apply IH in E as (H1 & H2 & H3). pose proof (k_now _ _ K).
    split; [lia|]. split; [done|]. intros Hw t' Ht' Hle Hns. apply H3; [done..| |done].
    by apply (k_least _ _ K).
Qed.

(** As long as there is a time to be found, the search ends. *)
Lemma search_ends now t : matching t -> now <= t -> ~ skipped s (local t) ->
  exists n r, forall f, (n <= f)%nat -> next f now = Ret r.
Proof.
  remember (Z.to_nat (day t - day now)) as k eqn:Ek. revert now t Ek.
  induction (lt_wf k) as [k _ IH]; intros now t Ek Ht Hle Hns.
  destruct (round_cases now) as [[r (Ea & _)]|[now' K]].
  - exists 1%nat, r. intros [|f] Hf; [lia|done].
  - destruct (k_kept _ _ K t Ht Hle Hns) as (t' & Ht' & Hns' & Hle' & Ed).
    assert (day now' <= day t') by (apply Z.div_le_mono; lia). pose proof (k_day _ _ K).
    destruct (IH (Z.to_nat (day t' - day now')) ltac:(lia) now' t' eq_refl Ht' Hle' Hns') as (n & r & Hr).
    exists (S n), r. intros [|f] Hf; [lia|]. rewrite (k_next _ _ K). apply Hr. lia.
Qed.
End round.
