(* ===== verification/ScheduleDescription.v ===== *)
(** The constructor of [Schedule.cpp]: which table a description gives, which
    descriptions it refuses, and what this means for the search. *)

From S2P Require Import Prelude CString Calendar Schedule ScheduleSearch.

Open Scope Z_scope.

(** * Reading a level *)

Definition set_all (offset : Z) (vs : list Z) (s : list bool) : list bool :=
  foldl (fun s v => <[Z.to_nat (offset + v) := true]> s) s vs.

Definition days_min (level m : Z) (vs : list Z) : Z :=
  if level =? SCHEDULE_LEVEL_DAY then foldl Z.min m vs else m.

Definition values_ok (level : Z) (vs : list Z) : Prop :=
  Forall (fun v => 0 <= v < GetScheduleLength level) vs.

Lemma set_all_cons offset v vs s :
  set_all offset (v :: vs) s = set_all offset vs (<[Z.to_nat (offset + v) := true]> s).
Proof. done. Qed.

Lemma length_set_all offset vs s : List.length (set_all offset vs s) = List.length s.
Proof.
  revert s. induction vs as [|v vs IH]; intros s; [done|]. rewrite set_all_cons, IH. apply length_insert.
Qed.

Lemma lookup_set_all offset vs s k :
  0 <= offset -> Forall (Z.le 0) vs -> (k < List.length s)%nat ->
  set_all offset vs s !! k = if bool_decide (Z.of_nat k - offset ∈ vs) then Some true else s !! k.
Proof.
  intros Ho. revert s. induction vs as [|v vs IH]; intros s; [done|].
  intros [Hv Hvs]%Forall_cons Hk. rewrite set_all_cons, IH by (try done; by rewrite length_insert).
  destruct (decide (Z.of_nat k - offset ∈ vs)) as [Hin|Hin].
  - rewrite !bool_decide_true; [done|by right|done].
  - rewrite (bool_decide_false (_ ∈ vs)) by done.
    destruct (decide (v = Z.of_nat k - offset)) as [->|Hne].
    + rewrite bool_decide_true by left. replace (Z.to_nat _) with k by lia. by apply list_lookup_insert_eq.
    + rewrite bool_decide_false by (rewrite elem_of_cons; naive_solver). apply list_lookup_insert_ne. lia.
Qed.

Section level.
Context (level : Z) (Hlevel : 0 <= level <= 5).
Abbreviation offset := (GetScheduleOffset level).
Abbreviation len := (GetScheduleLength level).

Lemma read_level_step fuel e p v end_ptr :
  ends_level (left_ p) = false -> strtol (left_ p) = (v, Some end_ptr) -> 0 <= v < len ->
  List.length (schedule p) = SCHEDULE_LENGTH ->
  read_level (S fuel) level offset len e p =
    read_level fuel level offset len false
      (mkParse (skip ","%char end_ptr) (<[Z.to_nat (offset + v) := true]> (schedule p))
         (days_min level (min_day p) [v])).
Proof.
  intros He Hs Hv Hl. cbn [read_level]. rewrite He, Hs.
  rewrite (proj2 (Z.ltb_ge v 0)) by lia. rewrite (proj2 (Z.leb_gt len v)) by lia. cbn [orb].
  pose proof (level_index_bounds level v Hlevel Hv).
  assert (aset (schedule p) (offset + v) true = Ret (<[Z.to_nat (offset + v) := true]> (schedule p))) as ->.
  { apply aset_Ret. split; [rewrite Hl; unfold SCHEDULE_LENGTH; lia|done]. }
  cbn [mbind outcome_bind]. f_equal. f_equal. unfold days_min. cbn [foldl].
  destruct (level =? SCHEDULE_LEVEL_DAY); [|done]. cbn [andb]. destruct (Z.ltb_spec v (min_day p)); lia.
Qed.

Lemma days_min_app m vs ws : days_min level (days_min level m vs) ws = days_min level m (vs ++ ws).
Proof. unfold days_min. destruct (_ =? _); [|done]. by rewrite foldl_app. Qed.

(** Whatever is read, some list of values in range was read. *)
Lemma read_level_values fuel e p e' p' :
  List.length (schedule p) = SCHEDULE_LENGTH ->
  read_level fuel level offset len e p = Ret (e', p') ->
  exists vs, values_ok level vs /\ schedule p' = set_all offset vs (schedule p) /\
    min_day p' = days_min level (min_day p) vs /\ e' = e && bool_decide (vs = []).
Proof.
  revert e p. induction fuel as [|fuel IH]; intros e p Hl E; [done|].
  destruct (ends_level (left_ p)) eqn:He.
  - cbn [read_level] in E. rewrite He in E. simplify_eq. exists []. split; [by constructor|].
    unfold days_min. cbn. rewrite andb_true_r. by destruct (_ =? _).
  - destruct (strtol (left_ p)) as [v [end_ptr|]] eqn:Hs; [|cbn [read_level] in E; rewrite He, Hs in E; done].
    destruct (decide (0 <= v < len)) as [Hv|Hv].
    + rewrite (read_level_step _ _ _ _ _ He Hs Hv Hl) in E. apply IH in E as (vs & H1 & H2 & H3 & ->).
      2:{ cbn [schedule]. by rewrite length_insert. }
      exists (v :: vs). split; [by constructor|]. split; [exact H2|]. split; [|by rewrite andb_false_r].
      rewrite H3. cbn [min_day]. apply (days_min_app _ [v]).
    + cbn [read_level] in E. rewrite He, Hs in E.
      destruct ((v <? 0) || (len <=? v)) eqn:Hc; [done|]. lia.
Qed.
End level.

Lemma fill_spec n i s : 0 <= i -> i + Z.of_nat n <= Z.of_nat (List.length s) ->
  exists s', fill n i s = Ret s' /\ List.length s' = List.length s /\
    forall k, s' !! k = if bool_decide (i <= Z.of_nat k < i + Z.of_nat n) then Some true else s !! k.
Proof.
  revert i s. induction n as [|n IH]; intros i s Hi Hl.
  { exists s. split; [done|]. split; [done|]. intros k. by rewrite bool_decide_false by lia. }
  cbn [fill]. rewrite (proj2 (aset_Ret s (<[Z.to_nat i := true]> s) i true)) by (split; [lia|done]).
  cbn [mbind outcome_bind].
  destruct (IH (i + 1) (<[Z.to_nat i := true]> s)) as (s' & E & Hs & Hk); [lia|rewrite length_insert; lia|].
  exists s'. split; [done|]. split; [by rewrite Hs, length_insert|]. intros k. rewrite Hk.
  destruct (decide (Z.to_nat i = k)) as [<-|Hne].
  - rewrite bool_decide_false by lia. rewrite bool_decide_true by lia. apply list_lookup_insert_eq. lia.
  - rewrite list_lookup_insert_ne by done.
    destruct (decide (i + 1 <= Z.of_nat k < i + 1 + Z.of_nat n)); [rewrite !bool_decide_true by lia; done|].
    rewrite !bool_decide_false by lia. done.
Qed.

(** * The table of a description *)

Definition offset_of (level : Z) : Z := if level =? 6 then 194 else GetScheduleOffset level.

Lemma offset_of_succ level : 0 <= level <= 5 ->
  offset_of (level + 1) = GetScheduleOffset level + GetScheduleLength level /\
  offset_of level = GetScheduleOffset level /\ 0 <= GetScheduleOffset level /\
  0 < GetScheduleLength level /\ GetScheduleOffset level + GetScheduleLength level <= 194.
Proof.
  intros Hl. apply level_cases in Hl.
  destruct Hl as [-> |[-> |[-> |[-> |[-> | ->]]]]]; cbv; repeat split; discriminate.
Qed.

Lemma offset_of_mono l level : 0 <= l < level -> level <= 6 ->
  GetScheduleOffset l + GetScheduleLength l <= offset_of level.
Proof.
  intros Hl H6. replace level with (l + 1 + Z.of_nat (Z.to_nat (level - l - 1))) by lia.
  assert (Hk : l + 1 + Z.of_nat (Z.to_nat (level - l - 1)) <= 6) by lia.
  induction (Z.to_nat (level - l - 1)) as [|k IH].
  - rewrite Z.add_0_r. destruct (offset_of_succ l) as [-> _]; lia.
  - replace (l + 1 + Z.of_nat (S k)) with (l + 1 + Z.of_nat k + 1) by lia.
    destruct (offset_of_succ (l + 1 + Z.of_nat k)) as (-> & <- & _ & Hp & _); [lia|]. lia.
Qed.

(** The lists of values read for the levels below [level]. *)
Record table (level : Z) (vss : list (list Z)) (p : parse) : Prop := {
  t_length : List.length (schedule p) = SCHEDULE_LENGTH;
  t_count : Z.of_nat (List.length vss) = level;
  t_values : forall l vs, vss !! l = Some vs -> values_ok (Z.of_nat l) vs;
  t_flags : forall l vs v, vss !! l = Some vs -> 0 <= v < GetScheduleLength (Z.of_nat l) ->
    flag (schedule p) (Z.of_nat l) v = bool_decide (vs = [] \/ v ∈ vs);
  t_rest : forall k, offset_of level <= Z.of_nat k -> (k < SCHEDULE_LENGTH)%nat -> schedule p !! k = Some false;
  t_min : min_day p = foldl Z.min 32 (default [] (vss !! 3%nat));
}.

Lemma table_init d : table 0 [] (mkParse d (replicate SCHEDULE_LENGTH false) 32).
Proof.
  split; try done. intros k _ Hk. cbn [schedule]. by apply lookup_replicate_2.
Qed.

(** The array after a level. *)
Lemma level_array level vs s :
  0 <= level <= 5 -> List.length s = SCHEDULE_LENGTH -> values_ok level vs ->
  (forall k, GetScheduleOffset level <= Z.of_nat k -> (k < SCHEDULE_LENGTH)%nat -> s !! k = Some false) ->
  exists s', (if bool_decide (vs = []) then fill (Z.to_nat (GetScheduleLength level)) (GetScheduleOffset level) (set_all (GetScheduleOffset level) vs s)
              else Ret (set_all (GetScheduleOffset level) vs s)) = Ret s' /\
    List.length s' = SCHEDULE_LENGTH /\
    forall k, (k < SCHEDULE_LENGTH)%nat ->
      s' !! k = if bool_decide (GetScheduleOffset level <= Z.of_nat k < GetScheduleOffset level + GetScheduleLength level)
                then Some (bool_decide (vs = [] \/ Z.of_nat k - GetScheduleOffset level ∈ vs)) else s !! k.
Proof.
  intros Hl Hs Hv Hf. destruct (offset_of_succ level Hl) as (_ & _ & Ho & Hp & Hend). unfold SCHEDULE_LENGTH in *.
  destruct (decide (vs = [])) as [->|Hne].
  - rewrite bool_decide_true by done. cbn [set_all foldl].
    destruct (fill_spec (Z.to_nat (GetScheduleLength level)) (GetScheduleOffset level) s) as (s' & E & Hs' & Hk); [lia|lia|].
    exists s'. split; [done|]. split; [lia|]. intros k Hklt. rewrite Hk, Z2Nat.id by lia.
    destruct (bool_decide _); [|done]. by rewrite bool_decide_true by (by left).
  - rewrite bool_decide_false by done. eexists. split; [done|]. split; [by rewrite length_set_all|].
    intros k Hk. rewrite lookup_set_all; [|done|eapply Forall_impl; [exact Hv|cbv beta; lia]|lia].
    destruct (decide (Z.of_nat k - GetScheduleOffset level ∈ vs)) as [Hin|Hin].
    + rewrite (bool_decide_true (_ ∈ _)) by done. pose proof (proj1 (Forall_forall _ _) Hv _ Hin) as Hr. cbv beta in Hr.
      rewrite bool_decide_true by lia. by rewrite bool_decide_true by (by right).
    + rewrite (bool_decide_false (_ ∈ _)) by done.
      destruct (decide (GetScheduleOffset level <= Z.of_nat k < GetScheduleOffset level + GetScheduleLength level)).
      * rewrite bool_decide_true by done. rewrite bool_decide_false by naive_solver. apply Hf; lia.
      * by rewrite bool_decide_false by done.
Qed.

Lemma table_level level vss vs p :
  0 <= level <= 5 -> table level vss p -> values_ok level vs ->
  exists s', (if bool_decide (vs = []) then fill (Z.to_nat (GetScheduleLength level)) (GetScheduleOffset level) (set_all (GetScheduleOffset level) vs (schedule p))
              else Ret (set_all (GetScheduleOffset level) vs (schedule p))) = Ret s' /\
    forall d, table (level + 1) (vss ++ [vs]) (mkParse d s' (days_min level (min_day p) vs)).
Proof.
  intros Hl [H1 H2 H3 H4 H5 H6] Hv. destruct (offset_of_succ level Hl) as (Eo & Eo' & Ho & Hp & Hend).
  rewrite Eo' in H5. destruct (level_array level vs (schedule p) Hl H1 Hv H5) as (s' & E & Hs' & Hk).
  exists s'. split; [done|]. intros d. split; cbn [schedule min_day].
  - done.
  - rewrite length_app. simpl. lia.
  - intros l us E'. apply lookup_app_Some in E' as [E'|[Hlen E']]; [by apply H3|].
    apply list_lookup_singleton_Some in E' as [E0 <-]. replace (Z.of_nat l) with level by lia. done.
  - intros l us v E' Hv'. assert (Hl' : 0 <= Z.of_nat l <= 5).
    { apply lookup_lt_Some in E'. rewrite length_app in E'. simpl in E'. lia. }
    pose proof (level_index_bounds _ _ Hl' Hv'). unfold flag. rewrite Hk by (unfold SCHEDULE_LENGTH; lia). rewrite Z2Nat.id by lia.
    apply lookup_app_Some in E' as [E'|[Hlen E']].
    + pose proof (lookup_lt_Some _ _ _ E'). pose proof (offset_of_mono (Z.of_nat l) level ltac:(lia) ltac:(lia)).
      rewrite bool_decide_false by lia. by apply H4.
    + apply list_lookup_singleton_Some in E' as [E0 <-]. replace (Z.of_nat l) with level in * by lia.
      rewrite bool_decide_true by lia. cbn [default]. by replace (GetScheduleOffset level + v - GetScheduleOffset level) with v by lia.
  - intros k Hk1 Hk2. rewrite Hk by done. rewrite bool_decide_false by lia. apply H5; [lia|done].
  - rewrite H6. unfold days_min. destruct (Z.eqb_spec level SCHEDULE_LEVEL_DAY) as [->|Hne].
    + unfold SCHEDULE_LEVEL_DAY in H2. rewrite (lookup_ge_None_2 vss 3) by lia. rewrite lookup_app_r by lia.
      by replace (3 - List.length vss)%nat with 0%nat by lia.
    + unfold SCHEDULE_LEVEL_DAY in Hne. destruct (decide (3 < List.length vss)%nat).
      * by rewrite lookup_app_l by done.
      * rewrite (lookup_ge_None_2 vss 3) by lia. rewrite (lookup_ge_None_2 (vss ++ [vs]) 3); [done|].
        rewrite length_app. simpl. lia.
Qed.

Lemma read_levels_table n level vss p p' :
  level + Z.of_nat n = 6 -> 0 <= level -> table level vss p ->
  read_levels n level (offset_of level) p = Ret p' -> exists vss', table 6 vss' p'.
Proof.
  revert level vss p. induction n as [|n IH]; intros level vss p Hn Hl Ht E.
  { cbn in E. simplify_eq. exists vss. replace 6 with level by lia. done. }
  cbn [read_levels] in E. destruct (offset_of_succ level ltac:(lia)) as (Eo & Eo' & _). rewrite Eo' in E.
  apply bind_Ret in E as ([e q] & H & E). apply bind_Ret in E as (s1 & H0 & E).
  apply read_level_values in H as (vs & Hv & Hs & Hm & ->); [|lia|apply Ht].
  destruct (table_level level vss vs p ltac:(lia) Ht Hv) as (s' & Es & Ht').
  rewrite Hs in H0. cbn [andb] in H0. rewrite Es in H0. injection H0 as <-.
  rewrite Hm, <- Eo in E. apply (IH (level + 1) (vss ++ [vs])) in E; [done|lia|lia|apply Ht'].
Qed.

(** * The constraints *)

(** A scheduled day of a scheduled month exists in some year. *)
Definition possible (s : list bool) : Prop :=
  exists y m d, valid_date y m d /\ flag s SCHEDULE_LEVEL_MONTH m = true /\ flag s SCHEDULE_LEVEL_DAY d = true.

Lemma none_set_spec indices s :
  List.length s = SCHEDULE_LENGTH -> Forall (fun i => 0 <= i < 194) indices ->
  none_set indices s = Ret (forallb (fun i => negb (default false (s !! Z.to_nat i))) indices).
Proof.
  intros Hs. induction indices as [|i r IH]; intros Hi; [done|]. apply Forall_cons in Hi as [Hi Hr].
  cbn [none_set forallb]. destruct (lookup_lt_is_Some_2 s (Z.to_nat i)) as [b Hb]; [unfold SCHEDULE_LENGTH in *; lia|].
  rewrite (proj2 (aget_Ret s i b)) by (split; [lia|done]). cbn [mbind outcome_bind]. rewrite Hb. cbn [default from_option id].
  destruct b; [done|]. by apply IH.
Qed.

Definition months30 : list Z := [0; 2; 3; 4; 5; 6; 7; 8; 9; 10; 11].
Definition months31 : list Z := [0; 2; 4; 6; 7; 9; 11].

Definition no_month (s : list bool) (months : list Z) : bool :=
  forallb (fun m => negb (flag s SCHEDULE_LEVEL_MONTH m)) months.

Lemma no_month_true s months m : no_month s months = true -> m ∈ months -> flag s SCHEDULE_LEVEL_MONTH m = false.
Proof.
  unfold no_month. rewrite forallb_forall. intros H Hm%list_elem_of_In. specialize (H m Hm). by apply negb_true_iff.
Qed.

Lemma no_month_false s months : no_month s months = false -> exists m, m ∈ months /\ flag s SCHEDULE_LEVEL_MONTH m = true.
Proof.
  unfold no_month. induction months as [|m r IH]; simpl; [done|].
  destruct (flag s SCHEDULE_LEVEL_MONTH m) eqn:E; simpl.
  - intros _. exists m. split; [by left|done].
  - intros (m' & ? & ?)%IH. exists m'. split; [by right|done].
Qed.

Lemma months_lengths y m d : valid_date y m d -> (29 <= d -> m ∈ months30) /\ (30 <= d -> m ∈ months31).
Proof.
  intros [Hm Hd]. unfold months30, months31. pose proof (month_cases m Hm) as Hc. unfold month_length in Hd.
  split; intros H29; destruct (leap y);
    repeat destruct Hc as [->|Hc]; try subst m; simpl in Hd; try lia; set_solver.
Qed.

Lemma months_days m : (m ∈ months30 -> valid_date 0 m 29) /\ (m ∈ months31 -> valid_date 0 m 30).
Proof.
  unfold months30, months31, valid_date. split; intros H;
    repeat (apply elem_of_cons in H as [->|H]; [cbv; repeat split; discriminate|]); by apply elem_of_nil in H.
Qed.

Lemma foldl_min m vs : foldl Z.min m vs = m \/ foldl Z.min m vs ∈ vs.
Proof.
  revert m. induction vs as [|v vs IH]; intros m; simpl; [by left|].
  destruct (IH (Z.min m v)) as [->|H]; [|right; by right].
  destruct (Z.min_spec m v) as [[_ ->]|[_ ->]]; [by left|right; by left].
Qed.

Lemma foldl_min_le m vs : foldl Z.min m vs <= m /\ Forall (Z.le (foldl Z.min m vs)) vs.
Proof.
  revert m. induction vs as [|v vs IH]; intros m; simpl; [split; [lia|constructor]|].
  destruct (IH (Z.min m v)) as [H1 H2]. split; [lia|]. constructor; [lia|done].
Qed.

Section constraints.
Context (vss : list (list Z)) (p : parse) (Ht : table 6 vss p).

Lemma table_lists l : 0 <= l <= 5 -> exists vs, vss !! Z.to_nat l = Some vs /\ values_ok l vs /\
  forall v, 0 <= v < GetScheduleLength l -> flag (schedule p) l v = bool_decide (vs = [] \/ v ∈ vs).
Proof.
  intros Hl. pose proof (t_count _ _ _ Ht). destruct (lookup_lt_is_Some_2 vss (Z.to_nat l)) as [vs E]; [lia|].
  exists vs. pose proof (t_values _ _ _ Ht _ _ E) as Hv. pose proof (fun v => t_flags _ _ _ Ht _ _ v E) as Hf.
  rewrite Z2Nat.id in * by lia. auto.
Qed.

Lemma table_well_formed : well_formed (schedule p).
Proof.
  split; [apply Ht|]. intros l Hl. destruct (table_lists l Hl) as (vs & _ & Hv & Hf).
  destruct vs as [|v vs].
  - exists 0. destruct (offset_of_succ l Hl) as (_ & _ & _ & Hp & _). split; [lia|].
    rewrite Hf by lia. by rewrite bool_decide_true by (by left).
  - apply Forall_cons in Hv as [Hv _]. exists v. split; [done|]. rewrite Hf by done.
    rewrite bool_decide_true; [done|]. right. by left.
Qed.

(** [min_day] is the first scheduled day, or 32 when they all are. *)
Lemma table_min_day :
  (min_day p = 32 /\ flag (schedule p) SCHEDULE_LEVEL_DAY 0 = true) \/
  (0 <= min_day p < 31 /\ flag (schedule p) SCHEDULE_LEVEL_DAY (min_day p) = true /\
   forall d, 0 <= d < 31 -> flag (schedule p) SCHEDULE_LEVEL_DAY d = true -> min_day p <= d).
Proof.
  destruct (table_lists SCHEDULE_LEVEL_DAY) as (vs & E & Hv & Hf); [done|].
  rewrite (t_min _ _ _ Ht). change 3%nat with (Z.to_nat SCHEDULE_LEVEL_DAY). rewrite E. cbn [default from_option id].
  destruct vs as [|v vs].
  - left. split; [done|]. rewrite Hf by done. by rewrite bool_decide_true by (by left).
  - right. pose proof (foldl_min_le 32 (v :: vs)) as [Hm Hle]. unfold values_ok in Hv. rewrite Forall_forall in Hv, Hle.
    change (GetScheduleLength SCHEDULE_LEVEL_DAY) with 31 in *.
    destruct (foldl_min 32 (v :: vs)) as [E32|Hin].
    { pose proof (Hv v ltac:(by left)). pose proof (Hle v ltac:(by left)). lia. }
    split; [by apply Hv|]. split; [rewrite Hf by (by apply Hv); by rewrite bool_decide_true by (by right)|].
    intros d Hd. rewrite Hf by done. intros [?|Hd']%bool_decide_eq_true; [done|]. by apply Hle.
Qed.

Definition refused : bool :=
  (min_day p =? 29) && no_month (schedule p) months30 || (min_day p =? 30) && no_month (schedule p) months31.

Lemma refused_impossible : if refused then ~ possible (schedule p) else possible (schedule p).
Proof.
  destruct refused eqn:Hr; unfold refused in Hr; unfold possible.
  - intros (y & m & d & Hv & Hm & Hd). pose proof Hv as [Hm' Hd']. pose proof (month_length_bounds y m Hm').
    destruct (months_lengths y m d Hv) as [H30 H31].
    destruct table_min_day as [[E _]|(_ & _ & Hmin)]; [rewrite E in Hr; done|].
    specialize (Hmin d ltac:(lia) Hd). apply orb_true_iff in Hr as [Hr|Hr]; apply andb_true_iff in Hr as [E%Z.eqb_eq Hr].
    + rewrite (no_month_true _ _ m Hr) in Hm; [done|]. apply H30. lia.
    + rewrite (no_month_true _ _ m Hr) in Hm; [done|]. apply H31. lia.
  - apply orb_false_iff in Hr as [H29 H30].
    destruct (wf_level _ table_well_formed SCHEDULE_LEVEL_MONTH ltac:(done)) as (m & Hm & Hfm).
    change (GetScheduleLength SCHEDULE_LEVEL_MONTH) with 12 in Hm.
    destruct table_min_day as [[_ E]|(Hr' & Hfd & _)].
    { exists 0, m, 0. split; [|done]. split; [done|]. pose proof (month_length_bounds 0 m Hm). lia. }
    destruct (Z.eqb_spec (min_day p) 29) as [E|E29].
    { apply no_month_false in H29 as (m' & Hm' & Hf'). rewrite E in Hfd. exists 0, m', 29. split; [|done]. by apply months_days. }
    destruct (Z.eqb_spec (min_day p) 30) as [E|E30].
    { apply no_month_false in H30 as (m' & Hm' & Hf'). rewrite E in Hfd. exists 0, m', 30. split; [|done]. by apply months_days. }
    exists 0, m, (min_day p). split; [|done]. split; [done|].
    assert (29 <= month_length 0 m); [|lia]. pose proof (month_cases m Hm) as Hc. clear - Hc.
    repeat destruct Hc as [->|Hc]; try subst m; cbv; discriminate.
Qed.

Lemma Schedule_new_checks d : read_description d = Ret p -> left_ p = [] ->
  Schedule_new d = if refused then Throw impossible else Ret (schedule p).
Proof.
  intros E El. unfold Schedule_new. rewrite E. cbn [mbind outcome_bind]. rewrite El.
  pose proof (t_length _ _ _ Ht) as Hlen.
  rewrite !none_set_spec by (first [exact Hlen|repeat constructor; done]).
  assert (forallb (fun i => negb (default false (schedule p !! Z.to_nat i)))
            [175; 177; 178; 179; 180; 181; 182; 183; 184; 185; 186] = no_month (schedule p) months30) as -> by reflexivity.
  assert (forallb (fun i => negb (default false (schedule p !! Z.to_nat i)))
            [175; 177; 179; 181; 182; 184; 186] = no_month (schedule p) months31) as -> by reflexivity.
  unfold refused. destruct (min_day p =? 29), (min_day p =? 30), (no_month _ months30), (no_month _ months31); done.
Qed.
End constraints.

Lemma read_description_table d p : read_description d = Ret p -> exists vss, table 6 vss p.
Proof. intros E. by apply (read_levels_table 6 0 [] _ p eq_refl ltac:(done) (table_init d)). Qed.

(** * Every weekday comes up on every date *)

(** Stops at the first year: conjunctions and [existsb] would try them all. *)
Fixpoint some_year (f : Z -> bool) (n : nat) (y : Z) : bool :=
  match n with
  | O => false
  | S n => if f y then true else some_year f n (y + 1)
  end.

Lemma some_year_true f n y : some_year f n y = true -> exists y', f y' = true.
Proof.
  revert y. induction n as [|n IH]; intros y; simpl; [done|]. destruct (f y) eqn:E; [eauto|apply IH].
Qed.

Definition falls_on (m d w : Z) : bool :=
  some_year (fun y => if d <? month_length y m then weekday (date_number y m d) =? w else false) 400 0.

Lemma falls_on_all :
  forallb (fun m => forallb (fun d => (month_length 0 m <=? d) || forallb (falls_on m d) (seqZ 0 7)) (seqZ 0 31))
    (seqZ 0 12) = true.
Proof. vm_compute. reflexivity. Qed.

Lemma forallb_seqZ f n i : forallb f (seqZ 0 n) = true -> 0 <= i < n -> f i = true.
Proof.
  rewrite forallb_forall. intros H Hi. apply H, list_elem_of_In, elem_of_seqZ. lia.
Qed.

Lemma month_length_max y m : 0 <= m < 12 -> month_length y m <= month_length 0 m.
Proof.
  intros Hm. pose proof (month_cases m Hm) as Hc. clear Hm. unfold month_length. change (leap 0) with true.
  destruct (leap y); repeat destruct Hc as [->|Hc]; try subst m; cbv; discriminate.
Qed.

Lemma falls_on_weekday y m d w lo :
  valid_date y m d -> 0 <= w < 7 ->
  exists y', valid_date y' m d /\ weekday (date_number y' m d) = w /\ lo <= date_number y' m d.
Proof.
  intros [Hm Hd] Hw. pose proof (month_length_max y m Hm). pose proof (month_length_bounds y m Hm).
  assert (Hd31 : 0 <= d < 31) by lia.
  pose proof (forallb_seqZ _ _ m falls_on_all Hm) as H1. cbv beta in H1.
  apply (fun H => forallb_seqZ _ _ d H Hd31) in H1. cbv beta in H1.
  rewrite (proj2 (Z.leb_gt _ d)) in H1 by lia. cbn [orb] in H1.
  apply (fun H => forallb_seqZ _ _ w H Hw) in H1. apply some_year_true in H1 as (y0 & Hw0).
  destruct (Z.ltb_spec d (month_length y0 m)) as [Hd0|]; [|done]. apply Z.eqb_eq in Hw0.
  set (k := Z.max 0 (lo - date_number y0 m d)). exists (y0 + 400 * k).
  destruct (date_number_periods y0 m d k) as [E El]. split; [|split].
  - split; [done|]. unfold month_length in *. rewrite El. lia.
  - rewrite E. unfold weekday in *. replace (date_number y0 m d + 146097 * k + 4) with (date_number y0 m d + 4 + (20871 * k) * 7) by lia.
    by rewrite Z.mod_add by lia.
  - lia.
Qed.

(** A possible schedule has times to be found, however late it is. *)
Lemma possible_times s off now :
  well_formed s -> possible s ->
  exists t, matching s off t /\ now <= t /\ ~ skipped s (gmtime (t + off)).
Proof.
  intros Hwf (y & m & d & Hv & Hm & Hd).
  assert (exists y m d, valid_date y m d /\ flag s SCHEDULE_LEVEL_MONTH m = true /\ flag s SCHEDULE_LEVEL_DAY d = true /\
    ~ (m = 2 /\ d < 2 /\ flag s SCHEDULE_LEVEL_MONTH 1 = true /\
       exists d, 29 <= d < 31 /\ flag s SCHEDULE_LEVEL_DAY d = true)) as (y1 & m1 & d1 & Hv1 & Hm1 & Hd1 & Hns).
  { destruct (decide (m = 2 /\ d < 2)) as [[-> Hlt]|Hne]; [|exists y, m, d; naive_solver].
    destruct (flag s SCHEDULE_LEVEL_DAY 29) eqn:E29; [|destruct (flag s SCHEDULE_LEVEL_DAY 30) eqn:E30].
    - exists y, 2, 29. repeat split; try done. intros (_ & ? & _). lia.
    - exists y, 2, 30. repeat split; try done. intros (_ & ? & _). lia.
    - exists y, 2, d. split; [done|]. split; [done|]. split; [done|]. intros (_ & _ & _ & d' & Hd' & Hf').
      assert (d' = 29 \/ d' = 30) as [-> | ->] by lia; congruence. }
  destruct (wf_level _ Hwf SCHEDULE_LEVEL_SEC ltac:(done)) as (sec & Hsec & Hfsec).
  destruct (wf_level _ Hwf SCHEDULE_LEVEL_MIN ltac:(done)) as (mi & Hmi & Hfmi).
  destruct (wf_level _ Hwf SCHEDULE_LEVEL_HOUR ltac:(done)) as (h & Hh & Hfh).
  destruct (wf_level _ Hwf SCHEDULE_LEVEL_WDAY ltac:(done)) as (w & Hw & Hfw).
  destruct (falls_on_weekday y1 m1 d1 w (Z.max 0 (now + off)) Hv1 Hw) as (y2 & Hv2 & Ew & Hlo).
  change (GetScheduleLength SCHEDULE_LEVEL_SEC) with 60 in Hsec. change (GetScheduleLength SCHEDULE_LEVEL_MIN) with 60 in Hmi.
  change (GetScheduleLength SCHEDULE_LEVEL_HOUR) with 24 in Hh. pose proof Hv2 as [Hm2 Hd2]. pose proof (month_length_bounds y2 m1 Hm2).
  assert (Hr : in_range sec mi h d1 m1) by (split; lia).
  exists (seconds sec mi h d1 m1 y2 - off).
  pose proof (local_of_seconds off sec mi h d1 m1 y2 Hr Hv2) as El.
  split; [|split].
  - unfold matching. rewrite El. apply matches_flags. cbn [tm_sec tm_min tm_hour tm_mday tm_mon tm_wday].
    rewrite Ew. split; [|done]. replace (d1 + 1 - 1) with d1 by lia. unfold flags. rewrite !andb_true_iff. done.
  - unfold seconds. lia.
  - rewrite El. unfold skipped. cbn [tm_mday tm_mon]. intros (E1 & E2 & E3). apply Hns. split; [done|]. split; [lia|done].
Qed.

(** * Writing a description *)

Fixpoint join (separator : ascii) (ls : list (list ascii)) : list ascii :=
  match ls with
  | [] => []
  | [l] => l
  | l :: r => l ++ separator :: join separator r
  end.

Definition print_level (vs : list Z) : list ascii := join ","%char (chars ∘ sprintf_d <$> vs).

(** The six levels, each a list of values; an empty list stands for all. *)
Definition print_schedule (levels : list (list Z)) : list ascii := join ";"%char (print_level <$> levels).

Lemma digit_not v r : 0 <= v -> exists c l, chars (sprintf_d v) ++ r = c :: l /\ isdigit c = true.
Proof.
  intros Hv. destruct (pretty_N_digits (Z.to_N v)) as [(d & r' & E & Hd) _].
  assert (chars (sprintf_d v) = chars (pretty (Z.to_N v))) as -> by (destruct v; [done|done|lia]).
  rewrite E. destruct (digit_char d Hd) as (H1 & _). exists (pretty_N_char d), (r' ++ r). done.
Qed.

Lemma ends_level_digit c l : isdigit c = true -> ends_level (c :: l) = false.
Proof. intros H. apply bool_decide_false. intros ->. done. Qed.

Lemma length_print_level vs : Forall (Z.le 0) vs -> (List.length vs <= List.length (print_level vs))%nat.
Proof.
  unfold print_level. induction vs as [|v vs IH]; [simpl; lia|]. intros [Hv Hvs]%Forall_cons. specialize (IH Hvs).
  destruct (digit_not v [] Hv) as (c & l & E & _). rewrite app_nil_r in E. cbn [fmap list_fmap] in *.
  destruct vs as [|w vs].
  - cbn [join fmap list_fmap]. unfold compose. rewrite E. simpl. lia.
  - cbn [fmap list_fmap] in *. cbn [join]. rewrite length_app. cbn [join] in *. simpl in *. lia.
Qed.

Definition level_end (r : list ascii) : Prop := match r with [] => True | c :: _ => c = ";"%char end.

Lemma read_level_print level vs fuel e p r :
  0 <= level <= 5 -> values_ok level vs -> (List.length vs < fuel)%nat -> level_end r ->
  List.length (schedule p) = SCHEDULE_LENGTH -> left_ p = print_level vs ++ r ->
  read_level fuel level (GetScheduleOffset level) (GetScheduleLength level) e p =
    Ret (e && bool_decide (vs = []),
         mkParse r (set_all (GetScheduleOffset level) vs (schedule p)) (days_min level (min_day p) vs)).
Proof.
  intros Hl. revert fuel e p. induction vs as [|v vs IH]; intros fuel e p Hv Hf Hr Hlen El.
  - destruct fuel as [|fuel]; [simpl in Hf; lia|]. cbn [print_level fmap list_fmap join app] in El.
    cbn [read_level]. rewrite El. assert (ends_level r = true) as ->.
    { destruct r as [|c r]; [done|]. cbn in Hr. by apply bool_decide_true. }
    destruct p as [l s m]. cbn in *. subst. rewrite andb_true_r. unfold days_min. by destruct (_ =? _).
  - apply Forall_cons in Hv as [Hv Hvs]. destruct fuel as [|fuel]; [simpl in Hf; lia|].
    set (r' := if decide (vs = []) then r else ","%char :: print_level vs ++ r).
    assert (El' : left_ p = chars (sprintf_d v) ++ r').
    { rewrite El. subst r'. unfold print_level. destruct vs; [done|].
      cbn [fmap list_fmap join]. case_decide; [done|]. unfold compose at 1. by rewrite <- app_assoc. }
    destruct (digit_not v r' ltac:(lia)) as (c & l & Ec & Hc).
    assert (Hlong : v <= LONG_MAX).
    { apply level_cases in Hl. unfold LONG_MAX. destruct Hl as [-> |[-> |[-> |[-> |[-> | ->]]]]];
        cbv -[Z.le Z.lt] in Hv; lia. }
    assert (Hs : strtol (left_ p) = (v, Some r')).
    { rewrite El'. apply strtol_sprintf_d_app; [lia|]. subst r'. case_decide; [|done].
      destruct r as [|c' r]; [done|]. cbn in Hr. by subst. }
    rewrite (read_level_step level Hl fuel e p v r'); [|by rewrite El', Ec; apply ends_level_digit|done..].
    rewrite andb_false_r. cbn [andb].
    rewrite (IH fuel false); [|done|simpl in Hf; lia|done|cbn [schedule]; by rewrite length_insert|].
    + cbn [schedule min_day andb]. rewrite (days_min_app level _ [v]). done.
    + cbn [left_]. subst r'. case_decide as Hd; [|done]. subst vs. cbn [print_level fmap list_fmap join app].
      destruct r as [|c' r]; [done|]. cbn in Hr. by subst.
Qed.

Lemma read_levels_print n level vss levels p :
  level + Z.of_nat n = 6 -> 0 <= level -> List.length levels = n -> table level vss p ->
  (forall l vs, levels !! l = Some vs -> values_ok (level + Z.of_nat l) vs) ->
  left_ p = print_schedule levels ->
  exists p', read_levels n level (offset_of level) p = Ret p' /\ table 6 (vss ++ levels) p' /\ left_ p' = [].
Proof.
  revert level vss levels p. induction n as [|n IH]; intros level vss levels p Hn Hl Hlen Ht Hv El.
  { destruct levels; [|done]. exists p. split; [done|]. rewrite app_nil_r. split; [|done].
    by replace 6 with level by lia. }
  destruct levels as [|vs levels]; [done|]. pose proof (Hv 0%nat vs eq_refl) as Hvs. rewrite Z.add_0_r in Hvs.
  destruct (offset_of_succ level ltac:(lia)) as (Eo & Eo' & _). cbn [read_levels]. rewrite Eo'.
  set (r := match levels with [] => [] | _ => ";"%char :: print_schedule levels end).
  assert (El' : left_ p = print_level vs ++ r).
  { rewrite El. subst r. unfold print_schedule. destruct levels; [by cbn; rewrite app_nil_r|done]. }
  rewrite (read_level_print level vs _ true p r); [|lia|done| |by subst r; destruct levels|apply Ht|done].
  2:{ rewrite El', length_app. pose proof (length_print_level vs) as Hp. apply Nat.lt_succ_r.
      etransitivity; [apply Hp; eapply Forall_impl; [exact Hvs|cbv beta; lia]|lia]. }
  cbn [mbind outcome_bind andb schedule]. destruct (table_level level vss vs p ltac:(lia) Ht Hvs) as (s' & -> & Ht').
  cbn [mbind outcome_bind left_ min_day]. rewrite <- Eo.
  destruct (IH (level + 1) (vss ++ [vs]) levels (mkParse (skip ";"%char r) s' (days_min level (min_day p) vs)))
    as (p' & E & Ht6 & Hleft); [lia|lia|simpl in Hlen; lia|apply Ht'| | |].
  - intros l us E. specialize (Hv (S l) us E). by replace (level + 1 + Z.of_nat l) with (level + Z.of_nat (S l)) by lia.
  - cbn [left_]. subst r. by destruct levels.
  - exists p'. split; [exact E|]. rewrite <- app_assoc in Ht6. done.
Qed.

(** * The properties *)

(** C28: Parsing the text of any six lists of values in range gives the
    table in which exactly these values are set, a whole level where the
    list is empty, unless the day constraint cannot be satisfied. *)
Theorem Schedule_print levels :
  List.length levels = 6%nat ->
  (forall l vs, levels !! l = Some vs -> values_ok (Z.of_nat l) vs) ->
  exists s,
    (Schedule_new (print_schedule levels) = Ret s /\ possible s \/
     Schedule_new (print_schedule levels) = Throw impossible /\ ~ possible s) /\
    List.length s = SCHEDULE_LENGTH /\
    forall l vs v, levels !! l = Some vs -> 0 <= v < GetScheduleLength (Z.of_nat l) ->
      flag s (Z.of_nat l) v = bool_decide (vs = [] \/ v ∈ vs).
Proof.
  intros Hlen Hv.
  destruct (read_levels_print 6 0 [] levels (mkParse (print_schedule levels) (replicate SCHEDULE_LENGTH false) 32))
    as (p & E & Ht & El); [done|done|done|apply table_init|done|done|].
  exists (schedule p). pose proof (Schedule_new_checks _ _ Ht _ E El) as ->.
  pose proof (refused_impossible _ _ Ht) as Hr.
  split; [|split; [apply Ht|intros; by apply (t_flags _ _ _ Ht)]].
  destruct (refused _); [by right|by left].
Qed.

Definition ex_table_levels : list (list Z) := [[0]; [0; 30]; [8]; []; []; [1; 2; 3; 4; 5]].

Lemma Schedule_print_witness :
  exists s,
    (Schedule_new (chars "0;0,30;8;;;1,2,3,4,5") = Ret s /\ possible s \/
     Schedule_new (chars "0;0,30;8;;;1,2,3,4,5") = Throw impossible /\ ~ possible s) /\
    List.length s = SCHEDULE_LENGTH /\
    forall l vs v, ex_table_levels !! l = Some vs -> 0 <= v < GetScheduleLength (Z.of_nat l) ->
      flag s (Z.of_nat l) v = bool_decide (vs = [] \/ v ∈ vs).
Proof.
  apply (Schedule_print ex_table_levels); [reflexivity|].
  intros [|[|[|[|[|[|l]]]]]] vs E; cbv in E; simplify_eq; repeat constructor; done.
Defined.

Lemma matching_possible s off t : well_formed s -> matching s off t -> possible s.
Proof.
  intros Hwf Ht. pose proof (local_ok off t) as Hok. apply matches_flags in Ht as [Hf _].
  unfold flags in Hf. rewrite !andb_true_iff in Hf. eexists _, _, _. split; [apply Hok|]. tauto.
Qed.

(** C27: In any time zone at a fixed offset from UTC: a description without
    garbage is accepted exactly when the schedule has matching times, and
    then it has some after any given time; it is refused as impossible
    exactly when no time at all matches it. *)
Theorem Schedule_accepts d p off :
  read_description d = Ret p -> left_ p = [] ->
  (Schedule_new d = Ret (schedule p) /\ well_formed (schedule p) /\
     forall now, exists t, now <= t /\ @matches (fixed_zone off) (schedule p) t = true) \/
  (Schedule_new d = Throw impossible /\ forall t, @matches (fixed_zone off) (schedule p) t = false).
Proof.
  intros E El. destruct (read_description_table _ _ E) as [vss Ht].
  rewrite (Schedule_new_checks _ _ Ht _ E El). pose proof (refused_impossible _ _ Ht) as Hr.
  pose proof (table_well_formed _ _ Ht) as Hwf. destruct (refused _).
  - right. split; [done|]. intros t. destruct (matches _ t) eqn:Em; [|done].
    destruct Hr. by apply (matching_possible _ off t).
  - left. split; [done|]. split; [done|]. intros now.
    destruct (possible_times _ off now Hwf Hr) as (t & ? & ? & _). eauto.
Qed.

Definition ex_refused : list bool :=
  match read_description (chars "0;0;0;29;1") with Ret p => schedule p | _ => [] end.

Lemma Schedule_accepts_witness :
  Schedule_new (chars "0;0;0;29;1") = Throw impossible /\
  forall t, @matches (fixed_zone 3600) ex_refused t = false.
Proof.
  destruct (Schedule_accepts (chars "0;0;0;29;1") (mkParse [] ex_refused 29) 3600
    ltac:(vm_compute; reflexivity) eq_refl) as [[H _]|H].
  - vm_compute in H. discriminate H.
  - exact H.
Defined.

Lemma Schedule_new_ok d s : Schedule_new d = Ret s -> well_formed s /\ possible s.
Proof.
  intros E. assert (exists p, read_description d = Ret p /\ left_ p = []) as (p & Ep & El).
  { unfold Schedule_new in E. apply bind_Ret in E as (p & Ep & E). exists p. split; [done|].
    by destruct (left_ p). }
  destruct (read_description_table _ _ Ep) as [vss Ht]. rewrite (Schedule_new_checks _ _ Ht _ Ep El) in E.
  pose proof (refused_impossible _ _ Ht) as Hr. destruct (refused _); [done|]. simplify_eq.
  split; [by apply (table_well_formed vss)|done].
Qed.

(** C25: For every schedule that the constructor accepts and at any time,
    the recursive search ends, after finitely many rounds, with a time that
    is later than now and matches all six levels of the schedule (in a time
    zone at a fixed offset from UTC). *)
Theorem GetNextTime_terminates d s off now :
  Schedule_new d = Ret s ->
  exists fuel t, (forall f, (fuel <= f)%nat -> @GetNextTime (fixed_zone off) s f now = Ret t) /\
    now < t /\ @matches (fixed_zone off) s t = true.
Proof.
  intros [Hwf Hp]%Schedule_new_ok. destruct (possible_times s off (now + 1) Hwf Hp) as (t0 & Ht0 & Hle & Hns).
  destruct (search_ends s Hwf off (now + 1) t0 Ht0 Hle Hns) as (n & t & Hr). exists n, t.
  destruct (search_sound s Hwf off n (now + 1) t (Hr n ltac:(lia))) as (H1 & H2 & _).
  split; [|split; [lia|exact H2]]. intros f Hf. unfold GetNextTime. rewrite Hr by done. cbn [mbind outcome_bind].
  by rewrite (proj2 (Z.leb_gt t now)) by lia.
Qed.

Definition ex_description : list ascii := chars "0;0,30;8;;;1,2,3,4,5".
Definition ex_table : list bool := match Schedule_new ex_description with Ret s => s | _ => [] end.
Definition at_time (y m d h mi s : Z) : Z := date_number y (m - 1) (d - 1) * 86400 + h * 3600 + mi * 60 + s.

Lemma GetNextTime_terminates_witness :
  exists fuel t, (forall f, (fuel <= f)%nat ->
      @GetNextTime (fixed_zone 0) ex_table f (at_time 2015 10 16 9 0 0) = Ret t) /\
    at_time 2015 10 16 9 0 0 < t /\ @matches (fixed_zone 0) ex_table t = true.
Proof. apply (GetNextTime_terminates ex_description). vm_compute. reflexivity. Defined.

(** C26: In a time zone at a fixed offset from UTC, when the schedule names
    a single second or has no constraint on weekdays, the time found is the
    earliest later time that matches the schedule, except that the first two
    days of March can be missed when February and a day after the 29th are
    scheduled. *)
Theorem GetNextTime_earliest d s off fuel now t :
  Schedule_new d = Ret s -> @GetNextTime (fixed_zone off) s fuel now = Ret t ->
  every_weekday s \/ single_second s ->
  forall t', @matches (fixed_zone off) s t' = true -> now < t' -> ~ skipped s (gmtime (t' + off)) -> t <= t'.
Proof.
  intros [Hwf _]%Schedule_new_ok E Hw t' Ht' Hlt Hns. unfold GetNextTime in E.
  apply bind_Ret in E as (t0 & E0 & E). destruct (search_sound s Hwf off _ _ _ E0) as (H1 & _ & H3).
  rewrite (proj2 (Z.leb_gt t0 now)) in E by lia. injection E as <-. apply H3; [done|done|lia|done].
Qed.

Lemma GetNextTime_earliest_witness :
  @matches (fixed_zone 0) ex_table (at_time 2015 10 19 8 30 0) = true /\
  at_time 2015 10 19 8 0 0 <= at_time 2015 10 19 8 30 0.
Proof.
  split; [vm_compute; reflexivity|].
  apply (GetNextTime_earliest ex_description ex_table 0 10 (at_time 2015 10 16 9 0 0)).
  - vm_compute. reflexivity.
  - vm_compute. reflexivity.
  - right. intros v w Hv Hw Hv' Hw'.
    assert (H : forall x, 0 <= x < 60 -> flag ex_table SCHEDULE_LEVEL_SEC x = true -> x = 0).
    { assert (Hall : forallb (fun x => negb (flag ex_table SCHEDULE_LEVEL_SEC x) || (x =? 0)) (seqZ 0 60) = true)
        by (vm_compute; reflexivity).
      intros x Hx Hf. pose proof (forallb_seqZ _ _ x Hall Hx) as H. cbv beta in H. rewrite Hf in H. by apply Z.eqb_eq. }
    rewrite (H v), (H w); done.
  - vm_compute. reflexivity.
  - vm_compute. reflexivity.
  - intros (H & _). vm_compute in H. discriminate H.
Defined.

(** With the 1st and the 30th of every month scheduled, the search from
    the first of February finds the 30th of March: mktime turns the 30th of
    February into the 2nd of March and the search goes on from there, past
    the 1st. *)
Theorem GetNextTime_skips_march :
  let s := match Schedule_new (chars "0;0;0;0,29") with Ret s => s | _ => [] end in
  let now := at_time 2015 2 1 12 0 0 in
  @GetNextTime (fixed_zone 0) s 10 now = Ret (at_time 2015 3 30 0 0 0) /\
  @matches (fixed_zone 0) s (at_time 2015 3 1 0 0 0) = true /\ now < at_time 2015 3 1 0 0 0.
Proof. vm_compute. repeat split. Qed.

(** When the first candidate has the wrong weekday the search goes on
    from the next day with the seconds of the candidate, so that seconds 0
    and 30 at midnight on Mondays gives second 30 although second 0 matches
    too. *)
Theorem GetNextTime_keeps_second :
  let s := match Schedule_new (chars "0,30;0;0;;;1") with Ret s => s | _ => [] end in
  let now := at_time 2015 2 1 0 0 10 in
  @GetNextTime (fixed_zone 0) s 10 now = Ret (at_time 2015 2 2 0 0 30) /\
  @matches (fixed_zone 0) s (at_time 2015 2 2 0 0 0) = true /\ now < at_time 2015 2 2 0 0 0.
Proof. vm_compute. repeat split. Qed.
