(* ===== verification/WorkflowSchedule.v ===== *)
(** [WorkflowSchedule.cpp]: a schedule of the database, with the workflow that it
    launches. *)

From S2P Require Import Prelude CString DB Schedule WorkflowParameters.

Open Scope Z_scope.

Inductive onfailure_behavior : Type := CONTINUE | SUSPEND.

(** [onfailure] stays indeterminate ([None]) when the database holds another
    word. *)
Record WorkflowSchedule : Type := mkWorkflowSchedule {
  workflow_schedule_id : Z;
  workflow_name : string;
  onfailure : option onfailure_behavior;
  workflow_schedule_host : option string;
  workflow_schedule_user : option string;
  parameters : WorkflowParameters;
  schedule : list bool;
}.

(** A field that the code takes the length of. *)
Definition text (n : nat) (row : row_type) : outcome string :=
  f ← deref (row !! n);
  deref f.

Definition read_onfailure (s : string) : option onfailure_behavior :=
  match strcmp s "CONTINUE" with
  | Eq => Some CONTINUE
  | _ => match strcmp s "SUSPEND" with Eq => Some SUSPEND | _ => None end
  end.

(** The loop on the rows of the parameters; the result of [Add] is ignored. *)
Fixpoint read_parameters (rows : list row_type) (p : WorkflowParameters) : outcome WorkflowParameters :=
  match rows with
  | [] => Ret p
  | row :: rows =>
      n ← text 0 row;
      v ← text 1 row;
      read_parameters rows (snd (Add n v p))
  end.

(** The constructor, on the rows that its two queries fetch. *)
Definition WorkflowSchedule_new (id : Z) (rows parameter_rows : list row_type) : outcome WorkflowSchedule :=
  match rows with
  | [] => Throw (mkException "WorkflowSchedule" "Unknown schedule ID")
  | row :: _ =>
      name ← text 0 row;
      description ← text 1 row;
      schedule ← Schedule_new (chars description);
      onfailure ← text 2 row;
      host ← deref (row !! 3%nat);
      user ← deref (row !! 4%nat);
      parameters ← read_parameters parameter_rows WorkflowParameters_new;
      Ret (mkWorkflowSchedule id name (read_onfailure onfailure) host user parameters schedule)
  end.

(** The statement of [SetStatus]. *)
Definition SetStatus (active : bool) (ws : WorkflowSchedule) : string * list arg :=
  ((if active
    then "UPDATE t_workflow_schedule SET workflow_schedule_active=1 WHERE workflow_schedule_id=%i"
    else "UPDATE t_workflow_schedule SET workflow_schedule_active=0 WHERE workflow_schedule_id=%i")%string,
   [ArgInt (Some (workflow_schedule_id ws))]).
