(* ===== verification/WorkflowScheduler.v ===== *)
(** [WorkflowScheduler.cpp]: the launch of scheduled workflows.  Each active
    schedule waits for its time as an event of the scheduler, or its workflow is
    executing and its slot in the array of executing instances holds it. *)

From S2P Require Import Prelude CString Lookup DB Scheduler WorkflowSchedule.

Open Scope Z_scope.

Abbreviation wfs_ref := positive (only parsing).

(** * State *)

(** [heap]: the [WorkflowSchedule] objects that are allocated.  The three arrays
    have the same length, [num_wfs]; a null pointer is [None]. *)
Record WorkflowScheduler : Type := mkWorkflowScheduler {
  base : Scheduler.Scheduler wfs_ref;
  wfs_ids : list Z;
  wfs_wi_ids : list Z;
  wfs_executing_instances : list (option wfs_ref);
  heap : gmap wfs_ref WorkflowSchedule.WorkflowSchedule;
}.

Definition set_base (b : Scheduler.Scheduler wfs_ref) (s : WorkflowScheduler) : WorkflowScheduler :=
  mkWorkflowScheduler b (wfs_ids s) (wfs_wi_ids s) (wfs_executing_instances s) (heap s).
Definition set_slots (wi_ids : list Z) (executing : list (option wfs_ref)) (s : WorkflowScheduler)
    : WorkflowScheduler :=
  mkWorkflowScheduler (base s) (wfs_ids s) wi_ids executing (heap s).
Definition set_heap (h : gmap wfs_ref WorkflowSchedule.WorkflowSchedule) (s : WorkflowScheduler)
    : WorkflowScheduler :=
  mkWorkflowScheduler (base s) (wfs_ids s) (wfs_wi_ids s) (wfs_executing_instances s) h.

(** [delete] of an object that is not allocated is undefined behaviour. *)
Definition free (r : wfs_ref) (s : WorkflowScheduler) : outcome WorkflowScheduler :=
  _ ← deref (heap s !! r);
  Ret (set_heap (delete r (heap s)) s).

(** Access through a pointer. *)
Definition object (r : option wfs_ref) (s : WorkflowScheduler) : outcome WorkflowSchedule.WorkflowSchedule :=
  r ← deref r;
  deref (heap s !! r).

(** [new WorkflowSchedule]: some address that is not allocated. *)
Definition alloc (ws : WorkflowSchedule.WorkflowSchedule) (s : WorkflowScheduler) : wfs_ref * WorkflowScheduler :=
  let r := fresh (dom (heap s)) in
  (r, set_heap (<[r := ws]> (heap s)) s).

Definition lookup (ids : list Z) (id : Z) : outcome Z := binary_search ids id.
Definition lookup_wfs (id : Z) (s : WorkflowScheduler) : outcome Z := lookup (wfs_ids s) id.

(** [init], with the identifiers that the query gives in order. *)
Definition init (ids : list Z) (s : WorkflowScheduler) : WorkflowScheduler :=
  mkWorkflowScheduler (base s) ids (replicate (List.length ids) 0) (replicate (List.length ids) None) (heap s).

Definition WorkflowScheduler_new (ids : list Z) : WorkflowScheduler :=
  init ids (mkWorkflowScheduler Scheduler_new [] [] [] ∅).

(** * Operations *)

Section operations.
(** [Schedule::GetNextTime] at the given time. *)
Context (GetNextTime : list bool -> Z -> outcome Z).

(** Puts a schedule in its executing slot; nothing when it has none. *)
Definition set_executing (ws : WorkflowSchedule.WorkflowSchedule) (r : wfs_ref) (workflow_instance_id : Z)
    (s : WorkflowScheduler) : outcome WorkflowScheduler :=
  i ← lookup_wfs (workflow_schedule_id ws) s;
  if i =? -1 then Ret s
  else
    wi_ids ← aset (wfs_wi_ids s) i workflow_instance_id;
    executing ← aset (wfs_executing_instances s) i (Some r);
    Ret (set_slots wi_ids executing s).

Definition ScheduleWorkflow (now : Z) (workflow_schedule : option wfs_ref) (workflow_instance_id : Z)
    (s : WorkflowScheduler) : outcome WorkflowScheduler :=
  ws ← object workflow_schedule s;
  r ← deref workflow_schedule;
  if workflow_instance_id =? 0 then
    t ← GetNextTime (schedule ws) now;
    Ret (set_base (snd (InsertEvent (mkEvent t r) (base s))) s)
  else set_executing ws r workflow_instance_id s.

(** [true]: the database was told that the schedule is not active any more. *)
Definition ScheduledWorkflowInstanceStop (now id : Z) (success : bool) (s : WorkflowScheduler)
    : outcome (bool * WorkflowScheduler) :=
  i ← lookup_wfs id s;
  if i =? -1 then Ret (false, s)
  else
    workflow_schedule ← aget (wfs_executing_instances s) i;
    wi_ids ← aset (wfs_wi_ids s) i 0;
    executing ← aset (wfs_executing_instances s) i None;
    let s := set_slots wi_ids executing s in
    continue ← (if success then Ret true
                else
                  ws ← object workflow_schedule s;
                  b ← deref (onfailure ws);
                  Ret (match b with CONTINUE => true | SUSPEND => false end));
    if continue : bool then
      s ← ScheduleWorkflow now workflow_schedule 0 s;
      Ret (false, s)
    else
      r ← deref workflow_schedule;
      s ← free r s;
      Ret (true, s).

(** [event_removed] with [ALARM], up to [Start].  [instance] is what the constructor
    does, [logged] what [Logger::Log] does once the instance is in its slot, and
    [caught] what it does in the handler, which frees the schedule and deletes the
    instance, if there is one: its destructor stops it, with no task in error. *)
Definition alarm (now : Z) (r : wfs_ref) (instance : outcome Z) (logged caught : outcome unit) (s : WorkflowScheduler)
    : outcome WorkflowScheduler :=
  ws ← object (Some r) s;
  match instance with
  | Throw _ => _ ← caught; free r s
  | Ret workflow_instance_id =>
      s ← set_executing ws r workflow_instance_id s;
      match logged with
      | Throw _ =>
          _ ← caught;
          s ← free r s;
          if workflow_schedule_id ws =? 0 then Ret s
          else
            '(_, s) ← ScheduledWorkflowInstanceStop now (workflow_schedule_id ws) true s;
            Ret s
      | Ret _ => Ret s
      | Undef => Undef
      end
  | Undef => Undef
  end.

(** [event_removed] with [FLUSH], for each event that [Flush] removes. *)
Fixpoint free_events (events : list (Scheduler.Event wfs_ref)) (s : WorkflowScheduler)
    : outcome WorkflowScheduler :=
  match events with
  | [] => Ret s
  | e :: events => s ← free (data e) s; free_events events s
  end.

Fixpoint free_executing (l : list (option wfs_ref)) (s : WorkflowScheduler) : outcome WorkflowScheduler :=
  match l with
  | [] => Ret s
  | None :: l => free_executing l s
  | Some r :: l => s ← free r s; free_executing l s
  end.

(** A row of the second query of [Reload]: the identifier, and what the
    constructor of [WorkflowSchedule] does with it. *)
Definition load : Type := Z * outcome WorkflowSchedule.WorkflowSchedule.

(** The [while] loop of [Reload].  An exception is caught and the schedule is
    left out. *)
Fixpoint reload_rows (now : Z) (backup : WorkflowScheduler) (rows : list load) (s : WorkflowScheduler)
    : outcome WorkflowScheduler :=
  match rows with
  | [] => Ret s
  | (_, Throw _) :: rows => reload_rows now backup rows s
  | (_, Undef) :: _ => Undef
  | (id, Ret ws) :: rows =>
      let '(r, s) := alloc ws s in
      i ← lookup (wfs_ids backup) id;
      executing ← (if i =? -1 then Ret None else aget (wfs_executing_instances backup) i);
      s ← (match executing with
           | None => ScheduleWorkflow now (Some r) 0 s
           | Some _ =>
               wi_id ← aget (wfs_wi_ids backup) i;
               ScheduleWorkflow now (Some r) wi_id s
           end);
      reload_rows now backup rows s
  end.

Definition Reload (now : Z) (ids : list Z) (rows : list load) (s : WorkflowScheduler) : outcome WorkflowScheduler :=
  let '(removed, _, b) := Flush false (fun _ => false) (base s) in
  s ← free_events removed (set_base b s);
  let backup := s in
  s ← reload_rows now backup rows (init ids s);
  free_executing (wfs_executing_instances backup) s.

(** The loop of the main program that loads the schedules at the start, with the
    identifiers of the instances that were resumed, 0 when there is none. *)
Fixpoint start_schedules (now : Z) (rows : list (outcome WorkflowSchedule.WorkflowSchedule * Z)) (s : WorkflowScheduler)
    : outcome WorkflowScheduler :=
  match rows with
  | [] => Ret s
  | (Throw _, _) :: rows => start_schedules now rows s
  | (Undef, _) :: _ => Undef
  | (Ret ws, workflow_instance_id) :: rows =>
      let '(r, s) := alloc ws s in
      s ← ScheduleWorkflow now (Some r) workflow_instance_id s;
      start_schedules now rows s
  end.

(** The destructor: the schedules of the events are deleted. *)
Definition WorkflowScheduler_delete (s : WorkflowScheduler) : outcome WorkflowScheduler :=
  free_events (first_event (base s)) s.
End operations.
