(* ===== verification/WorkflowSchedulerSafety.v ===== *)
(** The life of the [WorkflowSchedule] objects that the workflow scheduler holds
    in its events, in its array of executing instances and in the hands of its
    threads; and how an instance that stops can find nothing in its slot. *)

From S2P Require Import Prelude CString Lookup Scheduler WorkflowParameters WorkflowSchedule WorkflowScheduler.

Open Scope Z_scope.

(** * Lists of events *)

Lemma InsertEvent_perm {P} (e : Scheduler.Event P) s : first_event (InsertEvent e s).2 ≡ₚ e :: first_event s.
Proof.
  unfold InsertEvent. destruct (first_event s) as [|f r]; [done|].
  destruct (_ <? _); cbn [snd first_event]; [done|].
  destruct (insert_after_split e r) as (l1 & l2 & -> & -> & _).
  rewrite <- (Permutation_middle l1 l2 e). apply Permutation_swap.
Qed.

Lemma flush_loop_all {P} (f : Scheduler.Event P -> bool) a w n l :
  exists w' n', flush_loop false f a w n l = ([], l, w', n').
Proof.
  revert a w n. induction l as [|e l IH]; intros a w n; [by eexists _, _|].
  cbn [flush_loop negb orb]. destruct (IH a (w || a) (u32 (n - 1))) as (w' & n' & ->). by eexists _, _.
Qed.

Lemma Flush_all {P} (f : Scheduler.Event P -> bool) s removed w b :
  Flush false f s = (removed, w, b) -> removed ++ first_event b = first_event s.
Proof.
  unfold Flush. destruct (number_of_events s =? 0); [intros [= <- <- <-]; done|].
  destruct (flush_loop_all f true false (number_of_events s) (first_event s)) as (w' & n' & ->).
  intros [= <- <- <-]. apply app_nil_r.
Qed.

(** * Ownership *)

(** Every reference of the list is to an object, and to one of its own. *)
Definition owned (l : list wfs_ref) (s : WorkflowScheduler) : Prop :=
  NoDup l /\ forall r, r ∈ l -> is_Some (heap s !! r).

Definition pending (s : WorkflowScheduler) : list wfs_ref := data <$> first_event (base s).
Definition slots (l : list (option wfs_ref)) : list wfs_ref := omap id l.
Definition footprint (s : WorkflowScheduler) (hand : list wfs_ref) : list wfs_ref :=
  pending s ++ slots (wfs_executing_instances s) ++ hand.

Lemma owned_submseteq l k s : k ⊆+ l -> owned l s -> owned k s.
Proof.
  intros Hs [Hn Hl]. split.
  - apply submseteq_Permutation in Hs as [l' E]. rewrite E in Hn. by apply NoDup_app in Hn as [? _].
  - intros r Hr. apply Hl. by eapply elem_of_submseteq.
Qed.

Lemma owned_perm l k s : l ≡ₚ k -> owned l s -> owned k s.
Proof. intros Hp. apply owned_submseteq. by rewrite Hp. Qed.

Lemma owned_heap l s s' : heap s' = heap s -> owned l s -> owned l s'.
Proof. intros E [Hn Hl]. split; [done|]. by rewrite E. Qed.

Lemma owned_free r l s : owned (r :: l) s ->
  exists s', free r s = Ret s' /\ s' = set_heap (delete r (heap s)) s /\ owned l s'.
Proof.
  intros [[Hr Hn]%NoDup_cons Hl]. unfold free. destruct (Hl r ltac:(by left)) as [ws E]. rewrite E.
  eexists. split; [done|]. split; [done|]. split; [done|]. intros q Hq. cbn [heap set_heap].
  rewrite lookup_delete_ne by (intros ->; done). apply Hl. by right.
Qed.

Lemma owned_alloc ws l s r s' : alloc ws s = (r, s') -> owned l s -> owned (r :: l) s' /\ heap s' = <[r := ws]> (heap s).
Proof.
  intros [= <- <-] [Hn Hl]. cbn [heap set_heap]. pose proof (is_fresh (dom (heap s))) as Hf.
  split; [|done]. split.
  - constructor; [|done]. intros Hr. apply Hl in Hr. by apply elem_of_dom in Hr.
  - intros q Hq. cbn [heap set_heap]. destruct (decide (q = fresh (dom (heap s)))) as [->|Hne]; [by rewrite lookup_insert_eq|].
    rewrite lookup_insert_ne by done. apply elem_of_cons in Hq as [?|Hq]; [done|]. by apply Hl.
Qed.

Section safety.
Context (GetNextTime : list bool -> Z -> outcome Z).

(** A time is found for the schedule, whenever it is asked for. *)
Definition answering (ws : WorkflowSchedule.WorkflowSchedule) : Prop :=
  forall now, exists t, GetNextTime (schedule ws) now = Ret t.

(** What the query of [init] gives. *)
Definition ids_ok (ids : list Z) : Prop := sorted_keys ids /\ 2 * Z.of_nat (List.length ids) < 2 ^ 31.

(** The three arrays have one length, and the identifiers are sorted. *)
Record arrays_ok (s : WorkflowScheduler) : Prop := {
  a_ids : ids_ok (wfs_ids s);
  a_wi : List.length (wfs_wi_ids s) = List.length (wfs_ids s);
  a_executing : List.length (wfs_executing_instances s) = List.length (wfs_ids s);
}.

Definition heap_ok (s : WorkflowScheduler) : Prop := forall r ws, heap s !! r = Some ws -> answering ws.

(** The state with the references that threads hold, and no others. *)
Record safe (hand : list wfs_ref) (s : WorkflowScheduler) : Prop := {
  s_arrays : arrays_ok s;
  s_heap : heap_ok s;
  s_owned : owned (footprint s hand) s;
}.

Lemma safe_drop r hand s : safe (r :: hand) s -> safe hand s.
Proof.
  intros [Ha Hh Ho]. split; [done..|]. eapply owned_submseteq; [|done].
  unfold footprint. do 2 apply submseteq_skips_l. by apply submseteq_cons.
Qed.

Lemma safe_perm hand hand' s : hand ≡ₚ hand' -> safe hand s -> safe hand' s.
Proof.
  intros E [Ha Hh Ho]. split; [done..|]. eapply owned_perm; [|done]. unfold footprint. by rewrite E.
Qed.

Lemma safe_live r hand s : safe (r :: hand) s -> exists ws, object (Some r) s = Ret ws /\ answering ws.
Proof.
  intros [_ Hh [_ Hl]]. destruct (Hl r) as [ws E].
  { unfold footprint. rewrite !elem_of_app, elem_of_cons. tauto. }
  exists ws. unfold object. cbn. rewrite E. split; [done|]. by eapply Hh.
Qed.

Lemma safe_free r hand s : safe (r :: hand) s -> exists s', free r s = Ret s' /\ safe hand s' /\
  (wfs_ids s' = wfs_ids s /\ wfs_wi_ids s' = wfs_wi_ids s /\
   wfs_executing_instances s' = wfs_executing_instances s /\ base s' = base s).
Proof.
  intros [Ha Hh Ho]. destruct (owned_free r (footprint s hand) s) as (s' & E & -> & Ho').
  { eapply owned_perm; [|done]. unfold footprint. by rewrite !(app_assoc _ _ (r :: _)), <- Permutation_middle, <- app_assoc. }
  eexists. split; [done|]. split; [|done]. split.
  - destruct Ha as [H1 H2 H3]. by split.
  - intros q ws. cbn [heap set_heap]. intros [_ Hq]%lookup_delete_Some. by eapply Hh.
  - done.
Qed.

Lemma safe_alloc ws hand s : safe hand s -> answering ws -> safe ((alloc ws s).1 :: hand) (alloc ws s).2.
Proof.
  intros [Ha Hh Ho] Hws. destruct (alloc ws s) as [r s'] eqn:E.
  destruct (owned_alloc _ _ _ _ _ E Ho) as [Ho' Eh]. cbn [fst snd].
  unfold alloc in E. injection E as <- <-. split.
  - destruct Ha as [H1 H2 H3]. by split.
  - intros q w. cbn [heap set_heap]. intros [[_ <-]|[_ Hq]]%lookup_insert_Some; [done|]. by eapply Hh.
  - eapply owned_perm; [|done]. unfold footprint. cbn [base wfs_executing_instances set_heap pending].
    by rewrite Permutation_middle, Permutation_middle.
Qed.

Lemma lookup_result ids id : ids_ok ids ->
  exists i, lookup ids id = Ret i /\ (i = -1 \/ 0 <= i < Z.of_nat (List.length ids)).
Proof.
  intros [H1 H2]. destruct (binary_search_found ids id H1 H2) as (i & Hi & Hf).
  exists i. split; [done|]. destruct Hf as [[H0 Hl]|[-> _]]; [right|by left].
  apply lookup_lt_Some in Hl. lia.
Qed.

Lemma aset_in {A} (l : list A) i v : 0 <= i < Z.of_nat (List.length l) -> aset l i v = Ret (<[Z.to_nat i := v]> l).
Proof. intros H. by apply aset_Ret. Qed.

Lemma aget_in {A} (l : list A) i : 0 <= i < Z.of_nat (List.length l) ->
  exists v, aget l i = Ret v /\ l !! Z.to_nat i = Some v.
Proof.
  intros H. destruct (lookup_lt_is_Some_2 l (Z.to_nat i)) as [v E]; [lia|]. exists v. split; [|done].
  apply aget_Ret. split; [lia|done].
Qed.

(** Overwriting a slot. *)
Lemma slots_insert (l : list (option wfs_ref)) i old new :
  l !! i = Some old ->
  option_list old ++ slots (<[i := new]> l) ≡ₚ option_list new ++ slots l.
Proof.
  revert i. induction l as [|x l IH]; intros [|i] Hl; simplify_eq/=.
  - destruct old, new; cbn; try done. apply Permutation_swap.
  - specialize (IH i Hl). destruct x as [x|]; cbn; [|done].
    rewrite <- !Permutation_middle. by rewrite IH.
Qed.

(** A schedule goes from the hand of a thread to its slot. *)
Lemma safe_set_executing ws r wid hand s : safe (r :: hand) s ->
  exists s', set_executing ws r wid s = Ret s' /\ safe hand s'.
Proof.
  intros Hs. pose proof Hs as [[Hi H1 H2] Hh Ho]. unfold set_executing, lookup_wfs.
  destruct (lookup_result _ (workflow_schedule_id ws) Hi) as (i & -> & Hf).
  cbn [mbind outcome_bind]. destruct (Z.eqb_spec i (-1)) as [->|Hne].
  { exists s. split; [done|]. by eapply safe_drop. }
  rewrite !aset_in by lia. cbn [mbind outcome_bind]. eexists. split; [done|].
  destruct (aget_in (wfs_executing_instances s) i ltac:(lia)) as (old & _ & El).
  split; [by split; cbn; rewrite ?length_insert|done|].
  eapply owned_heap; [|eapply owned_submseteq; [|exact Ho]]; [done|]. unfold footprint. cbn.
  apply submseteq_skips_l. pose proof (slots_insert _ _ _ (Some r) El) as E. cbn [option_list app] in E.
  rewrite <- Permutation_middle. change (r :: ?l ++ hand) with ((r :: l) ++ hand).
  apply submseteq_skips_r. rewrite <- E. by apply submseteq_inserts_l.
Qed.

(** ... or to an event, unless an instance of the workflow is running. *)
Lemma safe_ScheduleWorkflow now r wid hand s : safe (r :: hand) s ->
  exists s', ScheduleWorkflow GetNextTime now (Some r) wid s = Ret s' /\ safe hand s'.
Proof.
  intros Hs. unfold ScheduleWorkflow. destruct (safe_live _ _ _ Hs) as (ws & -> & Hg).
  cbn [mbind outcome_bind deref]. destruct (wid =? 0); [|by apply safe_set_executing].
  destruct (Hg now) as [t ->]. cbn [mbind outcome_bind]. eexists. split; [done|].
  destruct Hs as [[H1 H2 H3] Hh Ho]. split; [by split|done|].
  eapply owned_heap; [|eapply owned_perm; [|exact Ho]]; [done|].
  unfold footprint, pending. cbn [base set_base wfs_executing_instances].
  rewrite (InsertEvent_perm (mkEvent t r) (base s)). cbn.
  by rewrite !app_assoc, <- Permutation_middle.
Qed.

(** The constructor may throw, the log may not. *)
Lemma safe_alarm now r instance hand s : safe (r :: hand) s -> instance <> Undef ->
  exists s', alarm GetNextTime now r instance (Ret tt) (Ret tt) s = Ret s' /\ safe hand s'.
Proof.
  intros Hs Hi. unfold alarm. destruct (safe_live _ _ _ Hs) as (ws & -> & _). cbn [mbind outcome_bind].
  destruct instance as [id|e|]; [| |done].
  - destruct (safe_set_executing ws r id hand s Hs) as (s' & -> & Hs'). by exists s'.
  - destruct (safe_free _ _ _ Hs) as (s' & E & Hs' & _). eauto.
Qed.

(** The instance that stops is in its slot, and a result that is not a success
    finds what to do. *)
Definition stops_in_slot (id : Z) (success : bool) (s : WorkflowScheduler) : Prop :=
  forall i, lookup_wfs id s = Ret i -> i <> -1 ->
  exists r ws, wfs_executing_instances s !! Z.to_nat i = Some (Some r) /\ object (Some r) s = Ret ws /\
    (success = false -> is_Some (onfailure ws)).

Lemma safe_stop now id success hand s : safe hand s -> stops_in_slot id success s ->
  exists b s', ScheduledWorkflowInstanceStop GetNextTime now id success s = Ret (b, s') /\ safe hand s'.
Proof.
  intros Hs Hr. pose proof Hs as [[Hi H1 H2] Hh Ho]. unfold ScheduledWorkflowInstanceStop, stops_in_slot, lookup_wfs in *.
  destruct (lookup_result _ id Hi) as (i & E & Hf). rewrite E in *. specialize (Hr i eq_refl).
  cbn [mbind outcome_bind]. destruct (Z.eqb_spec i (-1)) as [->|Hne]; [by eauto|].
  destruct (Hr Hne) as (r & ws & El & Eo & Hw).
  destruct (aget_in (wfs_executing_instances s) i ltac:(lia)) as (old & -> & El'). rewrite El in El'. injection El' as <-.
  rewrite !aset_in by lia. cbn [mbind outcome_bind].
  set (s1 := set_slots _ _ s). assert (Hs1 : safe (r :: hand) s1).
  { split; [by split; cbn; rewrite ?length_insert|done|].
    eapply owned_heap; [|eapply owned_perm; [|exact Ho]]; [done|]. unfold footprint. cbn.
    pose proof (slots_insert _ _ _ None El) as Ep. cbn [option_list app] in Ep.
    rewrite <- Ep. cbn. apply Permutation_app_head, Permutation_middle. }
  change (object (Some r) s1) with (object (Some r) s). rewrite Eo. cbn [mbind outcome_bind].
  assert (exists b : bool, (if success then Ret true else b0 ← deref (onfailure ws);
     Ret match b0 with CONTINUE => true | SUSPEND => false end) = Ret b) as [b ->].
  { destruct success; [by eauto|]. destruct (Hw eq_refl) as [f ->]. by eexists. }
  cbn [mbind outcome_bind]. destruct b.
  - destruct (safe_ScheduleWorkflow now r 0 hand s1 Hs1) as (s' & -> & Hs'). by eexists _, _.
  - cbn [deref mbind outcome_bind]. destruct (safe_free _ _ _ Hs1) as (s' & -> & Hs' & _). by eexists _, _.
Qed.

(** What does not change when objects are freed. *)
Definition same_fields (s s' : WorkflowScheduler) : Prop :=
  wfs_ids s' = wfs_ids s /\ wfs_wi_ids s' = wfs_wi_ids s /\
  wfs_executing_instances s' = wfs_executing_instances s /\ base s' = base s.

Lemma safe_free_events l hand s : safe ((data <$> l) ++ hand) s ->
  exists s', free_events l s = Ret s' /\ safe hand s' /\ same_fields s s'.
Proof.
  revert s. induction l as [|e l IH]; intros s Hs; [by exists s|]. cbn [free_events].
  destruct (safe_free _ _ _ Hs) as (s1 & -> & Hs1 & F1). destruct (IH s1 Hs1) as (s2 & E & Hs2 & F2).
  exists s2. cbn [mbind outcome_bind]. unfold same_fields in *. intuition congruence.
Qed.

Lemma safe_free_executing l hand s : safe (slots l ++ hand) s ->
  exists s', free_executing l s = Ret s' /\ safe hand s'.
Proof.
  revert s. induction l as [|[r|] l IH]; intros s Hs; [by exists s| |by apply IH]. cbn [free_executing].
  destruct (safe_free _ _ _ Hs) as (s1 & -> & Hs1 & _). by apply IH.
Qed.

Lemma safe_Flush f hand s removed w b : safe hand s -> Flush false f (base s) = (removed, w, b) ->
  safe ((data <$> removed) ++ hand) (set_base b s).
Proof.
  intros [[H1 H2 H3] Hh Ho] E%Flush_all. split; [by split|done|].
  eapply owned_heap; [|eapply owned_perm; [|exact Ho]]; [done|].
  unfold footprint, pending. cbn [base set_base wfs_executing_instances]. rewrite <- E, fmap_app.
  rewrite <- !app_assoc. rewrite Permutation_app_swap_app. apply Permutation_app_head.
  apply Permutation_app_swap_app.
Qed.

Lemma slots_replicate n : slots (replicate n None) = [].
Proof. induction n; [done|]. cbn. done. Qed.

Lemma safe_init ids hand s : ids_ok ids -> safe hand s ->
  safe (slots (wfs_executing_instances s) ++ hand) (init ids s).
Proof.
  intros Hi [Ha Hh Ho]. split; [by split; cbn; rewrite ?length_replicate|done|].
  eapply owned_heap; [|eapply owned_perm; [|exact Ho]]; [done|].
  unfold footprint. cbn [init wfs_executing_instances]. by rewrite slots_replicate.
Qed.

(** The constructor refuses the row with an exception, or makes a schedule for
    which a time is found. *)
Definition row_ok (row : load) : Prop :=
  match row.2 with Ret ws => answering ws | Throw _ => True | Undef => False end.

Lemma safe_reload_rows now backup rows hand s : arrays_ok backup -> Forall row_ok rows -> safe hand s ->
  exists s', reload_rows GetNextTime now backup rows s = Ret s' /\ safe hand s'.
Proof.
  intros [Hi H1 H2] Hr. revert s. induction Hr as [|[id o] rows Ho _ IH]; intros s Hs; [by exists s|].
  destruct o as [ws|e|]; cbn [reload_rows]; [|by apply IH|done].
  pose proof (safe_alloc ws hand s Hs Ho) as Hs1. destruct (alloc ws s) as [r s1]. cbn [fst snd] in Hs1.
  destruct (lookup_result _ id Hi) as (i & -> & Hf). cbn [mbind outcome_bind].
  assert (exists wid, forall K : outcome WorkflowScheduler -> Prop,
    K (ScheduleWorkflow GetNextTime now (Some r) wid s1) ->
    K (executing ← (if i =? -1 then Ret None else aget (wfs_executing_instances backup) i);
       match executing with
       | None => ScheduleWorkflow GetNextTime now (Some r) 0 s1
       | Some _ => wi_id ← aget (wfs_wi_ids backup) i; ScheduleWorkflow GetNextTime now (Some r) wi_id s1
       end)) as [wid HK].
  { destruct (Z.eqb_spec i (-1)); [by exists 0|].
    destruct (aget_in (wfs_executing_instances backup) i ltac:(lia)) as (old & -> & _).
    destruct (aget_in (wfs_wi_ids backup) i ltac:(lia)) as (wid & -> & _).
    destruct old; [by exists wid|by exists 0]. }
  destruct (safe_ScheduleWorkflow now r wid hand s1 Hs1) as (s2 & E & Hs2).
  destruct (IH s2 Hs2) as (s3 & E3 & Hs3). exists s3. split; [|done].
  revert HK. destruct (if i =? -1 then _ else _) as [ex|e|]; intros HK.
  - cbn [mbind outcome_bind] in *. specialize (HK (fun o => o = Ret s2) E). 
    change (outcome_bind _ _ ?k ?m) with (m ≫= k). by rewrite HK.
  - specialize (HK (fun o => o = Ret s2) E). discriminate.
  - specialize (HK (fun o => o = Ret s2) E). discriminate.
Qed.

Lemma safe_start_schedules now rows hand s :
  Forall (fun row => row_ok (0, row.1)) rows -> safe hand s ->
  exists s', start_schedules GetNextTime now rows s = Ret s' /\ safe hand s'.
Proof.
  intros Hr. revert s. induction Hr as [|[o wid] rows Ho _ IH]; intros s Hs; [by exists s|].
  destruct o as [ws|e|]; cbn [start_schedules]; [|by apply IH|done].
  pose proof (safe_alloc ws hand s Hs Ho) as Hs1. destruct (alloc ws s) as [r s1]. cbn [fst snd] in Hs1.
  destruct (safe_ScheduleWorkflow now r wid hand s1 Hs1) as (s2 & -> & Hs2). by apply IH.
Qed.

Lemma owned_free_events l s : owned (data <$> l) s -> exists s', free_events l s = Ret s'.
Proof.
  revert s. induction l as [|e l IH]; intros s Ho; [by eexists|]. cbn [free_events].
  destruct (owned_free _ _ _ Ho) as (s1 & -> & _ & Ho1). by apply IH.
Qed.

Lemma safe_delete hand s : safe hand s -> exists s', WorkflowScheduler_delete s = Ret s'.
Proof.
  intros [_ _ Ho]. apply owned_free_events. eapply owned_submseteq; [|exact Ho].
  unfold footprint, pending. by apply submseteq_inserts_r.
Qed.

Lemma safe_Reload now ids rows hand s : ids_ok ids -> Forall row_ok rows -> safe hand s ->
  exists s', Reload GetNextTime now ids rows s = Ret s' /\ safe hand s'.
Proof.
  intros Hi Hr Hs. unfold Reload. destruct (Flush _ _ _) as [[removed w] b] eqn:EF.
  destruct (safe_free_events _ _ _ (safe_Flush _ _ _ _ _ _ Hs EF)) as (s1 & -> & Hs1 & _).
  cbn [mbind outcome_bind]. pose proof (safe_init ids hand s1 Hi Hs1) as Hs2.
  destruct (safe_reload_rows now s1 rows _ _ (s_arrays _ _ Hs1) Hr Hs2) as (s3 & -> & Hs3).
  cbn [mbind outcome_bind]. by apply safe_free_executing.
Qed.

(** * The system *)

(** The objects that threads hold, between the removal of their event and the
    end of [event_removed], and the state. *)
Definition system : Type := list wfs_ref * WorkflowScheduler.

(** [Logger::Log] returns, or throws when it writes to the database
    ([logger.db.enable]) and this fails. *)
Definition logs (log_fails : bool) (o : outcome unit) : Prop :=
  match o with Ret _ => True | Throw _ => log_fails = true | Undef => False end.

(** What one thread does at a time: the main program loads the schedules; a thread takes the first event when it is due; it
    handles the event that it took; an instance that was launched stops; the
    schedules are loaded again. *)
Inductive step (log_fails : bool) : system -> outcome system -> Prop :=
  | step_fire t e b hand s :
      shift_event t (base s) = (Some e, b) ->
      step log_fails (hand, s) (Ret (data e :: hand, set_base b s))
  | step_alarm now r instance logged caught hand hand' s :
      hand ≡ₚ r :: hand' -> instance <> Undef -> logs log_fails logged -> logs log_fails caught ->
      step log_fails (hand, s) (s' ← alarm GetNextTime now r instance logged caught s; Ret (hand', s'))
  | step_stop now id success hand s :
      stops_in_slot id success s ->
      step log_fails (hand, s) (r ← ScheduledWorkflowInstanceStop GetNextTime now id success s; Ret (hand, r.2))
  | step_start now rows hand s :
      Forall (fun row => row_ok (0, row.1)) rows ->
      step log_fails (hand, s) (s' ← start_schedules GetNextTime now rows s; Ret (hand, s'))
  | step_reload now ids rows hand s :
      ids_ok ids -> Forall row_ok rows ->
      step log_fails (hand, s) (s' ← Reload GetNextTime now ids rows s; Ret (hand, s')).

Lemma safe_new ids : ids_ok ids -> safe [] (WorkflowScheduler_new ids).
Proof.
  intros Hi. split; [by split; cbn; rewrite ?length_replicate|done|].
  unfold footprint. cbn. rewrite slots_replicate. split; [constructor|]. intros r Hr. by apply not_elem_of_nil in Hr.
Qed.

Lemma step_safe y o : step false y o -> safe y.1 y.2 -> exists y', o = Ret y' /\ safe y'.1 y'.2.
Proof.
  intros [t e b hand s E|now r instance logged caught hand hand' s E Hi H1 H2|now id success hand s E|now rows hand s Hr|now ids rows hand s Hi Hr] Hs; cbn [fst snd] in Hs.
  - eexists. split; [done|]. cbn [fst snd]. assert (first_event (base s) = e :: first_event b) as Ef.
    { revert E. unfold shift_event. destruct (first_event (base s)) as [|f r]; [done|]. by case_match; intros [= <- <-]. }
    destruct Hs as [[H1 H2 H3] Hh Ho]. split; [by split|done|].
    eapply owned_heap; [|eapply owned_perm; [|exact Ho]]; [done|].
    unfold footprint, pending. cbn [base set_base wfs_executing_instances]. rewrite Ef. cbn.
    by rewrite !app_assoc, <- Permutation_middle.
  - apply (safe_perm _ _ _ E) in Hs. destruct logged as [[]|e|], caught as [[]|e'|]; try done.
    destruct (safe_alarm now r instance _ _ Hs Hi) as (s' & -> & Hs'). by eexists.
  - destruct (safe_stop now id success _ _ Hs E) as (d & s' & -> & Hs'). by eexists.
  - destruct (safe_start_schedules now rows _ _ Hr Hs) as (s' & -> & Hs'). by eexists.
  - destruct (safe_Reload now ids rows _ _ Hi Hr Hs) as (s' & -> & Hs'). by eexists.
Qed.

Definition runs (log_fails : bool) (x y : system) : Prop := step log_fails x (Ret y).

Lemma runs_safe ids (y : system) : ids_ok ids -> rtc (runs false) ([], WorkflowScheduler_new ids) y -> safe y.1 y.2.
Proof.
  intros Hi Hr. revert y Hr. apply (rtc_ind_r (fun x => safe x.1 x.2)); [by apply safe_new|].
  intros x z _ Hx IH. destruct (step_safe _ _ Hx IH) as (y' & [= <-] & Hs'). done.
Qed.

(** C20: Through any interleaving of alarms, ends of instances found in
    their slot and reloads, as long as the messages of the log are written
    without an exception, every WorkflowSchedule referenced from an event, a
    slot or a thread is allocated and referenced once: no operation
    dereferences or frees a dead schedule, nor indexes an array out of
    bounds. *)
Theorem schedules_memory_safe ids (y : system) : ids_ok ids -> rtc (runs false) ([], WorkflowScheduler_new ids) y ->
  owned (footprint y.2 y.1) y.2 /\
  (forall o, step false y o -> exists y', o = Ret y') /\
  (exists s, WorkflowScheduler_delete y.2 = Ret s).
Proof.
  intros Hi Hr. pose proof (runs_safe _ _ Hi Hr) as Hs. split; [apply Hs|]. split; [|by eapply safe_delete].
  intros o Ho. destruct (step_safe _ _ Ho Hs) as (y' & E & _). eauto.
Qed.

(** ** An exception of the log after the instance was put in its slot *)

Lemma alarm_log_dangles_slot now r id e hand s i ws :
  safe (r :: hand) s -> object (Some r) s = Ret ws -> workflow_schedule_id ws <> 0 ->
  lookup_wfs (workflow_schedule_id ws) s = Ret i -> i <> -1 ->
  alarm GetNextTime now r (Ret id) (Throw e) (Ret tt) s = Undef.
Proof.
  intros Hs Ho Hz Hl Hi. pose proof Hs as [[Hids H1 H2] Hh Hown]. unfold alarm. rewrite Ho. cbn [mbind outcome_bind].
  unfold set_executing. rewrite Hl. cbn [mbind outcome_bind]. rewrite (proj2 (Z.eqb_neq i (-1))) by done.
  assert (Hr : 0 <= i < Z.of_nat (List.length (wfs_ids s))).
  { destruct (lookup_result _ (workflow_schedule_id ws) Hids) as (k & Ek & Hk). unfold lookup_wfs in Hl. rewrite Hl in Ek.
    injection Ek as ->. lia. }
  rewrite !aset_in by lia. cbn [mbind outcome_bind].
  unfold object in Ho. cbn [deref mbind outcome_bind] in Ho. unfold free. cbn [heap set_slots].
  destruct (heap s !! r) as [ws'|] eqn:Er; [|done]. injection Ho as ->.
  rewrite (proj2 (Z.eqb_neq (workflow_schedule_id ws) 0)) by done. cbn [deref mbind outcome_bind].
  unfold ScheduledWorkflowInstanceStop, lookup_wfs in *. cbn [wfs_ids set_heap set_slots]. rewrite Hl. cbn [mbind outcome_bind].
  rewrite (proj2 (Z.eqb_neq i (-1))) by done. cbn [wfs_executing_instances wfs_wi_ids set_heap set_slots].
  rewrite (proj2 (aget_Ret _ _ (Some r))).
  2: { split; [lia|]. apply list_lookup_insert_eq. lia. }
  cbn [mbind outcome_bind]. rewrite !aset_in by (rewrite length_insert; lia). cbn [mbind outcome_bind].
  unfold ScheduleWorkflow, object. cbn [deref mbind outcome_bind heap set_heap set_slots]. by rewrite lookup_delete_eq.
Qed.

(** From any state that the other steps reach: if [Logger::Log] throws once an instance
    is in the slot of its schedule, the schedule is freed in its slot and the deletion of
    the instance uses it. *)
Theorem alarm_log_dangles ids (y : system) now r hand id e i ws :
  ids_ok ids -> rtc (runs false) ([], WorkflowScheduler_new ids) y -> y.1 ≡ₚ r :: hand ->
  object (Some r) y.2 = Ret ws -> workflow_schedule_id ws <> 0 ->
  lookup_wfs (workflow_schedule_id ws) y.2 = Ret i -> i <> -1 ->
  alarm GetNextTime now r (Ret id) (Throw e) (Ret tt) y.2 = Undef /\
  step true y Undef.
Proof.
  intros Hi Hr Hy Ho Hz Hl Hn. pose proof (runs_safe _ _ Hi Hr) as Hs.
  assert (E : alarm GetNextTime now r (Ret id) (Throw e) (Ret tt) y.2 = Undef).
  { eapply alarm_log_dangles_slot; try done. by eapply safe_perm. }
  split; [done|]. pose proof (step_alarm true now r (Ret id) (Throw e) (Ret tt) y.1 hand y.2 Hy ltac:(done) eq_refl I) as St.
  rewrite E in St. by destruct y.
Qed.

(** ** An instance that stops when its slot is empty *)

Lemma stop_empty_slot now id success s i :
  lookup_wfs id s = Ret i -> 0 <= i -> wfs_executing_instances s !! Z.to_nat i = Some None ->
  List.length (wfs_wi_ids s) = List.length (wfs_executing_instances s) ->
  ScheduledWorkflowInstanceStop GetNextTime now id success s = Undef.
Proof.
  intros El Hi Hs Hl. unfold ScheduledWorkflowInstanceStop. rewrite El. cbn [mbind outcome_bind].
  rewrite (proj2 (Z.eqb_neq _ _)) by lia. rewrite (proj2 (aget_Ret _ _ _) (conj Hi Hs)). cbn [mbind outcome_bind].
  apply lookup_lt_Some in Hs. rewrite !aset_in by lia. by destruct success.
Qed.

Lemma lookup_in ids id : ids_ok ids -> id ∈ ids -> exists i, lookup ids id = Ret i /\ 0 <= i < Z.of_nat (List.length ids).
Proof.
  intros [H1 H2] Hin. destruct (binary_search_found ids id H1 H2) as (i & Hi & Hf).
  exists i. split; [done|]. destruct Hf as [[H0 Hl]|[_ Hno]]; [apply lookup_lt_Some in Hl; lia|done].
Qed.

(** Schedules loaded without a running instance leave the slots alone. *)
Lemma start_schedules_slots now rows s s' :
  Forall (fun row => row.2 = 0) rows -> start_schedules GetNextTime now rows s = Ret s' ->
  wfs_ids s' = wfs_ids s /\ wfs_wi_ids s' = wfs_wi_ids s /\ wfs_executing_instances s' = wfs_executing_instances s.
Proof.
  intros Hz. revert s. induction Hz as [|[[ws|e|] wid] rows Hw _ IH]; intros s E; cbn [start_schedules] in E; [|..|done].
  - by injection E as <-.
  - cbn in Hw. subst wid. destruct (alloc ws s) as [r s1] eqn:Ea. unfold ScheduleWorkflow in E.
    apply bind_Ret in E as (s2 & E2 & E). apply bind_Ret in E2 as (w & _ & E2). cbn [deref mbind outcome_bind] in E2.
    change (0 =? 0) with true in E2. cbv iota in E2. apply bind_Ret in E2 as (t & _ & E2). injection E2 as <-.
    apply IH in E. unfold alloc in Ea. injection Ea as <- <-. exact E.
  - by apply IH.
Qed.

(** The main program resumes the instances, and then loads the schedules; with a
    savepoint level of 0 or 1 the query gives no instance any more. *)
Lemma resumed_stop_null now now' ids id rows s success :
  ids_ok ids -> id ∈ ids -> Forall (fun row => row.2 = 0) rows ->
  start_schedules GetNextTime now rows (WorkflowScheduler_new ids) = Ret s ->
  ScheduledWorkflowInstanceStop GetNextTime now' id success s = Undef.
Proof.
  intros Hi Hin Hz E. apply start_schedules_slots in E as (E1 & E2 & E3); [|done].
  destruct (lookup_in ids id Hi Hin) as (i & El & Hr).
  apply (stop_empty_slot _ _ _ _ i); rewrite ?E2, ?E3.
  - unfold lookup_wfs. by rewrite E1.
  - lia.
  - cbn. apply lookup_replicate. split; [done|lia].
  - cbn. by rewrite !length_replicate.
Qed.
End safety.

(** * Examples *)

Definition ex_ws : WorkflowSchedule.WorkflowSchedule :=
  mkWorkflowSchedule 7 "nightly" (Some SUSPEND) None None WorkflowParameters_new [].

Definition next_second (s : list bool) (now : Z) : outcome Z := Ret (now + 1).

(** The schedule is loaded, its time comes and the workflow is launched. *)
Definition ex_running : outcome WorkflowScheduler :=
  s ← Reload next_second 100 [7] [(7, Ret ex_ws)] (WorkflowScheduler_new [7]);
  match shift_event 101 (base s) with
  | (Some e, b) => alarm next_second 101 (data e) (Ret 42) (Ret tt) (Ret tt) (set_base b s)
  | (None, _) => Undef
  end.

(** While it runs, the schedule is disabled and enabled again, with two loads. *)
Definition ex_reloaded : outcome WorkflowScheduler :=
  s ← ex_running;
  s ← Reload next_second 102 [] [] s;
  Reload next_second 103 [7] [(7, Ret ex_ws)] s.

(** C33: ScheduledWorkflowInstanceStop dereferences a null pointer when the
    slot of a known schedule is empty, as it is for every instance resumed
    at the start until the schedules are loaded, afterwards too at savepoint
    levels 0 and 1, where the query finds no instance, and for a schedule
    that was disabled and enabled again while its instance was running. *)
Theorem stop_null_slot :
  (forall GetNextTime now now' ids id rows s success,
     ids_ok ids -> id ∈ ids -> Forall (fun row => row.2 = 0) rows ->
     start_schedules GetNextTime now rows (WorkflowScheduler_new ids) = Ret s ->
     ScheduledWorkflowInstanceStop GetNextTime now' id success s = Undef) /\
  (exists s, ex_reloaded = Ret s /\
     forall success, ScheduledWorkflowInstanceStop next_second 104 7 success s = Undef).
Proof.
  split; [exact resumed_stop_null|]. eexists. split; [vm_compute; reflexivity|].
  intros []; vm_compute; reflexivity.
Qed.

Lemma ex_ids : ids_ok [7].
Proof. split; [|by compute]. intros [|i] [|j] a b Hij H1 H2; (lia || done). Qed.

Lemma ex_row : Forall (row_ok next_second) [(7, Ret ex_ws)].
Proof. constructor; [|constructor]. intros now. by eexists. Qed.

Lemma schedules_memory_safe_witness :
  exists y, rtc (runs next_second false) ([], WorkflowScheduler_new [7]) y /\
    slots (wfs_executing_instances y.2) <> [] /\ owned (footprint y.2 y.1) y.2 /\
    (forall o, step next_second false y o -> exists y', o = Ret y') /\
    (exists s, WorkflowScheduler_delete y.2 = Ret s).
Proof.
  destruct ex_running as [s| |] eqn:E; [|by vm_compute in E..].
  exists ([], s). assert (Hr : rtc (runs next_second false) ([], WorkflowScheduler_new [7]) ([], s)).
  { unfold ex_running in E. destruct (Reload next_second 100 [7] [(7, Ret ex_ws)] (WorkflowScheduler_new [7])) as [s1| |] eqn:E1; [|done..].
    cbn [mbind outcome_bind] in E. destruct (shift_event 101 (base s1)) as [[e|] b] eqn:E2; [|done].
    eapply rtc_l with (y := ([], s1)).
    { pose proof (step_reload next_second false 100 [7] [(7, Ret ex_ws)] [] (WorkflowScheduler_new [7]) ex_ids ex_row) as H.
      by rewrite E1 in H. }
    eapply rtc_l with (y := ([data e], set_base b s1)); [by apply (step_fire _ _ 101)|].
    apply rtc_once. pose proof (step_alarm next_second false 101 (data e) (Ret 42) (Ret tt) (Ret tt) [data e] [] (set_base b s1) (Permutation_refl _) ltac:(done) I I) as H.
    by rewrite E in H. }
  split; [exact Hr|]. split; [vm_compute in E; injection E as <-; done|].
  apply (schedules_memory_safe next_second [7]); [exact ex_ids|exact Hr].
Defined.

(** The schedule is due and in the hand of the thread. *)
Lemma alarm_log_dangles_witness :
  exists y e, rtc (runs next_second false) ([], WorkflowScheduler_new [7]) y /\ y.1 = [data e] /\
    alarm next_second 101 (data e) (Ret 42) (Throw (mkException "DB" "Unable to connect to database")) (Ret tt) y.2 = Undef.
Proof.
  destruct (Reload next_second 100 [7] [(7, Ret ex_ws)] (WorkflowScheduler_new [7])) as [s| |] eqn:E; [|by vm_compute in E..].
  destruct (shift_event 101 (base s)) as [[e|] b] eqn:E2.
  2: { exfalso. vm_compute in E. injection E as <-. by vm_compute in E2. }
  assert (Hr : rtc (runs next_second false) ([], WorkflowScheduler_new [7]) ([data e], set_base b s)).
  { eapply rtc_l with (y := ([], s)).
    { pose proof (step_reload next_second false 100 [7] [(7, Ret ex_ws)] [] (WorkflowScheduler_new [7]) ex_ids ex_row) as H.
      by rewrite E in H. }
    apply rtc_once. by apply (step_fire _ _ 101). }
  exists ([data e], set_base b s), e. split; [exact Hr|]. split; [done|].
  apply (alarm_log_dangles next_second [7] _ 101 (data e) [] 42 _ 0 ex_ws ex_ids Hr); try done;
    vm_compute in E; injection E as <-; vm_compute in E2; injection E2 as <- <-; by vm_compute.
Defined.
