(* ===== verification/Status.v ===== *)
(** The XML documents that the engine sends about its state: the elements that
    [SendStatistics] and the [SendStatus] functions build before they are
    serialized and sent. *)

From S2P Require Import Prelude CString Lookup QueueIface Queue QueuePool Scheduler Statistics WorkflowInstances.
From S2P Require Import WorkflowSchedule WorkflowScheduler WorkflowSchedulerSafety.

Open Scope Z_scope.

Inductive xml : Type := Node (name : string) (attributes : list (string * string)) (children : list xml).

(** [QueuePool::SendStatistics]: the loop on the queues from [i] on. *)
Fixpoint queue_nodes (n : nat) (i : Z) (p : QueuePool.QueuePool Queue.Queue) : outcome (list xml) :=
  match n with
  | O => Ret []
  | S n =>
      name ← aget (QueuePool.name p) i;
      q ← aget (QueuePool.queue p) i;
      rest ← queue_nodes n (i + 1) p;
      Ret (Node "queue"
             [("name", name);
              ("concurrency", sprintf_d (i32 (Queue.concurrency q)));
              ("size", sprintf_d (i32 (Queue.size q)));
              ("running_tasks", sprintf_d (i32 (Queue.running_tasks q)))]%string [] :: rest)
  end.

Definition SendStatistics (p : QueuePool.QueuePool Queue.Queue) : outcome xml :=
  queue_node ← queue_nodes (List.length (QueuePool.queue p)) 0 p;
  Ret (Node "statistics" [] queue_node).

Definition GlobalStatistics (s : Statistics.Statistics) : xml :=
  Node "statistics" (SendGlobalStatistics s) [].

Section scheduler.
(** [localtime_r] and [strftime]. *)
Context (format_time : Z -> string).

Fixpoint event_nodes (events : list (Scheduler.Event wfs_ref)) (s : WorkflowScheduler.WorkflowScheduler)
    : outcome (list xml) :=
  match events with
  | [] => Ret []
  | e :: events =>
      ws ← object (Some (data e)) s;
      rest ← event_nodes events s;
      Ret (Node "workflow"
             [("workflow_schedule_id", sprintf_d (i32 (workflow_schedule_id ws)));
              ("name", workflow_name ws);
              ("scheduled_at", format_time (scheduled_at e))]%string [] :: rest)
  end.

Fixpoint executing_nodes (executing : list (option wfs_ref)) (i : Z) (s : WorkflowScheduler.WorkflowScheduler)
    : outcome (list xml) :=
  match executing with
  | [] => Ret []
  | None :: executing => executing_nodes executing (i + 1) s
  | Some r :: executing =>
      ws ← object (Some r) s;
      wi_id ← aget (wfs_wi_ids s) i;
      rest ← executing_nodes executing (i + 1) s;
      Ret (Node "workflow"
             [("workflow_schedule_id", sprintf_d (i32 (workflow_schedule_id ws)));
              ("name", workflow_name ws);
              ("workflow_instance_id", sprintf_d (i32 wi_id));
              ("scheduled_at", "running")]%string [] :: rest)
  end.

Definition SendStatus (s : WorkflowScheduler.WorkflowScheduler) : outcome xml :=
  waiting ← event_nodes (first_event (base s)) s;
  executing ← executing_nodes (wfs_executing_instances s) 0 s;
  Ret (Node "status" [] (waiting ++ executing)).
End scheduler.

(** [WorkflowInstances::SendStatus]; [status] is the document of an instance, as
    it is sent. *)
Definition SendInstances (status : wi_ref -> string) (s : WorkflowInstances.WorkflowInstances) : list string :=
  ["<workflows>"%string] ++ (status <$> WorkflowInstances.RecordSavepoint s) ++ ["</workflows>"%string].

(** * The documents can be built *)

Lemma queue_nodes_built n i p :
  0 <= i -> i + Z.of_nat n = Z.of_nat (List.length (QueuePool.queue p)) ->
  List.length (QueuePool.name p) = List.length (QueuePool.queue p) ->
  exists l, queue_nodes n i p = Ret l /\ List.length l = n.
Proof.
  revert i. induction n as [|n IH]; intros i Hi Hn Hl; [by exists []|]. cbn [queue_nodes].
  destruct (aget_in (QueuePool.name p) i ltac:(lia)) as (nm & -> & _).
  destruct (aget_in (QueuePool.queue p) i ltac:(lia)) as (q & -> & _).
  destruct (IH (i + 1) ltac:(lia) ltac:(lia) Hl) as (l & El & Hlen). cbn [mbind outcome_bind]. rewrite El.
  eexists. split; [done|]. cbn. by rewrite Hlen.
Qed.

Lemma SendStatistics_built p : QueuePool.wf p -> exists l, SendStatistics p = Ret (Node "statistics" [] l) /\
  List.length l = List.length (QueuePool.name p).
Proof.
  intros W. pose proof (wf_names _ W) as E. unfold SendStatistics.
  destruct (queue_nodes_built (List.length (QueuePool.queue p)) 0 p ltac:(lia) ltac:(lia) E) as (l & -> & Hl).
  eexists. split; [done|]. by rewrite Hl.
Qed.

(** Every reference that [SendStatus] follows is to a schedule that is allocated. *)
Lemma SendStatus_built format_time GetNextTime hand s : safe GetNextTime hand s ->
  exists x, SendStatus format_time s = Ret x.
Proof.
  intros [[Hi H1 H2] Hh [_ Ho]]. unfold SendStatus.
  assert (HE : forall l, (forall r, r ∈ data <$> l -> is_Some (heap s !! r)) -> exists x, event_nodes format_time l s = Ret x).
  { induction l as [|e l IH]; intros Hl; [by eexists|]. cbn [event_nodes].
    destruct (Hl (data e)) as [ws E]; [by left|]. unfold object. cbn [deref mbind outcome_bind]. rewrite E. cbn [deref mbind outcome_bind].
    destruct IH as [x ->]; [intros r Hr; apply Hl; by right|]. by eexists. }
  destruct (HE (first_event (base s))) as [x ->].
  { intros r Hr. apply Ho. unfold footprint, pending. rewrite !elem_of_app. by left. }
  cbn [mbind outcome_bind].
  assert (HX : forall l i, 0 <= i -> i + Z.of_nat (List.length l) = Z.of_nat (List.length (wfs_wi_ids s)) ->
    (forall r, r ∈ slots l -> is_Some (heap s !! r)) -> exists x, executing_nodes l i s = Ret x).
  { induction l as [|[r|] l IH]; intros i Hi0 Hn Hl; [by eexists| |]; cbn [executing_nodes].
    - destruct (Hl r) as [ws E]; [by left|]. unfold object. cbn [deref mbind outcome_bind]. rewrite E. cbn [deref mbind outcome_bind].
      destruct (aget_in (wfs_wi_ids s) i) as (w & -> & _); [cbn in Hn; lia|]. cbn [mbind outcome_bind].
      destruct (IH (i + 1)) as [y ->]; [lia|cbn in Hn; lia|intros q Hq; apply Hl; by right|]. by eexists.
    - apply IH; [lia|cbn in Hn; lia|done]. }
  destruct (HX (wfs_executing_instances s) 0) as [y ->]; [lia|lia| |by eexists].
  intros r Hr. apply Ho. unfold footprint. rewrite !elem_of_app. tauto.
Qed.
