(* ===== verification/Engine.v ===== *)
(** The life of a workflow instance in the engine: what the constructor and the
    destructor of [WorkflowInstance] do to the map of instances, to the workflow
    scheduler and to the counters. *)

From S2P Require Import Prelude Statistics WorkflowInstances WorkflowSchedule WorkflowScheduler WorkflowSchedulerSafety.

Open Scope Z_scope.

Record engine : Type := mkEngine {
  workflow_instances : WorkflowInstances.WorkflowInstances;
  scheduler : WorkflowScheduler.WorkflowScheduler;
  statistics : Statistics.Statistics;
}.

Definition engine_new (ids : list Z) : engine :=
  mkEngine WorkflowInstances_new (WorkflowScheduler_new ids) Statistics_new.

(** The end of the constructors. *)
Definition construct (workflow_instance_id : Z) (instance : wi_ref) (e : engine) : engine :=
  mkEngine (WorkflowInstances.Add workflow_instance_id instance (workflow_instances e)) (scheduler e)
    (IncWorkflowInstanceExecuting (statistics e)).

(** The destructor; also returns the condition that is broadcast.  [now] is the
    time that [GetNextTime] sees. *)
Definition destruct_instance (GetNextTime : list bool -> Z -> outcome Z) (now : Z)
    (workflow_instance_id workflow_schedule_id error_tasks : Z) (e : engine) : outcome (option cond_ref * engine) :=
  let '(c, w) := WorkflowInstances.Remove workflow_instance_id (workflow_instances e) in
  s ← (if negb (workflow_schedule_id =? 0) then
         r ← ScheduledWorkflowInstanceStop GetNextTime now workflow_schedule_id (error_tasks =? 0) (scheduler e);
         Ret (snd r)
       else Ret (scheduler e));
  Ret (c, mkEngine w s (DecWorkflowInstanceExecuting (statistics e))).

(** * The instances that are alive *)

(** The identifier of a new instance is not in use, and only instances that were
    constructed are destructed; clients reset the counters at any time. *)
Inductive step (GetNextTime : list bool -> Z -> outcome Z) : bool -> engine -> engine -> Prop :=
  | step_construct id i e :
      wi (workflow_instances e) !! id = None -> Z.of_nat (size (wi (workflow_instances e))) + 1 < 2 ^ 32 ->
      step GetNextTime false e (construct id i e)
  | step_destruct now id schedule errors c e e' :
      is_Some (wi (workflow_instances e) !! id) ->
      destruct_instance GetNextTime now id schedule errors e = Ret (c, e') -> step GetNextTime false e e'
  | step_reset e :
      step GetNextTime true e (mkEngine (workflow_instances e) (scheduler e) (ResetGlobalStatistics (statistics e))).

(** Runs, and whether the counters were reset. *)
Inductive runs (GetNextTime : list bool -> Z -> outcome Z) (e0 : engine) : bool -> engine -> Prop :=
  | runs_nil : runs GetNextTime e0 false e0
  | runs_step b b' e e' : runs GetNextTime e0 b e -> step GetNextTime b' e e' -> runs GetNextTime e0 (b || b') e'.

Definition alive (e : engine) : Z := Z.of_nat (size (wi (workflow_instances e))).

Lemma alive_construct id i e : wi (workflow_instances e) !! id = None -> alive (construct id i e) = alive e + 1.
Proof. intros H. unfold alive. cbn. rewrite map_size_insert_None by done. lia. Qed.

Lemma alive_destruct GetNextTime now id schedule errors c e e' :
  is_Some (wi (workflow_instances e) !! id) ->
  destruct_instance GetNextTime now id schedule errors e = Ret (c, e') ->
  alive e' = alive e - 1 /\ 0 < alive e /\ statistics e' = DecWorkflowInstanceExecuting (statistics e).
Proof.
  intros Hs E. unfold destruct_instance in E.
  destruct (WorkflowInstances.Remove id (workflow_instances e)) as [c' w] eqn:R.
  apply bind_Ret in E as (s & _ & E). injection E as _ <-. unfold alive. cbn [workflow_instances statistics].
  assert (wi w = delete id (wi (workflow_instances e))) as ->.
  { unfold WorkflowInstances.Remove in R. cbn [wi wi_wait] in R. destruct (wi_wait _ !! id); injection R as _ <-; done. }
  rewrite map_size_delete_Some by done. assert (size (wi (workflow_instances e)) <> 0%nat); [|repeat split; lia].
  intros Hz. apply map_size_empty_inv in Hz. rewrite Hz, lookup_empty in Hs. by destruct Hs.
Qed.

(** The counter of executing instances is the number of instances in the map, or
    less once the counters were reset. *)
Lemma executing_alive GetNextTime ids b e : runs GetNextTime (engine_new ids) b e ->
  0 <= workflow_instance_executing (statistics e) <= alive e /\ alive e < 2 ^ 32 /\
  (b = false -> workflow_instance_executing (statistics e) = alive e).
Proof.
  induction 1 as [|b b' e e' _ [IH1 [IH2 IH3]] S]; [by unfold alive|].
  destruct S as [id i e Hn Hs|now id sc er c e e' Hs E|e].
  - rewrite alive_construct by done. rewrite orb_false_r. destruct (statistics e) as [? ? ? ? ? ? ? ? x ?] eqn:Es.
    unfold construct. cbn [statistics]. rewrite Es. cbn [IncWorkflowInstanceExecuting workflow_instance_executing] in *.
    unfold alive in *. rewrite u32_small by lia. split; [lia|]. split; [lia|]. intros Hb. specialize (IH3 Hb). lia.
  - destruct (alive_destruct _ _ _ _ _ _ _ _ Hs E) as (-> & Hp & ->). rewrite orb_false_r.
    destruct (statistics e) as [? ? ? ? ? ? ? ? x ?]. cbn [DecWorkflowInstanceExecuting workflow_instance_executing] in *.
    destruct (Z.gtb_spec x 0); [rewrite u32_small by lia|]; (split; [lia|]; split; [lia|]; intros Hb; specialize (IH3 Hb); lia).
  - rewrite orb_true_r. cbn. split; [unfold alive in *; cbn; lia|]. split; [done|done].
Qed.

(** A resumed instance of a schedule, which the query of the savepoint level 0 or
    1 does not find any more, cannot be destructed. *)
Lemma resumed_instance_destruct GetNextTime now now' ids rows s id schedule errors w st :
  ids_ok ids -> schedule ∈ ids -> schedule <> 0 -> Forall (fun row => row.2 = 0) rows ->
  start_schedules GetNextTime now rows (WorkflowScheduler_new ids) = Ret s ->
  destruct_instance GetNextTime now' id schedule errors (mkEngine w s st) = Undef.
Proof.
  intros Hi Hin Hz Hr E. unfold destruct_instance. destruct (WorkflowInstances.Remove id _) as [c w'].
  rewrite (proj2 (Z.eqb_neq schedule 0)) by done. cbn [negb scheduler].
  by rewrite (resumed_stop_null _ now now' ids schedule rows s _ Hi Hin Hr E).
Qed.
