(* ===== verification/Dom.v ===== *)
(** The interface of the XML documents (Xerces) and of XPath (XQilla) that the
    workflow instances call.  These libraries are not part of the program: the
    operations are the methods of a class, their documented behaviour, as far
    as the program relies on it, its laws. *)

From S2P Require Import Prelude CString.

Open Scope Z_scope.

(** An item of the result of an XPath expression. *)
Inductive item : Type :=
  | INode (n : node_ref)
  | IAtom (v : string).

Class Dom (D : Type) : Type := {
  (* [parser->parse], [None]: no document *)
  parse : string -> option D;
  writeToString : D -> node_ref -> string;
  getDocumentElement : D -> option node_ref;

  getNamedItem : D -> node_ref -> string -> option string;
  setAttribute : node_ref -> string -> string -> D -> D;
  removeAttribute : node_ref -> string -> D -> D;
  getTextContent : D -> node_ref -> string;
  setTextContent : node_ref -> string -> D -> D;

  getParentNode : D -> node_ref -> option node_ref;
  createElement : string -> D -> node_ref * D;
  createTextNode : string -> D -> node_ref * D;
  (* [cloneNode(true)] *)
  cloneNode : node_ref -> D -> node_ref * D;
  (* [importNode(node,true)] of a node of another document *)
  importNode : D -> node_ref -> D -> node_ref * D;
  (* the parent comes first *)
  appendChild : node_ref -> node_ref -> D -> D;
  removeChild : node_ref -> node_ref -> D -> D;
  replaceChild : node_ref -> node_ref -> node_ref -> D -> D;
  insertBefore : node_ref -> node_ref -> node_ref -> D -> D;

  (* expression, context node; [None]: an [XQillaException] *)
  evaluate : string -> node_ref -> D -> option (list item);
  getIntegerValue : D -> item -> option Z;
  (* [XMLString::parseInt], [None]: an exception *)
  parseInt : string -> option Z;
}.

(** [getAttribute] gives the empty string for a missing attribute. *)
Definition getAttribute {D} `{Dom D} (d : D) (n : node_ref) (a : string) : string :=
  default ""%string (getNamedItem d n a).

Definition hasAttribute {D} `{Dom D} (d : D) (n : node_ref) (a : string) : bool :=
  match getNamedItem d n a with Some _ => true | None => false end.

(** Attributes are a map from the names to the values. *)
Class DomAttributes (D : Type) `{Dom D} : Prop := {
  getNamedItem_set_eq d n a v : getNamedItem (setAttribute n a v d) n a = Some v;
  getNamedItem_set_ne d n a v n' a' :
    (n, a) <> (n', a') -> getNamedItem (setAttribute n a v d) n' a' = getNamedItem d n' a';
  getDocumentElement_set d n a v : getDocumentElement (setAttribute n a v d) = getDocumentElement d;
  getIntegerValue_set d n a v i : getIntegerValue (setAttribute n a v d) i = getIntegerValue d i;
  parseInt_sprintf z : - 2 ^ 31 <= z < 2 ^ 31 -> parseInt (sprintf_d z) = Some z;
}.

Lemma getAttribute_set_eq {D} `{DomAttributes D} d n a v :
  getAttribute (setAttribute n a v d) n a = v.
Proof. unfold getAttribute. by rewrite getNamedItem_set_eq. Qed.

Lemma getAttribute_set_ne {D} `{DomAttributes D} d n a v n' a' :
  (n, a) <> (n', a') -> getAttribute (setAttribute n a v d) n' a' = getAttribute d n' a'.
Proof. intros ?. unfold getAttribute. by rewrite getNamedItem_set_ne. Qed.
