(* ===== verification/TreeDom.v ===== *)
(** A concrete document type: an instance of the interface [Dom], on which the
    programs of [WorkflowInstance] run.  It evaluates the XPath expressions that
    are written in the program, child paths and integer constants, and it reads
    the documents of a given list. *)

From S2P Require Import Prelude CString Dom.

Open Scope Z_scope.

(** * Documents *)

Record doc : Type := mkDoc {
  tags : gmap node_ref string;
  texts : gmap node_ref string;
  attrs : gmap (node_ref * string) string;
  children : gmap node_ref (list node_ref);
  parents : gmap node_ref node_ref;
  root : option node_ref;
  next_ref : node_ref;
}.

Definition empty_doc : doc := mkDoc ∅ ∅ ∅ ∅ ∅ None 1.

Definition children_of (d : doc) (n : node_ref) : list node_ref := default [] (children d !! n).

Definition set_children (n : node_ref) (l : list node_ref) (d : doc) : doc :=
  mkDoc (tags d) (texts d) (attrs d) (<[n := l]> (children d)) (parents d) (root d) (next_ref d).
Definition set_parent (n : node_ref) (p : option node_ref) (d : doc) : doc :=
  mkDoc (tags d) (texts d) (attrs d) (children d)
    (match p with Some p => <[n := p]> (parents d) | None => delete n (parents d) end)
    (root d) (next_ref d).
Definition set_attrs (a : gmap (node_ref * string) string) (d : doc) : doc :=
  mkDoc (tags d) (texts d) a (children d) (parents d) (root d) (next_ref d).

(** A new node: an element with a tag, or a text. *)
Definition new_node (tag : option string) (text : string) (d : doc) : node_ref * doc :=
  let n := next_ref d in
  (n, match tag with
      | Some t => mkDoc (<[n := t]> (tags d)) (texts d) (attrs d) (children d) (parents d) (root d) (n + 1)%positive
      | None => mkDoc (tags d) (<[n := text]> (texts d)) (attrs d) (children d) (parents d) (root d) (n + 1)%positive
      end).

Definition add_child (p c : node_ref) (d : doc) : doc :=
  set_parent c (Some p) (set_children p (children_of d p ++ [c]) d).

Definition copy_attrs (src : doc) (n n' : node_ref) (d : doc) : doc :=
  set_attrs (foldr (fun '((m, a), v) at_ => if bool_decide (m = n) then <[(n', a) := v]> at_ else at_)
               (attrs d) (map_to_list (attrs src))) d.

(** A copy of a subtree of [src]; the fuel is its depth. *)
Fixpoint copy (fuel : nat) (src : doc) (n : node_ref) (d : doc) : node_ref * doc :=
  match fuel with
  | O => new_node None "" d
  | S fuel =>
      let '(n', d) := new_node (tags src !! n) (default ""%string (texts src !! n)) d in
      let d := copy_attrs src n n' d in
      (n', foldl (fun d c => let '(c', d) := copy fuel src c d in add_child n' c' d) d (children_of src n))
  end.

Definition doc_size (d : doc) : nat := S (Pos.to_nat (next_ref d)).

Definition replace_child (p : node_ref) (new : list node_ref) (old : node_ref) (d : doc) : doc :=
  set_children p (mjoin ((fun c => if bool_decide (c = old) then new else [c]) <$> children_of d p)) d.

(** The nodes below a node, in document order. *)
Fixpoint descendants (fuel : nat) (d : doc) (n : node_ref) : list node_ref :=
  match fuel with
  | O => []
  | S fuel => mjoin ((fun c => c :: descendants fuel d c) <$> children_of d n)
  end.

Fixpoint text_content (fuel : nat) (d : doc) (n : node_ref) : string :=
  match fuel with
  | O => ""
  | S fuel =>
      match texts d !! n with
      | Some t => t
      | None => foldr (fun c s => text_content fuel d c +:+ s) ""%string (children_of d n)
      end
  end.

Definition attr (d : doc) (n : node_ref) (a : string) : option string := attrs d !! (n, a).

Fixpoint serialize (fuel : nat) (d : doc) (n : node_ref) : string :=
  match fuel with
  | O => ""
  | S fuel =>
      match tags d !! n with
      | None => default ""%string (texts d !! n)
      | Some t =>
          "<" +:+ t +:+
          foldr (fun '((m, a), v) s =>
            if bool_decide (m = n) then " " +:+ a +:+ "='" +:+ v +:+ "'" +:+ s else s)
            ""%string (map_to_list (attrs d)) +:+ ">" +:+
          foldr (fun c s => serialize fuel d c +:+ s) ""%string (children_of d n) +:+
          "</" +:+ t +:+ ">"
      end
  end.

(** * Expressions *)

Definition named (d : doc) (t : string) (l : list node_ref) : list node_ref :=
  filter (fun n => tags d !! n = Some t) l.

(** A path of child steps. *)
Fixpoint child_path (steps : list string) (d : doc) (l : list node_ref) : list node_ref :=
  match steps with
  | [] => l
  | s :: steps => child_path steps d (named d s (mjoin (children_of d <$> l)))
  end.

(** The steps of an expression that is a child path. *)
Fixpoint path_steps (cur : list ascii) (e : list ascii) : option (list string) :=
  match e with
  | [] => match cur with [] => None | _ => Some [string_of_list_ascii (rev cur)] end
  | c :: e =>
      if code c =? 47 then
        match cur with
        | [] => None
        | _ => s ← path_steps [] e; Some (string_of_list_ascii (rev cur) :: s)
        end
      else if isalnum c || (code c =? 95) then path_steps (c :: cur) e
      else None
  end.

Definition has_status (d : doc) (n : node_ref) (s : string) : bool :=
  bool_decide (attr d n "status" = Some s).

Definition siblings (d : doc) (n : node_ref) : list node_ref :=
  match parents d !! n with Some p => children_of d p | None => [] end.

Definition all_tasks (d : doc) : list node_ref :=
  match root d with
  | Some r => named d "task" (r :: descendants (doc_size d) d r)
  | None => []
  end.

Definition number (n : nat) : list item := [IAtom (sprintf_d (Z.of_nat n))].
Definition nodes (l : list node_ref) : list item := INode <$> l.

(** The elements selected by a predicate that compares an attribute: the
    expression is the one that has the value of the attribute in it. *)
Definition selected (d : doc) (l : list node_ref) (a before e after : string) : list node_ref :=
  filter (fun n => match attr d n a with
                   | Some v => bool_decide (e = before +:+ v +:+ after)
                   | None => false
                   end = true) l.

(** [level[position()=n]]. *)
Fixpoint position (e : string) (i : Z) (l : list node_ref) : list node_ref :=
  match l with
  | [] => []
  | n :: l =>
      if bool_decide (e = "level[position()=" +:+ sprintf_d i +:+ "]") then [n] else position e (i + 1) l
  end.

Fixpoint is_prefix (p e : string) : bool :=
  match p with
  | EmptyString => true
  | String c p => match e with String c' e => bool_decide (c = c') && is_prefix p e | EmptyString => false end
  end.

Definition tree_evaluate (e : string) (ctx : node_ref) (d : doc) : option (list item) :=
  let below := descendants (doc_size d) d ctx in
  match path_steps [] (chars e) with
  | Some [s] =>
      match chars s with
      | c :: _ => if isdigit c then Some [IAtom s] else Some (nodes (child_path [s] d [ctx]))
      | [] => None
      end
  | Some steps => Some (nodes (child_path steps d [ctx]))
  | None =>
      if bool_decide (e = ".//value"%string) then Some (nodes (named d "value" below))
      else if bool_decide (e = ".//copy"%string) then Some (nodes (named d "copy" below))
      else if bool_decide (e = "count(../task)"%string) then
        Some (number (List.length (named d "task" (siblings d ctx))))
      else if bool_decide (e = "count(../task[@status='TERMINATED' and @retval = 0])"%string) then
        Some (number (List.length (filter (fun n => has_status d n "TERMINATED" = true /\
                                        attr d n "retval" = Some "0"%string)
                       (named d "task" (siblings d ctx)))))
      else if bool_decide (e = "count(level)"%string) then
        Some (number (List.length (child_path ["level"%string] d [ctx])))
      else if bool_decide (e = "count(input)"%string) then
        Some (number (List.length (child_path ["input"%string] d [ctx])))
      else if bool_decide (e = "count(parameters/parameter)"%string) then
        Some (number (List.length (child_path ["parameters"; "parameter"]%string d [ctx])))
      else if bool_decide
          (e = "//task[@status='QUEUED' or @status='EXECUTING' or @status='TERMINATED']"%string) then
        Some (nodes (filter (fun n => (has_status d n "QUEUED" || has_status d n "EXECUTING"
                                       || has_status d n "TERMINATED") = true) (all_tasks d)))
      else if bool_decide (e = "//task[@retry_schedule]"%string) then
        Some (nodes (filter (fun n => attr d n "retry_schedule" <> None) (all_tasks d)))
      else if is_prefix "//task[@status='EXECUTING' and @pid='" e then
        Some (nodes (filter (fun n => has_status d n "EXECUTING" = true)
          (selected d (all_tasks d) "pid" "//task[@status='EXECUTING' and @pid='" e "']")))
      else if is_prefix "schedules/schedule[@name='" e then
        Some (nodes (selected d (child_path ["schedules"; "schedule"]%string d [ctx]) "name"
          "schedules/schedule[@name='" e "']"))
      else if is_prefix "schedules/schedule[@name = '" e then
        Some (nodes (selected d (child_path ["schedules"; "schedule"]%string d [ctx]) "name"
          "schedules/schedule[@name = '" e "']"))
      else if is_prefix "parameters/parameter[@name = '" e then
        Some (nodes (selected d (child_path ["parameters"; "parameter"]%string d [ctx]) "name"
          "parameters/parameter[@name = '" e "']"))
      else if is_prefix "level[position()=" e then
        Some (nodes (position e 1 (child_path ["level"%string] d [ctx])))
      else None
  end.

(** [XMLString::parseInt]: the whole string is a number. *)
Definition tree_parseInt (s : string) : option Z :=
  match strtol (chars s) with
  | (z, Some []) => Some z
  | _ => None
  end.

(** * The instance *)

Section tree.
(** The documents that [parse] knows. *)
Context (library : list (string * doc)).

Fixpoint find_doc (s : string) (l : list (string * doc)) : option doc :=
  match l with
  | [] => None
  | (n, d) :: l => if bool_decide (n = s) then Some d else find_doc s l
  end.

Definition TreeDom : Dom doc := {|
  parse s := find_doc s library;
  writeToString d n := serialize (doc_size d) d n;
  getDocumentElement := root;
  getNamedItem := attr;
  setAttribute n a v d := set_attrs (<[(n, a) := v]> (attrs d)) d;
  removeAttribute n a d := set_attrs (delete (n, a) (attrs d)) d;
  getTextContent d n := text_content (doc_size d) d n;
  setTextContent n s d :=
    let '(t, d) := new_node None s d in add_child n t (set_children n [] d);
  getParentNode d n := parents d !! n;
  createElement t d := new_node (Some t) "" d;
  createTextNode s d := new_node None s d;
  cloneNode n d := copy (doc_size d) d n d;
  importNode src n d := copy (doc_size src) src n d;
  appendChild := add_child;
  removeChild p c d := set_parent c None (replace_child p [] c d);
  replaceChild p new old d := set_parent new (Some p) (set_parent old None (replace_child p [new] old d));
  insertBefore p new ref d := set_parent new (Some p) (replace_child p [new; ref] ref d);
  evaluate := tree_evaluate;
  getIntegerValue d i :=
    match i with
    | IAtom s => tree_parseInt s
    | INode n => tree_parseInt (text_content (doc_size d) d n)
    end;
  Dom.parseInt := tree_parseInt;
|}.

Lemma text_content_attrs fuel a d n : text_content fuel (set_attrs a d) n = text_content fuel d n.
Proof.
  revert n. induction fuel as [|fuel IH]; intros n; [done|]. simpl.
  destruct (texts d !! n); [done|].
  change (children_of (set_attrs a d) n) with (children_of d n).
  induction (children_of d n) as [|c l IHl]; [done|]. simpl.
  by rewrite IH, IHl.
Qed.

Lemma TreeDom_attributes : @DomAttributes doc TreeDom.
Proof.
  split.
  - intros d n a v. simpl. unfold attr. simpl. apply lookup_insert_eq.
  - intros d n a v n' a' Hne. simpl. unfold attr. simpl. by apply lookup_insert_ne.
  - done.
  - intros d n a v [m|s]; [|done]. cbn [getIntegerValue TreeDom setAttribute]. unfold doc_size.
    by rewrite text_content_attrs.
  - intros z Hz. simpl. unfold tree_parseInt. rewrite strtol_sprintf_d. f_equal.
    unfold clamp_long, LONG_MIN, LONG_MAX. lia.
Qed.
End tree.

(** * Documents as terms *)

Inductive xml : Type :=
  | Elem (tag : string) (attributes : list (string * string)) (content : list xml)
  | Text (text : string).

Fixpoint load (x : xml) (d : doc) : node_ref * doc :=
  match x with
  | Text s => new_node None s d
  | Elem t at_ l =>
      let '(n, d) := new_node (Some t) "" d in
      let d := set_attrs (foldr (fun '(a, v) m => <[(n, a) := v]> m) (attrs d) at_) d in
      (n, foldl (fun d x => let '(c, d) := load x d in add_child n c d) d l)
  end.

Definition to_doc (x : xml) : doc :=
  let '(r, d) := load x empty_doc in
  mkDoc (tags d) (texts d) (attrs d) (children d) (parents d) (Some r) (next_ref d).
