(* ===== verification/Task.v ===== *)
(** [Task.cpp]: the description of a task, read from the table [t_task]. *)

From S2P Require Import Prelude CString.

Open Scope Z_scope.

Module task_parameters_mode.
Inductive task_parameters_mode : Type := ENV | CMDLINE | UNKNOWN.
End task_parameters_mode.

Module task_output_method.
Inductive task_output_method : Type := XML | TEXT | UNKNOWN.
End task_output_method.

(** A null [char *] is [None]. *)
Record Task : Type := mkTask {
  task_binary : option string;
  task_wd : option string;
  task_user : option string;
  task_host : option string;
  parameters_mode : task_parameters_mode.task_parameters_mode;
  output_method : task_output_method.task_output_method;
}.

Definition Task_default : Task :=
  mkTask None None None None task_parameters_mode.UNKNOWN task_output_method.UNKNOWN.

(** A row of [t_task]: the columns of the SELECT, [None] for NULL. *)
Definition task_row : Type := list (option string).

(** The constructor from the row that the query gives, [None] if there is no
    row.  [strlen] and [strcmp] read their arguments. *)
Definition Task_new (row : option task_row) : outcome Task :=
  match row with
  | None => Throw (mkException "Task" "Unknown task")
  | Some row =>
      binary ← deref (mjoin (row !! 0%nat));
      wd ← deref (row !! 1%nat);
      user ← deref (row !! 2%nat);
      host ← deref (row !! 3%nat);
      mode ← deref (mjoin (row !! 4%nat));
      method ← deref (mjoin (row !! 5%nat));
      Ret (mkTask (Some binary) wd user host
             (match strcmp mode "ENV" with
              | Eq => task_parameters_mode.ENV
              | _ => task_parameters_mode.CMDLINE
              end)
             (match strcmp method "XML" with
              | Eq => task_output_method.XML
              | _ => task_output_method.TEXT
              end))
  end.

(** The copy constructor and [operator=]: the binary must not be null. *)
Definition Task_copy (task : Task) : outcome Task :=
  binary ← deref (task_binary task);
  Ret (mkTask (Some binary) (task_wd task) (task_user task) (task_host task) (parameters_mode task) (output_method task)).

(** [task_binary[0]=='/']. *)
Definition IsAbsolutePath (t : Task) : outcome bool :=
  b ← deref (task_binary t);
  Ret (match chars b with c :: _ => code c =? 47 | [] => false end).
