(* ===== verification/Registry.v ===== *)
(** [Tasks.cpp], [Workflows.cpp] and [RetrySchedules.cpp]: the descriptions of the
    database, loaded in a map by name under a mutex; and the descriptions
    [Workflow.cpp] and [RetrySchedule.cpp].  ([Task] has its own file.)  The
    three maps have the same code, for three types of descriptions. *)

From S2P Require Import Prelude CString DB Task.

Open Scope Z_scope.

(** * The descriptions *)

(** A description is a value: [RegistryMemory] shows that the arrays that the
    objects allocate make it one. *)
Record Workflow : Type := mkWorkflow {
  workflow_id : Z;
  workflow_name : option string;
  workflow_xml : option string;
}.

Definition Workflow_default : Workflow := mkWorkflow (u32 (-1)) None None.

(** A field of which the code takes the length. *)
Definition text (n : nat) (row : row_type) : outcome string :=
  f ← deref (row !! n);
  deref f.

(** The constructors, on the row that their query fetches, if there is one. *)
Definition Workflow_new (row : option row_type) : outcome Workflow :=
  match row with
  | None => Throw (mkException "Workflow" "Unknown Workflow")
  | Some row =>
      id ← deref (row !! 0%nat);
      name ← text 1 row;
      xml ← text 2 row;
      Ret (mkWorkflow (u32 (match id with Some v => atoi v | None => 0 end)) (Some name) (Some xml))
  end.

(** The copy constructor and [operator=] read both strings. *)
Definition Workflow_copy (workflow : Workflow) : outcome Workflow :=
  name ← deref (workflow_name workflow);
  xml ← deref (workflow_xml workflow);
  Ret (mkWorkflow (workflow_id workflow) (Some name) (Some xml)).

Record RetrySchedule : Type := mkRetrySchedule { schedule_xml : option string }.

Definition RetrySchedule_default : RetrySchedule := mkRetrySchedule None.

Definition RetrySchedule_new (row : option row_type) : outcome RetrySchedule :=
  match row with
  | None => Throw (mkException "RetrySchedule" "Unknown retry schedule")
  | Some row => xml ← text 0 row; Ret (mkRetrySchedule (Some xml))
  end.

Definition RetrySchedule_copy (schedule : RetrySchedule) : outcome RetrySchedule :=
  xml ← deref (schedule_xml schedule);
  Ret (mkRetrySchedule (Some xml)).

(** * The maps *)

Section Registry.
Context {V : Type} (unknown : Exception) (copy : V -> outcome V).

(** [locked]: a thread holds the mutex, which is not recursive. *)
Record Registry : Type := mkRegistry {
  locked : bool;
  entries : gmap string V;
}.

Definition Registry_empty : Registry := mkRegistry false ∅.

(** What a call gives; [None]: it waits for the mutex. *)
Definition call (A : Type) : Type := option (outcome A * Registry).

(** The loop on the names; an exception leaves the function with the mutex
    locked. *)
Fixpoint load (new : string -> outcome V) (names : list (option string)) (r : Registry) : outcome unit * Registry :=
  match names with
  | [] => (Ret tt, mkRegistry false (entries r))
  | None :: _ => (Undef, r)
  | Some name :: names =>
      match new name with
      | Ret v => load new names (mkRegistry (locked r) (<[name := v]> (entries r)))
      | Throw e => (Throw e, r)
      | Undef => (Undef, r)
      end
  end.

(** [names]: the connection and the query. *)
Definition Reload (new : string -> outcome V) (names : outcome (list (option string))) (r : Registry) : call unit :=
  if locked r then None
  else
    let r := mkRegistry true ∅ in
    Some match names with
         | Ret names => load new names r
         | Throw e => (Throw e, r)
         | Undef => (Undef, r)
         end.

(** The copy is made under the mutex. *)
Definition Get (name : string) (r : Registry) : call V :=
  if locked r then None
  else
    match entries r !! name with
    | None => Some (Throw unknown, r)
    | Some v =>
        match copy v with
        | Ret v => Some (Ret v, r)
        | Throw e => Some (Throw e, mkRegistry true (entries r))
        | Undef => Some (Undef, mkRegistry true (entries r))
        end
    end.
End Registry.
Arguments Registry V : clear implicits.

(** [Tasks], [Workflows] and [RetrySchedules].  [query] gives the row that the
    constructor of a description fetches, or the exception of the database. *)
Definition GetTask : string -> Registry Task.Task -> call Task.Task :=
  Get (mkException "Tasks" "Unable to find task") Task_copy.
Definition GetWorkflow : string -> Registry Workflow -> call Workflow :=
  Get (mkException "Workflows" "Unable to find workflow") Workflow_copy.
Definition GetRetrySchedule : string -> Registry RetrySchedule -> call RetrySchedule :=
  Get (mkException "RetrySchedules" "Unable to find schedule") RetrySchedule_copy.

Definition Tasks_Reload (query : string -> outcome (option row_type))
    : outcome (list (option string)) -> Registry Task.Task -> call unit :=
  Reload (fun name => row ← query name; Task_new row).
Definition Workflows_Reload (query : string -> outcome (option row_type))
    : outcome (list (option string)) -> Registry Workflow -> call unit :=
  Reload (fun name => row ← query name; Workflow_new row).
Definition RetrySchedules_Reload (query : string -> outcome (option row_type))
    : outcome (list (option string)) -> Registry RetrySchedule -> call unit :=
  Reload (fun name => row ← query name; RetrySchedule_new row).

(** * What a reload gives *)

Section reload.
Context {V : Type} (unknown : Exception) (copy : V -> outcome V).
Implicit Types r : Registry V.

(** A description can be copied. *)
Definition copies (new : string -> outcome V) : Prop := forall n v, new n = Ret v -> copy v = Ret v.

Lemma load_done new names r :
  (forall n, n ∈ names -> exists s v, n = Some s /\ new s = Ret v) ->
  exists m, load new names r = (Ret tt, mkRegistry false m) /\
    forall n, m !! n = if bool_decide (Some n ∈ names) then match new n with Ret v => Some v | _ => None end
                       else entries r !! n.
Proof.
  revert r. induction names as [|n names IH]; intros r Hn; [by eexists|].
  destruct (Hn n) as (s & v & -> & Ev); [by left|]. cbn [load]. rewrite Ev.
  destruct (IH (mkRegistry (locked r) (<[s := v]> (entries r)))) as (m & -> & Hm); [set_solver|].
  exists m. split; [done|]. intros k. rewrite Hm. cbn [entries].
  destruct (decide (s = k)) as [->|Hne].
  - rewrite lookup_insert_eq. rewrite (bool_decide_true (Some k ∈ Some k :: names)) by set_solver.
    case_bool_decide; [done|by rewrite Ev].
  - rewrite lookup_insert_ne by done. by rewrite (bool_decide_ext (Some k ∈ Some s :: names) (Some k ∈ names)) by set_solver.
Qed.

Lemma load_fails new names r n :
  n ∈ names -> (forall s v, n = Some s -> new s <> Ret v) ->
  exists o r', load new names r = (o, r') /\ o <> Ret tt /\ locked r' = locked r.
Proof.
  revert r. induction names as [|n' names IH]; intros r Hin Hn; [by apply not_elem_of_nil in Hin|].
  destruct n' as [s|]; [|by eexists _, _]. cbn [load]. destruct (new s) as [v|e|] eqn:E; [|by eexists _, _..].
  apply elem_of_cons in Hin as [->|Hin]; [by destruct (Hn s v)|].
  exact (IH (mkRegistry (locked r) (<[s := v]> (entries r))) Hin Hn).
Qed.

Definition loads (new : string -> outcome V) (n : option string) : bool :=
  match n with
  | Some s => match new s with Ret _ => true | _ => false end
  | None => false
  end.

(** After a reload that succeeds, a look-up by name gives the
    description that its constructor makes of the row of this name, and the
    exception of the map for any other name; after a reload that an
    exception leaves, the mutex stays locked and every later look-up or
    reload waits for ever. *)
Theorem Reload_Get new names r :
  locked r = false -> copies new ->
  match Reload new names r with
  | Some (Ret _, r') =>
      exists l, names = Ret l /\
        (forall n, n ∈ l -> exists s v, n = Some s /\ new s = Ret v) /\
        forall n, Get unknown copy n r' =
          Some (if bool_decide (Some n ∈ l) then new n else Throw unknown, r')
  | Some (Undef, _) => True
  | Some (Throw _, r') =>
      (forall n, Get unknown copy n r' = None) /\ (forall new' names', Reload new' names' r' = None)
  | None => False
  end.
Proof.
  intros Hl Hc. unfold Reload. rewrite Hl. destruct names as [l|e|]; cbv zeta iota; [|split; intros; reflexivity|exact I].
  destruct (decide (Forall (fun n => loads new n = true) l)) as [Hall|Hno].
  - rewrite Forall_forall in Hall.
    assert (Hn : forall n, n ∈ l -> exists s v, n = Some s /\ new s = Ret v).
    { intros n Hin. specialize (Hall n Hin). unfold loads in Hall. destruct n as [s|]; [|done].
      destruct (new s) as [v|e|] eqn:E; [eauto|done..]. }
    destruct (load_done new l (mkRegistry true ∅) Hn) as (m & -> & Hm). exists l. split; [done|]. split; [done|].
    intros n. unfold Get. cbn [locked entries]. rewrite Hm. case_bool_decide as Hin.
    + destruct (Hn _ Hin) as (s & v & [= <-] & E). rewrite E. by rewrite (Hc _ _ E).
    + cbn [entries]. by rewrite lookup_empty.
  - apply not_Forall_Exists in Hno; [|apply _]. apply Exists_exists in Hno as (n & Hin & Hn).
    destruct (load_fails new l (mkRegistry true ∅) n Hin) as (o & r' & -> & Ho & Hk).
    { intros s v -> E. apply Hn. unfold loads. by rewrite E. }
    destruct o as [[]|e|]; [done| |exact I]. split; [intros n'; unfold Get|intros n' l']; by rewrite Hk.
Qed.
End reload.

Lemma Task_new_copies row v : Task_new row = Ret v -> Task_copy v = Ret v.
Proof. unfold Task_new. destruct row as [row|]; [|done]. intros E. inv_ret. done. Qed.

Lemma Workflow_new_copies row v : Workflow_new row = Ret v -> Workflow_copy v = Ret v.
Proof. unfold Workflow_new. destruct row as [row|]; [|done]. intros E. inv_ret. done. Qed.

Lemma RetrySchedule_new_copies row v : RetrySchedule_new row = Ret v -> RetrySchedule_copy v = Ret v.
Proof. unfold RetrySchedule_new. destruct row as [row|]; [|done]. intros E. inv_ret. done. Qed.

(** Two tasks, the second of which has no binary in the database. *)
Definition ex_row (binary : option string) : row_type :=
  [binary; None; None; None; Some "ENV"; Some "TEXT"]%string.

Definition ex_query (name : string) : outcome (option row_type) :=
  Ret (if bool_decide (name = "backup"%string) then Some (ex_row (Some "/bin/backup"%string)) else None).

Lemma Reload_Get_witness :
  match Tasks_Reload ex_query (Ret [Some "backup"%string]) (Registry_empty) with
  | Some (Ret _, r') =>
      exists l, Ret [Some "backup"%string] = Ret l /\
        (forall n, n ∈ l -> exists s v, n = Some s /\ (row ← ex_query s; Task_new row) = Ret v) /\
        forall n, GetTask n r' =
          Some (if bool_decide (Some n ∈ l) then row ← ex_query n; Task_new row
                else Throw (mkException "Tasks" "Unable to find task"), r')
  | _ => False
  end.
Proof.
  assert (C : copies Task_copy (fun n => row ← ex_query n; Task_new row)).
  { intros n v E. inv_ret. by eapply Task_new_copies. }
  pose proof (Reload_Get (mkException "Tasks" "Unable to find task") Task_copy (fun n => row ← ex_query n; Task_new row)
    (Ret [Some "backup"%string]) Registry_empty eq_refl C) as H.
  unfold Tasks_Reload, GetTask. destruct (Reload _ _ _) as [[[u|e|] r']|] eqn:E.
  - exact H.
  - vm_compute in E. discriminate.
  - vm_compute in E. discriminate.
  - exact H.
Defined.
