(* ===== verification/Memory.v ===== *)
(** The memory of the descriptions of [Task.cpp], [Workflow.cpp] and
    [RetrySchedule.cpp]: objects whose fields point to arrays of characters that
    they allocate, copy and free.  [Description] is what a class of these
    provides, [DescriptionLaws] what it promises: its objects behave as values. *)

From S2P Require Import Prelude CString DB.

Open Scope Z_scope.

(** * Arrays of characters *)

Definition loc : Type := positive.

(** The arrays that [new char[]] allocated and [delete[]] did not free yet. *)
Abbreviation heap := (gmap loc string).

Definition M (A : Type) : Type := heap -> outcome (A * heap).

#[export] Instance M_ret : MRet M := fun _ a h => Ret (a, h).
#[export] Instance M_bind : MBind M := fun _ _ k m h => '(a, h) ← m h; k a h.

Lemma M_bind_Ret {A B} (m : M A) (k : A -> M B) h a h' : m h = Ret (a, h') -> (m ≫= k) h = k a h'.
Proof. intros E. unfold mbind, M_bind. by rewrite E. Qed.

Definition undefined {A} : M A := fun _ => Undef.
Definition throw {A} (e : Exception) : M A := fun _ => Throw e.
Definition option_M {A} (o : option A) : M A := match o with Some a => mret a | None => undefined end.

(** [new char[strlen(s)+1]] and [strcpy]. *)
Definition new_string (s : string) : M loc := fun h =>
  let l := fresh (dom h) in Ret (l, <[l := s]> h).
Definition read_string (p : option loc) : M string := fun h =>
  l ← deref p;
  s ← deref (h !! l);
  Ret (s, h).
Definition delete_array (l : loc) : M unit := fun h =>
  _ ← deref (h !! l);
  Ret (tt, delete l h).

(** The copy of a field that must not be null. *)
Definition copy_string (p : option loc) : M (option loc) :=
  s ← read_string p;
  l ← new_string s;
  mret (Some l).
(** A column that must not be NULL, and one that may be. *)
Definition new_text (f : option string) : M (option loc) :=
  s ← option_M f;
  l ← new_string s;
  mret (Some l).
Definition new_optional (f : option string) : M (option loc) :=
  match f with Some _ => new_text f | None => mret None end.
(** [if(p) { delete[] p; p = 0; }]. *)
Definition delete_optional (p : option loc) : M (option loc) :=
  match p with
  | Some l => _ ← delete_array l; mret None
  | None => mret None
  end.

(** The getters; their callers read the strings. *)
Definition read_optional (p : option loc) : M (option string) :=
  match p with Some _ => s ← read_string p; mret (Some s) | None => mret None end.

(** * Ownership

    [owned ps ss h]: the pointers [ps] are null or point to distinct arrays, that
    hold [ss] and are the whole of [h]. *)
Inductive owned : list (option loc) -> list (option string) -> heap -> Prop :=
  | owned_nil : owned [] [] ∅
  | owned_null ps ss h : owned ps ss h -> owned (None :: ps) (None :: ss) h
  | owned_string l s ps ss h : h !! l = None -> owned ps ss h -> owned (Some l :: ps) (Some s :: ss) (<[l := s]> h).

(** [m] allocates the array of a pointer that holds [s]. *)
Definition gives (m : M (option loc)) (s : option string) (h : heap) : Prop :=
  match s with
  | Some s => exists l, h !! l = None /\ m h = Ret (Some l, <[l := s]> h)
  | None => m h = Ret (None, h)
  end.

Lemma new_string_gives s h : gives (l ← new_string s; mret (Some l)) (Some s) h.
Proof. exists (fresh (dom h)). split; [|done]. apply not_elem_of_dom, is_fresh. Qed.

Lemma new_text_gives s h : gives (new_text (Some s)) (Some s) h.
Proof. exact (new_string_gives s h). Qed.

Lemma new_optional_gives f h : gives (new_optional f) f h.
Proof. destruct f; [apply new_text_gives|done]. Qed.

(** The text that a pointer points to. *)
Definition points (h : heap) (p : option loc) (s : option string) : Prop :=
  match p, s with
  | Some l, Some s => h !! l = Some s
  | None, None => True
  | _, _ => False
  end.

Lemma copy_string_gives p s h : points h p (Some s) -> gives (copy_string p) (Some s) h.
Proof.
  destruct p as [l|]; [|done]. simpl. intros Hl. destruct (new_string_gives s h) as (l' & F & E). exists l'. split; [done|].
  unfold copy_string, read_string, mbind, M_bind in *. simpl. by rewrite Hl.
Qed.

Lemma copy_string_null p h : points h p None -> copy_string p h = Undef.
Proof. by destruct p. Qed.

Lemma owned_points ps ss h h' : owned ps ss h -> h ⊆ h' -> Forall2 (points h') ps ss.
Proof.
  intros O. revert h'. induction O as [|ps ss h O IH|l s ps ss h F O IH]; intros h' Hs; constructor; try done; [by apply IH| |]; simpl.
  - eapply lookup_weaken; [|done]. apply lookup_insert_eq.
  - apply IH. etrans; [|done]. by apply insert_subseteq.
Qed.

Lemma read_optional_points h p s : points h p s -> read_optional p h = Ret (s, h).
Proof.
  destruct p as [l|], s as [s|]; simpl; try done. intros Hl. unfold read_string, mbind, M_bind. simpl. by rewrite Hl.
Qed.

Lemma points_mono h h' p s : points h p s -> h ⊆ h' -> points h' p s.
Proof. destruct p, s; simpl; try done. intros. by eapply lookup_weaken. Qed.

Lemma owned_snoc ps ss h p s h' :
  owned ps ss h -> match p, s with
                   | Some l, Some t => h !! l = None /\ h' = <[l := t]> h
                   | None, None => h' = h
                   | _, _ => False
                   end -> owned (ps ++ [p]) (ss ++ [s]) h'.
Proof.
  intros O. revert h'. induction O as [|ps ss h O IH|l t ps ss h F O IH]; intros h' Hp; simpl.
  - destruct p, s; try done; [destruct Hp as [Hl ->]|subst]; repeat constructor; done.
  - constructor. by apply IH.
  - destruct p as [l'|], s as [t'|]; try done.
    + destruct Hp as [[Hl Hne]%lookup_insert_None ->]. rewrite insert_insert_ne by done.
      constructor; [by rewrite lookup_insert_ne|]. by apply IH.
    + subst h'. constructor; [done|]. by apply IH.
Qed.

Lemma delete_optional_owned p ps s ss h h' :
  owned (p :: ps) (s :: ss) h -> h ##ₘ h' ->
  exists h1, delete_optional p (h ∪ h') = Ret (None, h1 ∪ h') /\ owned ps ss h1 /\ h1 ##ₘ h'.
Proof.
  intros O D. inversion O as [|? ? ? O'|l t ? ? h1 F O']; simplify_eq; [by exists h|].
  exists h1. apply map_disjoint_insert_l in D as [Hl D]. split; [|done].
  unfold delete_optional, delete_array, mbind, M_bind. simpl.
  rewrite (lookup_union_Some_l _ _ _ t) by apply lookup_insert_eq. simpl.
  by rewrite <- insert_union_l, delete_insert_id by (by apply lookup_union_None).
Qed.

(** * The classes *)

(** [Obj]: the fields of an object, [V]: the value that it stands for. *)
Class Description (Obj V : Type) := {
  default : Obj;
  construct : option row_type -> M Obj;
  copy : Obj -> M Obj;
  assign_fields : Obj -> Obj -> M Obj;
  free : Obj -> M Obj;
  contents : Obj -> M V;
  default_value : V;
  new_value : option row_type -> outcome V;
  copy_value : V -> outcome V;
  pointers : Obj -> list (option loc);
  texts : V -> list (option string);
  agree : Obj -> V -> Prop;
}.

(** An object whose arrays are the whole of [h]. *)
Definition owns `{Description Obj V} (o : Obj) (v : V) (h : heap) : Prop := owned (pointers o) (texts v) h /\ agree o v.

(** An object whose arrays are in [h]. *)
Definition reads `{Description Obj V} (o : Obj) (v : V) (h : heap) : Prop :=
  Forall2 (points h) (pointers o) (texts v) /\ agree o v.

(** A new object for the value [v] is made, or the outcome is that of [v]. *)
Definition makes `{Description Obj V} (m : M Obj) (v : outcome V) (h : heap) : Prop :=
  match v with
  | Ret v => exists o h1, m h = Ret (o, h1 ∪ h) /\ h1 ##ₘ h /\ owns o v h1
  | Throw e => m h = Throw e
  | Undef => m h = Undef
  end.

Class DescriptionLaws Obj V `{Description Obj V} := {
  default_owns : owns default default_value ∅;
  construct_makes row h : makes (construct row) (new_value row) h;
  copy_makes o v h : reads o v h -> makes (copy o) (copy_value v) h;
  free_owns o v h h' :
    owns o v h -> h ##ₘ h' ->
    exists o', free o (h ∪ h') = Ret (o', h') /\ Forall (fun p => p = None) (pointers o');
  assign_makes this o v h :
    Forall (fun p => p = None) (pointers this) -> reads o v h -> makes (assign_fields this o) (copy_value v) h;
  contents_reads o v h : reads o v h -> copy_value v = Ret v -> contents o h = Ret (v, h);
  new_value_copies row v : new_value row = Ret v -> copy_value v = Ret v;
  copy_value_copies v v' : copy_value v = Ret v' -> v' = v;
}.

(** * Allocation, step by step

    The object under construction has the pointers [ps] to the texts [ss], which
    are the whole of [h1]; [m] does the rest. *)
Section steps.
Context {Obj V : Type} `{Description Obj V}.

Definition completes (ps : list (option loc)) (ss : list (option string)) (h : heap) (m : M Obj) (v : outcome V) : Prop :=
  forall h1, h1 ##ₘ h -> owned ps ss h1 ->
  match v with
  | Ret v => exists o h2, m (h1 ∪ h) = Ret (o, h2 ∪ h) /\ h2 ##ₘ h /\ owns o v h2
  | Throw e => m (h1 ∪ h) = Throw e
  | Undef => m (h1 ∪ h) = Undef
  end.

Lemma completes_makes h m v : completes [] [] h m v -> makes m v h.
Proof.
  intros C. specialize (C ∅ (map_disjoint_empty_l h) owned_nil).
  assert (∅ ∪ h = h) as E by apply (left_id_L ∅ (∪)).
  unfold makes. destruct v; [|by rewrite E in C..]. destruct C as (o & h2 & Em & ?). rewrite E in Em. eauto.
Qed.

Lemma completes_ret ps ss h o v :
  pointers o = ps -> texts v = ss -> agree o v -> completes ps ss h (mret o) (Ret v).
Proof. intros <- <- A h1 D O. by exists o, h1. Qed.

Lemma completes_bind {A B} ps ss h (m : M A) (k : A -> M Obj) (o : outcome B) (kv : B -> outcome V) :
  (forall h', match o with
              | Ret b => exists a, m h' = Ret (a, h') /\ completes ps ss h (k a) (kv b)
              | Throw e => m h' = Throw e
              | Undef => m h' = Undef
              end) -> completes ps ss h (m ≫= k) (o ≫= kv).
Proof.
  intros Hm h1 D O. specialize (Hm (h1 ∪ h)).
  assert (E : (m ≫= k) (h1 ∪ h) = ('(a, h') ← m (h1 ∪ h); k a h')) by done.
  destruct o as [b|e|]; simpl in *; [|by rewrite E, Hm..]. destruct Hm as (a & Hm & C). rewrite Hm in E. rewrite E.
  exact (C h1 D O).
Qed.

Lemma completes_option {B} ps ss h (k : B -> M Obj) (o : option B) (kv : B -> outcome V) :
  (forall b, o = Some b -> completes ps ss h (k b) (kv b)) ->
  completes ps ss h (option_M o ≫= k) (deref o ≫= kv).
Proof. intros C. apply completes_bind. intros h'. destruct o; simpl; eauto. Qed.

Lemma completes_gives ps ss h (m : M (option loc)) s (k : option loc -> M Obj) v :
  (forall h1, h1 ##ₘ h -> gives m s (h1 ∪ h)) ->
  (forall p, completes (ps ++ [p]) (ss ++ [s]) h (k p) v) ->
  completes ps ss h (m ≫= k) v.
Proof.
  intros G C h1 D O. specialize (G h1 D). unfold mbind, M_bind. destruct s as [t|]; simpl in G.
  - destruct G as (l & [F1 F2]%lookup_union_None & ->). cbn. rewrite insert_union_l. apply (C (Some l)).
    + by apply map_disjoint_insert_l_2.
    + by eapply owned_snoc.
  - rewrite G. apply (C None h1 D). by eapply owned_snoc.
Qed.

Lemma completes_text ps ss h f (k : option loc -> M Obj) (kv : string -> outcome V) :
  (forall s p, f = Some s -> completes (ps ++ [p]) (ss ++ [Some s]) h (k p) (kv s)) ->
  completes ps ss h (new_text f ≫= k) (deref f ≫= kv).
Proof.
  intros C. destruct f as [s|]; [|by intros h1 D O]. simpl. eapply completes_gives; [|eauto]. intros h1 _. apply new_text_gives.
Qed.

Lemma completes_copy ps ss h p s (k : option loc -> M Obj) (kv : string -> outcome V) :
  points h p s ->
  (forall t p', s = Some t -> completes (ps ++ [p']) (ss ++ [Some t]) h (k p') (kv t)) ->
  completes ps ss h (copy_string p ≫= k) (deref s ≫= kv).
Proof.
  intros Hp C. destruct s as [t|].
  - simpl. eapply completes_gives; [|eauto]. intros h1 D. apply copy_string_gives.
    eapply points_mono; [done|]. by apply map_union_subseteq_r.
  - intros h1 D O. simpl. unfold mbind, M_bind. by rewrite copy_string_null.
Qed.
End steps.
