(* ===== verification/ExceptionMemory.v ===== *)
(** [Exception.cpp]: the objects that the program throws, with the two arrays
    that each allocates, copies and frees.  Elsewhere in this library an exception
    is the value [Prelude.Exception]; the lemmas here say that its objects behave
    as such values, rethrown or not, [operator=] on the object itself excepted. *)

From S2P Require Import Prelude CString Memory.

Open Scope Z_scope.

Record Exception_object : Type := mkObject { context : loc; error : loc }.

Definition Exception_new (context error : string) : M Exception_object :=
  c ← new_string context;
  e ← new_string error;
  mret (mkObject c e).

(** [new char[strlen(p)+1]; memcpy(...)] of both fields. *)
Definition Exception_copy (e : Exception_object) : M Exception_object :=
  context ← read_string (Some (context e));
  c ← new_string context;
  error ← read_string (Some (error e));
  e ← new_string error;
  mret (mkObject c e).

Definition Exception_delete (this : Exception_object) : M unit :=
  _ ← delete_array (context this);
  delete_array (error this).

(** [this] and [e] may be the same object. *)
Definition assign (this e : Exception_object) : M Exception_object :=
  _ ← Exception_delete this;
  Exception_copy e.

(** [throw e] in a handler: a copy is thrown, and the object that was caught is
    destroyed at the end of the handler. *)
Definition rethrow (e : Exception_object) : M Exception_object :=
  copy ← Exception_copy e;
  _ ← Exception_delete e;
  mret copy.

(** What a handler that logs the message does. *)
Definition catch_message (e : Exception_object) : M string :=
  message ← read_string (Some (error e));
  _ ← Exception_delete e;
  mret message.

(** The arrays of the object are the whole of [h]. *)
Definition object (o : Exception_object) (v : Exception) (h : heap) : Prop :=
  owned [Some (context o); Some (error o)] [Some (Prelude.context v); Some (Prelude.error v)] h.

(** The arrays of the object are in [h]. *)
Definition readable (o : Exception_object) (v : Exception) (h : heap) : Prop :=
  h !! context o = Some (Prelude.context v) /\ h !! error o = Some (Prelude.error v).

Lemma object_readable o v h h' : object o v h -> h ⊆ h' -> readable o v h'.
Proof. intros O Hs. pose proof (owned_points _ _ _ _ O Hs) as F. inversion F as [|? ? ? ? P1 F2]. inversion F2. by split. Qed.

(** Two arrays are added to a heap. *)
Lemma new_object (c e : string) (h : heap) l1 l2 :
  h !! l1 = None -> (<[l1 := c]> h) !! l2 = None ->
  exists h1, <[l2 := e]> (<[l1 := c]> h) = h1 ∪ h /\ h1 ##ₘ h /\ object (mkObject l1 l2) (mkException c e) h1.
Proof.
  intros H1 [H2 H3]%lookup_insert_None. exists (<[l1 := c]> (<[l2 := e]> ∅)).
  split; [|split; [by repeat apply map_disjoint_insert_l_2; [..|apply map_disjoint_empty_l]|]].
  - rewrite insert_insert_ne by done. by rewrite <- !insert_union_l, (left_id_L ∅ (∪)).
  - apply owned_string; [by rewrite lookup_insert_ne, lookup_empty by done|]. apply owned_string; [done|constructor].
Qed.

(** [makes m v h]: [m] returns a new object for [v], next to what is in [h]. *)
Definition makes (m : M Exception_object) (v : Exception) (h : heap) : Prop :=
  exists o h1, m h = Ret (o, h1 ∪ h) /\ h1 ##ₘ h /\ object o v h1.

Lemma fresh_None {A} (h : gmap loc A) : h !! fresh (dom h) = None.
Proof. apply not_elem_of_dom, is_fresh. Qed.

Lemma Exception_new_makes c e h : makes (Exception_new c e) (mkException c e) h.
Proof.
  set (l1 := fresh (dom h)). set (l2 := fresh (dom (<[l1 := c]> h))).
  destruct (new_object c e h l1 l2) as (h1 & E & D & O); [apply fresh_None..|].
  exists (mkObject l1 l2), h1. by rewrite <- E.
Qed.

Lemma Exception_copy_makes o v h : readable o v h -> makes (Exception_copy o) v h.
Proof.
  intros [Hc He]. destruct v as [c e]. simpl in *. set (l1 := fresh (dom h)). set (l2 := fresh (dom (<[l1 := c]> h))).
  destruct (new_object c e h l1 l2) as (h1 & E & D & O); [apply fresh_None..|].
  exists (mkObject l1 l2), h1. split; [|done]. unfold Exception_copy, read_string, mbind, M_bind. simpl. rewrite Hc. simpl.
  unfold mbind, M_bind. simpl. rewrite lookup_insert_ne by (intros Ee; pose proof (fresh_None h); congruence). rewrite He. simpl.
  by rewrite <- E.
Qed.

Lemma Exception_delete_object o v h h' :
  object o v h -> h ##ₘ h' -> Exception_delete o (h ∪ h') = Ret (tt, h').
Proof.
  intros O D. destruct (delete_optional_owned _ _ _ _ _ _ O D) as (h1 & E1 & O1 & D1).
  destruct (delete_optional_owned _ _ _ _ _ _ O1 D1) as (h2 & E2 & O2 & D2). inversion O2; subst.
  unfold delete_optional, mbind, M_bind in E1, E2. unfold Exception_delete, mbind, M_bind. simpl in *.
  destruct (delete_array (context o) (h ∪ h')) as [[[] h3]| |]; simpl in *; [|done..]. injection E1 as ->.
  destruct (delete_array (error o) (h1 ∪ h')) as [[[] h4]| |]; simpl in *; [|done..]. injection E2 as ->.
  by rewrite (left_id_L ∅ (∪)).
Qed.

(** A rethrown exception has the value of the first one, whose memory is free. *)
Theorem rethrow_makes o v h h' : object o v h -> h ##ₘ h' ->
  exists o' h1, rethrow o (h ∪ h') = Ret (o', h1 ∪ h') /\ h1 ##ₘ h' /\ object o' v h1.
Proof.
  intros O D. assert (readable o v (h ∪ h')) as Hr by (eapply object_readable; [done|apply map_union_subseteq_l]).
  destruct (Exception_copy_makes _ _ _ Hr) as (o' & h1 & E & [D1 D2]%map_disjoint_union_r & O1).
  exists o', h1. split; [|done]. unfold rethrow, mbind, M_bind. rewrite E. simpl.
  assert (h1 ∪ (h ∪ h') = h ∪ (h1 ∪ h')) as ->.
  { rewrite !(assoc_L (∪)). f_equal. by apply map_union_comm. }
  unfold mbind, M_bind. rewrite (Exception_delete_object _ _ _ _ O); [done|]. by apply map_disjoint_union_r_2.
Qed.

Theorem catch_message_frees o v h h' : object o v h -> h ##ₘ h' ->
  catch_message o (h ∪ h') = Ret (Prelude.error v, h').
Proof.
  intros O D. destruct (object_readable _ _ _ (h ∪ h') O) as [_ He]; [apply map_union_subseteq_l|].
  unfold catch_message, read_string, mbind, M_bind. simpl. rewrite He. simpl.
  unfold mbind, M_bind. by rewrite (Exception_delete_object _ _ _ _ O D).
Qed.

Theorem assign_makes this o v v' h h' :
  object this v' h -> h ##ₘ h' -> readable o v h' -> exists o' h1,
  assign this o (h ∪ h') = Ret (o', h1 ∪ h') /\ h1 ##ₘ h' /\ object o' v h1.
Proof.
  intros O D Hr. destruct (Exception_copy_makes _ _ _ Hr) as (o' & h1 & E & D1 & O1). exists o', h1. split; [|done].
  unfold assign, mbind, M_bind. by rewrite (Exception_delete_object _ _ _ _ O D).
Qed.

(** The assignment of an exception to itself reads the arrays that it has freed. *)
Theorem assign_self o v h h' : object o v h -> h ##ₘ h' -> assign o o (h ∪ h') = Undef.
Proof.
  intros O D. assert (h' !! context o = None) as Hn.
  { inversion O; subst. by apply map_disjoint_insert_l in D as [? _]. }
  unfold assign, mbind, M_bind. rewrite (Exception_delete_object _ _ _ _ O D). simpl.
  unfold Exception_copy, read_string, mbind, M_bind. simpl. by rewrite Hn.
Qed.
