(* ===== verification/Descriptions.v ===== *)
(** The objects of [Task.cpp], [Workflow.cpp] and [RetrySchedule.cpp] in memory:
    constructors, copies, [operator=], [free] and getters of the three classes, as
    instances of [Description].  The values that they stand for are those of [Task]
    and [Registry].  ([operator=] ends without its [return]; nothing uses what it
    returns.) *)

From S2P Require Import Prelude CString DB Task Registry Memory.

Open Scope Z_scope.

(** A column of the row that a query fetched; one more than it has is undefined. *)
Definition column (n : nat) (row : row_type) : M (option string) := option_M (row !! n).

(** * [Task] *)

Module Task_object.
Record Task : Type := mkTask {
  task_binary : option loc;
  task_wd : option loc;
  task_user : option loc;
  task_host : option loc;
  parameters_mode : task_parameters_mode.task_parameters_mode;
  output_method : task_output_method.task_output_method;
}.

Definition Task_default : Task :=
  mkTask None None None None task_parameters_mode.UNKNOWN task_output_method.UNKNOWN.

Definition Task_new (row : option row_type) : M Task :=
  match row with
  | None => throw (mkException "Task" "Unknown task")
  | Some row =>
      f0 ← column 0 row;
      binary ← new_text f0;
      f1 ← column 1 row;
      wd ← new_optional f1;
      f2 ← column 2 row;
      user ← new_optional f2;
      f3 ← column 3 row;
      host ← new_optional f3;
      f4 ← column 4 row;
      mode ← option_M f4;
      f5 ← column 5 row;
      method ← option_M f5;
      mret (mkTask binary wd user host
              (match strcmp mode "ENV" with
               | Eq => task_parameters_mode.ENV
               | _ => task_parameters_mode.CMDLINE
               end)
              (match strcmp method "XML" with
               | Eq => task_output_method.XML
               | _ => task_output_method.TEXT
               end))
  end.

(** [if(task.p) { p = new ...; strcpy } else p = 0;] *)
Definition copy_optional (p : option loc) : M (option loc) :=
  match p with Some _ => copy_string p | None => mret None end.

Definition Task_copy (task : Task) : M Task :=
  binary ← copy_string (task_binary task);
  wd ← copy_optional (task_wd task);
  user ← copy_optional (task_user task);
  host ← copy_optional (task_host task);
  mret (mkTask binary wd user host (parameters_mode task) (output_method task)).

Definition free (task : Task) : M Task :=
  binary ← delete_optional (task_binary task);
  wd ← delete_optional (task_wd task);
  user ← delete_optional (task_user task);
  host ← delete_optional (task_host task);
  mret (mkTask binary wd user host (parameters_mode task) (output_method task)).

(** What [operator=] does after [free]: a null field of [task] leaves the field
    of [this] as it is. *)
Definition assign_optional (this p : option loc) : M (option loc) :=
  match p with Some _ => copy_string p | None => mret this end.

Definition assign (this task : Task) : M Task :=
  binary ← copy_string (task_binary task);
  wd ← assign_optional (task_wd this) (task_wd task);
  user ← assign_optional (task_user this) (task_user task);
  host ← assign_optional (task_host this) (task_host task);
  mret (mkTask binary wd user host (parameters_mode task) (output_method task)).

(** The getters. *)
Definition contents (task : Task) : M Task.Task :=
  binary ← read_optional (task_binary task);
  wd ← read_optional (task_wd task);
  user ← read_optional (task_user task);
  host ← read_optional (task_host task);
  mret (Task.mkTask binary wd user host (parameters_mode task) (output_method task)).
End Task_object.

(** * [Workflow] *)

Module Workflow_object.
Record Workflow : Type := mkWorkflow {
  workflow_id : Z;
  workflow_name : option loc;
  workflow_xml : option loc;
}.

Definition Workflow_default : Workflow := mkWorkflow (u32 (-1)) None None.

Definition Workflow_new (row : option row_type) : M Workflow :=
  match row with
  | None => throw (mkException "Workflow" "Unknown Workflow")
  | Some row =>
      f0 ← column 0 row;
      f1 ← column 1 row;
      name ← new_text f1;
      f2 ← column 2 row;
      xml ← new_text f2;
      mret (mkWorkflow (u32 (match f0 with Some v => atoi v | None => 0 end)) name xml)
  end.

Definition Workflow_copy (workflow : Workflow) : M Workflow :=
  name ← copy_string (workflow_name workflow);
  xml ← copy_string (workflow_xml workflow);
  mret (mkWorkflow (workflow_id workflow) name xml).

Definition free (workflow : Workflow) : M Workflow :=
  name ← delete_optional (workflow_name workflow);
  xml ← delete_optional (workflow_xml workflow);
  mret (mkWorkflow (workflow_id workflow) name xml).

Definition contents (workflow : Workflow) : M Registry.Workflow :=
  name ← read_optional (workflow_name workflow);
  xml ← read_optional (workflow_xml workflow);
  mret (Registry.mkWorkflow (workflow_id workflow) name xml).
End Workflow_object.

(** * [RetrySchedule] *)

Module RetrySchedule_object.
Record RetrySchedule : Type := mkRetrySchedule { schedule_xml : option loc }.

Definition RetrySchedule_default : RetrySchedule := mkRetrySchedule None.

Definition RetrySchedule_new (row : option row_type) : M RetrySchedule :=
  match row with
  | None => throw (mkException "RetrySchedule" "Unknown retry schedule")
  | Some row =>
      f0 ← column 0 row;
      xml ← new_text f0;
      mret (mkRetrySchedule xml)
  end.

Definition RetrySchedule_copy (schedule : RetrySchedule) : M RetrySchedule :=
  xml ← copy_string (schedule_xml schedule);
  mret (mkRetrySchedule xml).

Definition free (schedule : RetrySchedule) : M RetrySchedule :=
  xml ← delete_optional (schedule_xml schedule);
  mret (mkRetrySchedule xml).

Definition contents (schedule : RetrySchedule) : M Registry.RetrySchedule :=
  xml ← read_optional (schedule_xml schedule);
  mret (Registry.mkRetrySchedule xml).
End RetrySchedule_object.

(** * The instances *)

(** [operator=] of the last two copies every field, as the constructor does. *)
#[export] Instance Task_description : Description Task_object.Task Task.Task := {
  default := Task_object.Task_default;
  construct := Task_object.Task_new;
  copy := Task_object.Task_copy;
  assign_fields := Task_object.assign;
  free := Task_object.free;
  contents := Task_object.contents;
  default_value := Task.Task_default;
  new_value := Task.Task_new;
  copy_value := Task.Task_copy;
  pointers o := [Task_object.task_binary o; Task_object.task_wd o; Task_object.task_user o; Task_object.task_host o];
  texts v := [Task.task_binary v; Task.task_wd v; Task.task_user v; Task.task_host v];
  agree o v := Task_object.parameters_mode o = Task.parameters_mode v /\ Task_object.output_method o = Task.output_method v;
}.

#[export] Instance Workflow_description : Description Workflow_object.Workflow Registry.Workflow := {
  default := Workflow_object.Workflow_default;
  construct := Workflow_object.Workflow_new;
  copy := Workflow_object.Workflow_copy;
  assign_fields _ := Workflow_object.Workflow_copy;
  free := Workflow_object.free;
  contents := Workflow_object.contents;
  default_value := Registry.Workflow_default;
  new_value := Registry.Workflow_new;
  copy_value := Registry.Workflow_copy;
  pointers o := [Workflow_object.workflow_name o; Workflow_object.workflow_xml o];
  texts v := [Registry.workflow_name v; Registry.workflow_xml v];
  agree o v := Workflow_object.workflow_id o = Registry.workflow_id v;
}.

#[export] Instance RetrySchedule_description : Description RetrySchedule_object.RetrySchedule Registry.RetrySchedule := {
  default := RetrySchedule_object.RetrySchedule_default;
  construct := RetrySchedule_object.RetrySchedule_new;
  copy := RetrySchedule_object.RetrySchedule_copy;
  assign_fields _ := RetrySchedule_object.RetrySchedule_copy;
  free := RetrySchedule_object.free;
  contents := RetrySchedule_object.contents;
  default_value := Registry.RetrySchedule_default;
  new_value := Registry.RetrySchedule_new;
  copy_value := Registry.RetrySchedule_copy;
  pointers o := [RetrySchedule_object.schedule_xml o];
  texts v := [Registry.schedule_xml v];
  agree _ _ := True;
}.

(** * The objects behave as values *)

Lemma deref_mjoin {A B} (o : option (option A)) (k : A -> outcome B) :
  deref (mjoin o) ≫= k = (f ← deref o; deref f ≫= k).
Proof. by destruct o. Qed.

Lemma text_bind {A} n row (k : string -> outcome A) :
  text n row ≫= k = (f ← deref (row !! n); deref f ≫= k).
Proof. unfold text. by destruct (row !! n). Qed.

Lemma copy_optional_gives h p s h1 : points h p s -> h1 ##ₘ h -> gives (Task_object.copy_optional p) s (h1 ∪ h).
Proof.
  intros Hp D. destruct p as [l|], s as [s|]; try done. apply copy_string_gives.
  eapply points_mono; [done|]. by apply map_union_subseteq_r.
Qed.

(** Opens what is known of the fields of an object. *)
Ltac open_fields :=
  repeat match goal with
  | H : reads _ _ _ |- _ => destruct H as [H ?]
  | H : owns _ _ _ |- _ => destruct H as [H ?]
  end;
  cbn [pointers texts agree Task_description Workflow_description RetrySchedule_description] in *;
  repeat match goal with
  | H : Forall2 _ (_ :: _) _ |- _ => apply Forall2_cons_inv_l in H as (? & ? & ? & H & ?)
  | H : Forall2 _ [] _ |- _ => apply Forall2_nil_inv_l in H
  | H : _ :: _ = _ :: _ |- _ => injection H as; subst
  end.

(** One field after the other. *)
Ltac complete :=
  repeat match goal with
  | |- makes _ _ _ => apply completes_makes
  | |- completes _ _ _ _ (deref (mjoin _) ≫= _) => rewrite deref_mjoin
  | |- completes _ _ _ _ (text _ _ ≫= _) => rewrite text_bind
  | |- completes _ _ _ (column _ _ ≫= _) (deref _ ≫= _) => apply completes_option; intros ? ?
  | |- completes _ _ _ (option_M _ ≫= _) (deref _ ≫= _) => apply completes_option; intros ? ?
  | |- completes _ _ _ (new_text _ ≫= _) (deref _ ≫= _) => apply completes_text; intros ? ? ->
  | |- completes _ _ _ (copy_string _ ≫= _) (deref _ ≫= _) => eapply completes_copy; [eassumption|intros ? ? ?]
  | |- completes _ _ _ (new_optional ?f ≫= _) _ => apply (completes_gives _ _ _ _ f); [intros; apply new_optional_gives|intros ?]
  | |- completes _ _ _ (Task_object.copy_optional _ ≫= _) _ =>
      eapply completes_gives; [intros; eapply copy_optional_gives; eassumption|intros ?]
  | |- completes _ _ _ (mret _) (Ret _) => apply completes_ret
  end.

(** The arrays of an object, freed one after the other. *)
Ltac free_fields :=
  repeat match goal with
  | O : owned (?p :: _) (_ :: _) ?h, D : ?h ##ₘ ?h' |- context [(delete_optional ?p ≫= _) (?h ∪ ?h')] =>
      let E := fresh in
      destruct (delete_optional_owned _ _ _ _ _ _ O D) as (? & E & ? & ?); rewrite (M_bind_Ret _ _ _ _ _ E); clear O E
  | O : owned [] _ ?h |- _ => inversion O; clear O; subst
  end.

Ltac read_fields :=
  repeat match goal with
  | P : points ?h ?p _ |- context [(read_optional ?p ≫= _) ?h] =>
      rewrite (M_bind_Ret _ _ _ _ _ (read_optional_points _ _ _ P)); clear P
  end.

#[export] Instance Task_laws : DescriptionLaws Task_object.Task Task.Task.
Proof.
  split.
  - split; [repeat constructor|done].
  - intros [row|] h; [|done]. cbn [construct new_value Task_description]. unfold Task_object.Task_new, Task.Task_new.
    complete; done.
  - intros o v h R. open_fields. cbn [copy copy_value Task_description]. unfold Task_object.Task_copy, Task.Task_copy.
    complete; simpl; naive_solver congruence.
  - intros o v h h' R D. open_fields. cbn [free Task_description] in *. unfold Task_object.free.
    free_fields. rewrite (left_id_L ∅ (∪)). eexists. split; [done|]. by repeat constructor.
  - intros this o v h Hn R. open_fields. cbn [assign_fields copy_value pointers Task_description] in *.
    apply Forall_cons in Hn as (E1 & (E2 & (E3 & (E4 & _)%Forall_cons)%Forall_cons)%Forall_cons).
    unfold Task_object.assign, Task.Task_copy. rewrite E2, E3, E4. change (Task_object.assign_optional None) with Task_object.copy_optional.
    complete; simpl; naive_solver congruence.
  - intros o v h R _. open_fields. cbn [contents pointers texts Task_description] in *. unfold Task_object.contents.
    read_fields. destruct v. simpl in *. naive_solver congruence.
  - intros row v. apply Registry.Task_new_copies.
  - intros v v'. cbn [copy_value Task_description]. unfold Task.Task_copy. intros E. inv_ret. by destruct v; simplify_eq/=.
Qed.

#[export] Instance Workflow_laws : DescriptionLaws Workflow_object.Workflow Registry.Workflow.
Proof.
  split.
  - split; [repeat constructor|done].
  - intros [row|] h; [|done]. cbn [construct new_value Workflow_description]. unfold Workflow_object.Workflow_new, Registry.Workflow_new.
    complete; done.
  - intros o v h R. open_fields. cbn [copy copy_value Workflow_description]. unfold Workflow_object.Workflow_copy, Registry.Workflow_copy.
    complete; simpl; naive_solver congruence.
  - intros o v h h' R D. open_fields. cbn [free Workflow_description] in *. unfold Workflow_object.free.
    free_fields. rewrite (left_id_L ∅ (∪)). eexists. split; [done|]. by repeat constructor.
  - intros this o v h _ R. open_fields. cbn [assign_fields copy_value Workflow_description] in *.
    unfold Workflow_object.Workflow_copy, Registry.Workflow_copy. complete; simpl; naive_solver congruence.
  - intros o v h R _. open_fields. cbn [contents Workflow_description] in *. unfold Workflow_object.contents.
    read_fields. destruct v. simpl in *. naive_solver congruence.
  - intros row v. apply Registry.Workflow_new_copies.
  - intros v v'. cbn [copy_value Workflow_description]. unfold Registry.Workflow_copy. intros E. inv_ret. by destruct v; simplify_eq/=.
Qed.

#[export] Instance RetrySchedule_laws : DescriptionLaws RetrySchedule_object.RetrySchedule Registry.RetrySchedule.
Proof.
  split.
  - split; [repeat constructor|done].
  - intros [row|] h; [|done]. cbn [construct new_value RetrySchedule_description].
    unfold RetrySchedule_object.RetrySchedule_new, Registry.RetrySchedule_new. complete; done.
  - intros o v h R. open_fields. cbn [copy copy_value RetrySchedule_description].
    unfold RetrySchedule_object.RetrySchedule_copy, Registry.RetrySchedule_copy. complete; simpl; naive_solver congruence.
  - intros o v h h' R D. open_fields. cbn [free RetrySchedule_description] in *. unfold RetrySchedule_object.free.
    free_fields. rewrite (left_id_L ∅ (∪)). eexists. split; [done|]. by repeat constructor.
  - intros this o v h _ R. open_fields. cbn [assign_fields copy_value RetrySchedule_description] in *.
    unfold RetrySchedule_object.RetrySchedule_copy, Registry.RetrySchedule_copy. complete; simpl; naive_solver congruence.
  - intros o v h R _. open_fields. cbn [contents RetrySchedule_description] in *. unfold RetrySchedule_object.contents.
    read_fields. destruct v. simpl in *. naive_solver congruence.
  - intros row v. apply Registry.RetrySchedule_new_copies.
  - intros v v'. cbn [copy_value RetrySchedule_description]. unfold Registry.RetrySchedule_copy. intros E. inv_ret.
    by destruct v; simplify_eq/=.
Qed.
