(* ===== verification/RegistryMemory.v ===== *)
(** The maps of [Tasks.cpp], [Workflows.cpp] and [RetrySchedules.cpp] with the
    memory of their objects: the loops that delete and create descriptions, the
    copies that a look-up makes, the destructor.  They refine the maps of values
    of [Registry], and free what they allocate. *)

From S2P Require Import Prelude CString DB Task Registry Memory Descriptions.

Open Scope Z_scope.

Section RegistryMemory.
Context {Obj V : Type} `{DescriptionLaws Obj V}.
Context (unknown : Exception).

(** * Objects *)

(** [objects] are those that were created and not destroyed yet. *)
Record memory : Type := mkMemory { arrays : heap; objects : gmap loc Obj }.

(** The constructor [m] on new storage. *)
Definition new_object (m : M Obj) (s : memory) : outcome (loc * memory) :=
  '(o, h) ← m (arrays s);
  let a := fresh (dom (objects s)) in
  Ret (a, mkMemory h (<[a := o]> (objects s))).

(** The copy constructor on new storage. *)
Definition copy_object (a : loc) (s : memory) : outcome (loc * memory) :=
  o ← deref (objects s !! a);
  new_object (copy o) s.

(** [operator=]; both objects may be the same. *)
Definition assign (this other : loc) (s : memory) : outcome memory :=
  o ← deref (objects s !! this);
  '(o, h) ← free o (arrays s);
  let objects := <[this := o]> (objects s) in
  src ← deref (objects !! other);
  '(o, h) ← assign_fields o src h;
  Ret (mkMemory h (<[this := o]> objects)).

(** The destructor, and the end of the storage. *)
Definition destroy (a : loc) (s : memory) : outcome memory :=
  o ← deref (objects s !! a);
  '(_, h) ← free o (arrays s);
  Ret (mkMemory h (delete a (objects s))).

Definition read_object (a : loc) (s : memory) : outcome V :=
  o ← deref (objects s !! a);
  '(v, _) ← contents o (arrays s);
  Ret v.

(** * The map *)

Record registry : Type := mkRegistry {
  lock : bool;
  descriptions : gmap string loc;
  mem : memory;
}.

Definition registry_empty : registry := mkRegistry false ∅ (mkMemory ∅ ∅).

(** The loop that deletes the descriptions. *)
Fixpoint destroy_all (l : list loc) (s : memory) : outcome memory :=
  match l with
  | [] => Ret s
  | a :: l => s ← destroy a s; destroy_all l s
  end.

(** The loop on the names; the entry of a name that is there already is
    overwritten. *)
Fixpoint load (query : string -> outcome (option row_type)) (names : list (option string)) (r : registry)
    : outcome unit * registry :=
  match names with
  | [] => (Ret tt, mkRegistry false (descriptions r) (mem r))
  | None :: _ => (Undef, r)
  | Some name :: names =>
      match row ← query name; new_object (construct row) (mem r) with
      | Ret (a, s) => load query names (mkRegistry (lock r) (<[name := a]> (descriptions r)) s)
      | Throw e => (Throw e, r)
      | Undef => (Undef, r)
      end
  end.

Definition Reload (query : string -> outcome (option row_type)) (names : outcome (list (option string))) (r : registry)
    : option (outcome unit * registry) :=
  if lock r then None
  else
    Some match destroy_all (map_to_list (descriptions r)).*2 (mem r) with
         | Ret s =>
             let r := mkRegistry true ∅ s in
             match names with
             | Ret names => load query names r
             | Throw e => (Throw e, r)
             | Undef => (Undef, r)
             end
         | Throw e => (Throw e, r)
         | Undef => (Undef, r)
         end.

Definition Get (name : string) (r : registry) : option (outcome loc * registry) :=
  if lock r then None
  else
    match descriptions r !! name with
    | None => Some (Throw unknown, r)
    | Some a =>
        match copy_object a (mem r) with
        | Ret (b, s) => Some (Ret b, mkRegistry false (descriptions r) s)
        | Throw e => Some (Throw e, mkRegistry true (descriptions r) (mem r))
        | Undef => Some (Undef, mkRegistry true (descriptions r) (mem r))
        end
    end.

(** [Task task; task = Tasks::GetInstance()->GetTask(name);], then the getters, and
    the end of the scope.  The object that the call returns is destroyed after
    the assignment. *)
Definition fetch (name : string) (r : registry) : option (outcome V * registry) :=
  match new_object (mret default) (mem r) with
  | Ret (task, s) =>
      match Get name (mkRegistry (lock r) (descriptions r) s) with
      | None => None
      | Some (res, r) =>
          match (match res with
                 | Ret a => s ← assign task a (mem r); s ← destroy a s; v ← read_object task s; Ret (Ret v, s)
                 | Throw e => Ret (Throw e, mem r)
                 | Undef => Undef
                 end) with
          | Ret (res, s) =>
              match destroy task s with
              | Ret s => Some (res, mkRegistry (lock r) (descriptions r) s)
              | _ => Some (Undef, r)
              end
          | _ => Some (Undef, r)
          end
      end
  | _ => Some (Undef, r)
  end.

(** [~Tasks()]. *)
Definition destructor (r : registry) : outcome memory := destroy_all (map_to_list (descriptions r)).*2 (mem r).

(** * The objects stand for values *)

(** The objects [os] stand for the values [vs], and their arrays are the whole
    of the heap. *)
Inductive represents : gmap loc Obj -> gmap loc V -> heap -> Prop :=
  | represents_empty : represents ∅ ∅ ∅
  | represents_insert a o v h1 os vs h :
      os !! a = None -> owns o v h1 -> h1 ##ₘ h -> represents os vs h ->
      represents (<[a := o]> os) (<[a := v]> vs) (h1 ∪ h).

Lemma represents_lookup os vs h a : represents os vs h -> os !! a = None <-> vs !! a = None.
Proof. induction 1 as [|b o v h1 os vs h Hn O D R IH]; [done|]. rewrite !lookup_insert_None. naive_solver. Qed.

Lemma represents_nothing os h : represents os ∅ h -> os = ∅ /\ h = ∅.
Proof.
  remember (∅ : gmap loc V) as vs eqn:E. destruct 1; [done|]. by apply insert_non_empty in E.
Qed.

Lemma represents_delete os vs h a o :
  represents os vs h -> os !! a = Some o ->
  exists v h1 h', vs !! a = Some v /\ owns o v h1 /\ h = h1 ∪ h' /\ h1 ##ₘ h' /\ represents (delete a os) (delete a vs) h'.
Proof.
  induction 1 as [|b o' v h1 os vs h Hn O D R IH]; [done|].
  assert (vs !! b = None) as Hv by (by apply (represents_lookup _ _ _ _ R)). destruct (decide (a = b)) as [->|Hne].
  - rewrite lookup_insert_eq. intros [= ->]. exists v, h1, h. rewrite lookup_insert_eq, !delete_insert_id by done. done.
  - rewrite lookup_insert_ne by done. intros Ha. destruct (IH Ha) as (v' & h2 & h3 & Hv' & O' & -> & D' & R').
    apply map_disjoint_union_r in D as [D1 D2]. exists v', h2, (h1 ∪ h3).
    rewrite lookup_insert_ne, !delete_insert_ne by done. split; [done|]. split; [done|]. split.
    { by rewrite (assoc_L (∪)), (map_union_comm h1 h2), <- (assoc_L (∪)). }
    split; [by apply map_disjoint_union_r_2|]. constructor; [by rewrite lookup_delete_ne| |done|done]. done.
Qed.

Definition holds (s : memory) (vs : gmap loc V) : Prop := represents (objects s) vs (arrays s).

Lemma holds_object s vs a v :
  holds s vs -> vs !! a = Some v -> exists o, objects s !! a = Some o /\ reads o v (arrays s).
Proof.
  intros R Ha. destruct (objects s !! a) as [o|] eqn:Eo.
  - exists o. split; [done|]. destruct (represents_delete _ _ _ _ _ R Eo) as (v' & h1 & h' & Hv & [O A] & E & D & _). simplify_eq.
    split; [|done]. eapply owned_points; [done|]. rewrite E. apply map_union_subseteq_l.
  - apply (represents_lookup _ _ _ _ R) in Eo. congruence.
Qed.

Lemma new_object_holds s vs m v :
  holds s vs -> makes m v (arrays s) ->
  match v with
  | Ret v => exists a s', new_object m s = Ret (a, s') /\ vs !! a = None /\ holds s' (<[a := v]> vs)
  | Throw e => new_object m s = Throw e
  | Undef => new_object m s = Undef
  end.
Proof.
  intros R Hm. unfold new_object. destruct v as [v|e|]; simpl in Hm; [|by rewrite Hm..].
  destruct Hm as (o & h1 & -> & D & O). simpl. eexists _, _. split; [done|].
  assert (objects s !! fresh (dom (objects s)) = None) as Hn by (apply not_elem_of_dom, is_fresh).
  split; [by apply (represents_lookup _ _ _ _ R)|]. by constructor.
Qed.

Lemma copy_object_holds s vs a v :
  holds s vs -> vs !! a = Some v -> copy_value v = Ret v ->
  exists b s', copy_object a s = Ret (b, s') /\ vs !! b = None /\ holds s' (<[b := v]> vs).
Proof.
  intros R Ha C. destruct (holds_object _ _ _ _ R Ha) as (o & Eo & Rd). unfold copy_object. rewrite Eo. simpl.
  pose proof (copy_makes _ _ _ Rd) as Hm. rewrite C in Hm. exact (new_object_holds _ _ _ _ R Hm).
Qed.

Lemma destroy_holds s vs a v :
  holds s vs -> vs !! a = Some v -> exists s', destroy a s = Ret s' /\ holds s' (delete a vs).
Proof.
  intros R Ha. destruct (holds_object _ _ _ _ R Ha) as (o & Eo & _).
  destruct (represents_delete _ _ _ _ _ R Eo) as (v' & h1 & h' & Hv & O & E & D & R').
  destruct (free_owns _ _ _ _ O D) as (o' & Ef & _). unfold destroy. rewrite Eo, E. simpl. rewrite Ef. by eexists.
Qed.

Lemma assign_holds s vs a b va v :
  holds s vs -> vs !! a = Some va -> vs !! b = Some v -> a <> b -> copy_value v = Ret v ->
  exists s', assign a b s = Ret s' /\ holds s' (<[a := v]> vs).
Proof.
  intros R Ha Hb Hne C. destruct (holds_object _ _ _ _ R Ha) as (oa & Ea & _).
  destruct (holds_object _ _ _ _ R Hb) as (ob & Eb & _).
  destruct (represents_delete _ _ _ _ _ R Ea) as (va' & h1 & h' & _ & O & E & D & R').
  destruct (free_owns _ _ _ _ O D) as (o' & Ef & Hnull).
  assert (delete a vs !! b = Some v) as Hb' by (by rewrite lookup_delete_ne).
  destruct (holds_object (mkMemory h' (delete a (objects s))) _ _ _ R' Hb') as (ob' & Eb' & Rd).
  simpl in *. rewrite lookup_delete_ne in Eb' by done. assert (ob' = ob) as -> by congruence.
  pose proof (assign_makes o' ob v h' Hnull Rd) as Hm. rewrite C in Hm. destruct Hm as (o2 & h2 & Em & D2 & O2).
  unfold assign. rewrite Ea, E. simpl. rewrite Ef. simpl. rewrite lookup_insert_ne, Eb by done. simpl. rewrite Em. simpl.
  eexists. split; [done|]. unfold holds. simpl.
  rewrite insert_insert_eq, <- insert_delete_eq, <- (insert_delete_eq vs). constructor; try done. apply lookup_delete_eq.
Qed.

Lemma read_object_holds s vs a v :
  holds s vs -> vs !! a = Some v -> copy_value v = Ret v -> read_object a s = Ret v.
Proof.
  intros R Ha C. destruct (holds_object _ _ _ _ R Ha) as (o & Eo & Rd). unfold read_object. rewrite Eo. simpl.
  by rewrite (contents_reads _ _ _ Rd C).
Qed.

Lemma destroy_all_holds l s vs :
  NoDup l -> (forall a, a ∈ l <-> is_Some (vs !! a)) -> holds s vs ->
  destroy_all l s = Ret (mkMemory ∅ ∅).
Proof.
  revert s vs. induction l as [|a l IH]; intros s vs N Hl R.
  - assert (vs = ∅) as -> by (apply map_empty; intros a; apply eq_None_not_Some; rewrite <- Hl; apply not_elem_of_nil).
    apply represents_nothing in R as [Eo Ea]. destruct s; simpl in *; by subst.
  - apply NoDup_cons in N as [Hn N]. destruct (proj1 (Hl a)) as [v Hv]; [by left|].
    destruct (destroy_holds _ _ _ _ R Hv) as (s' & E & R'). simpl. rewrite E. simpl. apply (IH s' (delete a vs)); [done| |done].
    intros b. rewrite lookup_delete_is_Some. specialize (Hl b). set_solver.
Qed.

(** * The map stands for a map of values *)

(** Each name has its own object, which can be copied, and there is no other
    object. *)
Record matches (d : gmap string loc) (e : gmap string V) (vs : gmap loc V) : Prop := {
  m_value n a : d !! n = Some a -> exists v, e !! n = Some v /\ vs !! a = Some v /\ copy_value v = Ret v;
  m_none n : d !! n = None -> e !! n = None;
  m_own n1 n2 a : d !! n1 = Some a -> d !! n2 = Some a -> n1 = n2;
  m_all a : is_Some (vs !! a) -> exists n, d !! n = Some a;
}.

Definition refines (r : registry) (R : Registry.Registry V) : Prop :=
  lock r = locked R /\ exists vs, holds (mem r) vs /\ matches (descriptions r) (entries R) vs.

Lemma matches_empty : matches ∅ ∅ ∅.
Proof. split; try done. by intros a [? ?]. Qed.

Lemma matches_insert d e vs n a v :
  matches d e vs -> d !! n = None -> vs !! a = None -> copy_value v = Ret v ->
  matches (<[n := a]> d) (<[n := v]> e) (<[a := v]> vs).
Proof.
  intros [M1 M2 M3 M4] Hn Ha C.
  assert (forall m b, d !! m = Some b -> m <> n /\ b <> a) as Hd by (intros m b Hm; destruct (M1 m b Hm) as (? & _ & ? & _); naive_solver).
  split.
  - intros m b [[<- <-]|[Hne Hm]]%lookup_insert_Some; [exists v; by rewrite !lookup_insert_eq|].
    destruct (Hd m b Hm). rewrite !lookup_insert_ne by done. by apply M1.
  - intros m [Hm Hne]%lookup_insert_None. rewrite lookup_insert_ne by done. by apply M2.
  - intros m1 m2 b. rewrite !lookup_insert_Some. naive_solver.
  - intros b. rewrite lookup_insert_is_Some. intros [<-|[Hne Hb]]; [exists n; apply lookup_insert_eq|].
    destruct (M4 b Hb) as [m Hm]. exists m. destruct (Hd m b Hm). by rewrite lookup_insert_ne.
Qed.

Lemma matches_objects d e vs :
  matches d e vs -> NoDup (map_to_list d).*2 /\ (forall a, a ∈ (map_to_list d).*2 <-> is_Some (vs !! a)).
Proof.
  intros [M1 M2 M3 M4]. split.
  - apply (NoDup_fmap_2_strong snd); [|apply NoDup_map_to_list]. intros [n1 a1] [n2 a2].
    rewrite !elem_of_map_to_list. simpl. intros H1' H2' ->. f_equal. eauto.
  - intros a. rewrite list_elem_of_fmap. split.
    + intros ([n b] & -> & Hn%elem_of_map_to_list). destruct (M1 _ _ Hn) as (v & _ & Hv & _). by exists v.
    + intros Ha. destruct (M4 a Ha) as [n Hn]. exists (n, a). by rewrite elem_of_map_to_list.
Qed.

Lemma refines_empty : refines registry_empty Registry_empty.
Proof. split; [done|]. exists ∅. split; [apply represents_empty|apply matches_empty]. Qed.

(** A map and the same with its contents in memory answer the same. *)
Definition agrees {A} (x : outcome A * registry) (y : outcome A * Registry.Registry V) : Prop :=
  x.1 = y.1 /\ (y.1 <> Undef -> refines x.2 y.2).

Lemma load_refines query names r R :
  refines r R -> NoDup names -> (forall n, Some n ∈ names -> descriptions r !! n = None) ->
  agrees (load query names r) (Registry.load (fun n => row ← query n; new_value row) names R).
Proof.
  intros Rf. revert r R Rf. induction names as [|n names IH]; intros r R (L & vs & Hh & Hm) N Hn.
  - split; [done|]. intros _. split; [done|]. by exists vs.
  - apply NoDup_cons in N as [Hnot N]. destruct n as [n|]; [|done]. cbn [load Registry.load].
    destruct (query n) as [row|e|]; cbn [mbind outcome_bind]; [|split; [done|]; intros _; split; eauto..].
    pose proof (new_object_holds _ _ _ _ Hh (construct_makes row _)) as Hc.
    destruct (new_value row) as [v|e|] eqn:Ev; [|rewrite Hc; split; [done|]; intros _; split; eauto..].
    destruct Hc as (a & s & -> & Ha & Hs). apply IH; [|done|].
    + split; [done|]. exists (<[a := v]> vs). split; [done|]. cbn [descriptions entries].
      apply matches_insert; try done; [apply Hn; by left|by eapply new_value_copies].
    + intros m Hin. cbn [descriptions]. rewrite lookup_insert_ne by (intros ->; done). apply Hn. by right.
Qed.

Lemma Reload_refines query names r R :
  refines r R -> (forall l, names = Ret l -> NoDup l) ->
  match Reload query names r, Registry.Reload (fun n => row ← query n; new_value row) names R with
  | Some x, Some y => agrees x y
  | None, None => True
  | _, _ => False
  end.
Proof.
  intros (L & vs & Hh & Hm) N. unfold Reload, Registry.Reload. rewrite <- L. destruct (lock r); [done|].
  destruct (matches_objects _ _ _ Hm) as [Nd Hd]. rewrite (destroy_all_holds _ _ _ Nd Hd Hh). cbv zeta.
  assert (refines (mkRegistry true ∅ (mkMemory ∅ ∅)) (Registry.mkRegistry true ∅)) as R0.
  { split; [done|]. exists ∅. split; [apply represents_empty|apply matches_empty]. }
  destruct names as [l|e|]; [by apply load_refines; auto|by split..].
Qed.

Lemma fetch_refines name r R :
  refines r R ->
  match fetch name r, Registry.Get unknown copy_value name R with
  | Some x, Some y => agrees x y
  | None, None => True
  | _, _ => False
  end.
Proof.
  intros (L & vs & Hh & Hm). unfold fetch, Get, Registry.Get.
  assert (makes (mret default : M Obj) (Ret default_value) (arrays (mem r))) as Mk.
  { exists default, ∅. rewrite (left_id_L ∅ (∪)). split; [done|]. split; [apply map_disjoint_empty_l|apply default_owns]. }
  destruct (new_object_holds _ _ _ _ Hh Mk) as (t & s & -> & Ht & Hs). cbn [lock]. rewrite <- L.
  destruct (lock r) eqn:Lk; [done|]. cbn [descriptions mem].
  destruct (descriptions r !! name) as [a|] eqn:Ea.
  - destruct (m_value _ _ _ Hm _ _ Ea) as (v & -> & Hv & C). rewrite C.
    assert (a <> t) as Hat by congruence.
    assert (<[t := default_value]> vs !! a = Some v) as Hv' by (by rewrite lookup_insert_ne).
    destruct (copy_object_holds _ _ _ _ Hs Hv' C) as (b & s1 & -> & [Hb Htb]%lookup_insert_None & Hs1).
    cbn [mem lock].
    destruct (assign_holds _ _ t b default_value v Hs1) as (s2 & -> & Hs2);
      [by rewrite lookup_insert_ne, lookup_insert_eq|apply lookup_insert_eq|done|done|]. cbn.
    destruct (destroy_holds _ _ b v Hs2) as (s3 & -> & Hs3); [by rewrite lookup_insert_ne, lookup_insert_eq|]. cbn.
    assert (delete b (<[t:=v]> (<[b:=v]> (<[t:=default_value]> vs))) = <[t := v]> vs) as E.
    { rewrite (insert_insert_ne _ t b) by done. rewrite delete_insert_eq, insert_insert_eq. by rewrite delete_insert_ne, delete_id. }
    rewrite E in Hs3. rewrite (read_object_holds _ _ t v Hs3) by (done || apply lookup_insert_eq). cbn.
    destruct (destroy_holds _ _ t v Hs3) as (s4 & -> & Hs4); [apply lookup_insert_eq|].
    rewrite delete_insert_id in Hs4 by done. split; [done|]. intros _. split; [done|]. by exists vs.
  - rewrite (m_none _ _ _ Hm _ Ea). cbn [mem lock].
    destruct (destroy_holds _ _ t default_value Hs) as (s4 & -> & Hs4); [apply lookup_insert_eq|].
    rewrite delete_insert_id in Hs4 by done. split; [done|]. intros _. split; [done|]. by exists vs.
Qed.

Lemma destructor_refines r R : refines r R -> destructor r = Ret (mkMemory ∅ ∅).
Proof.
  intros (_ & vs & Hh & Hm). destruct (matches_objects _ _ _ Hm) as [Nd Hd]. by eapply destroy_all_holds.
Qed.

(** * Sequences of requests *)

Inductive request : Type :=
  | ReloadRequest (query : string -> outcome (option row_type)) (names : outcome (list (option string)))
  | GetRequest (name : string).

Inductive answer : Type :=
  | Waits
  | Reloaded (o : outcome unit)
  | Got (o : outcome V).

Definition defined (a : answer) : bool :=
  match a with Reloaded Undef | Got Undef => false | _ => true end.

(** The names of the rows are distinct: the column is a key of the table. *)
Definition distinct_names (x : request) : Prop :=
  match x with ReloadRequest _ (Ret l) => NoDup l | _ => True end.

Section run.
Context {S : Type} (reload : (string -> outcome (option row_type)) -> outcome (list (option string)) -> S -> option (outcome unit * S)).
Context (get : string -> S -> option (outcome V * S)).

Definition serve (x : request) (s : S) : answer * S :=
  match x with
  | ReloadRequest query names => match reload query names s with Some (o, s) => (Reloaded o, s) | None => (Waits, s) end
  | GetRequest name => match get name s with Some (o, s) => (Got o, s) | None => (Waits, s) end
  end.

(** The answers, up to the first undefined one. *)
Fixpoint run (l : list request) (s : S) : list answer * S :=
  match l with
  | [] => ([], s)
  | x :: l =>
      let '(a, s) := serve x s in
      if defined a then let '(answers, s) := run l s in (a :: answers, s) else ([a], s)
  end.
End run.

Definition run_objects : list request -> registry -> list answer * registry := run Reload fetch.
Definition run_values : list request -> Registry.Registry V -> list answer * Registry.Registry V :=
  run (fun query => Registry.Reload (fun n => row ← query n; new_value row)) (Registry.Get unknown copy_value).

Lemma serve_refines x r R :
  refines r R -> distinct_names x ->
  let a := serve Reload fetch x r in
  let b := serve (fun query => Registry.Reload (fun n => row ← query n; new_value row)) (Registry.Get unknown copy_value) x R in
  a.1 = b.1 /\ (defined b.1 = true -> refines a.2 b.2).
Proof.
  intros Rf N. destruct x as [query names|name]; cbn [serve].
  - assert (forall l, names = Ret l -> NoDup l) as N' by (intros l ->; exact N).
    pose proof (Reload_refines query names r R Rf N') as C.
    destruct (Reload query names r) as [[o r']|], (Registry.Reload _ names R) as [[o' R']|]; try done.
    destruct C as [E C]. simpl in *. subst. split; [done|]. intros Hd. apply C. by destruct o'.
  - pose proof (fetch_refines name r R Rf) as C.
    destruct (fetch name r) as [[o r']|], (Registry.Get _ _ name R) as [[o' R']|]; try done.
    destruct C as [E C]. simpl in *. subst. split; [done|]. intros Hd. apply C. by destruct o'.
Qed.

Lemma run_refines l r R :
  refines r R -> Forall distinct_names l ->
  (run_objects l r).1 = (run_values l R).1 /\
  (Forall (fun a => defined a = true) (run_values l R).1 -> refines (run_objects l r).2 (run_values l R).2).
Proof.
  revert r R. induction l as [|x l IH]; intros r R Rf N; [done|]. apply Forall_cons in N as [Nx N].
  destruct (serve_refines x r R Rf Nx) as [E C]. unfold run_objects, run_values in *. cbn [run].
  destruct (serve Reload fetch x r) as [a r'], (serve _ _ x R) as [b R']. simpl in E, C. subst.
  destruct (defined b) eqn:D.
  - destruct (IH r' R' (C eq_refl) N) as [E' C']. destruct (run _ _ l r') as [l1 r2], (run _ _ l R') as [l2 R2].
    simpl in *. subst. split; [done|]. intros [_ F]%Forall_cons. by apply C'.
  - split; [done|]. intros [F _]%Forall_cons. congruence.
Qed.

(** C30: On any sequence of reloads and look-ups, the maps of descriptions,
    whose objects allocate, copy, assign and free their strings, answer what
    maps of plain values answer, hold exactly the arrays of the descriptions
    that are in the map at that time, and the destructor frees everything:
    no leak, no double free, no access to a freed string, as long as the
    names of a reload are distinct. *)
Theorem descriptions_refine_values l :
  Forall distinct_names l ->
  let '(answers, r) := run_objects l registry_empty in
  let '(answers', R) := run_values l Registry_empty in
  answers = answers' /\
  (Forall (fun a => defined a = true) answers -> refines r R /\ destructor r = Ret (mkMemory ∅ ∅)).
Proof.
  intros N. destruct (run_refines l _ _ refines_empty N) as [E C].
  destruct (run_objects l registry_empty) as [x r], (run_values l Registry_empty) as [y R]. simpl in *. subst.
  split; [done|]. intros F. split; [by apply C|]. by eapply destructor_refines, C.
Qed.
End RegistryMemory.
Arguments registry : clear implicits.
Arguments memory : clear implicits.

(** * Runs *)

Definition ex_task (host : option string) : row_type :=
  [Some "/bin/backup"; None; Some "root"; host; Some "ENV"; Some "TEXT"]%string.

Definition ex_requests : list request :=
  [ReloadRequest (fun n => Ret (Some (ex_task (Some n)))) (Ret [Some "backup"; Some "clean"]%string);
   GetRequest "clean";
   GetRequest "none";
   ReloadRequest (fun n => Ret (Some (ex_task None))) (Ret [Some "clean"]%string);
   GetRequest "clean"].

Definition ex_unknown : Exception := mkException "Tasks" "Unable to find task".

Lemma descriptions_refine_values_witness :
  Forall distinct_names ex_requests /\
  let '(answers, r) := run_objects (H := Task_description) ex_unknown ex_requests registry_empty in
  let '(answers', R) := run_values (H := Task_description) ex_unknown ex_requests Registry_empty in
  answers = answers' /\
  (Forall (fun a => defined a = true) answers ->
   refines (H := Task_description) r R /\ destructor r = Ret (mkMemory ∅ ∅)).
Proof.
  assert (Forall distinct_names ex_requests) as N.
  { repeat constructor; set_solver. }
  split; [exact N|]. exact (descriptions_refine_values (H := Task_description) ex_unknown ex_requests N).
Defined.

(** The tasks that are read back. *)
Lemma ex_answers :
  (run_objects (H := Task_description) ex_unknown ex_requests registry_empty).1 =
  [Reloaded (Ret tt);
   Got (Ret (Task.mkTask (Some "/bin/backup") None (Some "root") (Some "clean") task_parameters_mode.ENV task_output_method.TEXT));
   Got (Throw ex_unknown);
   Reloaded (Ret tt);
   Got (Ret (Task.mkTask (Some "/bin/backup") None (Some "root") None task_parameters_mode.ENV task_output_method.TEXT))]%string.
Proof. vm_compute. reflexivity. Qed.

(** A name that comes twice leaves its first object behind. *)
Lemma duplicate_name_leaks :
  let r := (run_objects (H := Task_description) ex_unknown
             [ReloadRequest (fun n => Ret (Some (ex_task None))) (Ret [Some "clean"; Some "clean"]%string)] registry_empty).2 in
  exists s, destructor r = Ret s /\ base.size (objects s) = 1%nat /\ base.size (arrays s) = 2%nat.
Proof. eexists. split; [vm_compute; reflexivity|]. by vm_compute. Qed.

(** The copy of a default object reads a null pointer, and so does the assignment
    of an object to itself, whose strings are freed first. *)
Lemma copy_default_undefined h : Task_object.Task_copy Task_object.Task_default h = Undef.
Proof. reflexivity. Qed.

Lemma assign_self_undefined :
  (let r := (run_objects (H := Task_description) ex_unknown (take 1 ex_requests) registry_empty).2 in
   a ← descriptions r !! "clean"%string; Some (assign a a (mem r))) = Some Undef.
Proof. vm_compute. reflexivity. Qed.
