(* ===== verification/WorkflowInstance.v ===== *)
(** [WorkflowInstance.cpp]: the execution of a workflow.  An instance holds the
    XML document of its workflow and walks it: it queues the tasks of a job,
    reacts to the end of a task, retries failed tasks, starts the jobs below a
    completed one, and finds out when nothing is left to do.

    The methods are programs of a state and exception monad: C++ exceptions
    keep the changes made before them. *)

From S2P Require Import Prelude CString Configuration Dom Task.

Open Scope Z_scope.

Definition WORKFLOW_NAME_MAXLEN : Z := 64.
Definition PARAMETER_NAME_MAX_LEN : Z := 64.
Definition TASK_NAME_MAX_LEN : Z := 64.

Section WorkflowInstance.
Context {D : Type} `{Dom D}.

(** * State *)

(** The fields that [init] reads from the configuration; [None]: not set. *)
Record settings : Type := mkSettings {
  logs_directory : string;
  errlogs : bool;
  errlogs_directory : string;
  tasks_directory : string;
  monitor_path : string;
  saveparameters : bool;
  savepoint_level : Z;
  savepoint_retry : bool;
  savepoint_retry_times : option Z;
  savepoint_retry_wait : option Z;
}.

Record WorkflowInstance : Type := mkWorkflowInstance {
  workflow_id : Z;
  workflow_instance_id : Z;
  running_tasks : Z;
  retrying_tasks : Z;
  error_tasks : Z;
  workflow_schedule_id : Z;
  is_cancelling : bool;
  xmldoc : D;
  config : settings;
}.

(** The queries to the database that concern an instance. *)
Inductive query : Type :=
  | InsertInstance (workflow_id : Z) (workflow_schedule_id : option Z) (host : option string)
  | InsertParameter (id : Z) (name value : string)
  | SetTerminated (id : Z)
  | UpdateSavepoint (savepoint : string) (id : Z)
  | UpdateTerminated (savepoint : string) (errors id : Z)
  | InsertSavepoint (id workflow_id workflow_schedule_id : Z) (host : option string)
      (start end_ status : string) (errors : Z) (savepoint : string).

(** What [execv] or [execl] gets in the child process. *)
Record exec : Type := mkExec {
  exec_argv : list string;
  exec_env : list (string * string);
  exec_log : string;
  exec_stdin : option string;
}.

(** The calls to the rest of the program and to the system. *)
Inductive effect : Type :=
  | EnqueueTask (queue_name : string) (task : node_ref)
  | ExecuteTask (queue_name : string) (task : node_ref) (tid : Z)
  | InsertTask (task : node_ref) (retry_at : Z)
  | IncWorkflowInstanceErrors
  | IncWorkflowInstanceExecuting
  | AddInstance (id : Z)
  | Query (q : query) (success : bool)
  | Sleep (seconds : Z)
  | Spawn (task : node_ref) (x : option exec)
  | WriteErrlog (output : string)
  | Kill (pid : Z).

(** [db_results] tells which of the next queries and connections to the database
    fail; when it is used up they all succeed. *)
Record world : Type := mkWorld {
  wi : WorkflowInstance;
  effects : list effect;
  db_results : list bool;
  time : Z;
}.

Definition set_running_tasks (n : Z) (i : WorkflowInstance) : WorkflowInstance :=
  mkWorkflowInstance (workflow_id i) (workflow_instance_id i) n (retrying_tasks i)
    (error_tasks i) (workflow_schedule_id i) (is_cancelling i) (xmldoc i) (config i).
Definition set_retrying_tasks (n : Z) (i : WorkflowInstance) : WorkflowInstance :=
  mkWorkflowInstance (workflow_id i) (workflow_instance_id i) (running_tasks i) n
    (error_tasks i) (workflow_schedule_id i) (is_cancelling i) (xmldoc i) (config i).
Definition set_error_tasks (n : Z) (i : WorkflowInstance) : WorkflowInstance :=
  mkWorkflowInstance (workflow_id i) (workflow_instance_id i) (running_tasks i) (retrying_tasks i)
    n (workflow_schedule_id i) (is_cancelling i) (xmldoc i) (config i).
Definition set_is_cancelling (b : bool) (i : WorkflowInstance) : WorkflowInstance :=
  mkWorkflowInstance (workflow_id i) (workflow_instance_id i) (running_tasks i) (retrying_tasks i)
    (error_tasks i) (workflow_schedule_id i) b (xmldoc i) (config i).
Definition set_xmldoc (d : D) (i : WorkflowInstance) : WorkflowInstance :=
  mkWorkflowInstance (workflow_id i) (workflow_instance_id i) (running_tasks i) (retrying_tasks i)
    (error_tasks i) (workflow_schedule_id i) (is_cancelling i) d (config i).
Definition set_workflow_instance_id (id : Z) (i : WorkflowInstance) : WorkflowInstance :=
  mkWorkflowInstance (workflow_id i) id (running_tasks i) (retrying_tasks i)
    (error_tasks i) (workflow_schedule_id i) (is_cancelling i) (xmldoc i) (config i).
Definition set_wi (i : WorkflowInstance) (w : world) : world :=
  mkWorld i (effects w) (db_results w) (time w).

(** * The monad *)

(** [Crash] is undefined behaviour, or an exception of a library that the
    program does not catch and that ends the process. *)
Inductive result (A : Type) : Type :=
  | Ok (a : A) (w : world)
  | Exn (e : Exception) (w : world)
  | Crash.
#[global] Arguments Ok {A} a w.
#[global] Arguments Exn {A} e w.
#[global] Arguments Crash {A}.

Definition M (A : Type) : Type := world -> result A.

#[export] Instance M_ret : MRet M := fun _ a w => Ok a w.
#[export] Instance M_bind : MBind M := fun _ _ k m w =>
  match m w with
  | Ok a w => k a w
  | Exn e w => Exn e w
  | Crash => Crash
  end.

(** One step of a program whose result is known. *)
Lemma bind_run {A B} (m : M A) (k : A -> M B) w a w1 : m w = Ok a w1 -> (m ≫= k) w = k a w1.
Proof. intros E. unfold mbind, M_bind. by rewrite E. Qed.

Lemma bind_Ok {A B} (m : M A) (k : A -> M B) w b w' :
  (m ≫= k) w = Ok b w' <-> exists a w1, m w = Ok a w1 /\ k a w1 = Ok b w'.
Proof.
  unfold mbind, M_bind. destruct (m w) as [a w1|e w1|]; split; try done; naive_solver.
Qed.

Definition throw {A} (e : Exception) : M A := fun w => Exn e w.
Definition crash {A} : M A := fun _ => Crash.
Definition try_catch {A} (m : M A) (h : Exception -> M A) : M A := fun w =>
  match m w with
  | Exn e w => h e w
  | r => r
  end.

Definition gets {A} (f : WorkflowInstance -> A) : M A := fun w => Ok (f (wi w)) w.
Definition modify (f : WorkflowInstance -> WorkflowInstance) : M unit := fun w =>
  Ok tt (set_wi (f (wi w)) w).
Definition emit (e : effect) : M unit := fun w =>
  Ok tt (mkWorld (wi w) (e :: effects w) (db_results w) (time w)).
Definition get_time : M Z := fun w => Ok (time w) w.

(** A pointer that is dereferenced, a value that must have been set. *)
Definition nonnull {A} (o : option A) : M A :=
  match o with
  | Some a => mret a
  | None => crash
  end.
Definition when (b : bool) (m : M unit) : M unit := if b then m else mret tt.

Definition ask {A} (f : D -> A) : M A := gets (fun i => f (xmldoc i)).
Definition dom (f : D -> D) : M unit := modify (fun i => set_xmldoc (f (xmldoc i)) i).
Definition dom_new (f : D -> node_ref * D) : M node_ref :=
  r ← ask f; _ ← dom (fun _ => r.2); mret r.1.

Definition get_named (n : node_ref) (a : string) : M (option string) :=
  ask (fun d => getNamedItem d n a).
Definition get_attr (n : node_ref) (a : string) : M string := ask (fun d => getAttribute d n a).
Definition set_attr (n : node_ref) (a v : string) : M unit := dom (setAttribute n a v).
Definition document_element : M node_ref := d ← ask getDocumentElement; nonnull d.

(** [xmldoc->evaluate] where an exception is caught ([None]) or not. *)
Definition try_eval (expr : string) (ctx : node_ref) : M (option (list item)) :=
  ask (evaluate expr ctx).
Definition eval (expr : string) (ctx : node_ref) : M (list item) :=
  r ← try_eval expr ctx; nonnull r.
Definition eval_integer (expr : string) (ctx : node_ref) : M Z :=
  r ← eval expr ctx;
  i ← nonnull (head r);
  z ← ask (fun d => getIntegerValue d i);
  nonnull z.

(** [isNode] and [getNodeValue] of a first result. *)
Definition first_node (r : list item) : option node_ref :=
  match r with
  | INode n :: _ => Some n
  | _ => None
  end.
(** [getNodeValue] of a snapshot item. *)
Definition node_value (i : item) : M node_ref :=
  match i with
  | INode n => mret n
  | IAtom _ => crash
  end.

Definition parse_int (s : string) : M Z := nonnull (parseInt s).
(** [sprintf] of these characters in a buffer of [size] bytes. *)
Definition sprintf (size : Z) (s : string) : M string :=
  if strlen s + 1 <=? size then mret s else crash.

(** [int] arithmetic that must not overflow. *)
Definition int (z : Z) : M Z := if (- 2 ^ 31 <=? z) && (z <? 2 ^ 31) then mret z else crash.

Definition inc_running : M unit := modify (fun i => set_running_tasks (u32 (running_tasks i + 1)) i).
Definition dec_running : M unit := modify (fun i => set_running_tasks (u32 (running_tasks i - 1)) i).
Definition inc_retrying : M unit := modify (fun i => set_retrying_tasks (u32 (retrying_tasks i + 1)) i).
Definition dec_retrying : M unit := modify (fun i => set_retrying_tasks (u32 (retrying_tasks i - 1)) i).
Definition inc_errors : M unit := modify (fun i => set_error_tasks (u32 (error_tasks i + 1)) i).

Definition db_query (q : query) : M unit := fun w =>
  match db_results w with
  | false :: r => Exn (mkException "DB" "query failed") (mkWorld (wi w) (Query q false :: effects w) r (time w))
  | true :: r => Ok tt (mkWorld (wi w) (Query q true :: effects w) r (time w))
  | [] => Ok tt (mkWorld (wi w) (Query q true :: effects w) [] (time w))
  end.

(** [DB db]: the connection may fail. *)
Definition db_connect : M unit := fun w =>
  match db_results w with
  | false :: r => Exn (mkException "DB" "connection failed") (mkWorld (wi w) (effects w) r (time w))
  | true :: r => Ok tt (mkWorld (wi w) (effects w) r (time w))
  | [] => Ok tt w
  end.

(** * The rest of the program

    The queue pool knows its queues by name ([QueuePool.EnqueueTask] fails for
    the other names), [Tasks::GetTask] throws for unknown names. *)

Context (known_queue : string -> bool).
Context (GetTask : string -> option Task).
(** [localtime] written as year-month-day hour:minute:second. *)
Context (format_time : Z -> string).

Definition format_datetime : M string := t ← get_time; mret (format_time t).

(** [init]. *)
Definition init (c : Configuration) : outcome settings :=
  logs_directory ← (v ← Get "processmanager.logs.directory" c; deref v);
  errlogs ← GetBool "processmanager.errlogs.enable" c;
  errlogs_directory ← (v ← Get "processmanager.errlogs.directory" c; deref v);
  tasks_directory ← (v ← Get "processmanager.tasks.directory" c; deref v);
  monitor_path ← (v ← Get "processmanager.monitor.path" c; deref v);
  saveparameters ← GetBool "workflowinstance.saveparameters" c;
  level ← GetInt "workflowinstance.savepoint.level" c;
  let savepoint_level := if (level <? 0) || (level >? 3) then 0 else level in
  savepoint_retry ← GetBool "workflowinstance.savepoint.retry.enable" c;
  if (savepoint_retry : bool) then
    times ← GetInt "workflowinstance.savepoint.retry.times" c;
    wait ← GetInt "workflowinstance.savepoint.retry.wait" c;
    Ret (mkSettings logs_directory errlogs errlogs_directory tasks_directory monitor_path
           saveparameters savepoint_level true (Some (u32 times)) (Some (u32 wait)))
  else
    Ret (mkSettings logs_directory errlogs errlogs_directory tasks_directory monitor_path
           saveparameters savepoint_level false None None).

Definition abort_task (task : node_ref) (why : string) : M unit :=
  _ ← set_attr task "status" "ABORTED";
  set_attr task "error" why.

Definition enqueue_task (task : node_ref) : M unit :=
  cancelling ← gets is_cancelling;
  if (cancelling : bool) then
    _ ← abort_task task "Aborted on user request";
    inc_errors
  else
    name ← get_named task "name";
    _ ← nonnull name;
    queue_name ← get_attr task "queue";
    _ ← set_attr task "status" "QUEUED";
    if known_queue queue_name then
      _ ← emit (EnqueueTask queue_name task);
      inc_running
    else
      _ ← abort_task task "Unknown queue name";
      inc_errors.

(** The new [*retry_delay] and [*retry_times]; [None] when they are left as
    they are. *)
Definition schedule_update (task : node_ref) (schedule_name : string) : M (option (Z * Z)) :=
  buf ← sprintf 256 ("schedules/schedule[@name='" +:+ schedule_name +:+ "']");
  root ← document_element;
  res ← eval buf root;
  match first_node res with
  | None => mret None
  | Some schedule =>
      schedule_levels ← eval_integer "count(level)" schedule;
      level ← get_named task "retry_schedule_level";
      current_schedule_level ← (match level with Some l => parse_int l | None => mret 0 end);
      current_schedule_level ← int (current_schedule_level + 1);
      _ ← set_attr task "retry_schedule_level" (sprintf_d current_schedule_level);
      if current_schedule_level >? schedule_levels then mret (Some (0, 0))
      else
        res ← eval ("level[position()=" +:+ sprintf_d current_schedule_level +:+ "]") schedule;
        schedule_level ← nonnull (first_node res);
        retry_delay_str ← get_attr schedule_level "retry_delay";
        retry_times_str ← get_attr schedule_level "retry_times";
        _ ← set_attr task "retry_delay" retry_delay_str;
        _ ← set_attr task "retry_times" retry_times_str;
        retry_delay ← parse_int retry_delay_str;
        retry_times ← parse_int retry_times_str;
        mret (Some (retry_delay, retry_times))
  end.

(** The first part of [retry_task]: the delay and the number of retries left;
    [None]: no retry is possible. *)
Definition retry_parameters (task : node_ref) (retry_schedule : option string) (schedule_level : Z)
    : M (option (Z * Z)) :=
  match retry_schedule, schedule_level =? 0 with
  | Some schedule, true =>
      (* [retry_delay] and [retry_times] are used uninitialised if they are not set *)
      r ← schedule_update task schedule;
      r ← nonnull r;
      mret (Some r)
  | _, _ =>
      delay ← get_named task "retry_delay";
      match delay with
      | None => mret None
      | Some delay =>
          retry_delay ← parse_int delay;
          times ← get_named task "retry_times";
          match times with
          | None => mret None
          | Some times => retry_times ← parse_int times; mret (Some (retry_delay, retry_times))
          end
      end
  end.

(** The last part: whether the exit status allows a retry. *)
Definition retval_matches (task : node_ref) : M bool :=
  retry_retval ← get_named task "retry_retval";
  match retry_retval with
  | None => mret true
  | Some r =>
      r ← parse_int r;
      retval ← get_attr task "retval";
      v ← parse_int retval;
      mret (r =? v)
  end.

(** The retry itself, once the parameters are known. *)
Definition do_retry (task : node_ref) (retry_delay retry_times : Z) : M unit :=
  if (retry_delay =? 0) || (retry_times =? 0) then inc_errors
  else
    matches ← retval_matches task;
    if (matches : bool) then
      t ← get_time;
      _ ← set_attr task "retry_at" (format_time (t + retry_delay));
      left_ ← int (retry_times - 1);
      _ ← set_attr task "retry_times" (sprintf_d left_);
      _ ← emit (InsertTask task (t + retry_delay));
      inc_retrying
    else mret tt.

Definition retry_task (task : node_ref) : M unit :=
  retry_schedule ← get_named task "retry_schedule";
  level ← get_named task "retry_schedule_level";
  schedule_level ← (match level with Some l => parse_int l | None => mret 0 end);
  parameters ← retry_parameters task retry_schedule schedule_level;
  match parameters with
  | None => inc_errors
  | Some (retry_delay, retry_times) =>
      '(retry_delay, retry_times) ←
        (match retry_schedule, retry_times =? 0 with
         | Some schedule, true =>
             r ← schedule_update task schedule;
             mret (default (retry_delay, retry_times) r)
         | _, _ => mret (retry_delay, retry_times)
         end);
      do_retry task retry_delay retry_times
  end.

(** * Running jobs *)

(** The loops of [replace_value] over the [value] and the [copy] elements. *)
Fixpoint replace_values (context_node : node_ref) (values : list item) : M unit :=
  match values with
  | [] => mret tt
  | v :: values =>
      value ← node_value v;
      select ← get_named value "select";
      xpath_select ← nonnull select;
      value_nodes ← try_eval xpath_select context_node;
      match value_nodes with
      | None => throw (mkException "WorkflowInstance" "Error computing input values")
      | Some value_nodes =>
          _ ← (match first_node value_nodes with
               | None => mret tt
               | Some value_node =>
                   parent ← ask (fun d => getParentNode d value);
                   parent ← nonnull parent;
                   text ← ask (fun d => getTextContent d value_node);
                   text_node ← dom_new (createTextNode text);
                   dom (replaceChild parent text_node value)
               end);
          replace_values context_node values
      end
  end.

Fixpoint insert_copies (value : node_ref) (result_nodes : list item) : M unit :=
  match result_nodes with
  | [] => mret tt
  | r :: result_nodes =>
      result_node ← node_value r;
      parent ← ask (fun d => getParentNode d value);
      parent ← nonnull parent;
      clone ← dom_new (cloneNode result_node);
      _ ← dom (insertBefore parent clone value);
      insert_copies value result_nodes
  end.

Fixpoint replace_copies (context_node : node_ref) (values : list item) : M unit :=
  match values with
  | [] => mret tt
  | v :: values =>
      value ← node_value v;
      select ← get_named value "select";
      xpath_select ← nonnull select;
      result_nodes ← try_eval xpath_select context_node;
      match result_nodes with
      | None => throw (mkException "WorkflowInstance" "Error computing input values")
      | Some result_nodes =>
          _ ← insert_copies value result_nodes;
          parent ← ask (fun d => getParentNode d value);
          parent ← nonnull parent;
          _ ← dom (removeChild parent value);
          replace_copies context_node values
      end
  end.

Definition replace_value (task context_node : node_ref) : M unit :=
  values ← eval ".//value" task;
  _ ← replace_values context_node values;
  values ← eval ".//copy" task;
  replace_copies context_node values.

Definition instance_error {A} : M A :=
  throw (mkException "WorkflowInstance" "Exception in workflow instance").

(** A clone of [node], appended to its parent. *)
Definition append_clone (node : node_ref) : M node_ref :=
  clone ← dom_new (cloneNode node);
  parent ← ask (fun d => getParentNode d node);
  parent ← nonnull parent;
  _ ← dom (appendChild parent clone);
  mret clone.

Definition remove_node (node : node_ref) : M unit :=
  parent ← ask (fun d => getParentNode d node);
  parent ← nonnull parent;
  dom (removeChild parent node).

(** [while(matching_nodes->snapshotItem(matching_nodes_index++))] with the
    nodes from [matching_nodes_index] on; the result is the index it ends with. *)
Fixpoint for_each_match (body : node_ref -> M unit) (matching_nodes_index : nat)
    (matching_nodes : list item) : M nat :=
  match matching_nodes with
  | [] => mret (S matching_nodes_index)
  | m :: matching_nodes =>
      matching_node ← node_value m;
      _ ← body matching_node;
      for_each_match body (S matching_nodes_index) matching_nodes
  end.

(** The matching nodes of a [loop] attribute, which is removed. *)
Definition loop_nodes (node : node_ref) (loop_xpath : string) (context_node : node_ref)
    : M (list item) :=
  _ ← dom (removeAttribute node "loop");
  matching_nodes ← try_eval loop_xpath context_node;
  match matching_nodes with
  | None =>
      _ ← set_attr node "status" "ABORTED";
      _ ← set_attr node "details" "Error while evaluating loop";
      instance_error
  | Some matching_nodes => mret matching_nodes
  end.

(** The loop of [run] over the tasks of the job. *)
Fixpoint run_tasks (context_node : node_ref) (matching_nodes_index : nat) (tasks : list item)
    : M unit :=
  match tasks with
  | [] => mret tt
  | t :: tasks =>
      task ← node_value t;
      task_status ← get_named task "status";
      if bool_decide (task_status = Some "TERMINATED"%string)
      then run_tasks context_node matching_nodes_index tasks
      else
        loop ← get_named task "loop";
        match loop with
        | Some loop_xpath =>
            matching_nodes ← loop_nodes task loop_xpath context_node;
            matching_nodes_index ←
              for_each_match (fun matching_node =>
                task_clone ← append_clone task;
                _ ← replace_value task_clone matching_node;
                enqueue_task task_clone)
              matching_nodes_index (drop matching_nodes_index matching_nodes);
            _ ← remove_node task;
            run_tasks context_node matching_nodes_index tasks
        | None =>
            _ ← replace_value task context_node;
            _ ← enqueue_task task;
            run_tasks context_node matching_nodes_index tasks
        end
  end.

Definition run (job context_node : node_ref) : M unit :=
  tasks ← eval "tasks/task" job;
  run_tasks context_node 0 tasks.

(** The value of the condition of a job; it always is one without a condition. *)
Definition job_condition (subjob job : node_ref) : M bool :=
  condition ← get_named subjob "condition";
  match condition with
  | None => mret true
  | Some condition =>
      test_expr ← try_eval condition job;
      match test_expr with
      | None =>
          _ ← set_attr subjob "status" "ABORTED";
          _ ← set_attr subjob "details" "Error while evaluating condition";
          instance_error
      | Some test_expr =>
          test_value ← ask (fun d => i ← head test_expr; getIntegerValue d i);
          match test_value with
          | None =>
              _ ← set_attr subjob "status" "ABORTED";
              _ ← set_attr subjob "details" "Condition evaluation returned no result";
              instance_error
          | Some test_value =>
              if test_value =? 0 then
                _ ← set_attr subjob "status" "SKIPPED";
                _ ← set_attr subjob "details" "Condition evaluates to false";
                mret false
              else mret true
          end
      end
  end.

(** The body of the loop of [run_subjobs]: the new [matching_nodes_index]. *)
Definition run_subjob (job : node_ref) (matching_nodes_index : nat) (subjob : node_ref) : M nat :=
  go ← job_condition subjob job;
  if negb go then mret matching_nodes_index
  else
    loop ← get_named subjob "loop";
    match loop with
    | Some loop_xpath =>
        matching_nodes ← loop_nodes subjob loop_xpath job;
        matching_nodes_index ←
          for_each_match (fun matching_node =>
            subjob_clone ← append_clone subjob;
            run subjob_clone matching_node)
          matching_nodes_index (drop matching_nodes_index matching_nodes);
        _ ← remove_node subjob;
        mret matching_nodes_index
    | None =>
        _ ← run subjob job;
        mret matching_nodes_index
    end.

(** The loop, with the handler that its [try] block has. *)
Fixpoint run_each_subjob (job : node_ref) (matching_nodes_index : nat) (subjobs : list item)
    : M unit :=
  match subjobs with
  | [] => mret tt
  | s :: subjobs =>
      subjob ← node_value s;
      matching_nodes_index ←
        try_catch (run_subjob job matching_nodes_index subjob) (fun e =>
          _ ← set_attr subjob "status" "ABORTED";
          _ ← set_attr subjob "details" (error e);
          _ ← inc_errors;
          throw e);
      run_each_subjob job matching_nodes_index subjobs
  end.

Definition run_subjobs (job : node_ref) : M unit :=
  subjobs ← eval "subjobs/job" job;
  run_each_subjob job 0 subjobs.

(** * The end of an instance, and savepoints *)

Definition workflow_ended : M bool :=
  running ← gets running_tasks;
  retrying ← gets retrying_tasks;
  if (running =? 0) && (retrying =? 0) then
    root ← document_element;
    _ ← set_attr root "status" "TERMINATED";
    errors ← gets error_tasks;
    _ ← when (errors >? 0)
          (_ ← set_attr root "errors" (sprintf_d (i32 errors));
           emit IncWorkflowInstanceErrors);
    mret true
  else mret false.

(** [savepoint_retry && (savepoint_retry_times==0 || tries<=savepoint_retry_times)]. *)
Definition savepoint_again (c : settings) (tries : Z) : M bool :=
  if savepoint_retry c then
    times ← nonnull (savepoint_retry_times c);
    mret ((times =? 0) || (tries <=? times))
  else mret false.

(** The query of a savepoint. *)
Definition savepoint_query (root : node_ref) : M query :=
  savepoint ← ask (fun d => writeToString d root);
  host ← get_named root "host";
  start ← get_attr root "start_time";
  end_ ← get_named root "end_time";
  status ← get_attr root "status";
  level ← gets (fun i => savepoint_level (config i));
  id ← gets workflow_instance_id;
  errors ← gets error_tasks;
  if level >=? 2 then
    if bool_decide (status = "TERMINATED"%string) then mret (UpdateTerminated savepoint errors id)
    else mret (UpdateSavepoint savepoint id)
  else
    wid ← gets workflow_id;
    wsid ← gets workflow_schedule_id;
    mret (InsertSavepoint id wid wsid host start (default "0000-00-00 00:00:00"%string end_)
            status errors savepoint).

(** The loop over the tries, each a connection and its query; the fuel is more
    than the number of those that may fail. *)
Fixpoint savepoint_loop (fuel : nat) (q : query) (tries : Z) : M unit :=
  match fuel with
  | O => crash
  | S fuel =>
      c ← gets config;
      _ ← when (tries >? 0) (wait ← nonnull (savepoint_retry_wait c); emit (Sleep wait));
      success ← try_catch (_ ← db_query q; mret true) (fun _ => mret false);
      if (success : bool) then mret tt
      else
        again ← savepoint_again c (tries + 1);
        if (again : bool) then savepoint_loop fuel q (tries + 1) else mret tt
  end.

Definition query_fuel : M nat := fun w => Ok (S (List.length (db_results w))) w.

Definition write_savepoint (root : node_ref) : M unit :=
  q ← savepoint_query root;
  fuel ← query_fuel;
  savepoint_loop fuel q 0.

Definition record_savepoint (force : bool) : M unit :=
  root ← document_element;
  status ← get_attr root "status";
  level ← gets (fun i => savepoint_level (config i));
  if bool_decide (status = "TERMINATED"%string) then
    if level =? 0 then mret tt
    else
      end_time ← format_datetime;
      _ ← set_attr root "end_time" end_time;
      errors ← gets error_tasks;
      _ ← set_attr root "errors" (sprintf_d (i32 errors));
      write_savepoint root
  else if negb force && (level <=? 2) then mret tt
  else write_savepoint root.

(** * The public operations

    Each holds the mutex of the instance; a [bool] is [*workflow_terminated]. *)

Definition Start : M bool :=
  id ← gets workflow_instance_id;
  workflow_instance_id_str ← sprintf 10 (sprintf_d (i32 id));
  root ← document_element;
  _ ← set_attr root "id" workflow_instance_id_str;
  _ ← set_attr root "status" "EXECUTING";
  start ← format_datetime;
  _ ← set_attr root "start_time" start;
  _ ← try_catch (run_subjobs root) (fun _ => mret tt);
  workflow_terminated ← workflow_ended;
  _ ← record_savepoint false;
  mret workflow_terminated.

(** The body of the loop of [Resume]. *)
Definition resume_task (task : node_ref) : M unit :=
  status ← get_attr task "status";
  if bool_decide (status = "QUEUED"%string) then enqueue_task task
  else if bool_decide (status = "EXECUTING"%string) then
    queue_name ← get_attr task "queue";
    tid ← get_attr task "tid";
    task_id ← parse_int tid;
    _ ← emit (ExecuteTask queue_name task task_id);
    inc_running
  else if bool_decide (status = "TERMINATED"%string) then
    retval ← get_attr task "retval";
    if bool_decide (retval = "0"%string) then mret tt else retry_task task
  else mret tt.

Fixpoint resume_tasks (tasks : list item) : M unit :=
  match tasks with
  | [] => mret tt
  | t :: tasks =>
      task ← node_value t;
      _ ← resume_task task;
      resume_tasks tasks
  end.

Definition Resume : M bool :=
  _ ← db_connect;
  root ← document_element;
  tasks ← eval "//task[@status='QUEUED' or @status='EXECUTING' or @status='TERMINATED']" root;
  _ ← resume_tasks tasks;
  workflow_terminated ← workflow_ended;
  (* [tasks_index>0] always holds after the loop *)
  _ ← record_savepoint false;
  mret workflow_terminated.

Definition Cancel : M unit := modify (set_is_cancelling true).

Definition TaskRestart (task : node_ref) : M bool :=
  _ ← enqueue_task task;
  _ ← dec_retrying;
  workflow_terminated ← workflow_ended;
  _ ← record_savepoint false;
  mret workflow_terminated.

(** The part of [TaskStop] for a successful task. *)
Definition store_output (task_node output_element : node_ref) (output : string) : M unit :=
  name ← get_attr task_node "name";
  method ←
    (match GetTask name with
     | Some task => mret (output_method task)
     | None =>
         _ ← abort_task task_node "Task has vanished";
         _ ← inc_errors;
         mret (output_method Task_default)
     end);
  match method with
  | task_output_method.XML =>
      match (d ← parse output; n ← getDocumentElement d; Some (d, n)) with
      | Some (output_xmldoc, n) =>
          _ ← set_attr output_element "method" "xml";
          imported ← dom_new (importNode output_xmldoc n);
          _ ← dom (appendChild output_element imported);
          dom (appendChild task_node output_element)
      | None =>
          errlogs ← gets (fun i => errlogs (config i));
          _ ← when errlogs (emit (WriteErrlog output));
          _ ← abort_task task_node "Invalid XML returned";
          inc_errors
      end
  | task_output_method.TEXT =>
      _ ← set_attr output_element "method" "text";
      text ← dom_new (createTextNode output);
      _ ← dom (appendChild output_element text);
      dom (appendChild task_node output_element)
  | task_output_method.UNKNOWN => mret tt
  end.

Definition fail_task (task_node output_element : node_ref) (output : string) : M unit :=
  _ ← set_attr output_element "method" "text";
  text ← dom_new (createTextNode output);
  _ ← dom (appendChild output_element text);
  _ ← dom (appendChild task_node output_element);
  cancelling ← gets is_cancelling;
  if (cancelling : bool)
  then set_attr task_node "error" "Won't retry because workflow is cancelling"
  else retry_task task_node.

(** Starts the jobs below when all the tasks of the job are successful. *)
Definition continue_job (task_node : node_ref) : M unit :=
  tasks_count ← eval_integer "count(../task)" task_node;
  tasks_successful ← eval_integer "count(../task[@status='TERMINATED' and @retval = 0])" task_node;
  if tasks_count =? tasks_successful then
    tasks ← ask (fun d => getParentNode d task_node);
    tasks ← nonnull tasks;
    job ← ask (fun d => getParentNode d tasks);
    job ← nonnull job;
    try_catch (run_subjobs job) (fun _ => mret tt)
  else mret tt.

Definition TaskStop (task_node : node_ref) (retval : Z) (output : string) : M bool :=
  let buf := sprintf_d retval in
  _ ← set_attr task_node "status" "TERMINATED";
  _ ← set_attr task_node "retval" buf;
  _ ← dom (removeAttribute task_node "tid");
  _ ← dom (removeAttribute task_node "pid");
  output_element ← dom_new (createElement "output");
  _ ← set_attr output_element "retval" buf;
  execution_time ← get_attr task_node "execution_time";
  _ ← set_attr output_element "execution_time" execution_time;
  exit_time ← format_datetime;
  _ ← set_attr output_element "exit_time" exit_time;
  _ ← (if retval =? 0 then store_output task_node output_element output
       else fail_task task_node output_element output);
  _ ← continue_job task_node;
  _ ← dec_running;
  workflow_terminated ← workflow_ended;
  _ ← record_savepoint false;
  mret workflow_terminated.

(** * Executing a task *)

(** The environment of the engine, which the child inherits. *)
Context (engine_env : string -> option string).
Context (configuration : Configuration).

Fixpoint getenv (env : list (string * string)) (name : string) : option string :=
  match env with
  | [] => engine_env name
  | (n, v) :: env => if bool_decide (n = name) then Some v else getenv env name
  end.

(** [setenv(name,value,1)], the last one first. *)
Definition setenv (name value : string) (env : list (string * string)) : list (string * string) :=
  (name, value) :: env.
Definition setenv_opt (name : string) (value : option string) (env : list (string * string))
    : list (string * string) :=
  match value with
  | Some value => setenv name value env
  | None => env
  end.

(** [Configuration::Get] of an entry that exists. *)
Definition get_config (entry : string) : M string :=
  match Get entry configuration with
  | Ret (Some v) => mret v
  | _ => crash
  end.

(** The variables of the SSH connection. *)
Definition ssh_env (task : Task) (env : list (string * string)) : M (list (string * string)) :=
  root ← document_element;
  host ← get_named root "host";
  user ← get_named root "user";
  let env :=
    match task_host task with
    | Some task_host =>
        setenv_opt "EVQUEUE_SSH_USER" (task_user task) (setenv "EVQUEUE_SSH_HOST" task_host env)
    | None =>
        match host with
        | Some host => setenv_opt "EVQUEUE_SSH_USER" user (setenv "EVQUEUE_SSH_HOST" host env)
        | None => env
        end
    end in
  match getenv env "EVQUEUE_SSH_HOST" with
  | None => mret env
  | Some _ =>
      ssh_path ← get_config "processmanager.monitor.ssh_path";
      ssh_key ← get_config "processmanager.monitor.ssh_key";
      let env := setenv "EVQUEUE_SSH_PATH" ssh_path env in
      mret (if strlen ssh_key >? 0 then setenv "EVQUEUE_SSH_KEY" ssh_key env else env)
  end.

Definition parameter_env (parameters : list (option string * string)) (env : list (string * string))
    : list (string * string) :=
  foldl (fun env '(name, value) =>
    setenv (default "DEFAULT_PARAMETER_NAME"%string name) value env) env parameters.

(** The child process up to [execv]; [None]: it exits without it. *)
Definition child (task : Task) (tid : Z) (parameters : list (option string * string))
    (stdin_parameter : option string) : M (option exec) :=
  absolute ← (match IsAbsolutePath task with Ret b => mret b | _ => crash end);
  binary ← nonnull (task_binary task);
  c ← gets config;
  let task_filename := if (absolute : bool) then binary else tasks_directory c +:+ "/" +:+ binary in
  env ← ssh_env task (setenv_opt "EVQUEUE_WORKING_DIRECTORY" (task_wd task) []);
  let log_filename := logs_directory c +:+ "/" +:+ sprintf_d tid +:+ ".log" in
  match parameters_mode task with
  | task_parameters_mode.CMDLINE =>
      mret (Some (mkExec (monitor_path c :: task_filename :: sprintf_d tid :: parameters.*2)
                    env log_filename stdin_parameter))
  | task_parameters_mode.ENV =>
      mret (Some (mkExec [monitor_path c; task_filename; sprintf_d tid]
                    (parameter_env parameters env) log_filename stdin_parameter))
  | task_parameters_mode.UNKNOWN => mret None
  end.

(** The [input] elements of a task. *)
Fixpoint read_parameters (parameters : list item) : M (list (option string * string)) :=
  match parameters with
  | [] => mret []
  | p :: parameters =>
      parameter ← node_value p;
      name ← get_named parameter "name";
      value ← ask (fun d => getTextContent d parameter);
      r ← read_parameters parameters;
      mret ((name, value) :: r)
  end.

Definition read_stdin (task_node : node_ref) : M (option string) :=
  r ← eval "stdin" task_node;
  match first_node r with
  | None => mret None
  | Some stdin_node =>
      mode ← get_named stdin_node "mode";
      text ← ask (fun d => if bool_decide (mode = Some "text"%string)
                           then getTextContent d stdin_node else writeToString d stdin_node);
      mret (Some text)
  end.

(** The end of the operations that give up a task. *)
Definition drop_task (task_node : node_ref) (why : string) : M unit :=
  _ ← abort_task task_node why;
  _ ← inc_errors;
  dec_running.

Definition finish_operation : M bool :=
  workflow_terminated ← workflow_ended;
  _ ← record_savepoint false;
  mret workflow_terminated.

(** The parent after a [fork] that succeeded. *)
Definition mark_executing (task_node : node_ref) (tid pid : Z) : M unit :=
  _ ← set_attr task_node "status" "EXECUTING";
  _ ← set_attr task_node "pid" (sprintf_d pid);
  _ ← set_attr task_node "tid" (sprintf_d tid);
  execution_time ← format_datetime;
  set_attr task_node "execution_time" execution_time.

(** [fork] is the result of the system call in the parent. *)
Definition TaskExecute (task_node : node_ref) (tid : Z) (fork : Z) : M (Z * bool) :=
  cancelling ← gets is_cancelling;
  if (cancelling : bool) then
    _ ← drop_task task_node "Aborted on user request";
    workflow_terminated ← finish_operation;
    mret (-1, workflow_terminated)
  else
    task_name ← get_attr task_node "name";
    match GetTask task_name with
    | None =>
        _ ← drop_task task_node "Unknown task name";
        workflow_terminated ← finish_operation;
        mret (-1, workflow_terminated)
    | Some task =>
        parameters_count ← eval_integer "count(input)" task_node;
        inputs ← eval "input" task_node;
        parameters ← read_parameters inputs;
        (* the arrays have [parameters_count] elements *)
        _ ← (if parameters_count =? Z.of_nat (List.length parameters) then mret tt else crash);
        stdin_parameter ← read_stdin task_node;
        _ ← (if fork >? 0 then
               x ← child task tid parameters stdin_parameter;
               _ ← emit (Spawn task_node x);
               mark_executing task_node tid fork
             else mret tt);
        _ ← (if fork <? 0 then drop_task task_node "Unable to fork" else mret tt);
        workflow_terminated ← finish_operation;
        mret (fork, workflow_terminated)
    end.

Definition CheckTaskName (task_name : string) : bool :=
  (strlen task_name <=? TASK_NAME_MAX_LEN) &&
  forallb (fun c => isalnum c || (code c =? 95)) (chars task_name).

Definition RecordSavepoint : M unit := record_savepoint true.

Fixpoint kill_each (pid : Z) (tasks : list item) : M bool :=
  match tasks with
  | [] => mret false
  | t :: tasks =>
      _ ← node_value t;
      _ ← emit (Kill pid);
      _ ← kill_each pid tasks;
      mret true
  end.

Definition KillTask (pid : Z) : M bool :=
  root ← document_element;
  tasks ← eval ("//task[@status='EXECUTING' and @pid='" +:+ sprintf_d pid +:+ "']") root;
  kill_each pid tasks.

(** * Construction *)

(** [Workflows::GetWorkflow] (identifier and XML), [RetrySchedules::GetRetrySchedule]
    (XML), the next value of the sequence and [mysql_insert_id]. *)
Context (GetWorkflow : string -> option (Z * string)).
Context (GetRetrySchedule : string -> option string).
Context (next_sequence insert_id : Z).

Fixpoint set_parameters (parameters : list (string * string)) (passed_parameters : Z) : M Z :=
  match parameters with
  | [] => mret passed_parameters
  | (parameter_name, parameter_value) :: parameters =>
      buf2 ← sprintf (256 + PARAMETER_NAME_MAX_LEN)
        ("parameters/parameter[@name = '" +:+ parameter_name +:+ "']");
      root ← document_element;
      res ← eval buf2 root;
      match first_node res with
      | Some parameter_node =>
          _ ← dom (setTextContent parameter_node parameter_value);
          set_parameters parameters (passed_parameters + 1)
      | None =>
          buf2 ← sprintf (256 + PARAMETER_NAME_MAX_LEN) ("Unknown parameter : " +:+ parameter_name);
          throw (mkException "WorkflowInstance" buf2)
      end
  end.

(** Appends the global schedule of this name to the document. *)
Definition import_schedule (schedule_name : string) : M unit :=
  match GetRetrySchedule schedule_name with
  | None => throw (mkException "RetrySchedules" "Unable to find schedule")
  | Some xml =>
      schedule_xmldoc ← nonnull (parse xml);
      schedule_root ← nonnull (getDocumentElement schedule_xmldoc);
      schedule_node ← dom_new (importNode schedule_xmldoc schedule_root);
      root ← document_element;
      res ← eval "schedules" root;
      schedules_node ←
        (match first_node res with
         | Some n => mret n
         | None =>
             n ← dom_new (createElement "schedules");
             _ ← dom (appendChild root n);
             mret n
         end);
      dom (appendChild schedules_node schedule_node)
  end.

Fixpoint import_schedules (tasks : list item) : M unit :=
  match tasks with
  | [] => mret tt
  | t :: tasks =>
      task ← node_value t;
      schedule_name ← get_attr task "retry_schedule";
      buf ← sprintf (256 + WORKFLOW_NAME_MAXLEN) ("schedules/schedule[@name = '" +:+ schedule_name +:+ "']");
      root ← document_element;
      res ← eval buf root;
      _ ← (match first_node res with Some _ => mret tt | None => import_schedule schedule_name end);
      import_schedules tasks
  end.

Fixpoint insert_parameters (parameters : list (string * string)) : M unit :=
  match parameters with
  | [] => mret tt
  | (name, value) :: parameters =>
      id ← gets workflow_instance_id;
      _ ← db_query (InsertParameter id name value);
      insert_parameters parameters
  end.

(** The [try] block of the constructor, once the document is parsed. *)
Definition instantiate (workflow_name : string) (parameters : list (string * string))
    (workflow_host workflow_user : option string) : M unit :=
  root ← document_element;
  _ ← set_attr root "name" workflow_name;
  _ ← (match workflow_host with
       | None => mret tt
       | Some host =>
           _ ← set_attr root "host" host;
           match workflow_user with Some user => set_attr root "user" user | None => mret tt end
       end);
  passed_parameters ← set_parameters parameters 0;
  workflow_template_parameters ← eval_integer "count(parameters/parameter)" root;
  if negb (workflow_template_parameters =? passed_parameters) then
    throw (mkException "WorkflowInstance"
      ("Invalid number of parameters passed to workflow (passed " +:+ sprintf_d passed_parameters
       +:+ ", expected " +:+ sprintf_d workflow_template_parameters +:+ ")"))
  else
    tasks ← eval "//task[@retry_schedule]" root;
    _ ← import_schedules tasks;
    c ← gets config;
    _ ← (if savepoint_level c >=? 2 then
           wid ← gets workflow_id;
           wsid ← gets workflow_schedule_id;
           _ ← db_query (InsertInstance wid (if wsid =? 0 then None else Some wsid) workflow_host);
           _ ← modify (set_workflow_instance_id insert_id);
           if saveparameters c then insert_parameters parameters else mret tt
         else modify (set_workflow_instance_id next_sequence));
    record_savepoint false.

(** The result of a constructor: it throws with the effects it had. *)
Inductive construction : Type :=
  | Constructed (w : world)
  | Failed (e : Exception) (effects : list effect)
  | ConstructionCrash.

Definition constructed (w : result unit) : construction :=
  match w with
  | Ok _ w => Constructed w
  | Exn e w => Failed e (effects w)
  | Crash => ConstructionCrash
  end.

Definition register : M unit :=
  id ← gets workflow_instance_id;
  _ ← emit (AddInstance id);
  emit IncWorkflowInstanceExecuting.

(** [WorkflowInstance(workflow_name,parameters,...)] *)
Definition WorkflowInstance_new (workflow_name : string) (parameters : list (string * string))
    (schedule_id : Z) (workflow_host workflow_user : option string)
    (db : list bool) (t : Z) : construction :=
  match db, init configuration with
  | false :: _, _ => Failed (mkException "DB" "connection failed") []
  | _, Ret s =>
      if strlen workflow_name >? WORKFLOW_NAME_MAXLEN then
        Failed (mkException "WorkflowInstance" "Workflow name is too long") []
      else
        match GetWorkflow workflow_name with
        | None => Failed (mkException "Workflows" "Unable to find workflow") []
        | Some (id, xml) =>
            match parse xml with
            | None => ConstructionCrash
            | Some d =>
                constructed
                  ((_ ← instantiate workflow_name parameters workflow_host workflow_user; register)
                   (mkWorld (mkWorkflowInstance id 0 0 0 0 schedule_id false d s) [] (tail db) t))
            end
        end
  | _, Throw e => Failed e []
  | _, Undef => ConstructionCrash
  end.

(** [WorkflowInstance(workflow_instance_id)] from the row of the instance
    (savepoint, schedule, workflow), [None] if there is none; the connection and
    the query for the row fail together. *)
Definition WorkflowInstance_resume (id : Z) (row : option (option string * Z * Z))
    (db : list bool) (t : Z) : construction :=
  match db, row with
  | false :: _, _ => Failed (mkException "DB" "connection failed") []
  | _, None => Failed (mkException "WorkflowInstance" "Unknown workflow instance") []
  | _, Some (savepoint, schedule_id, wid) =>
      match savepoint with
      | None | Some EmptyString =>
          match tail db with
          | false :: _ => Failed (mkException "DB" "query failed") [Query (SetTerminated id) false]
          | _ => Failed (mkException "WorkflowInstance" "Could not resume workflow : empty savepoint")
                   [Query (SetTerminated id) true]
          end
      | Some savepoint =>
          match init configuration, parse savepoint with
          | Ret s, Some d =>
              constructed
                (register (mkWorld (mkWorkflowInstance wid id 0 0 0 schedule_id false d s) [] (tail db) t))
          | Throw e, _ => Failed e []
          | _, _ => ConstructionCrash
          end
      end
  end.
End WorkflowInstance.
