(* ===== verification/WorkflowExamples.v ===== *)
(** A workflow and the surroundings it runs in, on concrete documents: what the
    witnesses of the theorems on workflow instances share. *)

From S2P Require Import Prelude CString Configuration Dom TreeDom Task WorkflowInstance.

Open Scope Z_scope.

(** Outputs of tasks that are XML. *)
Definition ex_library : list (string * doc) :=
  [("<list><x/><x/></list>"%string, to_doc (Elem "list" [] [Elem "x" [] []; Elem "x" [] []]))].

#[export] Instance ex_dom : Dom doc := TreeDom ex_library.

Definition ex_known_queue (q : string) : bool := bool_decide (q = "default"%string).

Definition ex_GetTask (name : string) : option Task :=
  if bool_decide (name = "lister"%string)
  then Some (mkTask (Some "/bin/lister"%string) None None None task_parameters_mode.CMDLINE task_output_method.XML)
  else if bool_decide (name = "echo"%string)
  then Some (mkTask (Some "echo"%string) (Some "/tmp"%string) None None task_parameters_mode.ENV task_output_method.TEXT)
  else None.

Definition ex_format_time (t : Z) : string := sprintf_d t.
Definition ex_env (name : string) : option string := None.

Definition ex_settings : settings :=
  mkSettings "/tmp" false "errlogs" "." "/usr/bin/evqueue_monitor" true 3 true (Some 2) (Some 2).

Definition ex_world (d : doc) : world :=
  mkWorld (mkWorkflowInstance 1 7 0 0 0 0 false d ex_settings) [] [] 1000.

Definition task_node (name : string) (more : list (string * string)) (content : list xml) : xml :=
  Elem "task" ((("name", name) :: ("queue", "default") :: more)%string) content.
Definition job_node (more : list (string * string)) (tasks subjobs : list xml) : xml :=
  Elem "job" more [Elem "tasks" [] tasks; Elem "subjobs" [] subjobs].

(** Two tasks, then a job below them; the second task may be retried once. *)
Definition ex_workflow : doc :=
  to_doc (Elem "workflow" [("name"%string, "ex"%string)]
    [Elem "subjobs" []
      [job_node []
        [task_node "lister" [] [];
         task_node "echo" [("retry_delay", "30"); ("retry_times", "1")]%string
           [Elem "input" [("name"%string, "A"%string)] [Text "1"]]]
        [job_node [] [task_node "echo" [] []] []]]]).

(** The nodes of the three tasks. *)
Definition ex_task (i : nat) : node_ref := default 1%positive (all_tasks ex_workflow !! i).

Example ex_workflow_starts :
  match Start ex_known_queue ex_format_time (ex_world ex_workflow) with
  | Ok b w => b = false /\ running_tasks (wi w) = 2 /\
              has_status (xmldoc (wi w)) (ex_task 0) "QUEUED" = true
  | _ => False
  end.
Proof. by vm_compute. Qed.
