(* ===== verification/TaskCommand.v ===== *)
(** From a task to its process: what the engine's child process passes to the
    monitor, and what the monitor makes of it. *)

From S2P Require Import Prelude CString Configuration Dom Task WorkflowInstance WorkflowExamples Monitor.

Open Scope Z_scope.

Section command.
Context {D : Type} `{Dom D}.
Context (engine_env : string -> option string) (configuration : Configuration.Configuration).

Abbreviation variable env := (WorkflowInstance.getenv engine_env env).

Lemma getenv_setenv env name value n :
  variable (setenv name value env) n = if bool_decide (name = n) then Some value else variable env n.
Proof. done. Qed.

Lemma getenv_setenv_opt env name value n :
  variable (setenv_opt name value env) n =
    if bool_decide (name = n) then match value with Some v => Some v | None => variable env n end else variable env n.
Proof. destruct value; cbn; [done|]. by destruct (bool_decide _). Qed.

(** The SSH variables are set together. *)
Lemma ssh_env_variables (task : Task.Task) env w env' w' :
  ssh_env engine_env configuration task env w = Ok env' w' ->
  (is_Some (variable env "EVQUEUE_SSH_KEY") -> is_Some (variable env "EVQUEUE_SSH_HOST")) ->
  (is_Some (variable env' "EVQUEUE_SSH_HOST") -> is_Some (variable env' "EVQUEUE_SSH_PATH")) /\
  (is_Some (variable env' "EVQUEUE_SSH_KEY") -> is_Some (variable env' "EVQUEUE_SSH_HOST")).
Proof.
  intros E Hk. unfold ssh_env in E.
  apply bind_Ok in E as (root & w1 & _ & E). apply bind_Ok in E as (host & w2 & _ & E).
  apply bind_Ok in E as (user & w3 & _ & E).
  set (env1 := match task_host task with Some _ => _ | None => _ end) in E.
  assert (Hk1 : is_Some (variable env1 "EVQUEUE_SSH_KEY") -> is_Some (variable env1 "EVQUEUE_SSH_HOST")).
  { subst env1. destruct (task_host task) as [h|]; [|destruct host as [h|]; [|done]]; intros _;
      rewrite getenv_setenv_opt; cbn; eauto. }
  destruct (variable env1 "EVQUEUE_SSH_HOST") as [h|] eqn:Eh.
  - apply bind_Ok in E as (path & w4 & _ & E). apply bind_Ok in E as (key & w5 & _ & E).
    injection E as <- _. destruct (strlen key >? 0); rewrite !getenv_setenv; cbn; rewrite Eh; eauto.
  - injection E as <- _. rewrite Eh in *. split; [by intros [? ?]|]. intros Hs. by apply Hk1 in Hs as [? ?].
Qed.

Lemma IsAbsolutePath_prefix (task : Task.Task) b :
  task_binary task = Some b -> IsAbsolutePath task = Ret (String.prefix "/" b).
Proof.
  intros E. unfold IsAbsolutePath. rewrite E. destruct b as [|c b]; [done|]. cbn [deref mbind outcome_bind]. f_equal.
  change (match chars (String c b) with c :: _ => code c =? 47 | [] => false end) with (code c =? 47).
  by destruct c as [[] [] [] [] [] [] [] []]; destruct b.
Qed.

(** C21: The engine's child process and the monitor together execute, for a
    task whose parameters are given on the command line and an engine
    without EVQUEUE_SSH_KEY in its own environment, the binary of the task,
    taken as it is when its path is absolute and from the tasks directory
    otherwise, with its parameters in order, without writing outside of the
    argument vector or of the allocated strings. Through SSH the parameters
    are quoted, and when none holds a single quote the remote shell reads
    them back as they are. The message sent at the end carries the
    identifier of the task. *)
Theorem task_command (task : Task.Task) tid parameters stdin w x w' pid status :
  WorkflowInstance.child engine_env configuration task tid parameters stdin w = Ok (Some x) w' ->
  parameters_mode task = task_parameters_mode.CMDLINE ->
  engine_env "EVQUEUE_SSH_KEY"%string = None -> - 2 ^ 31 <= tid < 2 ^ 31 ->
  exists binary,
    task_binary task = Some binary /\
    (let task_filename :=
       if String.prefix "/" binary then binary else tasks_directory (config (wi w)) +:+ "/" +:+ binary in
     Monitor.main (variable (exec_env x)) (exec_argv x) =
       Some (Ret (command (variable (exec_env x)) task_filename parameters.*2))) /\
    (Forall quoteless parameters.*2 ->
     shell_words (String.concat " " (quote_arg <$> parameters.*2)) = Some (chars <$> parameters.*2)) /\
    notification (exec_argv x) pid status = Some (mkMsgbuf pid tid (retcode status)).
Proof.
  intros E Hm Hk Htid. unfold WorkflowInstance.child in E.
  apply bind_Ok in E as (absolute & w1 & E1 & E). apply bind_Ok in E as (binary & w2 & E2 & E).
  apply bind_Ok in E as (c & w3 & E3 & E). apply bind_Ok in E as (env & w4 & E4 & E).
  rewrite Hm in E. injection E as <- _. cbn [exec_argv exec_env Monitor.main notification].
  destruct (task_binary task) as [b|] eqn:Eb; [|discriminate].
  assert (w1 = w /\ absolute = String.prefix "/" b) as [-> ->].
  { rewrite (IsAbsolutePath_prefix _ _ Eb) in E1. injection E1; intros; by split. }
  injection E2 as <- <-. injection E3 as <- <-.
  exists b. split; [done|]. split; [|split; [apply quoted_parameters|by rewrite atoi_sprintf_d]].
  apply ssh_env_variables in E4 as [H1 H2].
  - by rewrite child_command.
  - rewrite getenv_setenv_opt. cbn. rewrite Hk. by intros [? ?].
Qed.
End command.

(** A task of the configuration, run on another host. *)
Definition ex_remote : Task.Task :=
  mkTask (Some "/bin/lister"%string) (Some "/srv"%string) (Some "admin"%string) (Some "node1"%string)
    task_parameters_mode.CMDLINE task_output_method.TEXT.

Definition ex_exec : exec :=
  mkExec ["/usr/bin/evqueue_monitor"; "/bin/lister"; "12"; "a b"]%string
    [("EVQUEUE_SSH_PATH", "/usr/bin/ssh"); ("EVQUEUE_SSH_USER", "admin"); ("EVQUEUE_SSH_HOST", "node1");
     ("EVQUEUE_WORKING_DIRECTORY", "/srv")]%string
    "/tmp/12.log" None.

Lemma task_command_witness :
  exists binary,
    task_binary ex_remote = Some binary /\
    Monitor.main (WorkflowInstance.getenv ex_env (exec_env ex_exec)) (exec_argv ex_exec) =
      Some (Ret (command (WorkflowInstance.getenv ex_env (exec_env ex_exec))
                   (if String.prefix "/" binary then binary else "./" +:+ binary) ["a b"%string])) /\
    shell_words (String.concat " " (quote_arg <$> ["a b"%string])) = Some [chars "a b"] /\
    notification (exec_argv ex_exec) 4242 (Exited 3) = Some (mkMsgbuf 4242 12 (retcode (Exited 3))).
Proof.
  destruct (task_command ex_env Configuration_new ex_remote 12 [(None, "a b"%string)] None (ex_world ex_workflow) ex_exec
    (ex_world ex_workflow) 4242 (Exited 3)) as (b & H1 & H2 & H3 & H4).
  - vm_compute. reflexivity.
  - reflexivity.
  - reflexivity.
  - lia.
  - exists b. split; [exact H1|]. split; [exact H2|]. split; [|exact H4]. apply H3. by apply (bool_decide_unpack _).
Defined.
