(* ===== verification/StdinPipe.v ===== *)
(** The pipe through which [WorkflowInstance.cpp] gives a task its standard
    input: the engine writes the whole text before it releases the instance,
    and it holds both ends of the pipe while it writes. *)

From S2P Require Import Prelude CString.

Inductive parent_state : Type := Writing | Closed.

(** [Ended]: the child has read up to the end of the file; [Gone]: it has
    exited, or closed its input, before. *)
Inductive child_state : Type := Reading | Ended | Gone.

(** [rest] is what [write] has not written yet, [buffer] what the pipe holds;
    [lost] is what a [write] that a signal interrupts leaves, and the engine
    does not look at its result. *)
Record pipe : Type := mkPipe {
  rest : list ascii;
  buffer : list ascii;
  received : list ascii;
  lost : list ascii;
  parent : parent_state;
  child : child_state;
}.

(** After [pipe] and [fork]. *)
Definition open (text : string) : pipe := mkPipe (chars text) [] [] [] Writing Reading.

Section pipe.
(** The size of the buffer of a pipe. *)
Context (capacity : nat).

(** [write(parameters_pipe[1],...)] moves [n] bytes to the buffer. *)
Definition parent_write (n : nat) (s : pipe) : option pipe :=
  match parent s with
  | Writing =>
      if bool_decide (0 < n /\ n <= List.length (rest s) /\ n + List.length (buffer s) <= capacity)%nat
      then Some (mkPipe (drop n (rest s)) (buffer s ++ take n (rest s)) (received s) (lost s) Writing (child s))
      else None
  | Closed => None
  end.

(** A signal handler ran: [write] returns what it has written, or an error. *)
Definition parent_interrupted (s : pipe) : option pipe :=
  match parent s, rest s with
  | Writing, _ :: _ => Some (mkPipe [] (buffer s) (received s) (rest s) Writing (child s))
  | _, _ => None
  end.

(** The two [close] that follow [write]. *)
Definition parent_close (s : pipe) : option pipe :=
  match parent s, rest s with
  | Writing, [] => Some (mkPipe [] (buffer s) (received s) (lost s) Closed (child s))
  | _, _ => None
  end.

Definition child_read (n : nat) (s : pipe) : option pipe :=
  match child s with
  | Reading =>
      if bool_decide (0 < n <= List.length (buffer s))%nat
      then Some (mkPipe (rest s) (drop n (buffer s)) (received s ++ take n (buffer s)) (lost s) (parent s) Reading)
      else None
  | _ => None
  end.

Definition child_end (s : pipe) : option pipe :=
  match child s, parent s, buffer s with
  | Reading, Closed, [] => Some (mkPipe (rest s) [] (received s) (lost s) Closed Ended)
  | _, _, _ => None
  end.

Definition child_exit (s : pipe) : option pipe :=
  match child s with
  | Reading => Some (mkPipe (rest s) (buffer s) (received s) (lost s) (parent s) Gone)
  | _ => None
  end.

(** What the engine and a child that reads its input do. *)
Inductive work : pipe -> pipe -> Prop :=
  | work_write n s s' : parent_write n s = Some s' -> work s s'
  | work_close s s' : parent_close s = Some s' -> work s s'
  | work_read n s s' : child_read n s = Some s' -> work s s'
  | work_end s s' : child_end s = Some s' -> work s s'.

Inductive step : pipe -> pipe -> Prop :=
  | step_work s s' : work s s' -> step s s'
  | step_exit s s' : child_exit s = Some s' -> step s s'
  | step_interrupted s s' : parent_interrupted s = Some s' -> step s s'.

(** [write] does not return unless a signal comes. *)
Definition blocked (s : pipe) : Prop :=
  parent s = Writing /\ rest s <> [] /\ forall s', step s s' -> parent_interrupted s = Some s'.

(** * The bytes *)

Record inv (text : string) (s : pipe) : Prop := {
  inv_text : received s ++ buffer s ++ rest s ++ lost s = chars text;
  inv_buffer : (List.length (buffer s) <= capacity)%nat;
  inv_closed : parent s = Closed -> rest s = [];
  inv_lost : lost s <> [] -> rest s = [];
  inv_ended : child s = Ended -> parent s = Closed /\ buffer s = [];
}.

Lemma open_inv text : inv text (open text).
Proof. split; simpl; try done; [by rewrite app_nil_r|lia]. Qed.

Lemma write_inv text n s s' : inv text s -> parent_write n s = Some s' -> inv text s'.
Proof.
  intros [T B C L E]. unfold parent_write. destruct (parent s) eqn:Ep; [|done].
  case_bool_decide as Hn; [|done]. destruct Hn as (H0 & Hr & Hc). intros [= <-]. split; simpl.
  - rewrite <- T, <- !app_assoc. do 2 f_equal. by rewrite app_assoc, take_drop.
  - rewrite length_app, length_take. lia.
  - done.
  - intros Hl. rewrite (L Hl). apply drop_nil.
  - intros Hk. by destruct (E Hk).
Qed.

Lemma interrupted_inv text s s' : inv text s -> parent_interrupted s = Some s' -> inv text s'.
Proof.
  intros [T B C L E]. unfold parent_interrupted. destruct (parent s) eqn:Ep; [|done].
  destruct (rest s) as [|x r] eqn:Er; [done|]. intros [= <-]. split; simpl; try done.
  - destruct (lost s); [by rewrite app_nil_r in T|]. by discriminate L.
Qed.

Lemma close_inv text s s' : inv text s -> parent_close s = Some s' -> inv text s'.
Proof.
  intros [T B C L E]. unfold parent_close. destruct (parent s) eqn:Ep; [|done].
  destruct (rest s) eqn:Er; [|done]. intros [= <-]. split; simpl; try done. intros Hk. by destruct (E Hk).
Qed.

Lemma read_inv text n s s' : inv text s -> child_read n s = Some s' -> inv text s'.
Proof.
  intros [T B C L E]. unfold child_read. destruct (child s) eqn:Ek; [|done..].
  case_bool_decide as Hn; [|done]. intros [= <-]. split; simpl; try done.
  - rewrite <- T, <- app_assoc. f_equal. by rewrite app_assoc, take_drop.
  - rewrite length_drop. lia.
Qed.

Lemma end_inv text s s' : inv text s -> child_end s = Some s' -> inv text s'.
Proof.
  intros [T B C L E]. unfold child_end. destruct (child s), (parent s) eqn:Ep, (buffer s) eqn:Eb; try done.
  intros [= <-]. split; simpl; auto.
Qed.

Lemma exit_inv text s s' : inv text s -> child_exit s = Some s' -> inv text s'.
Proof. intros [T B C L E]. unfold child_exit. destruct (child s); [|done..]. intros [= <-]. by split. Qed.

Lemma pipe_step_inv text s s' : inv text s -> step s s' -> inv text s'.
Proof.
  intros Hi Hs. revert Hi. destruct Hs as [? ? []|? ? Hs|? ? Hs];
    eauto using write_inv, close_inv, read_inv, end_inv, exit_inv, interrupted_inv.
Qed.

Lemma reached_inv text s : rtc step (open text) s -> inv text s.
Proof. assert (inv text (open text)) as Hi by apply open_inv. intros Hr. induction Hr; eauto using pipe_step_inv. Qed.

(** No byte is duplicated or reordered; a child that reads up to the end of its
    input gets all of the text unless a signal interrupted the engine. *)
Lemma stdin_delivered text s :
  rtc step (open text) s ->
  received s ++ buffer s ++ rest s ++ lost s = chars text /\
  (child s = Ended -> lost s = [] -> received s = chars text).
Proof.
  intros Hi%reached_inv. split; [apply Hi|]. intros Hk Hl. destruct (inv_ended _ _ Hi Hk) as [Hp Hb].
  pose proof (inv_text _ _ Hi) as T. by rewrite Hb, (inv_closed _ _ Hi Hp), Hl, !app_nil_r in T.
Qed.

(** * Termination *)

Definition measure (s : pipe) : nat :=
  2 * List.length (rest s) + List.length (buffer s) +
  match parent s with Writing => 1 | Closed => 0 end + match child s with Reading => 1 | _ => 0 end.

Lemma work_measure s s' : work s s' -> (measure s' < measure s)%nat.
Proof.
  unfold measure. intros [n s1 s2 E|s1 s2 E|n s1 s2 E|s1 s2 E]; revert E.
  - unfold parent_write. destruct (parent s1); [|done]. case_bool_decide; [|done]. intros [= <-]. simpl.
    rewrite length_app, length_drop, length_take. lia.
  - unfold parent_close. destruct (parent s1), (rest s1); try done. intros [= <-]. simpl. lia.
  - unfold child_read. destruct (child s1); [|done..]. case_bool_decide; [|done]. intros [= <-]. simpl.
    rewrite length_drop. lia.
  - unfold child_end. destruct (child s1), (parent s1), (buffer s1); try done. intros [= <-]. simpl. lia.
Qed.

Lemma work_terminates s : Acc (flip work) s.
Proof. induction s as [s IH] using (induction_ltof1 _ measure). constructor. intros s' Hs. by apply IH, work_measure. Qed.

(** While the child reads, somebody can go on until the engine has closed the pipe. *)
Lemma work_progress s :
  (0 < capacity)%nat -> parent s = Writing -> child s = Reading -> exists s', work s s'.
Proof.
  intros Hc Hp Hk. destruct (rest s) as [|x r] eqn:Er.
  - eexists. apply work_close. unfold parent_close. by rewrite Hp, Er.
  - destruct (buffer s) as [|y b] eqn:Eb.
    + eexists. apply (work_write 1). unfold parent_write. rewrite Hp, bool_decide_true; [done|].
      rewrite Er, Eb. simpl. lia.
    + eexists. apply (work_read 1). unfold child_read. rewrite Hk, bool_decide_true; [done|]. rewrite Eb. simpl. lia.
Qed.

(** * Blocking *)

Lemma blocked_full text s : inv text s -> blocked s -> child s = Gone /\ List.length (buffer s) = capacity.
Proof.
  intros [T B C L E] (Hp & Hr & Hs).
  assert (forall s', parent_interrupted s = Some s' -> child s' = child s /\ rest s' = []) as Hi.
  { intros s'. unfold parent_interrupted. rewrite Hp. destruct (rest s); [done|]. by intros [= <-]. }
  split.
  - destruct (child s) eqn:Ek; [|by destruct (E eq_refl); congruence|done].
    specialize (Hs (mkPipe (rest s) (buffer s) (received s) (lost s) (parent s) Gone)).
    apply Hi in Hs as [Hs _]; [done|]. apply step_exit. unfold child_exit. by rewrite Ek.
  - destruct (decide (List.length (buffer s) = capacity)) as [|Hn]; [done|].
    destruct (rest s) as [|x r] eqn:Er; [done|].
    specialize (Hs (mkPipe r (buffer s ++ [x]) (received s) (lost s) Writing (child s))).
    assert (parent_interrupted s = Some (mkPipe r (buffer s ++ [x]) (received s) (lost s) Writing (child s))) as Ei.
    { apply Hs, step_work, (work_write 1). unfold parent_write. rewrite Hp, bool_decide_true, Er; [done|].
      rewrite Er. simpl. lia. }
    unfold parent_interrupted in Ei. rewrite Hp, Er in Ei. assert (buffer s = buffer s ++ [x]) as Eb by congruence. exfalso.
    apply (f_equal (@List.length ascii)) in Eb. rewrite length_app in Eb. simpl in Eb. lia.
Qed.

(** C38: The engine can stay for ever in the write that gives a task its
    standard input, holding the mutex of the instance, exactly when the text
    is longer than the buffer of the pipe: the child may then exit without
    reading it, and the engine, which keeps the reading end open, waits for
    a reader that nobody is; only a signal ends the call, and the rest of
    the text is lost. *)
Theorem stdin_blocks text :
  (0 < capacity)%nat ->
  (exists s, rtc step (open text) s /\ blocked s) <-> (capacity < List.length (chars text))%nat.
Proof.
  intros Hc. split.
  - intros (s & Hi%reached_inv & Hb). destruct (blocked_full _ _ Hi Hb) as [_ Hf]. destruct Hb as (_ & Hr & _).
    rewrite <- (inv_text _ _ Hi), !length_app. destruct (rest s); [done|]. simpl. lia.
  - intros Hl. exists (mkPipe (drop capacity (chars text)) (take capacity (chars text)) [] [] Writing Gone). split.
    + apply (rtc_l _ _ (mkPipe (drop capacity (chars text)) (take capacity (chars text)) [] [] Writing Reading)).
      * apply step_work, (work_write capacity). unfold parent_write. simpl. rewrite bool_decide_true; [done|]. lia.
      * apply rtc_once. by apply step_exit.
    + split; [done|]. split.
      { simpl. intros E. apply (f_equal (@List.length ascii)) in E. rewrite length_drop in E. simpl in E. lia. }
      intros s' Hs. inversion Hs as [? ? Hw|? ? E|? ? E]; subst; [|done|done].
      inversion Hw as [n ? ? E|? ? E|n ? ? E|? ? E]; subst; simpl in E; try done.
      * unfold parent_write in E. simpl in E. case_bool_decide as Hn; [|done]. rewrite length_take in Hn. lia.
      * unfold parent_close in E. simpl in E. destruct (drop capacity (chars text)) eqn:Ed; [|done].
        apply (f_equal (@List.length ascii)) in Ed. rewrite length_drop in Ed. simpl in Ed. lia.
Qed.
End pipe.

(** Three bytes do not fit in a pipe of two. *)
Lemma stdin_blocks_witness : exists s, rtc (step 2) (open "abc") s /\ blocked 2 s.
Proof. apply (stdin_blocks 2 "abc"); simpl; lia. Defined.
