(* ===== verification/WorkflowShape.v ===== *)
(** The shape of a workflow document: its jobs, their tasks and the jobs below
    them.  [WorkflowDom] is what the XML library and XPath promise of a document
    that has a shape; the theorems of [WorkflowOrder] are proved against it and
    [TreeShape] shows that the documents of [TreeDom] keep the promise. *)

From S2P Require Import Prelude CString Dom.

Open Scope Z_scope.

(** Jobs by their nodes; the root has no tasks. *)
Record shape : Type := mkShape {
  sroot : node_ref;
  sjobs : list node_ref;
  stasks : node_ref -> list node_ref;
  ssubjobs : node_ref -> list node_ref;
}.

Definition all_jobs (S : shape) : list node_ref := sroot S :: sjobs S.
Definition is_task (S : shape) (t : node_ref) : Prop := exists j, j ∈ sjobs S /\ t ∈ stasks S j.

(** A tree: a task has one job, a job is below one job. *)
Record wf_shape (S : shape) : Prop := {
  wf_root : sroot S ∉ sjobs S;
  wf_subjobs p j : p ∈ all_jobs S -> j ∈ ssubjobs S p -> j ∈ sjobs S;
  wf_job j1 j2 t : j1 ∈ sjobs S -> j2 ∈ sjobs S -> t ∈ stasks S j1 -> t ∈ stasks S j2 -> j1 = j2;
  wf_parent p1 p2 j :
    p1 ∈ all_jobs S -> p2 ∈ all_jobs S -> j ∈ ssubjobs S p1 -> j ∈ ssubjobs S p2 -> p1 = p2;
  wf_tasks j : j ∈ sjobs S -> NoDup (stasks S j);
  wf_below p : p ∈ all_jobs S -> NoDup (ssubjobs S p);
  wf_roles t : is_task S t -> t ∉ all_jobs S;
}.

Section status.
Context {D : Type} `{Dom D}.

Definition status_of (d : D) (t : node_ref) : option string := getNamedItem d t "status".
Definition retval_of (d : D) (t : node_ref) : option string := getNamedItem d t "retval".

(** The task has ended with the exit status 0. *)
Definition successful (d : D) (t : node_ref) : bool :=
  bool_decide (status_of d t = Some "TERMINATED"%string) && bool_decide (retval_of d t = Some "0"%string).

(** [retval] is an exit status as the program writes it. *)
Definition printed_retval (d : D) (t : node_ref) : Prop :=
  retval_of d t = None \/ exists z, retval_of d t = Some (sprintf_d z).

(** The attributes of the nodes of the shape are the same. *)
Definition same_attributes (S : shape) (d d' : D) : Prop :=
  forall n a, n ∈ all_jobs S \/ is_task S n -> getNamedItem d' n a = getNamedItem d n a.
End status.

(** [shows S d]: the document has the shape; [detached S d n]: [n] is a node that
    was created and not put in the document. *)
Class WorkflowDom (D : Type) `{Dom D} : Type := {
  shows : shape -> D -> Prop;
  detached : shape -> D -> node_ref -> Prop;
}.

(** A node that was just created. *)
Definition creates {D} `{WorkflowDom D} (S : shape) (d : D) (r : node_ref * D) : Prop :=
  shows S r.2 /\ detached S r.2 r.1 /\ same_attributes S d r.2 /\
  (forall n, detached S d n -> detached S r.2 n /\ n <> r.1).

Class WorkflowDomLaws (D : Type) `{WorkflowDom D} : Prop := {
  shows_root S d : shows S d -> getDocumentElement d = Some (sroot S);
  shows_tasks S d j : shows S d -> j ∈ sjobs S -> evaluate "tasks/task" j d = Some (INode <$> stasks S j);
  shows_subjobs S d j : shows S d -> j ∈ all_jobs S -> evaluate "subjobs/job" j d = Some (INode <$> ssubjobs S j);
  (* a task without a status has no output yet, and its inputs are constant *)
  shows_values S d t : shows S d -> is_task S t -> status_of d t = None ->
    evaluate ".//value" t d = Some [] /\ evaluate ".//copy" t d = Some [];
  shows_job S d j t : shows S d -> j ∈ sjobs S -> t ∈ stasks S j ->
    exists p, getParentNode d t = Some p /\ getParentNode d p = Some j;
  shows_count S d j t : shows S d -> j ∈ sjobs S -> t ∈ stasks S j -> exists i r,
    evaluate "count(../task)" t d = Some (i :: r) /\
    getIntegerValue d i = Some (Z.of_nat (List.length (stasks S j)));
  shows_successful S d j t : shows S d -> j ∈ sjobs S -> t ∈ stasks S j ->
    (forall t', t' ∈ stasks S j -> printed_retval d t') -> exists i r,
    evaluate "count(../task[@status='TERMINATED' and @retval = 0])" t d = Some (i :: r) /\
    getIntegerValue d i = Some (Z.of_nat (List.length (filter (fun t' => successful d t' = true) (stasks S j))));

  shows_set S d n a v : shows S d -> shows S (setAttribute n a v d);
  shows_remove S d n a : shows S d -> a <> "status"%string -> shows S (removeAttribute n a d);
  shows_element S d tag : shows S d -> creates S d (createElement tag d);
  shows_text S d text : shows S d -> creates S d (createTextNode text d);
  shows_import S d src n : shows S d -> creates S d (importNode src n d);
  (* a node is put in another one that is not in the document, or in a task *)
  shows_append S d p c : shows S d -> detached S d p -> detached S d c -> p <> c ->
    shows S (appendChild p c d) /\ detached S (appendChild p c d) p /\ same_attributes S d (appendChild p c d);
  shows_output S d t c : shows S d -> is_task S t -> status_of d t <> None -> detached S d c ->
    shows S (appendChild t c d) /\ same_attributes S d (appendChild t c d);

  detached_not_task S d n : detached S d n -> ~ is_task S n;
  detached_set S d n a v m : detached S d m -> detached S (setAttribute n a v d) m;
  removeAttribute_eq d n a : getNamedItem (removeAttribute n a d) n a = None;
  removeAttribute_ne d n a n' a' :
    (n, a) <> (n', a') -> getNamedItem (removeAttribute n a d) n' a' = getNamedItem d n' a';
}.
