(* ===== verification/TreeShape.v ===== *)
(** The documents of [TreeDom] have shapes: the laws of [WorkflowDom] hold for
    them, and a check finds the shape of a concrete document. *)

From S2P Require Import Prelude CString Dom TreeDom WorkflowShape.

Open Scope Z_scope.

(** * Well-formed documents *)

(** The parent and the children of a node agree, and numbers of nodes are below
    the next one. *)
Record wf_doc (d : doc) : Prop := {
  wf_children p c : c ∈ children_of d p -> parents d !! c = Some p;
  wf_parents c p : parents d !! c = Some p -> (c < next_ref d)%positive /\ (p < next_ref d)%positive;
}.

Lemma wf_child_below d p c : wf_doc d -> c ∈ children_of d p -> (c < next_ref d)%positive.
Proof. intros W Hc. by apply (wf_parents _ W c p), (wf_children _ W). Qed.

(** The nodes of [d] are in [d'] as they are. *)
Record grows (d d' : doc) : Prop := {
  gr_next : (next_ref d <= next_ref d')%positive;
  gr_root : root d' = root d;
  gr_tags n : (n < next_ref d)%positive -> tags d' !! n = tags d !! n;
  gr_children n : (n < next_ref d)%positive -> children_of d' n = children_of d n;
  gr_parents n : (n < next_ref d)%positive -> parents d' !! n = parents d !! n;
  gr_attrs n a : (n < next_ref d)%positive -> attr d' n a = attr d n a;
}.

Lemma grows_refl d : grows d d.
Proof. split; [lia|done..]. Qed.

Lemma grows_trans d1 d2 d3 : grows d1 d2 -> grows d2 d3 -> grows d1 d3.
Proof.
  intros [N1 R1 T1 C1 P1 A1] [N2 R2 T2 C2 P2 A2]. split; [lia|congruence|..].
  - intros n Hn. rewrite T2, T1; [done|done|lia].
  - intros n Hn. rewrite C2, C1; [done|done|lia].
  - intros n Hn. rewrite P2, P1; [done|done|lia].
  - intros n a Hn. rewrite A2, A1; [done|done|lia].
Qed.

(** A node that was added at the end of a document, without a parent. *)
Record added (d : doc) (r : node_ref * doc) : Prop := {
  ad_ref : r.1 = next_ref d;
  ad_grows : grows d r.2;
  ad_below : (r.1 < next_ref r.2)%positive;
  ad_wf : wf_doc r.2;
  ad_parent : parents r.2 !! r.1 = None;
}.

Lemma new_node_added tag text d : wf_doc d -> added d (new_node tag text d).
Proof.
  intros [W1 W2]. assert (parents d !! next_ref d = None) as Hn.
  { destruct (parents d !! next_ref d) as [p|] eqn:E; [|done]. apply W2 in E. lia. }
  assert (forall n, (n < next_ref d)%positive -> next_ref d <> n) as Hne by (intros n ? <-; lia).
  destruct tag as [t|]; (split; [done| |simpl; lia| |exact Hn]); simpl.
  - split; simpl; [lia|done| |done..]. intros n Hl. by apply lookup_insert_ne, Hne.
  - split; simpl; [done|]. intros c p Hc. apply W2 in Hc. lia.
  - split; simpl; [lia|done..].
  - split; simpl; [done|]. intros c p Hc. apply W2 in Hc. lia.
Qed.

Lemma children_of_set n l d m :
  children_of (set_children n l d) m = if decide (m = n) then l else children_of d m.
Proof.
  unfold children_of, set_children. simpl. case_decide as E; [subst; by rewrite lookup_insert_eq|].
  by rewrite lookup_insert_ne.
Qed.

Lemma children_of_add p c d m :
  children_of (add_child p c d) m = if decide (m = p) then children_of d p ++ [c] else children_of d m.
Proof. unfold add_child. apply (children_of_set p _ d m). Qed.

Lemma parents_add p c d m : parents (add_child p c d) !! m = if decide (m = c) then Some p else parents d !! m.
Proof. unfold add_child. simpl. case_decide as E; [subst; by rewrite lookup_insert_eq|by rewrite lookup_insert_ne]. Qed.

Lemma add_child_wf p c d :
  wf_doc d -> (p < next_ref d)%positive -> (c < next_ref d)%positive -> parents d !! c = None -> wf_doc (add_child p c d).
Proof.
  intros [W1 W2] Hp Hc Hn. split.
  - intros m x. rewrite children_of_add, parents_add. destruct (decide (m = p)) as [->|Hm], (decide (x = c)) as [->|Hx]; [done|..].
    + intros [?|?%list_elem_of_singleton]%elem_of_app; [auto|done].
    + intros Hx%W1. congruence.
    + apply W1.
  - intros x m. rewrite parents_add. simpl. case_decide; [intros [= <-]; by subst|apply W2].
Qed.

Lemma add_child_grows d0 p c d :
  grows d0 d -> (next_ref d0 <= p)%positive -> (next_ref d0 <= c)%positive -> grows d0 (add_child p c d).
Proof.
  intros [N R T C P A] Hp Hc. split; [done|done|done|..].
  - intros n Hn. rewrite children_of_add, decide_False by lia. auto.
  - intros n Hn. rewrite parents_add, decide_False by lia. auto.
  - done.
Qed.

Lemma copy_attrs_attr src n n' d m a : m <> n' -> attr (copy_attrs src n n' d) m a = attr d m a.
Proof.
  intros Hm. unfold copy_attrs, attr. simpl.
  induction (map_to_list (attrs src)) as [|[[k b] v] l IH]; [done|]. simpl.
  case_bool_decide; [|done]. by rewrite lookup_insert_ne by congruence.
Qed.

(** Copies of nodes: [cloneNode] and [importNode]. *)
Lemma copy_added fuel src n d : wf_doc d -> added d (copy fuel src n d).
Proof.
  revert n d. induction fuel as [|fuel IH]; intros n d Hw; [by apply new_node_added|]. cbn [copy].
  destruct (new_node_added (tags src !! n) (default ""%string (texts src !! n)) d Hw) as [E1 G1 B1 W1 P1].
  destruct (new_node _ _ d) as [n' d1]. simpl in *.
  assert (forall l d2, grows d d2 -> wf_doc d2 -> (n' < next_ref d2)%positive -> parents d2 !! n' = None ->
    added d (n', foldl (fun d c => let '(c', d) := copy fuel src c d in add_child n' c' d) d2 l)) as Hl.
  { induction l as [|c l IHl]; intros d2 G2 W2 B2 P2; [by split|]. simpl.
    destruct (IH c d2 W2) as [E3 G3 B3 W3 P3]. destruct (copy fuel src c d2) as [c' d3]. simpl in *.
    pose proof (gr_next _ _ G2). pose proof (gr_next _ _ G3). apply IHl.
    - apply add_child_grows; [by eapply grows_trans|lia|lia].
    - apply add_child_wf; [done|lia|lia|done].
    - simpl. lia.
    - rewrite parents_add, decide_False by lia. rewrite (gr_parents _ _ G3) by lia. done. }
  apply Hl; [|by destruct W1; split|done|done].
  destruct G1 as [N R T C P A]. split; [done..|]. intros m a Hm. rewrite copy_attrs_attr; [by apply A|lia].
Qed.

(** * Documents with a shape *)

Definition tasks_of (d : doc) (j : node_ref) : list node_ref := child_path ["tasks"; "task"]%string d [j].
Definition subjobs_of (d : doc) (p : node_ref) : list node_ref := child_path ["subjobs"; "job"]%string d [p].

(** Below a task without a status there is no value to compute and no task. *)
Definition constant (S : shape) (d : doc) (t : node_ref) : Prop :=
  forall fuel m, m ∈ descendants fuel d t ->
    tags d !! m <> Some "value"%string /\ tags d !! m <> Some "copy"%string /\ ~ is_task S m.

Record tree_shows (S : shape) (d : doc) : Prop := {
  ts_wf : wf_doc d;
  ts_root : root d = Some (sroot S);
  ts_root_below : (sroot S < next_ref d)%positive;
  ts_jobs j : j ∈ sjobs S -> exists p, parents d !! j = Some p;
  ts_tags j : j ∈ all_jobs S -> tags d !! j <> Some "task"%string;
  ts_tasks j : j ∈ sjobs S -> tasks_of d j = stasks S j;
  ts_subjobs j : j ∈ all_jobs S -> subjobs_of d j = ssubjobs S j;
  ts_count j : j ∈ sjobs S -> Z.of_nat (List.length (stasks S j)) < 2 ^ 63;
  ts_parents j t : j ∈ sjobs S -> t ∈ stasks S j -> tags d !! t = Some "task"%string /\
    exists p, parents d !! t = Some p /\ parents d !! p = Some j /\ tags d !! p = Some "tasks"%string /\
      named d "task" (children_of d p) = stasks S j;
  ts_constant t : is_task S t -> attr d t "status" = None -> constant S d t;
}.

Definition tree_detached (S : shape) (d : doc) (n : node_ref) : Prop :=
  parents d !! n = None /\ (n < next_ref d)%positive /\ n <> sroot S /\ ~ is_task S n.

Lemma named_ext d d' s l : (forall n, n ∈ l -> tags d' !! n = tags d !! n) -> named d' s l = named d s l.
Proof.
  intros E. unfold named. induction l as [|n l IH]; [done|]. rewrite !filter_cons, E, IH by set_solver. done.
Qed.

Lemma child_path_two a b d j :
  child_path [a; b] d [j] = named d b (mjoin (children_of d <$> named d a (children_of d j))).
Proof. simpl. by rewrite app_nil_r. Qed.

(** A change that the nodes of a path do not see. *)
Lemma child_path_ext a b d d' j :
  children_of d' j = children_of d j ->
  (forall n, n ∈ children_of d j -> tags d' !! n = tags d !! n) ->
  (forall n, n ∈ named d a (children_of d j) -> children_of d' n = children_of d n /\
     forall m, m ∈ children_of d n -> tags d' !! m = tags d !! m) ->
  child_path [a; b] d' [j] = child_path [a; b] d [j].
Proof.
  intros E1 E2 E3. rewrite !child_path_two, E1, (named_ext d d' a _ E2).
  assert (children_of d' <$> named d a (children_of d j) = children_of d <$> named d a (children_of d j)) as ->.
  { apply list_fmap_ext. intros i n Hn. apply E3. by eapply list_elem_of_lookup_2. }
  apply named_ext. intros m (l & Hm & (n & -> & Hn)%list_elem_of_fmap)%list_elem_of_join. by apply (E3 n Hn).
Qed.

Lemma descendants_ext d d' n fuel :
  (forall m, m = n \/ m ∈ descendants fuel d n -> children_of d' m = children_of d m) ->
  descendants fuel d' n = descendants fuel d n.
Proof.
  revert n. induction fuel as [|fuel IH]; intros n E; [done|]. cbn [descendants]. rewrite E by auto. f_equal.
  apply list_fmap_ext. intros i c Hc. apply list_elem_of_lookup_2 in Hc. f_equal. apply IH. intros m Hm. apply E. right.
  cbn [descendants]. apply list_elem_of_join. exists (c :: descendants fuel d c). split; [set_solver|].
  apply list_elem_of_fmap. eauto.
Qed.

Lemma descendants_parent d fuel n m : wf_doc d -> m ∈ descendants fuel d n -> exists p, parents d !! m = Some p.
Proof.
  intros W. revert n. induction fuel as [|fuel IH]; intros n; cbn [descendants]; [by intros ?%not_elem_of_nil|].
  intros (l & Hm & (c & -> & Hc)%list_elem_of_fmap)%list_elem_of_join. apply elem_of_cons in Hm as [->|Hm]; [|eauto].
  exists n. by apply (wf_children _ W).
Qed.

Lemma task_parent S d t : tree_shows S d -> is_task S t -> exists p, parents d !! t = Some p.
Proof. intros Sh (j & Hj & Ht). destruct (ts_parents _ _ Sh j t Hj Ht) as (_ & p & Hp & _). eauto. Qed.

Lemma shape_below S d n : tree_shows S d -> n ∈ all_jobs S \/ is_task S n -> (n < next_ref d)%positive.
Proof.
  intros Sh [[->|Hn]%elem_of_cons|Hn]; [by apply ts_root_below| |].
  - destruct (ts_jobs _ _ Sh n Hn) as [p Hp]. by apply (wf_parents _ (ts_wf _ _ Sh) n p).
  - destruct (task_parent _ _ _ Sh Hn) as [p Hp]. by apply (wf_parents _ (ts_wf _ _ Sh) n p).
Qed.

(** ** New nodes *)

Lemma children_below S d n m : tree_shows S d -> m ∈ children_of d n -> (m < next_ref d)%positive.
Proof. intros Sh. apply wf_child_below, Sh. Qed.

Lemma path_grows S a b d d' j :
  tree_shows S d -> grows d d' -> (j < next_ref d)%positive -> child_path [a; b] d' [j] = child_path [a; b] d [j].
Proof.
  intros Sh G Hj. assert (forall n m, m ∈ children_of d n -> tags d' !! m = tags d !! m) as Ht.
  { intros n m Hm. apply G. by eapply children_below. }
  apply child_path_ext; [by apply G|eauto|]. intros n [_ Hn]%list_elem_of_filter. split; [|eauto].
  apply G. by eapply children_below.
Qed.

Lemma descendants_below S d fuel n m : tree_shows S d -> m ∈ descendants fuel d n -> (m < next_ref d)%positive.
Proof.
  intros Sh Hm. destruct (descendants_parent _ _ _ _ (ts_wf _ _ Sh) Hm) as [p Hp].
  by apply (wf_parents _ (ts_wf _ _ Sh) m p).
Qed.

Lemma grows_shows S d d' : tree_shows S d -> grows d d' -> wf_doc d' -> tree_shows S d'.
Proof.
  intros Sh G W. assert (forall n, n ∈ all_jobs S \/ is_task S n -> (n < next_ref d)%positive) as Hb by (intros n; by apply shape_below).
  pose proof (gr_next _ _ G). split.
  - done.
  - rewrite (gr_root _ _ G). by apply Sh.
  - pose proof (ts_root_below _ _ Sh). lia.
  - intros j Hj. rewrite (gr_parents _ _ G) by (apply Hb; left; by right). by apply Sh.
  - intros j Hj. rewrite (gr_tags _ _ G) by auto. by apply Sh.
  - intros j Hj. rewrite <- (ts_tasks _ _ Sh j Hj). eapply path_grows; [done..|]. apply Hb. left. by right.
  - intros j Hj. rewrite <- (ts_subjobs _ _ Sh j Hj). eapply path_grows; [done..|]. auto.
  - apply Sh.
  - intros j t Hj Ht. destruct (ts_parents _ _ Sh j t Hj Ht) as (Et & p & P1 & P2 & P3 & P4).
    assert (t < next_ref d)%positive by (apply Hb; right; by exists j).
    assert (p < next_ref d)%positive by (by apply (wf_parents _ (ts_wf _ _ Sh) t p)).
    rewrite (gr_tags _ _ G) by done. split; [done|]. exists p.
    rewrite !(gr_parents _ _ G), (gr_tags _ _ G), (gr_children _ _ G) by done. split_and!; [done..|].
    rewrite <- P4. apply named_ext. intros n Hn. apply G. by eapply children_below.
  - intros t Ht. rewrite (gr_attrs _ _ G) by auto. intros Es fuel m.
    rewrite (descendants_ext d d').
    + intros Hm. rewrite (gr_tags _ _ G) by (by eapply descendants_below). by apply (ts_constant _ _ Sh t Ht Es fuel).
    + intros n [->|Hn]; apply G; [auto|by eapply descendants_below].
Qed.

Lemma added_detached S d r :
  tree_shows S d -> added d r ->
  tree_shows S r.2 /\ tree_detached S r.2 r.1 /\
  (forall n a, n ∈ all_jobs S \/ is_task S n -> attr r.2 n a = attr d n a) /\
  (forall n, tree_detached S d n -> tree_detached S r.2 n /\ n <> r.1).
Proof.
  intros Sh [E G B W P]. pose proof (gr_next _ _ G). pose proof (shape_below S d) as Hb. split; [by eapply grows_shows|].
  split.
  { split_and!; [done|done| |].
    - intros Er. pose proof (ts_root_below _ _ Sh). rewrite <- Er, E in *. lia.
    - intros Ht. specialize (Hb _ Sh (or_intror Ht)). rewrite E in Hb. lia. }
  split.
  - intros n a Hn. apply G. auto.
  - intros n (P1 & P2 & P3 & P4). split; [|rewrite E; lia]. split_and!; [rewrite (gr_parents _ _ G); done|lia|done|done].
Qed.

(** ** Children *)

(** No part of the shape is read through the children of [p]. *)
Record outside (S : shape) (d : doc) (p : node_ref) : Prop := {
  out_jobs : p ∉ all_jobs S;
  out_tags n s : parents d !! p = Some n -> s = "tasks"%string \/ s = "subjobs"%string -> tags d !! p <> Some s;
  out_constant t fuel : is_task S t -> attr d t "status" = None -> p <> t /\ p ∉ descendants fuel d t;
}.

Lemma detached_outside S d p : tree_shows S d -> tree_detached S d p -> outside S d p.
Proof.
  intros Sh (P1 & P2 & P3 & P4). split.
  - intros [->|Hj]%elem_of_cons; [done|]. destruct (ts_jobs _ _ Sh p Hj). congruence.
  - congruence.
  - intros t fuel Ht _. split; [by intros ->|]. intros Hm.
    destruct (descendants_parent _ _ _ _ (ts_wf _ _ Sh) Hm). congruence.
Qed.

Lemma task_outside S d t : tree_shows S d -> is_task S t -> attr d t "status" <> None -> outside S d t.
Proof.
  intros Sh Ht Hs. assert (tags d !! t = Some "task"%string) as Et.
  { destruct Ht as (j & Hj & Hjt). by destruct (ts_parents _ _ Sh j t Hj Hjt). }
  split.
  - intros Hj. by apply (ts_tags _ _ Sh t Hj).
  - intros n s _ [-> | ->]; rewrite Et; congruence.
  - intros t' fuel Ht' Hs'. split; [by intros ->|]. intros Hm. by apply (ts_constant _ _ Sh t' Ht' Hs' fuel t Hm).
Qed.

Lemma path_add S a b d p c j :
  wf_doc d -> a = "tasks"%string \/ a = "subjobs"%string -> outside S d p -> j ∈ all_jobs S ->
  child_path [a; b] (add_child p c d) [j] = child_path [a; b] d [j].
Proof.
  intros W Ha O Hj. apply child_path_ext; [|done|].
  - rewrite children_of_add, decide_False; [done|]. intros ->. by apply (out_jobs _ _ _ O).
  - intros n [En Hn]%list_elem_of_filter. split; [|done]. rewrite children_of_add, decide_False; [done|].
    intros ->. by apply (out_tags _ _ _ O j a); [apply (wf_children _ W)|..].
Qed.

Lemma add_child_shows S d p c :
  tree_shows S d -> outside S d p -> (p < next_ref d)%positive -> tree_detached S d c -> tree_shows S (add_child p c d).
Proof.
  intros Sh O Hp (C1 & C2 & C3 & C4). assert (forall j, j ∈ sjobs S -> j ∈ all_jobs S) as Hall by (by right).
  assert (forall n q, parents d !! n = Some q -> parents (add_child p c d) !! n = Some q) as Hpar.
  { intros n q Hn. rewrite parents_add, decide_False; [done|]. intros ->. congruence. }
  split.
  - apply add_child_wf; [apply Sh|done..].
  - apply Sh.
  - apply Sh.
  - intros j Hj. destruct (ts_jobs _ _ Sh j Hj) as [q Hq]. eauto.
  - apply Sh.
  - intros j Hj. rewrite <- (ts_tasks _ _ Sh j Hj). apply (path_add S); auto; apply Sh.
  - intros j Hj. rewrite <- (ts_subjobs _ _ Sh j Hj). apply (path_add S); auto; apply Sh.
  - apply Sh.
  - intros j t Hj Ht. destruct (ts_parents _ _ Sh j t Hj Ht) as (Et & q & P1 & P2 & P3 & P4). split; [done|]. exists q.
    split_and!; [by apply Hpar|by apply Hpar|done|]. rewrite children_of_add, decide_False; [done|]. intros ->.
    apply (out_tags _ _ _ O j "tasks"); auto.
  - intros t Ht Es fuel m. destruct (out_constant _ _ _ O t fuel Ht Es) as [Hpt Hpd].
    rewrite (descendants_ext d); [by apply (ts_constant _ _ Sh)|].
    intros n Hn. rewrite children_of_add, decide_False; [done|]. intros ->. by destruct Hn.
Qed.

(** * Expressions *)

Lemma tree_parse_number (n : nat) : Z.of_nat n < 2 ^ 63 -> tree_parseInt (sprintf_d (Z.of_nat n)) = Some (Z.of_nat n).
Proof.
  intros Hn. unfold tree_parseInt. rewrite strtol_sprintf_d. f_equal. unfold clamp_long, LONG_MIN, LONG_MAX. lia.
Qed.

Lemma siblings_tasks S d j t : tree_shows S d -> j ∈ sjobs S -> t ∈ stasks S j -> named d "task" (siblings d t) = stasks S j.
Proof.
  intros Sh Hj Ht. destruct (ts_parents _ _ Sh j t Hj Ht) as (_ & p & P1 & _ & _ & P4). unfold siblings. by rewrite P1.
Qed.

Lemma constant_none S d t s :
  constant S d t -> s = "value"%string \/ s = "copy"%string -> named d s (descendants (doc_size d) d t) = [].
Proof.
  intros Hc Hs. destruct (named d s _) as [|n l] eqn:E; [done|].
  assert (n ∈ named d s (descendants (doc_size d) d t)) as Hn by (rewrite E; by left).
  apply list_elem_of_filter in Hn as [En Hn]. destruct (Hc _ _ Hn) as (H1 & H2 & _). by destruct Hs as [-> | ->].
Qed.

Lemma evaluate_tasks d j : tree_evaluate "tasks/task" j d = Some (nodes (tasks_of d j)).
Proof. reflexivity. Qed.
Lemma evaluate_subjobs d p : tree_evaluate "subjobs/job" p d = Some (nodes (subjobs_of d p)).
Proof. reflexivity. Qed.
Lemma evaluate_values d t : tree_evaluate ".//value" t d = Some (nodes (named d "value" (descendants (doc_size d) d t))).
Proof. reflexivity. Qed.
Lemma evaluate_copies d t : tree_evaluate ".//copy" t d = Some (nodes (named d "copy" (descendants (doc_size d) d t))).
Proof. reflexivity. Qed.
Lemma evaluate_count d t : tree_evaluate "count(../task)" t d = Some (number (List.length (named d "task" (siblings d t)))).
Proof. reflexivity. Qed.
Lemma evaluate_successful d t :
  tree_evaluate "count(../task[@status='TERMINATED' and @retval = 0])" t d =
  Some (number (List.length (filter (fun n => has_status d n "TERMINATED" = true /\ attr d n "retval" = Some "0"%string)
                  (named d "task" (siblings d t))))).
Proof. reflexivity. Qed.

Lemma set_attrs_shows S d at_ :
  tree_shows S d -> (forall t, attr (set_attrs at_ d) t "status" = None -> attr d t "status" = None) -> tree_shows S (set_attrs at_ d).
Proof.
  intros [W R B J T A P C Q K] Hs. split; try done.
  - by destruct W; split.
  - intros t Ht E fuel m. rewrite (descendants_ext d); [|done]. by apply (K t Ht (Hs t E)).
Qed.

Section laws.
Context (library : list (string * doc)).

#[local] Instance tree : Dom doc := TreeDom library.

Definition TreeWorkflow : WorkflowDom doc := {| shows := tree_shows; detached := tree_detached |}.

#[local] Existing Instance TreeWorkflow.

Lemma TreeWorkflow_laws : WorkflowDomLaws doc.
Proof.
  split.
  - intros S d. apply ts_root.
  - intros S d j Sh Hj. etransitivity; [apply evaluate_tasks|]. unfold nodes. by rewrite (ts_tasks _ _ Sh).
  - intros S d j Sh Hj. etransitivity; [apply evaluate_subjobs|]. unfold nodes. by rewrite (ts_subjobs _ _ Sh).
  - intros S d t Sh Ht Hs. pose proof (ts_constant _ _ Sh t Ht Hs) as Hc.
    split; [etransitivity; [apply evaluate_values|]|etransitivity; [apply evaluate_copies|]];
      by rewrite (constant_none S) by auto.
  - intros S d j t Sh Hj Ht. destruct (ts_parents _ _ Sh j t Hj Ht) as (_ & p & P1 & P2 & _). by exists p.
  - intros S d j t Sh Hj Ht. eexists _, []. split; [etransitivity; [apply evaluate_count|]|].
    + by rewrite (siblings_tasks S d j).
    + apply tree_parse_number. by apply (ts_count _ _ Sh).
  - intros S d j t Sh Hj Ht _. eexists _, []. split; [etransitivity; [apply evaluate_successful|]|].
    + by rewrite (siblings_tasks S d j).
    + assert (forall l, filter (fun n => has_status d n "TERMINATED" = true /\ attr d n "retval" = Some "0"%string) l =
        filter (fun t' => successful d t' = true) l) as ->.
      { intros l. apply list_filter_iff. intros n. unfold has_status, successful, status_of, retval_of. cbn [getNamedItem tree TreeDom].
        by rewrite andb_true_iff, !bool_decide_eq_true. }
      apply tree_parse_number. pose proof (ts_count _ _ Sh j Hj).
      pose proof (length_filter (fun t' => successful d t' = true) (stasks S j)). lia.
  - intros S d n a v Sh. apply set_attrs_shows; [done|]. intros t. unfold attr. simpl.
    destruct (decide ((n, a) = (t, "status"%string))) as [->|Hne]; [by rewrite lookup_insert_eq|by rewrite lookup_insert_ne].
  - intros S d n a Sh Ha. apply set_attrs_shows; [done|]. intros t. unfold attr. simpl. by rewrite lookup_delete_ne by congruence.
  - intros S d tag Sh. by apply added_detached, new_node_added, Sh.
  - intros S d text Sh. by apply added_detached, new_node_added, Sh.
  - intros S d src n Sh. by apply added_detached, copy_added, Sh.
  - intros S d p c Sh Hp Hc Hne. split; [apply add_child_shows; [done|by apply detached_outside|apply Hp|done]|].
    split; [|done]. destruct Hp as (P1 & P2 & P3 & P4). split_and!; [|done..].
    change (parents (add_child p c d) !! p = None). by rewrite parents_add, decide_False.
  - intros S d t c Sh Ht Hs Hc. split; [|done]. apply add_child_shows; [done|by apply task_outside| |done].
    apply (shape_below S); auto.
  - by intros S d n (_ & _ & _ & Hn).
  - done.
  - intros d n a. unfold removeAttribute. simpl. unfold attr. simpl. apply lookup_delete_eq.
  - intros d n a n' a' Hne. simpl. unfold attr. simpl. by apply lookup_delete_ne.
Qed.
End laws.

(** * The shape of a concrete document *)

Definition all_nodes (d : doc) : list node_ref :=
  match root d with Some r => r :: descendants (doc_size d) d r | None => [] end.

Definition shape_of (d : doc) : shape :=
  mkShape (default 1%positive (root d)) (named d "job" (all_nodes d)) (tasks_of d) (subjobs_of d).

Definition all_stasks (S : shape) : list node_ref := sjobs S ≫= stasks S.

Lemma is_task_all S t : is_task S t <-> t ∈ all_stasks S.
Proof. unfold is_task, all_stasks. rewrite list_elem_of_bind. naive_solver. Qed.

(** The conditions of a shape and of a document that has it, evaluated. *)
Definition check_wf_shape (S : shape) : bool :=
  bool_decide (sroot S ∉ sjobs S) &&
  bool_decide (Forall (fun p => Forall (fun j => j ∈ sjobs S) (ssubjobs S p)) (all_jobs S)) &&
  bool_decide (Forall (fun j1 => Forall (fun j2 => Forall (fun t => t ∈ stasks S j2 -> j1 = j2) (stasks S j1)) (sjobs S)) (sjobs S)) &&
  bool_decide (Forall (fun p1 => Forall (fun p2 => Forall (fun j => j ∈ ssubjobs S p2 -> p1 = p2) (ssubjobs S p1)) (all_jobs S)) (all_jobs S)) &&
  bool_decide (Forall (fun j => NoDup (stasks S j)) (sjobs S)) &&
  bool_decide (Forall (fun p => NoDup (ssubjobs S p)) (all_jobs S)) &&
  bool_decide (Forall (fun t => t ∉ all_jobs S) (all_stasks S)).

Lemma check_wf_shape_ok S : check_wf_shape S = true -> wf_shape S.
Proof.
  unfold check_wf_shape. rewrite !andb_true_iff, !bool_decide_eq_true. intros ((((((H1 & H2) & H3) & H4) & H5) & H6) & H7).
  rewrite ?Forall_forall in *. split; [done|..]; eauto.
  - intros p j Hp Hj. specialize (H2 p Hp). rewrite Forall_forall in H2. auto.
  - intros j1 j2 t Hj1 Hj2 Ht1 Ht2. specialize (H3 j1 Hj1). rewrite Forall_forall in H3. specialize (H3 j2 Hj2).
    rewrite Forall_forall in H3. eauto.
  - intros p1 p2 j Hp1 Hp2 Hj1 Hj2. specialize (H4 p1 Hp1). rewrite Forall_forall in H4. specialize (H4 p2 Hp2).
    rewrite Forall_forall in H4. eauto.
  - intros t Ht%is_task_all. auto.
Qed.

Definition check_wf_doc (d : doc) : bool :=
  bool_decide (map_Forall (fun p l => Forall (fun c => parents d !! c = Some p) l) (children d)) &&
  bool_decide (map_Forall (fun c p => (c < next_ref d)%positive /\ (p < next_ref d)%positive) (parents d)).

Lemma check_wf_doc_ok d : check_wf_doc d = true -> wf_doc d.
Proof.
  unfold check_wf_doc. rewrite andb_true_iff, !bool_decide_eq_true. intros [H1 H2]. split; [|done].
  intros p c. unfold children_of. destruct (children d !! p) as [l|] eqn:E; simpl; [|by intros ?%not_elem_of_nil].
  specialize (H1 p l E). simpl in H1. rewrite Forall_forall in H1. auto.
Qed.

(** The nodes below [t] are in [l], which is closed. *)
Definition check_constant (S : shape) (d : doc) (t : node_ref) : bool :=
  let l := descendants (doc_size d) d t in
  bool_decide (Forall (fun n => Forall (fun m => m ∈ l) (children_of d n)) (t :: l)) &&
  bool_decide (Forall (fun m => tags d !! m <> Some "value"%string /\ tags d !! m <> Some "copy"%string /\ m ∉ all_stasks S) l).

Lemma check_constant_ok S d t : check_constant S d t = true -> constant S d t.
Proof.
  unfold check_constant. rewrite andb_true_iff, !bool_decide_eq_true. set (l := descendants (doc_size d) d t).
  rewrite !Forall_forall. intros [H1 H2].
  assert (forall fuel n m, n ∈ t :: l -> m ∈ descendants fuel d n -> m ∈ l) as Hc.
  { induction fuel as [|fuel IH]; intros n m Hn; cbn [descendants]; [by intros ?%not_elem_of_nil|].
    intros (k & Hm & (c & -> & Hin)%list_elem_of_fmap)%list_elem_of_join.
    specialize (H1 n Hn). rewrite Forall_forall in H1. specialize (H1 c Hin).
    apply elem_of_cons in Hm as [->|Hm]; [done|]. apply (IH c); [by right|done]. }
  intros fuel m Hm. destruct (H2 m) as (A & B & C); [apply (Hc fuel t); [by left|done]|]. by rewrite is_task_all.
Qed.

Definition check_parents (S : shape) (d : doc) (j t : node_ref) : bool :=
  bool_decide (tags d !! t = Some "task"%string) &&
  match parents d !! t with
  | Some p => bool_decide (parents d !! p = Some j) && bool_decide (tags d !! p = Some "tasks"%string) &&
              bool_decide (named d "task" (children_of d p) = stasks S j)
  | None => false
  end.

Definition check_shows (S : shape) (d : doc) : bool :=
  check_wf_doc d && bool_decide (root d = Some (sroot S)) && (sroot S <? next_ref d)%positive &&
  forallb (fun j => bool_decide (is_Some (parents d !! j)) && bool_decide (tasks_of d j = stasks S j) &&
             (Z.of_nat (List.length (stasks S j)) <? 2 ^ 63) && forallb (check_parents S d j) (stasks S j)) (sjobs S) &&
  forallb (fun p => bool_decide (tags d !! p <> Some "task"%string) && bool_decide (subjobs_of d p = ssubjobs S p)) (all_jobs S) &&
  forallb (check_constant S d) (all_stasks S).

Lemma check_parents_ok S d j t : check_parents S d j t = true ->
  tags d !! t = Some "task"%string /\
  exists p, parents d !! t = Some p /\ parents d !! p = Some j /\ tags d !! p = Some "tasks"%string /\
    named d "task" (children_of d p) = stasks S j.
Proof.
  unfold check_parents. destruct (parents d !! t) as [p|]; [|by rewrite andb_false_r].
  rewrite !andb_true_iff, !bool_decide_eq_true. naive_solver.
Qed.

Lemma check_shows_ok S d : check_shows S d = true -> tree_shows S d.
Proof.
  unfold check_shows. rewrite !andb_true_iff, !forallb_forall, bool_decide_eq_true, Pos.ltb_lt.
  intros (((((W & R) & B) & J) & P) & K).
  assert (forall j, j ∈ sjobs S -> is_Some (parents d !! j) /\ tasks_of d j = stasks S j /\
    Z.of_nat (List.length (stasks S j)) < 2 ^ 63 /\ forall t, t ∈ stasks S j -> check_parents S d j t = true) as J'.
  { intros j Hj%list_elem_of_In. specialize (J j Hj). rewrite !andb_true_iff, !bool_decide_eq_true, Z.ltb_lt, forallb_forall in J.
    destruct J as (((J1 & J2) & J3) & J4). split_and!; [done..|]. intros t Ht%list_elem_of_In. auto. }
  assert (forall p, p ∈ all_jobs S -> tags d !! p <> Some "task"%string /\ subjobs_of d p = ssubjobs S p) as P'.
  { intros p Hp%list_elem_of_In. specialize (P p Hp). by rewrite andb_true_iff, !bool_decide_eq_true in P. }
  split; [by apply check_wf_doc_ok|done|done|..].
  - intros j Hj. by destruct (J' j Hj) as [[p Hp] _]; exists p.
  - intros j Hj. by apply P'.
  - intros j Hj. by apply J'.
  - intros j Hj. by apply P'.
  - intros j Hj. by apply J'.
  - intros j t Hj Ht. by apply check_parents_ok, J'.
  - intros t Ht%is_task_all%list_elem_of_In _. by apply check_constant_ok, K.
Qed.
