(* ===== verification/WorkflowProgress.v ===== *)
(** The counters of a workflow instance: [running_tasks] and [retrying_tasks]
    count the tasks that the queue pool, the process manager and the retrier
    hold, so that the end of the workflow is reported when, and only when, none
    of them can call the instance any more. *)

From S2P Require Import Prelude CString Configuration Dom TreeDom Task WorkflowInstance WorkflowExamples.

Open Scope Z_scope.

Section progress.
Context {D : Type} `{Dom D}.
Context (known_queue : string -> bool).
Context (GetTask : string -> option Task).
Context (format_time : Z -> string).
Context (engine_env : string -> option string).
Context (configuration : Configuration).
Implicit Types (w : world (D := D)).

(** * What the operations give to the rest of the program *)

Definition enqueued (es : list effect) : list node_ref :=
  omap (fun e => match e with EnqueueTask _ t => Some t | _ => None end) es.
Definition resumed (es : list effect) : list node_ref :=
  omap (fun e => match e with ExecuteTask _ t _ => Some t | _ => None end) es.
Definition inserted (es : list effect) : list node_ref :=
  omap (fun e => match e with InsertTask t _ => Some t | _ => None end) es.
Definition spawned (es : list effect) : list node_ref :=
  omap (fun e => match e with Spawn t _ => Some t | _ => None end) es.

#[local] Arguments enqueued : simpl never.
#[local] Arguments resumed : simpl never.
#[local] Arguments inserted : simpl never.
#[local] Arguments spawned : simpl never.

Lemma enqueued_app a b : enqueued (a ++ b) = enqueued a ++ enqueued b.
Proof. apply omap_app. Qed.
Lemma resumed_app a b : resumed (a ++ b) = resumed a ++ resumed b.
Proof. apply omap_app. Qed.
Lemma inserted_app a b : inserted (a ++ b) = inserted a ++ inserted b.
Proof. apply omap_app. Qed.
Lemma spawned_app a b : spawned (a ++ b) = spawned a ++ spawned b.
Proof. apply omap_app. Qed.

Definition len {A} (l : list A) : Z := Z.of_nat (List.length l).

Lemma len_app {A} (a b : list A) : len (a ++ b) = len a + len b.
Proof. unfold len. rewrite length_app. lia. Qed.

Definition counters_ok w : Prop :=
  0 <= running_tasks (wi w) < 2 ^ 32 /\ 0 <= retrying_tasks (wi w) < 2 ^ 32.

(** A task is only put in a queue that exists. *)
Definition known (e : effect) : Prop :=
  match e with EnqueueTask queue_name _ => known_queue queue_name = true | _ => True end.

(** The numbers that an instance is given by its constructor. *)
Definition same_instance w w' : Prop :=
  workflow_instance_id (wi w') = workflow_instance_id (wi w) /\ workflow_schedule_id (wi w') = workflow_schedule_id (wi w).

(** The effects [es] happen from [w] to [w'], [a] and [b] are added to the two
    counters on top of what [es] accounts for, and the instance stays the same.
    While the workflow is cancelling nothing is queued or executed and, with
    [strict], nothing is retried. *)
Record moves (strict : bool) (es : list effect) (a b : Z) w w' : Prop := {
  mv_effects : effects w' = es ++ effects w;
  mv_running : running_tasks (wi w') =
    u32 (running_tasks (wi w) + len (enqueued es) + len (resumed es) + a);
  mv_retrying : retrying_tasks (wi w') = u32 (retrying_tasks (wi w) + len (inserted es) + b);
  mv_cancelling : is_cancelling (wi w') = is_cancelling (wi w);
  mv_quiet : is_cancelling (wi w) = true ->
    enqueued es = [] /\ spawned es = [] /\ (strict = true -> inserted es = [] /\ resumed es = []);
  mv_known : Forall known es;
  mv_same : same_instance w w';
}.

#[local] Hint Extern 1 (same_instance _ _) => split; reflexivity : core.

Lemma moves_ok st es a b w w' : moves st es a b w w' -> counters_ok w'.
Proof. intros []. split; [rewrite mv_running0|rewrite mv_retrying0]; apply u32_range. Qed.

Lemma moves_refl st w : counters_ok w -> moves st [] 0 0 w w.
Proof.
  intros [H1 H2]. split; simpl; auto; unfold len; simpl; rewrite u32_small; lia.
Qed.

Lemma moves_trans st es1 es2 a1 b1 a2 b2 w1 w2 w3 :
  moves st es1 a1 b1 w1 w2 -> moves st es2 a2 b2 w2 w3 ->
  moves st (es2 ++ es1) (a1 + a2) (b1 + b2) w1 w3.
Proof.
  intros [E1 R1 T1 C1 K1 N1 [I1 J1]] [E2 R2 T2 C2 K2 N2 [I2 J2]]. split.
  - by rewrite E2, E1, app_assoc.
  - rewrite R2, R1, enqueued_app, resumed_app, !len_app. unfold u32.
    rewrite <- !Z.add_assoc, Zplus_mod_idemp_l. f_equal. lia.
  - rewrite T2, T1, inserted_app, !len_app. unfold u32.
    rewrite <- !Z.add_assoc, Zplus_mod_idemp_l. f_equal. lia.
  - by rewrite C2.
  - intros Hc. destruct (K1 Hc) as (H1 & H2 & H3). rewrite enqueued_app, spawned_app, inserted_app, resumed_app, H1, H2.
    rewrite C1 in K2. destruct (K2 Hc) as (-> & -> & H4). split; [done|]. split; [done|].
    intros Hs. destruct (H3 Hs) as [-> ->], (H4 Hs) as [-> ->]. done.
  - by apply Forall_app.
  - split; congruence.
Qed.

Lemma moves_weaken es a b w w' : moves true es a b w w' -> moves false es a b w w'.
Proof.
  intros [? ? ? ? Hq ? ?]. split; auto. intros Hc. destruct (Hq Hc) as (? & ? & _). by split_and!.
Qed.

(** What a program does to the counters while the workflow is cancelling or
    not; when it throws, it has not yet made the extra change. *)
Definition accounts (strict c : bool) (a b : Z) {A} (m : M A) : Prop :=
  forall w, counters_ok w -> is_cancelling (wi w) = c ->
    match m w with
    | Ok _ w' => exists es, moves strict es a b w w'
    | Exn _ w' => exists es, moves strict es 0 0 w w'
    | Crash => True
    end.

Lemma accounts_weaken c a b {A} (m : M A) : accounts true c a b m -> accounts false c a b m.
Proof.
  intros Hm w Hw Hc. specialize (Hm w Hw Hc).
  destruct (m w); [..|done]; destruct Hm as [es Hm]; exists es; by apply moves_weaken.
Qed.

Lemma accounts_refl st c {A} (m : M A) :
  (forall w, m w = Crash \/ (exists x, m w = Ok x w) \/ (exists e, m w = Exn e w)) -> accounts st c 0 0 m.
Proof.
  intros Hm w Hw Hc. destruct (Hm w) as [->|[[x ->]|[e ->]]]; [done|..]; exists []; by apply moves_refl.
Qed.

Lemma accounts_ret st c {A} (x : A) : accounts st c 0 0 (mret x).
Proof. apply accounts_refl. eauto. Qed.
Lemma accounts_throw st c {A} e : accounts st c 0 0 (throw e : M A).
Proof. apply accounts_refl. unfold throw. eauto. Qed.
Lemma accounts_crash st c a b {A} : accounts st c a b (crash : M A).
Proof. by intros w Hw. Qed.
Lemma accounts_gets st c {A} (f : WorkflowInstance -> A) : accounts st c 0 0 (gets f).
Proof. apply accounts_refl. unfold gets. eauto. Qed.
Lemma accounts_time st c : accounts st c 0 0 (get_time : M Z).
Proof. apply accounts_refl. unfold get_time. eauto. Qed.
Lemma accounts_fuel st c : accounts st c 0 0 (query_fuel : M nat).
Proof. apply accounts_refl. unfold query_fuel. eauto. Qed.

Lemma accounts_bind st c a b {A B} (m : M A) (k : A -> M B) :
  accounts st c 0 0 m -> (forall x, accounts st c a b (k x)) -> accounts st c a b (m ≫= k).
Proof.
  intros Hm Hk w Hw Hc. specialize (Hm w Hw Hc). unfold mbind, M_bind.
  destruct (m w) as [x w1|e w1|]; [|done|done]. destruct Hm as [es1 M1].
  specialize (Hk x w1 (moves_ok _ _ _ _ _ _ M1)). rewrite (mv_cancelling _ _ _ _ _ _ M1) in Hk.
  specialize (Hk Hc).
  destruct (k x w1) as [y w2|e w2|]; [..|done]; destruct Hk as [es2 M2];
    exists (es2 ++ es1); by apply (moves_trans _ _ _ 0 0 _ _ _ _ _ M1).
Qed.

Lemma accounts_cancelling st c a b {B} (k : bool -> M B) :
  accounts st c a b (k c) -> accounts st c a b (gets is_cancelling ≫= k).
Proof. intros Hk w Hw Hc. unfold mbind, M_bind, gets. rewrite Hc. by apply Hk. Qed.

Lemma accounts_try st c a b {A} (m : M A) h :
  accounts st c a b m -> (forall e, accounts st c a b (h e)) -> accounts st c a b (try_catch m h).
Proof.
  intros Hm Hh w Hw Hc. specialize (Hm w Hw Hc). unfold try_catch.
  destruct (m w) as [x w1|e w1|]; [done| |done]. destruct Hm as [es1 M1].
  specialize (Hh e w1 (moves_ok _ _ _ _ _ _ M1)). rewrite (mv_cancelling _ _ _ _ _ _ M1) in Hh.
  specialize (Hh Hc).
  destruct (h e w1) as [y w2|e' w2|]; [..|done]; destruct Hh as [es2 M2];
    exists (es2 ++ es1); by apply (moves_trans _ _ _ 0 0 _ _ _ _ _ M1).
Qed.

(** Changes of the instance that leave the counters alone. *)
Lemma accounts_modify st c f :
  (forall i, running_tasks (f i) = running_tasks i /\ retrying_tasks (f i) = retrying_tasks i /\
     is_cancelling (f i) = is_cancelling i /\ workflow_instance_id (f i) = workflow_instance_id i /\
     workflow_schedule_id (f i) = workflow_schedule_id i) ->
  accounts st c 0 0 (modify f).
Proof.
  intros Hf w Hw Hc. exists []. destruct (Hf (wi w)) as (H1 & H2 & H3 & H4 & H5).
  pose proof (moves_refl st w Hw) as []. split; simpl in *; auto; [congruence..|by split].
Qed.
Lemma accounts_dom st c f : accounts st c 0 0 (dom f).
Proof. by apply accounts_modify. Qed.
Lemma accounts_set_attr st c n x v : accounts st c 0 0 (set_attr n x v).
Proof. apply accounts_dom. Qed.
Lemma accounts_errors st c : accounts st c 0 0 inc_errors.
Proof. by apply accounts_modify. Qed.

(** Effects that are not calls with a task. *)
Lemma accounts_emit st c e :
  enqueued [e] = [] -> resumed [e] = [] -> inserted [e] = [] ->
  (spawned [e] = [] \/ c = false) -> accounts st c 0 0 (emit e).
Proof.
  assert (Hk : enqueued [e] = [] -> Forall known [e]) by (by destruct e; repeat constructor).
  intros H1 H2 H3 H4 w Hw Hc. exists [e]. pose proof (moves_refl st w Hw) as [].
  split; simpl in *; rewrite ?H1, ?H2, ?H3; auto.
  intros Hc'. destruct H4; [auto|congruence].
Qed.

Lemma accounts_db st c q : accounts st c 0 0 (db_query q).
Proof.
  intros w Hw Hc. unfold db_query. pose proof (moves_refl st w Hw) as [].
  destruct (db_results w) as [|[] r];
    [exists [Query q true]|exists [Query q true]|exists [Query q false]]; split; simpl in *; auto;
    by repeat constructor.
Qed.

Lemma accounts_connect st c : accounts st c 0 0 db_connect.
Proof.
  intros w Hw Hc. unfold db_connect. pose proof (moves_refl st w Hw) as [].
  destruct (db_results w) as [|[] r]; exists []; split; simpl in *; auto.
Qed.

(** A counter that follows the call it accounts for. *)
Lemma accounts_running st c e :
  len (enqueued [e]) + len (resumed [e]) = 1 -> inserted [e] = [] -> spawned [e] = [] ->
  (enqueued [e] = [] \/ c = false) -> (resumed [e] = [] \/ st = false \/ c = false) -> known e ->
  accounts st c 0 0 (_ ← emit e; inc_running).
Proof.
  intros H1 H2 H3 H4 H5 H6 w Hw Hc. exists [e]. pose proof (moves_refl st w Hw) as [].
  split; simpl in *; rewrite ?H2; auto.
  - f_equal. lia.
  - intros Hc'. destruct H4; [|congruence]. split; [done|]. split; [done|]. intros ->.
    destruct H5 as [?|[?|?]]; [done|congruence..].
Qed.

Lemma accounts_inserting st c t at_ :
  st = false \/ c = false -> accounts st c 0 0 (_ ← emit (InsertTask t at_); inc_retrying).
Proof.
  intros Hq w Hw Hc. exists [InsertTask t at_]. pose proof (moves_refl st w Hw) as [].
  split; simpl in *; auto.
  - f_equal. by rewrite Z.add_0_r.
  - intros Hc'. split; [done|]. split; [done|]. intros ->. destruct Hq; congruence.
  - by repeat constructor.
Qed.

(** The counters go down at the end of an operation. *)
Lemma accounts_dec_running st c : accounts st c (-1) 0 dec_running.
Proof.
  intros w Hw Hc. exists []. pose proof (moves_refl st w Hw) as [].
  split; simpl in *; auto. f_equal. unfold len. simpl. lia.
Qed.
Lemma accounts_dec_retrying st c : accounts st c 0 (-1) dec_retrying.
Proof.
  intros w Hw Hc. exists []. pose proof (moves_refl st w Hw) as [].
  split; simpl in *; auto. f_equal. unfold len. simpl. lia.
Qed.

(** * The operations account for what they do *)

#[local] Hint Resolve accounts_ret accounts_throw accounts_crash accounts_gets accounts_dom
  accounts_set_attr accounts_errors accounts_time accounts_fuel accounts_db accounts_connect : core.
#[local] Hint Extern 1 (accounts _ _ _ _ (emit _)) => apply accounts_emit; auto : core.
#[local] Hint Extern 1 (accounts _ _ _ _ (mbind _ (emit (EnqueueTask _ _)))) =>
  apply accounts_running; simpl; auto : core.
#[local] Hint Extern 1 (accounts _ _ _ _ (mbind _ (emit (ExecuteTask _ _ _)))) =>
  apply accounts_running; simpl; auto : core.
#[local] Hint Extern 1 (accounts _ _ _ _ (mbind _ (emit (InsertTask _ _)))) =>
  apply accounts_inserting; auto : core.

(** Follows a program to the operations that are known. *)
Ltac account :=
  try solve [auto];
  lazymatch goal with
  | |- accounts _ _ _ _ (mbind _ _) => apply accounts_bind; [account|intros; account]
  | |- accounts _ _ _ _ (try_catch _ _) => apply accounts_try; [account|intros; account]
  | |- accounts _ _ _ _ (match ?x with _ => _ end) => destruct x eqn:?; account
  | |- accounts _ _ _ _ (when ?b _) => unfold when; account
  | |- accounts _ _ _ _ (let '(_, _) := ?x in _) => destruct x; account
  | |- _ => idtac
  end.

Lemma accounts_nonnull st c {A} (o : option A) : accounts st c 0 0 (nonnull o).
Proof. destruct o; simpl; auto. Qed.
Lemma accounts_int st c z : accounts st c 0 0 (int z).
Proof. unfold int. account. Qed.
Lemma accounts_sprintf st c n s : accounts st c 0 0 (sprintf n s).
Proof. unfold sprintf. account. Qed.
Lemma accounts_node_value st c i : accounts st c 0 0 (node_value i).
Proof. destruct i; simpl; auto. Qed.
Lemma accounts_ask st c {A} (f : D -> A) : accounts st c 0 0 (ask f).
Proof. apply accounts_gets. Qed.
#[local] Hint Resolve accounts_nonnull accounts_int accounts_sprintf accounts_node_value accounts_ask : core.

Lemma accounts_parse_int st c s : accounts st c 0 0 (parse_int s).
Proof. unfold parse_int. auto. Qed.
Lemma accounts_dom_new st c f : accounts st c 0 0 (dom_new f).
Proof. unfold dom_new. account. Qed.
Lemma accounts_named st c n x : accounts st c 0 0 (get_named n x).
Proof. apply accounts_ask. Qed.
Lemma accounts_attr st c n x : accounts st c 0 0 (get_attr n x).
Proof. apply accounts_ask. Qed.
Lemma accounts_element st c : accounts st c 0 0 document_element.
Proof. unfold document_element. account. Qed.
Lemma accounts_try_eval st c e x : accounts st c 0 0 (try_eval e x).
Proof. apply accounts_ask. Qed.
#[local] Hint Resolve accounts_parse_int accounts_dom_new accounts_named accounts_attr accounts_element
  accounts_try_eval : core.

Lemma accounts_eval st c e x : accounts st c 0 0 (eval e x).
Proof. unfold eval. account. Qed.
#[local] Hint Resolve accounts_eval : core.
Lemma accounts_eval_integer st c e x : accounts st c 0 0 (eval_integer e x).
Proof. unfold eval_integer. account. Qed.
Lemma accounts_abort st c t why : accounts st c 0 0 (abort_task t why).
Proof. unfold abort_task. account. Qed.
Lemma accounts_datetime st c : accounts st c 0 0 (format_datetime format_time).
Proof. unfold format_datetime. account. Qed.
#[local] Hint Resolve accounts_eval_integer accounts_abort accounts_datetime : core.

Lemma accounts_enqueue_task st c t : accounts st c 0 0 (enqueue_task known_queue t).
Proof.
  unfold enqueue_task. apply accounts_cancelling. destruct c; account.
Qed.

Lemma accounts_schedule_update st c t s : accounts st c 0 0 (schedule_update t s).
Proof. unfold schedule_update. account. Qed.
#[local] Hint Resolve accounts_enqueue_task accounts_schedule_update : core.

Lemma accounts_retry_parameters st c t rs l : accounts st c 0 0 (retry_parameters t rs l).
Proof. unfold retry_parameters. account. Qed.
Lemma accounts_retval_matches st c t : accounts st c 0 0 (retval_matches t).
Proof. unfold retval_matches. account. Qed.
#[local] Hint Resolve accounts_retry_parameters accounts_retval_matches : core.

Lemma accounts_retry_task st c t :
  st = false \/ c = false -> accounts st c 0 0 (retry_task format_time t).
Proof.
  intros Hq. unfold retry_task, do_retry. account.
Qed.

Lemma accounts_replace_values st c ctx vs : accounts st c 0 0 (replace_values ctx vs).
Proof. induction vs; simpl; account. Qed.
Lemma accounts_insert_copies st c v vs : accounts st c 0 0 (insert_copies v vs).
Proof. induction vs; simpl; account. Qed.
#[local] Hint Resolve accounts_replace_values accounts_insert_copies : core.
Lemma accounts_replace_copies st c ctx vs : accounts st c 0 0 (replace_copies ctx vs).
Proof. induction vs; simpl; account. Qed.
#[local] Hint Resolve accounts_replace_copies : core.
Lemma accounts_replace_value st c t ctx : accounts st c 0 0 (replace_value t ctx).
Proof. unfold replace_value. account. Qed.
Lemma accounts_append_clone st c n : accounts st c 0 0 (append_clone n).
Proof. unfold append_clone. account. Qed.
Lemma accounts_remove_node st c n : accounts st c 0 0 (remove_node n).
Proof. unfold remove_node. account. Qed.
Lemma accounts_loop_nodes st c n x ctx : accounts st c 0 0 (loop_nodes n x ctx).
Proof. unfold loop_nodes, instance_error. account. Qed.
#[local] Hint Resolve accounts_replace_value accounts_append_clone accounts_remove_node
  accounts_loop_nodes : core.

Lemma accounts_for_each_match st c body i ms :
  (forall n, accounts st c 0 0 (body n)) -> accounts st c 0 0 (for_each_match body i ms).
Proof. intros Hb. revert i. induction ms; intros i; simpl; account. Qed.

Lemma accounts_run_tasks st c ctx i ts : accounts st c 0 0 (run_tasks known_queue ctx i ts).
Proof.
  revert i. induction ts; intros i; simpl; account.
  apply accounts_for_each_match. intros n. account.
Qed.
#[local] Hint Resolve accounts_run_tasks : core.

Lemma accounts_run st c job ctx : accounts st c 0 0 (run known_queue job ctx).
Proof. unfold run. account. Qed.
Lemma accounts_job_condition st c subjob job : accounts st c 0 0 (job_condition subjob job).
Proof. unfold job_condition, instance_error. account. Qed.
#[local] Hint Resolve accounts_run accounts_job_condition : core.

Lemma accounts_run_subjob st c job i subjob : accounts st c 0 0 (run_subjob known_queue job i subjob).
Proof.
  unfold run_subjob. account. apply accounts_for_each_match. intros n. account.
Qed.
#[local] Hint Resolve accounts_run_subjob : core.

Lemma accounts_run_each_subjob st c job i subjobs :
  accounts st c 0 0 (run_each_subjob known_queue job i subjobs).
Proof. revert i. induction subjobs; intros i; simpl; account. Qed.
#[local] Hint Resolve accounts_run_each_subjob : core.

Lemma accounts_run_subjobs st c job : accounts st c 0 0 (run_subjobs known_queue job).
Proof. unfold run_subjobs. account. Qed.
#[local] Hint Resolve accounts_run_subjobs : core.

(** * Savepoints and the end of the workflow *)

Lemma accounts_savepoint_loop st c fuel q n : accounts st c 0 0 (savepoint_loop fuel q n).
Proof.
  revert n. induction fuel as [|fuel IH]; intros n; cbn [savepoint_loop]; unfold savepoint_again; account.
Qed.
#[local] Hint Resolve accounts_savepoint_loop : core.

Lemma accounts_record_savepoint st c force : accounts st c 0 0 (record_savepoint format_time force).
Proof. unfold record_savepoint, write_savepoint, savepoint_query. account. Qed.
Lemma accounts_kill_each st c pid ts : accounts st c 0 0 (kill_each pid ts).
Proof. induction ts as [|[] ts IH]; cbn [kill_each node_value]; account. Qed.
#[local] Hint Resolve accounts_kill_each : core.
Lemma accounts_KillTask st c pid : accounts st c 0 0 (KillTask pid).
Proof. unfold KillTask. account. Qed.
Lemma accounts_workflow_ended st c : accounts st c 0 0 workflow_ended.
Proof. unfold workflow_ended. account. Qed.
#[local] Hint Resolve accounts_record_savepoint accounts_workflow_ended : core.

(** The programs that leave the counters as they are. *)
Definition keeps {A} (m : M A) : Prop :=
  forall w, match m w with
    | Ok _ w' | Exn _ w' =>
        running_tasks (wi w') = running_tasks (wi w) /\
        retrying_tasks (wi w') = retrying_tasks (wi w)
    | Crash => True
    end.

Lemma keeps_bind {A B} (m : M A) (k : A -> M B) : keeps m -> (forall x, keeps (k x)) -> keeps (m ≫= k).
Proof.
  intros Hm Hk w. specialize (Hm w). unfold mbind, M_bind. destruct (m w) as [x w1|e w1|]; [|done|done].
  specialize (Hk x w1). destruct (k x w1); intuition congruence.
Qed.
Lemma keeps_try {A} (m : M A) h : keeps m -> (forall x, keeps (h x)) -> keeps (try_catch m h).
Proof.
  intros Hm Hh w. specialize (Hm w). unfold try_catch. destruct (m w) as [x w1|e w1|]; [done| |done].
  specialize (Hh e w1). destruct (h e w1); intuition congruence.
Qed.

Lemma keeps_ret {A} (x : A) : keeps (mret x).
Proof. by intros w. Qed.
Lemma keeps_crash {A} : keeps (crash : M A).
Proof. by intros w. Qed.
Lemma keeps_gets {A} (f : WorkflowInstance -> A) : keeps (gets f).
Proof. by intros w. Qed.
Lemma keeps_dom f : keeps (dom f).
Proof. by intros w. Qed.
Lemma keeps_emit e : keeps (emit e).
Proof. by intros w. Qed.
Lemma keeps_nonnull {A} (o : option A) : keeps (nonnull o).
Proof. by destruct o; intros w. Qed.
Lemma keeps_db q : keeps (db_query q).
Proof. intros w. unfold db_query. by destruct (db_results w) as [|[] ?]. Qed.
Lemma keeps_time : keeps (get_time : M Z).
Proof. by intros w. Qed.
Lemma keeps_fuel : keeps (query_fuel : M nat).
Proof. by intros w. Qed.
#[local] Hint Resolve keeps_ret keeps_crash keeps_gets keeps_dom keeps_emit keeps_nonnull keeps_db
  keeps_time keeps_fuel : core.

Ltac keep :=
  try solve [auto];
  lazymatch goal with
  | |- keeps (mbind _ _) => apply keeps_bind; [keep|intros; keep]
  | |- keeps (try_catch _ _) => apply keeps_try; [keep|intros; keep]
  | |- keeps (match ?x with _ => _ end) => destruct x; keep
  | |- keeps (when ?b _) => unfold when; keep
  | |- _ => idtac
  end.

Lemma keeps_savepoint_loop fuel q n : keeps (savepoint_loop fuel q n).
Proof.
  revert n. induction fuel as [|fuel IH]; intros n; cbn [savepoint_loop]; unfold savepoint_again; keep.
Qed.
#[local] Hint Resolve keeps_savepoint_loop : core.

Lemma keeps_record_savepoint force : keeps (record_savepoint format_time force).
Proof.
  unfold record_savepoint, write_savepoint, savepoint_query, document_element, format_datetime,
    get_attr, set_attr, get_named, ask. keep.
Qed.

Lemma keeps_kill_each pid ts : keeps (kill_each pid ts).
Proof. induction ts as [|[] ts IH]; cbn [kill_each node_value]; keep. Qed.
#[local] Hint Resolve keeps_kill_each : core.
Lemma keeps_KillTask pid : keeps (KillTask pid).
Proof. unfold KillTask, eval, try_eval, document_element, ask. keep. Qed.

(** What the instance reports: no task is running, queued or waiting. *)
Definition ended w : bool := (running_tasks (wi w) =? 0) && (retrying_tasks (wi w) =? 0).

Lemma workflow_ended_spec w b w' : workflow_ended w = Ok b w' -> b = ended w'.
Proof.
  unfold workflow_ended, ended. unfold mbind at 1, M_bind at 1, gets at 1.
  unfold mbind at 1, M_bind at 1, gets at 1.
  destruct (running_tasks (wi w) =? 0) eqn:E1, (retrying_tasks (wi w) =? 0) eqn:E2; simpl;
    try (intros [= <- <-]; by rewrite ?E1, ?E2).
  match goal with |- ?m w = _ -> _ => assert (K : keeps m /\ forall w b w', m w = Ok b w' -> b = true) end.
  { split; [unfold document_element, set_attr, ask; keep|]. clear w w' b E1 E2. intros w b w'.
    intros (root & w1 & _ & Hr)%bind_Ok. apply bind_Ok in Hr as (? & w2 & _ & Hr).
    apply bind_Ok in Hr as (? & w3 & _ & Hr). apply bind_Ok in Hr as (? & w4 & _ & Hr).
    by injection Hr. }
  destruct K as [K1 K2]. intros Hr. pose proof (K1 w) as K. rewrite Hr in K.
  rewrite (K2 _ _ _ Hr). destruct K as [-> ->]. by rewrite E1, E2.
Qed.

Lemma finish_spec w b w' :
  (t ← workflow_ended; _ ← record_savepoint format_time false; mret t) w = Ok b w' -> b = ended w'.
Proof.
  unfold mbind, M_bind. destruct (workflow_ended w) as [t w1|e w1|] eqn:E; [|done|done].
  pose proof (keeps_record_savepoint false w1) as K.
  destruct (record_savepoint format_time false w1) as [u w2|e w2|] eqn:E2; [|done|done].
  unfold mret, M_ret. intros [= <- <-]. rewrite (workflow_ended_spec _ _ _ E). unfold ended. by destruct K as [-> ->].
Qed.

(** * The public operations *)

(** What a program does when it returns. *)
Definition accounts_ok (strict c : bool) (a b : Z) {A} (m : M A) : Prop :=
  forall w x w', counters_ok w -> is_cancelling (wi w) = c -> m w = Ok x w' ->
    exists es, moves strict es a b w w'.

Lemma accounts_ok_of st c a b {A} (m : M A) : accounts st c a b m -> accounts_ok st c a b m.
Proof. intros Hm w x w' Hw Hc E. specialize (Hm w Hw Hc). by rewrite E in Hm. Qed.

Lemma accounts_ok_bind st c a1 b1 a2 b2 {A B} (m : M A) (k : A -> M B) :
  accounts_ok st c a1 b1 m -> (forall x, accounts_ok st c a2 b2 (k x)) ->
  accounts_ok st c (a1 + a2) (b1 + b2) (m ≫= k).
Proof.
  intros Hm Hk w x w' Hw Hc (y & w1 & E1 & E2)%bind_Ok.
  destruct (Hm _ _ _ Hw Hc E1) as [es1 M1].
  destruct (Hk y w1 x w' (moves_ok _ _ _ _ _ _ M1)) as [es2 M2];
    [by rewrite (mv_cancelling _ _ _ _ _ _ M1)|done|].
  exists (es2 ++ es1). by eapply moves_trans.
Qed.

Lemma accounts_ok_then st c a b {A B} (m : M A) (k : A -> M B) :
  accounts_ok st c 0 0 m -> (forall x, accounts_ok st c a b (k x)) -> accounts_ok st c a b (m ≫= k).
Proof. intros Hm Hk. by apply (accounts_ok_bind st c 0 0 a b). Qed.

Lemma accounts_ok_last st c a b {A B} (m : M A) (k : A -> M B) :
  accounts_ok st c a b m -> (forall x, accounts_ok st c 0 0 (k x)) -> accounts_ok st c a b (m ≫= k).
Proof.
  intros Hm Hk. rewrite <- (Z.add_0_r a), <- (Z.add_0_r b). by apply accounts_ok_bind.
Qed.

Lemma accounts_store_output st c t o out : accounts st c 0 0 (store_output GetTask t o out).
Proof. unfold store_output. account. Qed.
Lemma accounts_fail_task c t o out : accounts true c 0 0 (fail_task format_time t o out).
Proof.
  unfold fail_task. do 4 (apply accounts_bind; [auto|intros]).
  apply accounts_cancelling. destruct c; [auto|]. by apply accounts_retry_task; right.
Qed.
Lemma accounts_continue_job st c t : accounts st c 0 0 (continue_job known_queue t).
Proof. unfold continue_job. account. Qed.
#[local] Hint Resolve accounts_store_output accounts_fail_task accounts_continue_job : core.

Lemma accounts_finish st c :
  accounts st c 0 0 (b ← workflow_ended; _ ← record_savepoint format_time false; mret b).
Proof. account. Qed.
#[local] Hint Resolve accounts_finish : core.

(** An operation that ends with the report on the workflow. *)
Lemma report_spec {A} (m : M A) w b w' :
  (_ ← m; b ← workflow_ended; _ ← record_savepoint format_time false; mret b) w = Ok b w' ->
  b = ended w'.
Proof. intros (x & w1 & _ & E)%bind_Ok. by apply finish_spec in E. Qed.

Lemma accounts_TaskStop c t retval output :
  accounts_ok true c (-1) 0 (TaskStop known_queue GetTask format_time t retval output).
Proof.
  unfold TaskStop. repeat (apply accounts_ok_then; [apply accounts_ok_of; solve [account]|intros]).
  apply accounts_ok_last; [|intros; apply accounts_ok_of; account].
  apply accounts_ok_of, accounts_dec_running.
Qed.

Lemma accounts_TaskRestart c t :
  accounts_ok true c 0 (-1) (TaskRestart known_queue format_time t).
Proof.
  unfold TaskRestart. apply accounts_ok_then; [apply accounts_ok_of; auto|intros].
  apply accounts_ok_last; [|intros; apply accounts_ok_of; account].
  apply accounts_ok_of, accounts_dec_retrying.
Qed.

Lemma accounts_Start c : accounts true c 0 0 (Start known_queue format_time).
Proof. unfold Start. account. Qed.

Lemma accounts_resume_task c t : accounts false c 0 0 (resume_task known_queue format_time t).
Proof. unfold resume_task. account. by apply accounts_retry_task; left. Qed.
#[local] Hint Resolve accounts_resume_task : core.
Lemma accounts_resume_tasks c ts : accounts false c 0 0 (resume_tasks known_queue format_time ts).
Proof. induction ts; simpl; account. Qed.
#[local] Hint Resolve accounts_resume_tasks : core.
Lemma accounts_Resume c : accounts false c 0 0 (Resume known_queue format_time).
Proof. unfold Resume. account. Qed.

Lemma accounts_drop_task st c t why : accounts_ok st c (-1) 0 (drop_task t why).
Proof.
  unfold drop_task. do 2 (apply accounts_ok_then; [apply accounts_ok_of; solve [account]|intros]).
  apply accounts_ok_of, accounts_dec_running.
Qed.

Lemma accounts_get_config st c e : accounts st c 0 0 (get_config configuration e).
Proof. unfold get_config. account. Qed.
#[local] Hint Resolve accounts_get_config : core.
Lemma accounts_ssh_env st c t env : accounts st c 0 0 (ssh_env engine_env configuration t env).
Proof. unfold ssh_env. account. Qed.
#[local] Hint Resolve accounts_ssh_env : core.
Lemma accounts_child st c t tid ps i :
  accounts st c 0 0 (child engine_env configuration t tid ps i).
Proof. unfold child. account. Qed.
Lemma accounts_mark_executing st c t tid pid : accounts st c 0 0 (mark_executing format_time t tid pid).
Proof. unfold mark_executing. account. Qed.
Lemma accounts_read_parameters st c ps : accounts st c 0 0 (read_parameters ps).
Proof. induction ps; simpl; account. Qed.
Lemma accounts_read_stdin st c t : accounts st c 0 0 (read_stdin t).
Proof. unfold read_stdin. account. Qed.
#[local] Hint Resolve accounts_child accounts_mark_executing accounts_read_parameters accounts_read_stdin : core.

(** A task that is given up: the operation returns [p] and the report. *)
Lemma drop_task_spec c t why (p : Z) w r w' :
  counters_ok w -> is_cancelling (wi w) = c ->
  (_ ← drop_task t why; b ← finish_operation format_time; mret (p, b)) w = Ok r w' ->
  r = (p, ended w') /\ exists es, moves true es (-1) 0 w w'.
Proof.
  intros Hw Hc E. split.
  - apply bind_Ok in E as (u & w1 & _ & E). apply bind_Ok in E as (b & w2 & E & E2).
    apply finish_spec in E as ->. by injection E2 as <- <-.
  - eapply (accounts_ok_last true c (-1) 0 _ _); [apply accounts_drop_task| |exact Hw|exact Hc|exact E].
    intros. apply accounts_ok_of. unfold finish_operation. account.
Qed.

Lemma TaskExecute_spec t tid fork w p b w' :
  counters_ok w -> fork <> 0 ->
  TaskExecute GetTask format_time engine_env configuration t tid fork w = Ok (p, b) w' ->
  b = ended w' /\ (p = fork \/ p = -1) /\ (is_cancelling (wi w) = true -> p = -1) /\
  exists es, moves true es (if p >? 0 then 0 else -1) 0 w w'.
Proof.
  intros Hw Hf E. unfold TaskExecute in E. apply bind_Ok in E as (c & w0 & [= <- <-] & E).
  destruct (is_cancelling (wi w)) eqn:Hc.
  { apply (drop_task_spec true) in E as [[= -> ->] Hm]; auto. }
  apply bind_Ok in E as (name & w1 & [= <- <-] & E).
  destruct (GetTask _) as [task|].
  2:{ apply (drop_task_spec false) in E as [[= -> ->] Hm]; auto. }
  revert E. match goal with |- ?m w = _ -> _ => assert (Ha :
    forall r w', m w = Ok r w' -> r = (fork, ended w') /\
      exists es, moves true es (if fork >? 0 then 0 else -1) 0 w w') end.
  { clear p b w'. intros r w' E. split.
    - do 6 apply bind_Ok in E as (? & ? & _ & E). apply bind_Ok in E as (? & ? & _ & E).
      apply bind_Ok in E as (b & w2 & E & E2). apply finish_spec in E as ->. by injection E2 as <- <-.
    - revert E. generalize w' r. intros w2 r2. apply (accounts_ok_then true false); [|intros|done|done].
      1:{ apply accounts_ok_of. account. }
      do 5 (apply accounts_ok_then; [apply accounts_ok_of; solve [account]|intros]).
      apply accounts_ok_last; [|intros; apply accounts_ok_of; unfold finish_operation; solve [account]].
      destruct (Z.ltb_spec fork 0).
      + assert (fork >? 0 = false) as -> by lia. apply accounts_drop_task.
      + assert (fork >? 0 = true) as -> by lia. apply accounts_ok_of. auto. }
  intros E. apply Ha in E as [[= -> ->] Hm]. split; [done|]. split; [by left|]. by split.
Qed.

(** * The instance in the program

    The tasks of an instance that others hold: the queue pool ([queued]), the
    process manager ([executing]), the retrier ([retrying]).  [over] is the
    last report: the caller deletes the instance when it is true. *)

Record sys : Type := mkSys {
  state : world (D := D);
  queued : list node_ref;
  executing : list node_ref;
  retrying : list node_ref;
  over : bool;
}.

(** What the calls of the instance add to the tasks that others hold. *)
Definition give (es : list effect) (w : world (D := D)) (q x r : list node_ref) (b : bool) : sys :=
  mkSys w (q ++ enqueued es) (x ++ resumed es) (r ++ inserted es) b.

Definition fits (s : sys) : Prop :=
  len (queued s) + len (executing s) < 2 ^ 32 /\ len (retrying s) < 2 ^ 32.

(** The forker executes a queued task ([fork] is what the system call gives),
    the gatherer reports the end of an executing task, the retrier restarts a
    task. *)
Inductive work : sys -> sys -> Prop :=
  | work_execute s q1 t q2 tid fork p b w es :
      queued s = q1 ++ t :: q2 -> fork <> 0 ->
      TaskExecute GetTask format_time engine_env configuration t tid fork (state s) = Ok (p, b) w ->
      effects w = es ++ effects (state s) ->
      fits (give es w (q1 ++ q2) (if p >? 0 then t :: executing s else executing s) (retrying s) b) ->
      work s (give es w (q1 ++ q2) (if p >? 0 then t :: executing s else executing s) (retrying s) b)
  | work_stop s x1 t x2 retval output b w es :
      executing s = x1 ++ t :: x2 ->
      TaskStop known_queue GetTask format_time t retval output (state s) = Ok b w ->
      effects w = es ++ effects (state s) ->
      fits (give es w (queued s) (x1 ++ x2) (retrying s) b) ->
      work s (give es w (queued s) (x1 ++ x2) (retrying s) b)
  | work_restart s r1 t r2 b w es :
      retrying s = r1 ++ t :: r2 ->
      TaskRestart known_queue format_time t (state s) = Ok b w ->
      effects w = es ++ effects (state s) ->
      fits (give es w (queued s) (executing s) (r1 ++ r2) b) ->
      work s (give es w (queued s) (executing s) (r1 ++ r2) b).

(** A cancellation, a savepoint or a signal to a task that a client or the main
    program asks for, and changes outside of the instance. *)
Inductive step : sys -> sys -> Prop :=
  | step_work s s' : work s s' -> step s s'
  | step_cancel s w : Cancel (state s) = Ok tt w ->
      step s (mkSys w (queued s) (executing s) (retrying s) (over s))
  | step_savepoint s w : RecordSavepoint format_time (state s) = Ok tt w ->
      step s (mkSys w (queued s) (executing s) (retrying s) (over s))
  | step_kill s pid b w : KillTask pid (state s) = Ok b w ->
      step s (mkSys w (queued s) (executing s) (retrying s) (over s))
  | step_environment s db t :
      step s (mkSys (mkWorld (wi (state s)) (effects (state s)) db t)
                (queued s) (executing s) (retrying s) (over s)).

(** A new instance, or one read from a savepoint, is started. *)
Inductive begins : sys -> Prop :=
  | begins_start w b w' es :
      running_tasks (wi w) = 0 -> retrying_tasks (wi w) = 0 ->
      Start known_queue format_time w = Ok b w' -> effects w' = es ++ effects w ->
      fits (give es w' [] [] [] b) -> begins (give es w' [] [] [] b)
  | begins_resume w b w' es :
      running_tasks (wi w) = 0 -> retrying_tasks (wi w) = 0 ->
      Resume known_queue format_time w = Ok b w' -> effects w' = es ++ effects w ->
      fits (give es w' [] [] [] b) -> begins (give es w' [] [] [] b).

(** * The invariant *)

Record inv (s : sys) : Prop := {
  inv_fits : fits s;
  inv_running : running_tasks (wi (state s)) = len (queued s) + len (executing s);
  inv_retrying : retrying_tasks (wi (state s)) = len (retrying s);
  inv_over : over s = ended (state s);
}.

Lemma inv_counters s : inv s -> counters_ok (state s).
Proof.
  intros [[] ? ? _]. unfold len in *. split; lia.
Qed.

Lemma len_remove {A} (l1 l2 : list A) x : len (l1 ++ x :: l2) = len (l1 ++ l2) + 1.
Proof. rewrite !len_app. unfold len. simpl. lia. Qed.

Lemma len_nonneg {A} (l : list A) : 0 <= len l.
Proof. unfold len. lia. Qed.

(** The effects of an operation are those between its two states. *)
Lemma moves_effects st es es' a b w w' :
  moves st es a b w w' -> effects w' = es' ++ effects w -> es' = es.
Proof. intros [E _ _ _ _ _ _] E'. rewrite E in E'. by apply app_inv_tail in E'. Qed.

(** An operation that takes [n1] tasks from those that run and [n2] from those
    that wait keeps the invariant. *)
Lemma inv_give st es a b s w q x r :
  inv s -> moves st es a b (state s) w ->
  len q + len x = len (queued s) + len (executing s) + a -> len r = len (retrying s) + b ->
  fits (give es w q x r (ended w)) -> inv (give es w q x r (ended w)).
Proof.
  intros [Hf Hr Ht Ho] [_ Mr Mt _ _ _ _] Hq Hx [F1 F2]. unfold give, fits in *. simpl in *.
  repeat rewrite len_app in F1. repeat rewrite len_app in F2. pose proof (len_nonneg q). pose proof (len_nonneg x). pose proof (len_nonneg r).
  pose proof (len_nonneg (enqueued es)). pose proof (len_nonneg (resumed es)).
  pose proof (len_nonneg (inserted es)).
  split; simpl; auto.
  - unfold fits. simpl. rewrite !len_app. lia.
  - rewrite Mr, Hr, u32_small, !len_app; lia.
  - rewrite Mt, Ht, u32_small, !len_app; lia.
Qed.

Lemma Start_over w b w' : Start known_queue format_time w = Ok b w' -> b = ended w'.
Proof. unfold Start. intros E. do 8 apply bind_Ok in E as (? & ? & _ & E). by apply finish_spec in E. Qed.

Lemma Resume_over w b w' : Resume known_queue format_time w = Ok b w' -> b = ended w'.
Proof. unfold Resume. intros E. do 4 apply bind_Ok in E as (? & ? & _ & E). by apply finish_spec in E. Qed.

Lemma begins_inv s : begins s -> inv s.
Proof.
  assert (Hgive : forall (m : M bool) w b w' es, running_tasks (wi w) = 0 -> retrying_tasks (wi w) = 0 ->
    accounts_ok false (is_cancelling (wi w)) 0 0 m -> m w = Ok b w' -> b = ended w' -> effects w' = es ++ effects w ->
    fits (give es w' [] [] [] b) -> inv (give es w' [] [] [] b)).
  { intros m w b w' es Hr Ht Hm E -> He Hf.
    destruct (Hm w (ended w') w') as [es' Hmv]; [split; lia|done|done|].
    rewrite (moves_effects _ _ _ _ _ _ _ Hmv He) in *.
    apply (inv_give false es' 0 0 (mkSys w [] [] [] (ended w)) w' [] [] []); auto.
    split; simpl; auto. unfold fits. simpl. unfold len. simpl. lia. }
  intros [w b w' es Hr Ht E He Hf|w b w' es Hr Ht E He Hf].
  - apply (Hgive (Start known_queue format_time) w); auto.
    + apply accounts_ok_of, accounts_weaken, accounts_Start.
    + by apply Start_over in E.
  - apply (Hgive (Resume known_queue format_time) w); auto.
    + apply accounts_ok_of, accounts_Resume.
    + by apply Resume_over in E.
Qed.

Lemma TaskStop_over t retval output w b w' :
  TaskStop known_queue GetTask format_time t retval output w = Ok b w' -> b = ended w'.
Proof.
  unfold TaskStop. intros E. do 12 apply bind_Ok in E as (? & ? & _ & E). by apply finish_spec in E.
Qed.

Lemma TaskRestart_over t w b w' :
  TaskRestart known_queue format_time t w = Ok b w' -> b = ended w'.
Proof.
  unfold TaskRestart. intros E. do 2 apply bind_Ok in E as (? & ? & _ & E). by apply finish_spec in E.
Qed.

Lemma work_inv s s' : inv s -> work s s' -> inv s'.
Proof.
  intros Hi Hw. pose proof (inv_counters s Hi) as Hc.
  destruct Hw as [s q1 t q2 tid fork p b w es Hq Hf E He Hfit|s x1 t x2 retval output b w es Hx E He Hfit
                 |s r1 t r2 b w es Hr E He Hfit].
  - apply TaskExecute_spec in E as (-> & _ & _ & es' & Hm); [|done|done].
    rewrite (moves_effects _ _ _ _ _ _ _ Hm He) in *.
    eapply inv_give; [done|exact Hm| | |done].
    + rewrite Hq, len_remove. destruct (p >? 0); unfold len; simpl; lia.
    + lia.
  - pose proof (TaskStop_over _ _ _ _ _ _ E) as ->.
    destruct (accounts_TaskStop _ _ _ _ _ _ _ Hc eq_refl E) as [es' Hm].
    rewrite (moves_effects _ _ _ _ _ _ _ Hm He) in *.
    eapply inv_give; [done|exact Hm| | |done]; [rewrite Hx, len_remove|]; lia.
  - pose proof (TaskRestart_over _ _ _ _ E) as ->.
    destruct (accounts_TaskRestart _ _ _ _ _ Hc eq_refl E) as [es' Hm].
    rewrite (moves_effects _ _ _ _ _ _ _ Hm He) in *.
    eapply inv_give; [done|exact Hm| | |done]; [|rewrite Hr, len_remove]; lia.
Qed.

Lemma inv_keeps s w :
  inv s -> running_tasks (wi w) = running_tasks (wi (state s)) /\ retrying_tasks (wi w) = retrying_tasks (wi (state s)) ->
  inv (mkSys w (queued s) (executing s) (retrying s) (over s)).
Proof.
  intros [F R T O] [E1 E2]. unfold ended in O. split; cbn; try congruence; [exact F|]. unfold ended. by rewrite E1, E2.
Qed.

Lemma workflow_step_inv s s' : inv s -> step s s' -> inv s'.
Proof.
  intros Hi Hs. destruct Hs as [s s' Hw|s w E|s w E|s pid b w E|s db t].
  - by eapply work_inv.
  - unfold Cancel, modify in E. injection E as <-. destruct Hi as [F R T O].
    split; [exact F|exact R|exact T|exact O].
  - pose proof (keeps_record_savepoint true (state s)) as K. unfold RecordSavepoint in E. rewrite E in K. by apply inv_keeps.
  - pose proof (keeps_KillTask pid (state s)) as K. rewrite E in K. by apply inv_keeps.
  - destruct Hi as [F R T O]. split; [exact F|exact R|exact T|exact O].
Qed.

Lemma workflow_inv s s' : begins s -> rtc step s s' -> inv s'.
Proof.
  intros Hb Hr. apply begins_inv in Hb. induction Hr; eauto using workflow_step_inv.
Qed.

Lemma ended_iff s :
  inv s -> ended (state s) = true <-> queued s = [] /\ executing s = [] /\ retrying s = [].
Proof.
  intros [_ Hr Ht _]. unfold ended. rewrite Hr, Ht, andb_true_iff, !Z.eqb_eq. unfold len.
  split.
  - intros [H1 H2]. destruct (queued s), (executing s), (retrying s); simpl in *; done || lia.
  - by intros (-> & -> & ->).
Qed.

(** In every state a workflow instance reaches from Start or Resume,
    through any order of executions, ends and restarts of its tasks and of
    cancellations, running_tasks is the number of its tasks that the queue
    pool and the process manager hold, retrying_tasks the number that the
    retrier holds, and the last operation reported the end of the workflow
    exactly when nobody holds a task of it. *)
Theorem workflow_accounting s0 s :
  begins s0 -> rtc step s0 s ->
  running_tasks (wi (state s)) = len (queued s) + len (executing s) /\
  retrying_tasks (wi (state s)) = len (retrying s) /\
  (over s = true <-> queued s = [] /\ executing s = [] /\ retrying s = []).
Proof.
  intros Hb Hr. pose proof (workflow_inv _ _ Hb Hr) as Hi.
  split; [apply Hi|]. split; [apply Hi|]. rewrite (inv_over _ Hi). by apply ended_iff.
Qed.

(** Once an operation has reported the end of the workflow, after which
    the caller deletes the instance, no task of it can be executed, stopped
    or restarted: the freed instance is not called through a task. *)
Theorem workflow_over_is_final s0 s s' :
  begins s0 -> rtc step s0 s -> over s = true -> ~ work s s'.
Proof.
  intros Hb Hr Ho Hw. pose proof (workflow_inv _ _ Hb Hr) as Hi.
  rewrite (inv_over _ Hi) in Ho. apply (ended_iff _ Hi) in Ho as (Hq & Hx & Ht).
  destruct Hw as [s q1 t q2 ? ? ? ? ? ? E|s x1 t x2 ? ? ? ? ? E|s r1 t r2 ? ? ? E].
  - rewrite E in Hq. by destruct q1.
  - rewrite E in Hx. by destruct x1.
  - rewrite E in Ht. by destruct r1.
Qed.

(** * Cancellation *)

Definition outstanding (s : sys) : Z := len (queued s) + len (executing s) + len (retrying s).

Lemma give_quiet es a b s w q x r o :
  moves true es a b (state s) w -> is_cancelling (wi (state s)) = true ->
  outstanding (give es w q x r o) = len q + len x + len r /\ spawned es = [] /\
  is_cancelling (wi w) = true.
Proof.
  intros [_ _ _ Hc Hq _ _] H1. destruct (Hq H1) as (E1 & E2 & E3). destruct (E3 eq_refl) as [E4 E5].
  unfold outstanding, give. simpl. rewrite E1, E4, E5, !app_nil_r. by rewrite Hc.
Qed.

Lemma cancelled_work s s' :
  inv s -> is_cancelling (wi (state s)) = true -> work s s' ->
  outstanding s' = outstanding s - 1 /\ is_cancelling (wi (state s')) = true /\
  exists es, effects (state s') = es ++ effects (state s) /\ spawned es = [].
Proof.
  intros Hi Hcc Hw. pose proof (inv_counters s Hi) as Hc.
  destruct Hw as [s q1 t q2 tid fork p b w es Hq Hf E He Hfit|s x1 t x2 retval output b w es Hx E He Hfit
                 |s r1 t r2 b w es Hr E He Hfit].
  - apply TaskExecute_spec in E as (-> & _ & Hp & es' & Hm); [|done|done].
    rewrite (Hp Hcc) in *. change (-1 >? 0) with false in *. cbv iota in *.
    rewrite (moves_effects _ _ _ _ _ _ _ Hm He) in *.
    destruct (give_quiet _ _ _ s w (q1 ++ q2) (executing s) (retrying s) (ended w) Hm Hcc) as (-> & Hs & Hk).
    split; [|split; [done|exists es'; split; [apply Hm|done]]]. unfold outstanding. rewrite Hq, len_remove. lia.
  - destruct (accounts_TaskStop _ _ _ _ _ _ _ Hc eq_refl E) as [es' Hm].
    rewrite (moves_effects _ _ _ _ _ _ _ Hm He) in *.
    destruct (give_quiet _ _ _ s w (queued s) (x1 ++ x2) (retrying s) b Hm Hcc) as (-> & Hs & Hk).
    split; [|split; [done|exists es'; split; [apply Hm|done]]]. unfold outstanding. rewrite Hx, len_remove. lia.
  - destruct (accounts_TaskRestart _ _ _ _ _ Hc eq_refl E) as [es' Hm].
    rewrite (moves_effects _ _ _ _ _ _ _ Hm He) in *.
    destruct (give_quiet _ _ _ s w (queued s) (executing s) (r1 ++ r2) b Hm Hcc) as (-> & Hs & Hk).
    split; [|split; [done|exists es'; split; [apply Hm|done]]]. unfold outstanding. rewrite Hr, len_remove. lia.
Qed.

(** C14: After Cancel each execution, end or restart of a task removes one
    task for good: no process is started any more, and the end of the
    workflow is reported after exactly as many operations as there were
    tasks outstanding. *)
Theorem cancelled_workflow_drains s0 s n s' :
  begins s0 -> rtc step s0 s -> is_cancelling (wi (state s)) = true -> nsteps work n s s' ->
  outstanding s' = outstanding s - Z.of_nat n /\
  (exists es, effects (state s') = es ++ effects (state s) /\ spawned es = []) /\
  (over s' = true <-> outstanding s' = 0).
Proof.
  intros Hb Hr Hc Hn. pose proof (workflow_inv _ _ Hb Hr) as Hi.
  assert (Hx : inv s' /\ outstanding s' = outstanding s - Z.of_nat n /\
    exists es, effects (state s') = es ++ effects (state s) /\ spawned es = []).
  { clear s0 Hb Hr. induction Hn as [s|n s s1 s2 Hw Hn IH].
    - split; [done|]. split; [lia|]. by exists [].
    - destruct (cancelled_work _ _ Hi Hc Hw) as (E & Hc1 & es1 & He1 & Hs1).
      destruct (IH Hc1 (work_inv _ _ Hi Hw)) as (Hi2 & E2 & es2 & He2 & Hs2).
      split; [done|]. split; [lia|]. exists (es2 ++ es1).
      rewrite He2, He1, spawned_app, Hs1, Hs2. by rewrite app_assoc. }
  destruct Hx as (Hi' & E & Hes). split; [done|]. split; [done|].
  rewrite (inv_over _ Hi'), (ended_iff _ Hi'). unfold outstanding, len.
  split; [by intros (-> & -> & ->)|]. intros H0.
  destruct (queued s'), (executing s'), (retrying s'); simpl in *; done || lia.
Qed.

(** * Running the system *)

Inductive action : Type :=
  | Execute (t : node_ref) (tid fork : Z)
  | Stop (t : node_ref) (retval : Z) (output : string)
  | Restart (t : node_ref)
  | CancelIt.

Fixpoint remove_first (t : node_ref) (l : list node_ref) : option (list node_ref * list node_ref) :=
  match l with
  | [] => None
  | x :: l =>
      if bool_decide (x = t) then Some ([], l)
      else '(a, b) ← remove_first t l; Some (x :: a, b)
  end.

Definition new_effects (w w' : world (D := D)) : list effect :=
  take (List.length (effects w') - List.length (effects w)) (effects w').

Definition check_sys (s : sys) : option sys :=
  if (len (queued s) + len (executing s) <? 2 ^ 32) && (len (retrying s) <? 2 ^ 32)
  then Some s else None.

Definition act (a : action) (s : sys) : option sys :=
  match a with
  | Execute t tid fork =>
      '(q1, q2) ← remove_first t (queued s);
      if fork =? 0 then None else
      match TaskExecute GetTask format_time engine_env configuration t tid fork (state s) with
      | Ok (p, b) w =>
          check_sys (give (new_effects (state s) w) w (q1 ++ q2)
            (if p >? 0 then t :: executing s else executing s) (retrying s) b)
      | _ => None
      end
  | Stop t retval output =>
      '(x1, x2) ← remove_first t (executing s);
      match TaskStop known_queue GetTask format_time t retval output (state s) with
      | Ok b w => check_sys (give (new_effects (state s) w) w (queued s) (x1 ++ x2) (retrying s) b)
      | _ => None
      end
  | Restart t =>
      '(r1, r2) ← remove_first t (retrying s);
      match TaskRestart known_queue format_time t (state s) with
      | Ok b w => check_sys (give (new_effects (state s) w) w (queued s) (executing s) (r1 ++ r2) b)
      | _ => None
      end
  | CancelIt =>
      match Cancel (state s) with
      | Ok _ w => Some (mkSys w (queued s) (executing s) (retrying s) (over s))
      | _ => None
      end
  end.

Fixpoint acts (l : list action) (s : sys) : option sys :=
  match l with
  | [] => Some s
  | a :: l => s ← act a s; acts l s
  end.

Lemma remove_first_Some t l a b : remove_first t l = Some (a, b) -> l = a ++ t :: b.
Proof.
  revert a. induction l as [|x l IH]; intros a Hr; simpl in *; [done|].
  case_bool_decide as E; simplify_eq/=; [done|].
  destruct (remove_first t l) as [[a' b']|]; simplify_eq/=. by rewrite (IH a').
Qed.

Lemma new_effects_eq st es a b w w' :
  moves st es a b w w' -> effects w' = new_effects w w' ++ effects w.
Proof.
  intros [E _ _ _ _ _ _]. unfold new_effects. rewrite E, length_app, Nat.add_sub, take_app_length. done.
Qed.

Lemma check_sys_Some s s' : check_sys s = Some s' -> s' = s /\ fits s.
Proof.
  unfold check_sys. destruct (_ <? _) eqn:E1, (_ <? _) eqn:E2 in |- *; simpl; try done.
  all: try (intros [= <-]; split; [done|]; split; lia).
Qed.

(** An action other than a cancellation is a step of the system. *)
Definition is_work (a : action) : bool := match a with CancelIt => false | _ => true end.

Lemma act_work a s s' : inv s -> is_work a = true -> act a s = Some s' -> work s s'.
Proof.
  intros Hi Ha E. pose proof (inv_counters s Hi) as Hc. destruct a as [t tid fork|t retval output|t|]; simpl in E.
  - destruct (remove_first t (queued s)) as [[q1 q2]|] eqn:R; [|done]. simpl in E.
    apply remove_first_Some in R. destruct (Z.eqb_spec fork 0); [done|].
    destruct (TaskExecute _ _ _ _ _ _ _ _) as [[p b] w|e w|] eqn:Et; [|done|done].
    apply check_sys_Some in E as [-> Hf].
    pose proof Et as (_ & _ & _ & es & Hm)%TaskExecute_spec; [|done|done].
    eapply work_execute; eauto. by eapply new_effects_eq.
  - destruct (remove_first t (executing s)) as [[x1 x2]|] eqn:R; [|done]. simpl in E.
    apply remove_first_Some in R. destruct (TaskStop _ _ _ _ _ _ _) as [b w|e w|] eqn:Et; [|done|done].
    apply check_sys_Some in E as [-> Hf].
    destruct (accounts_TaskStop _ _ _ _ _ _ _ Hc eq_refl Et) as [es Hm].
    eapply work_stop; eauto. by eapply new_effects_eq.
  - destruct (remove_first t (retrying s)) as [[r1 r2]|] eqn:R; [|done]. simpl in E.
    apply remove_first_Some in R. destruct (TaskRestart _ _ _ _) as [b w|e w|] eqn:Et; [|done|done].
    apply check_sys_Some in E as [-> Hf].
    destruct (accounts_TaskRestart _ _ _ _ _ Hc eq_refl Et) as [es Hm].
    eapply work_restart; eauto. by eapply new_effects_eq.
  - done.
Qed.

Lemma act_step a s s' : inv s -> act a s = Some s' -> step s s'.
Proof.
  intros Hi E. destruct (is_work a) eqn:Ha.
  - apply step_work. by eapply act_work.
  - destruct a; try done. simpl in E. injection E as <-. by apply step_cancel.
Qed.

Lemma acts_rtc l s s' : inv s -> acts l s = Some s' -> rtc step s s'.
Proof.
  revert s. induction l as [|a l IH]; intros s Hi E; simpl in E.
  - injection E as <-. apply rtc_refl.
  - destruct (act a s) as [s1|] eqn:Ea; [|done]. pose proof (act_step _ _ _ Hi Ea) as Hs.
    eapply rtc_l; [exact Hs|]. apply IH; [by eapply workflow_step_inv|done].
Qed.

Lemma acts_nsteps l s s' :
  inv s -> forallb is_work l = true -> acts l s = Some s' -> nsteps work (List.length l) s s'.
Proof.
  revert s. induction l as [|a l IH]; intros s Hi Hl E; simpl in *.
  - injection E as <-. apply nsteps_O.
  - apply andb_true_iff in Hl as [Ha Hl]. destruct (act a s) as [s1|] eqn:Ea; [|done].
    pose proof (act_work _ _ _ Hi Ha Ea) as Hw.
    eapply nsteps_l; [exact Hw|]. apply IH; [by eapply work_inv|done|done].
Qed.
End progress.

(** * A run *)

Definition ex_acts : list action -> sys -> option sys :=
  acts ex_known_queue ex_GetTask ex_format_time ex_env Configuration_new.
Definition ex_step : sys -> sys -> Prop :=
  step ex_known_queue ex_GetTask ex_format_time ex_env Configuration_new.

(** The workflow of [WorkflowExamples] as it starts. *)
Definition ex_begin : sys :=
  match Start ex_known_queue ex_format_time (ex_world ex_workflow) with
  | Ok b w => give (effects w) w [] [] [] b
  | _ => mkSys (ex_world ex_workflow) [] [] [] false
  end.

Lemma ex_start_fits :
  match Start ex_known_queue ex_format_time (ex_world ex_workflow) with
  | Ok b w => fits (give (effects w) w [] [] [] b)
  | _ => False
  end.
Proof. vm_compute. split; reflexivity. Qed.

Lemma ex_begins : begins ex_known_queue ex_format_time ex_begin.
Proof.
  pose proof ex_start_fits as F. unfold ex_begin.
  destruct (Start ex_known_queue ex_format_time (ex_world ex_workflow)) as [b w|e w|] eqn:E;
    [|destruct F..].
  apply (begins_start _ _ (ex_world ex_workflow)); [reflexivity..|exact E|by rewrite app_nil_r|exact F].
Qed.

(** The second task fails once and is retried; the job below runs. *)
Definition ex_actions : list action :=
  [Execute (ex_task 0) 11 501; Execute (ex_task 1) 12 502; Stop (ex_task 1) 3 "oops";
   Stop (ex_task 0) 0 "<list><x/><x/></list>"; Restart (ex_task 1); Execute (ex_task 1) 13 503;
   Stop (ex_task 1) 0 "fine"; Execute (ex_task 2) 14 504; Stop (ex_task 2) 0 "done"].

Definition ex_end : sys := default ex_begin (ex_acts ex_actions ex_begin).
Definition ex_middle : sys := default ex_begin (ex_acts (take 3 ex_actions ++ [CancelIt]) ex_begin).

Lemma ex_runs l s :
  ex_acts l ex_begin = Some s -> rtc ex_step ex_begin s.
Proof. apply acts_rtc. apply (begins_inv ex_known_queue ex_format_time), ex_begins. Qed.

Lemma workflow_accounting_witness :
  rtc ex_step ex_begin ex_middle /\
  queued ex_middle = [] /\ executing ex_middle = [ex_task 0] /\ retrying ex_middle = [ex_task 1] /\
  running_tasks (wi (state ex_middle)) = 1 /\ retrying_tasks (wi (state ex_middle)) = 1.
Proof.
  assert (Hr : rtc ex_step ex_begin ex_middle) by (apply (ex_runs (take 3 ex_actions ++ [CancelIt])); vm_compute; reflexivity).
  destruct (workflow_accounting ex_known_queue ex_GetTask ex_format_time ex_env Configuration_new
              ex_begin ex_middle ex_begins Hr) as (H1 & H2 & _).
  split; [exact Hr|]. rewrite H1, H2. clear Hr H1 H2. vm_compute. repeat split; reflexivity.
Defined.

Lemma workflow_over_is_final_witness :
  over ex_end = true /\
  forall s', ~ work ex_known_queue ex_GetTask ex_format_time ex_env Configuration_new ex_end s'.
Proof.
  assert (Ho : over ex_end = true) by (vm_compute; reflexivity). split; [exact Ho|]. intros s'.
  apply (workflow_over_is_final ex_known_queue ex_GetTask ex_format_time ex_env Configuration_new
           ex_begin ex_end s' ex_begins); [|exact Ho].
  apply (ex_runs ex_actions). vm_compute. reflexivity.
Defined.

Definition ex_drain : list action := [Restart (ex_task 1); Stop (ex_task 0) 0 "<list><x/><x/></list>"].

Definition ex_drained : sys := default ex_begin (ex_acts ex_drain ex_middle).

Lemma cancelled_workflow_drains_witness :
  ex_acts ex_drain ex_middle = Some ex_drained /\ over ex_drained = true.
Proof.
  assert (Hr : rtc ex_step ex_begin ex_middle)
    by (apply (ex_runs (take 3 ex_actions ++ [CancelIt])); vm_compute; reflexivity).
  assert (E : ex_acts ex_drain ex_middle = Some ex_drained) by (vm_compute; reflexivity).
  split; [exact E|].
  pose proof (workflow_inv _ _ _ _ _ _ _ ex_begins Hr) as Hi.
  destruct (cancelled_workflow_drains ex_known_queue ex_GetTask ex_format_time ex_env Configuration_new
              ex_begin ex_middle 2 ex_drained ex_begins Hr) as (H1 & _ & H2).
  - vm_compute. reflexivity.
  - apply (acts_nsteps _ _ _ _ _ ex_drain); [exact Hi|reflexivity|exact E].
  - apply H2. rewrite H1. vm_compute. reflexivity.
Defined.
