(* ===== verification/WorkflowRetry.v ===== *)
(** The retries of a failed task: [retry_task] and [schedule_update] go through
    the levels of a retry schedule, as the attributes of the task remember. *)

From S2P Require Import Prelude CString Configuration Dom TreeDom Task WorkflowInstance WorkflowExamples.

Open Scope Z_scope.

(** * The plan of a schedule

    A schedule is a list of levels, each a delay and a number of retries. *)

Definition plan (levels : list (Z * Z)) : list Z :=
  mjoin ((fun '(d, t) => replicate (Z.to_nat t) d) <$> levels).

(** What is left of the plan at a level (0: not begun) with [left_] retries. *)
Definition rest (levels : list (Z * Z)) (level : nat) (left_ : Z) : list Z :=
  match level with
  | O => plan levels
  | S l =>
      match levels !! l with
      | Some (d, _) => replicate (Z.to_nat left_) d ++ plan (drop level levels)
      | None => []
      end
  end.

Lemma plan_drop levels l d t :
  levels !! l = Some (d, t) -> plan (drop l levels) = replicate (Z.to_nat t) d ++ plan (drop (S l) levels).
Proof. intros E. by rewrite (drop_S _ _ _ E). Qed.

Lemma plan_level levels l d t :
  levels !! l = Some (d, t) -> 0 < t -> plan (drop l levels) = d :: rest levels (S l) (t - 1).
Proof.
  intros E Ht. rewrite (plan_drop _ _ _ _ E). simpl. rewrite E.
  replace (Z.to_nat t) with (S (Z.to_nat (t - 1))) by lia. done.
Qed.

(** With no retry left at a level, the plan goes on with the next one. *)
Lemma rest_done levels l left_ : l = 0%nat \/ left_ = 0 -> rest levels l left_ = plan (drop l levels).
Proof.
  intros Hl. destruct l as [|l]; [done|]. destruct Hl as [?| ->]; [done|]. simpl.
  destruct (levels !! l) as [[d t]|] eqn:E; [done|].
  apply lookup_ge_None in E. by rewrite drop_ge by lia.
Qed.

Lemma rest_left levels l d t left_ :
  levels !! l = Some (d, t) -> 0 < left_ -> rest levels (S l) left_ = d :: rest levels (S l) (left_ - 1).
Proof.
  intros E Hl. simpl. rewrite E.
  replace (Z.to_nat left_) with (S (Z.to_nat (left_ - 1))) by lia. done.
Qed.

Section retry.
Context {D : Type} `{HA : DomAttributes D}.
Context (format_time : Z -> string).
Context (task root schedule : node_ref) (schedule_name : string).
Context (levels : list (Z * Z)) (level_nodes : list node_ref).
Implicit Types (w : world (D := D)) (d : D).

(** The level that a node of the document describes. *)
Definition level_of d (n : node_ref) (l : Z * Z) : Prop :=
  (exists s, getNamedItem d n "retry_delay" = Some s /\ parseInt s = Some l.1) /\
  (exists s, getNamedItem d n "retry_times" = Some s /\ parseInt s = Some l.2).

(** The document has the schedule, and the task refers to it. *)
Record has_schedule d : Prop := {
  hs_root : getDocumentElement d = Some root;
  hs_schedule : exists r,
    evaluate ("schedules/schedule[@name='" +:+ schedule_name +:+ "']") root d = Some r /\
    first_node r = Some schedule;
  hs_count : exists i r,
    evaluate "count(level)" schedule d = Some (i :: r) /\
    getIntegerValue d i = Some (Z.of_nat (List.length levels));
  hs_level k n : level_nodes !! k = Some n -> exists r,
    evaluate ("level[position()=" +:+ sprintf_d (Z.of_nat k + 1) +:+ "]") schedule d = Some r /\
    first_node r = Some n;
  hs_levels : Forall2 (level_of d) level_nodes levels;
  hs_distinct : task ∉ level_nodes;
  hs_task : getNamedItem d task "retry_schedule" = Some schedule_name;
  hs_retval : getNamedItem d task "retry_retval" = None;
}.

(** The expressions of [schedule_update] do not mention the attributes that the
    retries set on the task. *)
Definition schedule_expression (e : string) : Prop :=
  e = "schedules/schedule[@name='" +:+ schedule_name +:+ "']" \/ e = "count(level)"%string \/
  exists k, e = "level[position()=" +:+ sprintf_d k +:+ "]".

Definition retry_attributes : list string :=
  ["retry_schedule_level"; "retry_delay"; "retry_times"; "retry_at"]%string.

Context (evaluate_set : forall d a v e ctx, a ∈ retry_attributes -> schedule_expression e ->
  evaluate e ctx (setAttribute task a v d) = evaluate e ctx d).

Lemma level_of_set d a v n l : n <> task -> level_of d n l -> level_of (setAttribute task a v d) n l.
Proof.
  intros Hn [(s1 & E1 & P1) (s2 & E2 & P2)].
  split; [exists s1|exists s2]; by rewrite getNamedItem_set_ne by congruence.
Qed.

Lemma has_schedule_set d a v : a ∈ retry_attributes -> has_schedule d -> has_schedule (setAttribute task a v d).
Proof.
  intros Ha [H1 H2 H3 H4 H5 H6 H7 H8].
  assert (a <> "retry_schedule" /\ a <> "retry_retval")%string as [Ha1 Ha2].
  { unfold retry_attributes in Ha. set_solver. }
  split.
  - by rewrite getDocumentElement_set.
  - rewrite evaluate_set; [done|done|by left].
  - destruct H3 as (i & r & E & Ei). exists i, r. rewrite evaluate_set by (done || by right; left).
    by rewrite getIntegerValue_set.
  - intros k n Hk. destruct (H4 k n Hk) as (r & E & Er). exists r.
    rewrite evaluate_set by (done || right; right; eauto). done.
  - revert H5 H6. clear -HA. induction 1 as [|n l ns ls Hn Hf IH]; [constructor|].
    intros Hni. apply not_elem_of_cons in Hni as [? ?]. constructor; [by apply level_of_set|by apply IH].
  - done.
  - rewrite getNamedItem_set_ne by congruence. done.
  - rewrite getNamedItem_set_ne by congruence. done.
Qed.

Context (Hname : strlen schedule_name <= 200).
Context (Hlevels : Forall (fun l => l.1 <> 0 /\ 0 < l.2 < 2 ^ 31) levels).
Context (Hlength : Z.of_nat (List.length levels) < 2 ^ 31 - 1).

(** The attributes of the task say how far the schedule is. *)
Definition progress d (level : nat) (left_ : Z) : Prop :=
  has_schedule d /\
  match level with
  | O => getNamedItem d task "retry_schedule_level" = None
  | S l =>
      getNamedItem d task "retry_schedule_level" = Some (sprintf_d (Z.of_nat level)) /\
      exists dl t ds ts, levels !! l = Some (dl, t) /\ 0 <= left_ < 2 ^ 31 /\
        getNamedItem d task "retry_delay" = Some ds /\ parseInt ds = Some dl /\
        getNamedItem d task "retry_times" = Some ts /\ parseInt ts = Some left_
  end.

Definition with_doc d w : world := set_wi (set_xmldoc d (wi w)) w.

Ltac mrun tac := erewrite bind_run; [|solve [tac]]; cbv beta iota.

Lemma sprintf_ok size s w : strlen s + 1 <= size -> sprintf size s w = Ok s w.
Proof. intros Hs. unfold sprintf. by rewrite (proj2 (Z.leb_le _ _)). Qed.

Lemma eval_ok e n w r : evaluate e n (xmldoc (wi w)) = Some r -> eval e n w = Ok r w.
Proof. intros E. unfold eval, try_eval, ask, gets, mbind, M_bind. by rewrite E. Qed.

Lemma eval_integer_ok e n w i r z :
  evaluate e n (xmldoc (wi w)) = Some (i :: r) -> getIntegerValue (xmldoc (wi w)) i = Some z ->
  eval_integer e n w = Ok z w.
Proof.
  intros E Ei. unfold eval_integer. rewrite (bind_run _ _ _ _ _ (eval_ok _ _ _ _ E)).
  unfold ask, gets, mbind, M_bind. simpl. by rewrite Ei.
Qed.

Lemma element_ok w : getDocumentElement (xmldoc (wi w)) = Some root -> document_element w = Ok root w.
Proof. intros E. unfold document_element, ask, gets, mbind, M_bind. by rewrite E. Qed.

Lemma named_ok n a w : get_named n a w = Ok (getNamedItem (xmldoc (wi w)) n a) w.
Proof. done. Qed.

Lemma attr_ok n a s w : getNamedItem (xmldoc (wi w)) n a = Some s -> get_attr n a w = Ok s w.
Proof. intros E. unfold get_attr, ask, gets, getAttribute. by rewrite E. Qed.

Lemma set_attr_ok n a v w : set_attr n a v w = Ok tt (with_doc (setAttribute n a v (xmldoc (wi w))) w).
Proof. done. Qed.

Lemma parse_int_ok s z w : parseInt s = Some z -> parse_int s w = Ok z w.
Proof. intros E. unfold parse_int. by rewrite E. Qed.

Lemma int_ok z w : - 2 ^ 31 <= z < 2 ^ 31 -> int z w = Ok z w.
Proof. intros Hz. unfold int. by rewrite (proj2 (andb_true_iff _ _)) by lia. Qed.

(** The value of the level attribute. *)
Lemma progress_level d l left_ :
  progress d l left_ -> Z.of_nat l < 2 ^ 31 ->
  forall w, (match getNamedItem d task "retry_schedule_level" with
             | Some s => parse_int s
             | None => mret 0
             end : M Z) w = Ok (Z.of_nat l) w.
Proof.
  intros [_ Hp] Hl w. destruct l as [|l].
  - by rewrite Hp.
  - destruct Hp as [-> _]. apply parse_int_ok, parseInt_sprintf. lia.
Qed.

(** Reads attributes through the ones that were just set. *)
Ltac attributes :=
  repeat first [rewrite getNamedItem_set_eq | rewrite getNamedItem_set_ne by (intros [=])].

Definition advanced (l : nat) d : D := setAttribute task "retry_schedule_level" (sprintf_d (Z.of_nat (S l))) d.

Lemma advanced_has_schedule l d : has_schedule d -> has_schedule (advanced l d).
Proof. apply has_schedule_set. by left. Qed.

(** The beginning of [schedule_update], up to the comparison of the levels. *)
Lemma schedule_update_prefix d l left_ w :
  progress d l left_ -> xmldoc (wi w) = d -> Z.of_nat l < 2 ^ 31 - 1 ->
  schedule_update task schedule_name w =
    (if Z.of_nat (S l) >? Z.of_nat (List.length levels) then mret (Some (0, 0))
     else
       res ← eval ("level[position()=" +:+ sprintf_d (Z.of_nat (S l)) +:+ "]") schedule;
       schedule_level ← nonnull (first_node res);
       retry_delay_str ← get_attr schedule_level "retry_delay";
       retry_times_str ← get_attr schedule_level "retry_times";
       _ ← set_attr task "retry_delay" retry_delay_str;
       _ ← set_attr task "retry_times" retry_times_str;
       retry_delay ← parse_int retry_delay_str;
       retry_times ← parse_int retry_times_str;
       mret (Some (retry_delay, retry_times))) (with_doc (advanced l d) w).
Proof.
  intros Hp E Hl. pose proof Hp as [Hs _]. unfold schedule_update.
  mrun ltac:(apply sprintf_ok; rewrite !strlen_app;
    change (strlen "schedules/schedule[@name='") with 26; change (strlen "']") with 2; lia).
  mrun ltac:(apply element_ok; rewrite E; apply Hs).
  destruct (hs_schedule _ Hs) as (r & Er & Ef).
  mrun ltac:(apply eval_ok; rewrite E; exact Er). rewrite Ef.
  destruct (hs_count _ Hs) as (i & r' & Ec & Ei).
  mrun ltac:(eapply eval_integer_ok; rewrite E; [exact Ec|exact Ei]).
  mrun ltac:(apply named_ok). rewrite E.
  mrun ltac:(apply (progress_level _ _ _ Hp); lia).
  mrun ltac:(apply int_ok; lia).
  mrun ltac:(apply set_attr_ok).
  rewrite E. unfold advanced. replace (Z.of_nat (S l)) with (Z.of_nat l + 1) by lia. done.
Qed.

Context (Hne : levels <> []).

Lemma level_bounds l dl t : levels !! l = Some (dl, t) -> dl <> 0 /\ 0 < t < 2 ^ 31 /\ Z.of_nat (S l) < 2 ^ 31.
Proof.
  intros E. pose proof (Forall_lookup_1 _ _ _ _ Hlevels E) as [H1 H2]. apply lookup_lt_Some in E.
  split; [exact H1|]. split; [exact H2|lia].
Qed.

Lemma schedule_update_next d l left_ w dl t :
  progress d l left_ -> xmldoc (wi w) = d -> levels !! l = Some (dl, t) ->
  exists d2, schedule_update task schedule_name w = Ok (Some (dl, t)) (with_doc d2 w) /\ progress d2 (S l) t.
Proof.
  intros Hp E El. destruct (level_bounds _ _ _ El) as (_ & Ht & Hl).
  pose proof (lookup_lt_Some _ _ _ El) as Hlt.
  erewrite schedule_update_prefix by (try exact E; try exact Hp; lia).
  assert (Z.of_nat (S l) >? Z.of_nat (List.length levels) = false) as ->
    by (rewrite Z.gtb_ltb; apply Z.ltb_ge; lia).
  set (d1 := advanced l d). assert (Hs : has_schedule d1) by by apply advanced_has_schedule, Hp.
  destruct (Forall2_lookup_r _ _ _ _ _ (hs_levels _ Hs) El) as (n & En & (ds & Ed & Pd) & (ts & Et & Pt)).
  destruct (hs_level _ Hs _ _ En) as (r & Er & Ef).
  set (d2 := setAttribute task "retry_times" ts (setAttribute task "retry_delay" ds d1)).
  exists d2. split.
  - replace (Z.of_nat (S l)) with (Z.of_nat l + 1) by lia.
    mrun ltac:(apply eval_ok; exact Er). rewrite Ef.
    mrun ltac:(reflexivity).
    mrun ltac:(apply attr_ok; exact Ed). mrun ltac:(apply attr_ok; exact Et).
    mrun ltac:(apply set_attr_ok). mrun ltac:(apply set_attr_ok).
    mrun ltac:(apply parse_int_ok; exact Pd). mrun ltac:(apply parse_int_ok; exact Pt). done.
  - split.
    + apply has_schedule_set; [set_solver|]. apply has_schedule_set; [set_solver|done].
    + split; [unfold d2, d1, advanced; by attributes|]. exists dl, t, ds, ts.
      repeat split; try done; try lia; unfold d2, d1; by attributes.
Qed.

Lemma schedule_update_end d l left_ w :
  progress d l left_ -> xmldoc (wi w) = d -> levels !! l = None -> (l <= List.length levels)%nat ->
  schedule_update task schedule_name w = Ok (Some (0, 0)) (with_doc (advanced l d) w).
Proof.
  intros Hp E El Hl. apply lookup_ge_None in El.
  erewrite schedule_update_prefix by (try exact E; try exact Hp; lia).
  assert (Z.of_nat (S l) >? Z.of_nat (List.length levels) = true) as ->
    by (rewrite Z.gtb_ltb; apply Z.ltb_lt; lia). done.
Qed.

(** What a retry leaves behind. *)
Definition retried (delay : Z) d w : world :=
  mkWorld (set_retrying_tasks (u32 (retrying_tasks (wi w) + 1)) (set_xmldoc d (wi w)))
    (InsertTask task (time w + delay) :: effects w) (db_results w) (time w).

Lemma do_retry_ok d l left_ w dl t :
  progress d (S l) left_ -> xmldoc (wi w) = d -> levels !! l = Some (dl, t) -> 0 < left_ < 2 ^ 31 ->
  exists d2, do_retry format_time task dl left_ w = Ok tt (retried dl d2 w) /\ progress d2 (S l) (left_ - 1).
Proof.
  intros [Hs Hp] E El Hl. destruct (level_bounds _ _ _ El) as (Hd & _ & _). unfold do_retry.
  rewrite (proj2 (Z.eqb_neq dl 0)) by done. rewrite (proj2 (Z.eqb_neq left_ 0)) by lia. cbn [orb].
  set (d2 := setAttribute task "retry_times" (sprintf_d (left_ - 1))
               (setAttribute task "retry_at" (format_time (time w + dl)) d)).
  exists d2. split.
  - mrun ltac:(unfold retval_matches; mrun ltac:(apply named_ok); rewrite E, (hs_retval _ Hs); reflexivity).
    mrun ltac:(reflexivity). mrun ltac:(apply set_attr_ok). mrun ltac:(apply int_ok; lia).
    mrun ltac:(apply set_attr_ok). mrun ltac:(reflexivity). unfold d2. by rewrite <- E.
  - destruct Hp as (Hlv & dl' & t' & ds & ts & El' & _ & Ed & Pd & _ & _). split.
    + apply has_schedule_set; [set_solver|]. apply has_schedule_set; [set_solver|done].
    + split; [unfold d2; by attributes|]. exists dl', t', ds, (sprintf_d (left_ - 1)).
      repeat split; try done; try lia; try (unfold d2; by attributes).
      apply parseInt_sprintf. lia.
Qed.

Definition gave_up d w : world :=
  set_wi (set_error_tasks (u32 (error_tasks (wi w) + 1)) (set_xmldoc d (wi w))) w.

(** The first lines of [retry_task], which read the attributes of the task. *)
Lemma retry_task_read d l left_ w :
  progress d l left_ -> xmldoc (wi w) = d -> Z.of_nat l < 2 ^ 31 ->
  retry_task format_time task w =
    (parameters ← retry_parameters task (Some schedule_name) (Z.of_nat l);
     match parameters with
     | None => inc_errors
     | Some (retry_delay, retry_times) =>
         '(retry_delay, retry_times) ←
           (if retry_times =? 0 then
              r ← schedule_update task schedule_name;
              mret (default (retry_delay, retry_times) r)
            else mret (retry_delay, retry_times));
         do_retry format_time task retry_delay retry_times
     end) w.
Proof.
  intros Hp E Hl. unfold retry_task.
  mrun ltac:(apply named_ok). rewrite E, (hs_task _ (proj1 Hp)).
  mrun ltac:(apply named_ok). rewrite E.
  mrun ltac:(apply (progress_level _ _ _ Hp); done). done.
Qed.

Lemma retry_parameters_begin d w dl t :
  progress d 0 0 -> xmldoc (wi w) = d -> levels !! 0%nat = Some (dl, t) ->
  exists d2, retry_parameters task (Some schedule_name) 0 w = Ok (Some (dl, t)) (with_doc d2 w) /\
    progress d2 1 t.
Proof.
  intros Hp E El. destruct (schedule_update_next d 0 0 w dl t Hp E El) as (d2 & Hr & Hp2).
  exists d2. split; [|done]. unfold retry_parameters. cbn [Z.eqb].
  mrun ltac:(exact Hr). done.
Qed.

Lemma retry_parameters_continue d l left_ w dl t :
  progress d (S l) left_ -> xmldoc (wi w) = d -> levels !! l = Some (dl, t) ->
  retry_parameters task (Some schedule_name) (Z.of_nat (S l)) w = Ok (Some (dl, left_)) w.
Proof.
  intros [Hs (Hlv & dl' & t' & ds & ts & El' & Hl & Ed & Pd & Et & Pt)] E El. simplify_eq.
  unfold retry_parameters. rewrite (proj2 (Z.eqb_neq _ 0)) by lia.
  mrun ltac:(apply named_ok). rewrite Ed. mrun ltac:(apply parse_int_ok; exact Pd).
  mrun ltac:(apply named_ok). rewrite Et. mrun ltac:(apply parse_int_ok; exact Pt). done.
Qed.

Lemma progress_bound d l left_ : progress d l left_ -> (l <= List.length levels)%nat /\ Z.of_nat l < 2 ^ 31.
Proof.
  intros [_ Hp]. destruct l as [|l]; [lia|]. destruct Hp as (_ & dl & t & ds & ts & E & _).
  apply lookup_lt_Some in E. lia.
Qed.

(** A failure that the plan allows to retry. *)
Lemma retry_task_next d l left_ w delay r :
  progress d l left_ -> xmldoc (wi w) = d -> rest levels l left_ = delay :: r ->
  exists d2 l2 left2, retry_task format_time task w = Ok tt (retried delay d2 w) /\
    progress d2 l2 left2 /\ rest levels l2 left2 = r.
Proof.
  intros Hp E Hr. destruct (progress_bound _ _ _ Hp) as [Hl1 Hl2].
  rewrite (retry_task_read d l left_) by done.
  destruct (decide (l = 0%nat \/ left_ = 0)) as [Hz|Hz].
  - rewrite (rest_done _ _ _ Hz) in Hr.
    destruct (levels !! l) as [[dl t]|] eqn:El.
    2:{ apply lookup_ge_None in El. by rewrite drop_ge in Hr by lia. }
    destruct (level_bounds _ _ _ El) as (Hd & Ht & _).
    rewrite (plan_level _ _ _ _ El) in Hr by lia. injection Hr as <- <-.
    assert (Hfin : forall d1, progress d1 (S l) t ->
      exists d2 l2 left2, do_retry format_time task dl t (with_doc d1 w) = Ok tt (retried dl d2 w) /\
        progress d2 l2 left2 /\ rest levels l2 left2 = rest levels (S l) (t - 1)).
    { intros d1 Hp1. destruct (do_retry_ok d1 l t (with_doc d1 w) dl t Hp1 eq_refl El Ht) as (d2 & Hr & Hp2).
      by exists d2, (S l), (t - 1). }
    destruct l as [|l].
    + destruct (retry_parameters_begin d w dl t) as (d1 & Hr & Hp1); [by destruct Hp|done|done|].
      mrun ltac:(exact Hr). rewrite (proj2 (Z.eqb_neq t 0)) by lia.
      mrun ltac:(reflexivity). by apply Hfin.
    + destruct Hz as [?| ->]; [done|].
      pose proof Hp as [_ (_ & dl' & t' & _ & _ & El' & _)].
      mrun ltac:(apply (retry_parameters_continue d l 0 w dl' t' Hp E El')).
      destruct (schedule_update_next d (S l) 0 w dl t Hp E El) as (d1 & Hr & Hp1).
      rewrite Z.eqb_refl. mrun ltac:(mrun ltac:(exact Hr); reflexivity). by apply Hfin.
  - destruct l as [|l]; [naive_solver|]. pose proof Hp as [_ (_ & dl & t & _ & _ & El & Hb & _)].
    assert (0 < left_ < 2 ^ 31) as Hb' by (split; [|lia]; assert (left_ <> 0) by naive_solver; lia).
    rewrite (rest_left _ _ _ _ _ El) in Hr by lia. injection Hr as <- <-.
    mrun ltac:(apply (retry_parameters_continue d l left_ w dl t Hp E El)).
    rewrite (proj2 (Z.eqb_neq left_ 0)) by lia. mrun ltac:(reflexivity).
    destruct (do_retry_ok d l left_ w dl t Hp E El Hb') as (d2 & Hr & Hp2).
    by exists d2, (S l), (left_ - 1).
Qed.

(** A failure once the plan is used up. *)
Lemma retry_task_end d l left_ w :
  progress d l left_ -> xmldoc (wi w) = d -> rest levels l left_ = [] ->
  exists d2, retry_task format_time task w = Ok tt (gave_up d2 w).
Proof.
  intros Hp E Hr. destruct (progress_bound _ _ _ Hp) as [Hl1 Hl2].
  rewrite (retry_task_read d l left_) by done.
  destruct l as [|l].
  { exfalso. destruct (levels !! 0%nat) as [[dl t]|] eqn:El.
    - destruct (level_bounds _ _ _ El) as (_ & Ht & _).
      rewrite rest_done in Hr by by left. by rewrite (plan_level _ _ _ _ El) in Hr by lia.
    - apply Hne. apply lookup_ge_None in El. by apply nil_length_inv, Nat.le_0_r. }
  pose proof Hp as [_ (_ & dl & t & _ & _ & El & Hb & _)].
  destruct (decide (left_ = 0)) as [->|Hz].
  2:{ by rewrite (rest_left _ _ _ _ _ El) in Hr by lia. }
  rewrite rest_done in Hr by by right.
  assert (levels !! S l = None) as En.
  { destruct (levels !! S l) as [[dl' t']|] eqn:En; [|done].
    destruct (level_bounds _ _ _ En) as (_ & Ht & _). by rewrite (plan_level _ _ _ _ En) in Hr by lia. }
  mrun ltac:(apply (retry_parameters_continue d l 0 w dl t Hp E El)).
  rewrite Z.eqb_refl. mrun ltac:(mrun ltac:(apply (schedule_update_end d (S l) 0 w Hp E En Hl1)); reflexivity).
  by exists (advanced (S l) d).
Qed.

(** * Failing again and again *)

(** What a call of [retry_task] did. *)
Inductive reaction : Type := RetryIn (delay : Z) | CountError | Nothing.

Definition reaction_of (w w1 : world (D := D)) : reaction :=
  if (List.length (effects w) <? List.length (effects w1))%nat then
    match effects w1 with
    | InsertTask _ at_ :: _ => RetryIn (at_ - time w)
    | _ => Nothing
    end
  else if error_tasks (wi w1) =? u32 (error_tasks (wi w) + 1) then CountError
  else Nothing.

(** The failures of the task one after the other.  In between the task is
    executed again, and anything may happen that leaves the schedule and the
    attributes of its progress alone. *)
Inductive failures : world (D := D) -> list reaction -> Prop :=
  | failures_nil w : failures w []
  | failures_cons w w1 w2 os :
      retry_task format_time task w = Ok tt w1 ->
      (forall l left_, progress (xmldoc (wi w1)) l left_ -> progress (xmldoc (wi w2)) l left_) ->
      failures w2 os -> failures w (reaction_of w w1 :: os).

Lemma reaction_retried delay d w : reaction_of w (retried delay d w) = RetryIn delay.
Proof.
  unfold reaction_of, retried. cbn [effects List.length time].
  rewrite (proj2 (Nat.ltb_lt _ _)) by lia. f_equal. lia.
Qed.

Lemma reaction_gave_up d w : reaction_of w (gave_up d w) = CountError.
Proof.
  unfold reaction_of, gave_up. cbn [effects set_wi]. rewrite Nat.ltb_irrefl.
  cbn [wi set_error_tasks error_tasks set_xmldoc]. by rewrite Z.eqb_refl.
Qed.

Lemma failures_reactions w l left_ os :
  progress (xmldoc (wi w)) l left_ -> failures w os ->
  (List.length os <= S (List.length (rest levels l left_)))%nat ->
  os = take (List.length os) ((RetryIn <$> rest levels l left_) ++ [CountError]).
Proof.
  intros Hp Hf. revert l left_ Hp. induction Hf as [w|w w1 w2 os Hr Hk Hf IH]; intros l left_ Hp Hlen; [done|].
  destruct (rest levels l left_) as [|delay r] eqn:Er.
  - destruct (retry_task_end _ _ _ w Hp eq_refl Er) as (d2 & Hr'). rewrite Hr' in Hr. injection Hr as <-.
    rewrite reaction_gave_up. destruct os; [done|simpl in Hlen; lia].
  - destruct (retry_task_next _ _ _ w _ _ Hp eq_refl Er) as (d2 & l2 & left2 & Hr' & Hp2 & <-).
    rewrite Hr' in Hr. injection Hr as <-. rewrite reaction_retried. simpl. f_equal.
    apply (IH l2 left2); [by apply Hk|simpl in Hlen; lia].
Qed.

Lemma failures_exist w l left_ :
  progress (xmldoc (wi w)) l left_ -> failures w ((RetryIn <$> rest levels l left_) ++ [CountError]).
Proof.
  remember (rest levels l left_) as r eqn:Er. revert w l left_ Er.
  induction r as [|delay r IH]; intros w l left_ Er Hp.
  - destruct (retry_task_end _ _ _ w Hp eq_refl (eq_sym Er)) as (d2 & Hr).
    rewrite <- (reaction_gave_up d2 w). apply (failures_cons w _ (gave_up d2 w)); [exact Hr|auto|constructor].
  - destruct (retry_task_next _ _ _ w _ _ Hp eq_refl (eq_sym Er)) as (d2 & l2 & left2 & Hr & Hp2 & Er2).
    simpl. rewrite <- (reaction_retried delay d2 w). apply (failures_cons w _ (retried delay d2 w)); [exact Hr|auto|].
    by apply (IH _ l2 left2).
Qed.

(** C24: A task whose retry schedule has at least one level, each with a
    nonzero delay and at least one and fewer than 2^31 retries, and which
    does not restrict its retries to some exit statuses, is retried, when it
    fails again and again, exactly according to the plan of the schedule,
    each level's delay repeated its number of times, level after level, and
    then an error is counted; no other sequence of reactions is possible.
    Names of schedules have at most 200 characters. *)
Theorem retry_schedule_plan w :
  has_schedule (xmldoc (wi w)) -> getNamedItem (xmldoc (wi w)) task "retry_schedule_level" = None ->
  failures w ((RetryIn <$> plan levels) ++ [CountError]) /\
  (forall os, failures w os -> (List.length os <= S (List.length (plan levels)))%nat ->
     os = take (List.length os) ((RetryIn <$> plan levels) ++ [CountError])).
Proof.
  intros Hs Hn. assert (Hp : progress (xmldoc (wi w)) 0 0) by done. split.
  - exact (failures_exist w 0 0 Hp).
  - intros os Hf Hlen. exact (failures_reactions w 0 0 os Hp Hf Hlen).
Qed.
End retry.

(** * A schedule of two levels *)

Definition ex_levels : list (Z * Z) := [(30, 2); (600, 1)].

Definition ex_retry_workflow : doc :=
  to_doc (Elem "workflow" []
    [Elem "schedules" []
       [Elem "schedule" [("name"%string, "twice"%string)]
          ((fun '(d, t) => Elem "level" [("retry_delay"%string, sprintf_d d); ("retry_times"%string, sprintf_d t)] [])
             <$> ex_levels)];
     Elem "subjobs" [] [job_node [] [task_node "echo" [("retry_schedule"%string, "twice"%string)] []] []]]).

Definition ex_retry_task : node_ref := default 1%positive (head (all_tasks ex_retry_workflow)).
Definition ex_retry_root : node_ref := default 1%positive (root ex_retry_workflow).
Definition ex_schedule : node_ref :=
  default 1%positive (head (child_path ["schedules"; "schedule"]%string ex_retry_workflow [ex_retry_root])).
Definition ex_level_nodes : list node_ref :=
  child_path ["level"%string] ex_retry_workflow [ex_schedule].

#[local] Existing Instance TreeDom_attributes.

(** The concrete documents evaluate the expressions of a schedule alike
    whatever the attributes of the retries are. *)
Lemma TreeDom_evaluate_set name (d : doc) t a v e ctx :
  a ∈ retry_attributes -> schedule_expression name e ->
  tree_evaluate e ctx (set_attrs (<[(t, a) := v]> (attrs d)) d) = tree_evaluate e ctx d.
Proof.
  intros Ha [-> |[-> |[k ->]]]; [|reflexivity|reflexivity].
  change (Some (nodes (selected (set_attrs (<[(t, a) := v]> (attrs d)) d)
            (child_path ["schedules"; "schedule"]%string d [ctx]) "name" "schedules/schedule[@name='"
            ("schedules/schedule[@name='" +:+ name +:+ "']") "']")) =
          Some (nodes (selected d (child_path ["schedules"; "schedule"]%string d [ctx]) "name"
            "schedules/schedule[@name='" ("schedules/schedule[@name='" +:+ name +:+ "']") "']"))).
  do 2 f_equal. apply list_filter_iff. intros n.
  assert (attr (set_attrs (<[(t, a) := v]> (attrs d)) d) n "name" = attr d n "name") as ->; [|reflexivity].
  unfold attr. cbn [attrs set_attrs]. apply lookup_insert_ne.
  unfold retry_attributes in Ha. set_solver.
Qed.

Lemma ex_has_schedule :
  has_schedule ex_retry_task ex_retry_root ex_schedule "twice" ex_levels ex_level_nodes ex_retry_workflow.
Proof.
  split.
  - reflexivity.
  - eexists. split; [vm_compute; reflexivity|reflexivity].
  - eexists _, _. split; [vm_compute; reflexivity|vm_compute; reflexivity].
  - intros [|[|k]] n E; vm_compute in E; simplify_eq; eexists; (split; [vm_compute; reflexivity|reflexivity]).
  - vm_compute. repeat constructor; eexists; split; vm_compute; reflexivity.
  - apply (bool_decide_unpack _). vm_compute. exact I.
  - reflexivity.
  - reflexivity.
Qed.

Lemma retry_schedule_plan_witness :
  failures ex_format_time ex_retry_task ex_retry_root ex_schedule "twice" ex_levels ex_level_nodes
    (ex_world ex_retry_workflow) [RetryIn 30; RetryIn 30; RetryIn 600; CountError].
Proof.
  apply (retry_schedule_plan ex_format_time ex_retry_task ex_retry_root ex_schedule "twice" ex_levels
           ex_level_nodes).
  - intros d a v e ctx. apply TreeDom_evaluate_set.
  - unfold strlen. simpl. lia.
  - repeat constructor; simpl; lia.
  - simpl. lia.
  - done.
  - apply ex_has_schedule.
  - reflexivity.
Defined.
