(* ===== verification/WorkflowResume.v ===== *)
(** A task that waits for a retry when the engine stops: [Resume] finds it
    TERMINATED in the savepoint and calls [retry_task] again, which takes one more
    of its retries. *)

From S2P Require Import Prelude CString Configuration Dom TreeDom Task WorkflowInstance WorkflowExamples.

Open Scope Z_scope.

Section resume.
Context {D : Type} `{DomAttributes D}.
Context (known_queue : string -> bool).
Context (format_time : Z -> string).
Context (t : node_ref).
Implicit Types (w : world (D := D)) (d : D).

(** A failed task with its own number of retries, [n] of which are left. *)
Record failed_task (delay n : Z) d : Prop := {
  ft_status : getNamedItem d t "status" = Some "TERMINATED"%string;
  ft_retval : exists r, getNamedItem d t "retval" = Some r /\ r <> "0"%string;
  ft_schedule : getNamedItem d t "retry_schedule" = None;
  ft_level : getNamedItem d t "retry_schedule_level" = None;
  ft_any : getNamedItem d t "retry_retval" = None;
  ft_delay : getNamedItem d t "retry_delay" = Some (sprintf_d delay);
  ft_times : getNamedItem d t "retry_times" = Some (sprintf_d n);
}.

(** What the retry leaves in the document. *)
Definition retried (delay n time : Z) d : D :=
  setAttribute t "retry_times" (sprintf_d (n - 1)) (setAttribute t "retry_at" (format_time (time + delay)) d).

Lemma failed_task_retried delay n time d : failed_task delay n d -> failed_task delay (n - 1) (retried delay n time d).
Proof.
  intros [? ? ? ? ? ? ?]. unfold retried.
  split; rewrite ?getNamedItem_set_eq, ?getNamedItem_set_ne by congruence; try done.
Qed.

Definition counted_error w : world := set_wi (set_error_tasks (u32 (error_tasks (wi w) + 1)) (wi w)) w.

Definition inserted delay n w : world :=
  let i := set_xmldoc (retried delay n (time w) (xmldoc (wi w))) (wi w) in
  mkWorld (set_retrying_tasks (u32 (retrying_tasks i + 1)) i) (InsertTask t (time w + delay) :: effects w) (db_results w) (time w).

Lemma retry_task_run delay n w :
  0 < delay < 2 ^ 31 -> 0 <= n < 2 ^ 31 -> failed_task delay n (xmldoc (wi w)) ->
  retry_task format_time t w = Ok tt (if n =? 0 then counted_error w else inserted delay n w).
Proof.
  intros Hd Hn [? ? Es El Ea Ed Et]. unfold retry_task.
  rewrite (bind_run _ _ w None w) by (unfold get_named, ask, gets; by rewrite Es).
  rewrite (bind_run _ _ w None w) by (unfold get_named, ask, gets; by rewrite El). cbv beta iota.
  rewrite (bind_run _ _ w 0 w) by done. unfold retry_parameters.
  rewrite (bind_run _ _ w (Some (delay, n)) w).
  2:{ rewrite (bind_run _ _ w (Some (sprintf_d delay)) w) by (unfold get_named, ask, gets; by rewrite Ed). cbv beta iota.
      rewrite (bind_run _ _ w delay w) by (unfold parse_int; by rewrite parseInt_sprintf by lia).
      rewrite (bind_run _ _ w (Some (sprintf_d n)) w) by (unfold get_named, ask, gets; by rewrite Et). cbv beta iota.
      by rewrite (bind_run _ _ w n w) by (unfold parse_int; by rewrite parseInt_sprintf by lia). }
  cbv beta iota. rewrite (bind_run _ _ w (delay, n) w) by done. cbv beta iota. unfold do_retry.
  rewrite (proj2 (Z.eqb_neq delay 0)) by lia. cbn [orb]. destruct (Z.eqb_spec n 0) as [->|Hne]; [done|].
  rewrite (bind_run _ _ w true w).
  2:{ unfold retval_matches. by rewrite (bind_run _ _ w None w) by (unfold get_named, ask, gets; by rewrite Ea). }
  cbv beta iota. rewrite (bind_run _ _ w (time w) w) by done.
  erewrite bind_run by done. erewrite bind_run.
  2:{ unfold int. assert (((- 2 ^ 31 <=? n - 1) && (n - 1 <? 2 ^ 31))%Z = true) as -> by lia. done. }
  done.
Qed.

(** C39: A task that waits for a retry when the engine stops loses one of
    its retries: the savepoint holds what retry_task left, and Resume calls
    retry_task on it again, which counts an error and retries nothing when
    the pending retry was the last one. *)
Theorem resume_takes_a_retry delay n w :
  0 < delay < 2 ^ 31 -> 0 < n < 2 ^ 31 -> failed_task delay n (xmldoc (wi w)) -> exists w1 w2,
  retry_task format_time t w = Ok tt w1 /\
  effects w1 = InsertTask t (time w + delay) :: effects w /\ failed_task delay (n - 1) (xmldoc (wi w1)) /\
  resume_task known_queue format_time t w1 = Ok tt w2 /\
  if n =? 1 then effects w2 = effects w1 /\ error_tasks (wi w2) = u32 (error_tasks (wi w1) + 1)
  else effects w2 = InsertTask t (time w + delay) :: effects w1 /\ failed_task delay (n - 2) (xmldoc (wi w2)).
Proof.
  intros Hd Hn Hf. pose proof (retry_task_run delay n w Hd ltac:(lia) Hf) as E1. rewrite (proj2 (Z.eqb_neq n 0)) in E1 by lia.
  assert (failed_task delay (n - 1) (xmldoc (wi (inserted delay n w)))) as Hf1 by (by apply failed_task_retried).
  pose proof (retry_task_run delay (n - 1) (inserted delay n w) Hd ltac:(lia) Hf1) as E2.
  exists (inserted delay n w), (if n =? 1 then counted_error (inserted delay n w) else inserted delay (n - 1) (inserted delay n w)).
  split; [done|]. split; [done|]. split; [done|]. split.
  - assert ((n - 1 =? 0) = (n =? 1)) as <- by lia. rewrite <- E2. set (w1 := inserted delay n w) in *.
    destruct Hf1 as [Es (r & Er & Hr) _ _ _ _ _]. unfold resume_task.
    rewrite (bind_run _ _ w1 "TERMINATED"%string w1) by (unfold get_attr, ask, gets, getAttribute; by rewrite Es).
    rewrite !bool_decide_false by done. rewrite bool_decide_true by done.
    rewrite (bind_run _ _ w1 r w1) by (unfold get_attr, ask, gets, getAttribute; by rewrite Er). by rewrite bool_decide_false.
  - destruct (Z.eqb_spec n 1); [done|]. split; [done|]. replace (n - 2) with (n - 1 - 1) by lia. by apply failed_task_retried.
Qed.
End resume.

(** A task whose only retry is pending. *)
Definition ex_failed : doc :=
  to_doc (task_node "echo" [("status", "TERMINATED"); ("retval", "3"); ("retry_delay", "30"); ("retry_times", "1")]%string []).

Lemma resume_takes_a_retry_witness : exists w1 w2,
  retry_task ex_format_time 1%positive (ex_world ex_failed) = Ok tt w1 /\ List.length (effects w1) = 1%nat /\
  resume_task ex_known_queue ex_format_time 1%positive w1 = Ok tt w2 /\ List.length (effects w2) = 1%nat.
Proof.
  destruct (@resume_takes_a_retry doc ex_dom (TreeDom_attributes ex_library) ex_known_queue ex_format_time 1%positive 30 1
    (ex_world ex_failed)) as (w1 & w2 & E1 & F1 & _ & E2 & F2 & _).
  - lia.
  - lia.
  - split; try (vm_compute; reflexivity). exists "3"%string. split; [vm_compute; reflexivity|discriminate].
  - exists w1, w2. split; [exact E1|]. split; [rewrite F1; reflexivity|]. split; [exact E2|]. rewrite F2, F1. reflexivity.
Defined.

(** [//task] also finds the elements of that name in the output of a task, and
    [Resume] puts them in a queue. *)
Definition ex_output_task : doc :=
  to_doc (Elem "workflow" []
    [Elem "subjobs" [] [job_node [] [task_node "lister" [("status", "TERMINATED"); ("retval", "0")]%string
      [Elem "output" [("retval", "0"); ("method", "xml")]%string
        [task_node "echo" [("status", "QUEUED")]%string []]]] []]]).

Example resume_queues_an_output :
  match Resume ex_known_queue ex_format_time (ex_world ex_output_task) with
  | Ok _ w => omap (fun e => match e with
                             | EnqueueTask _ n => p ← parents ex_output_task !! n; tags ex_output_task !! p
                             | _ => None
                             end) (effects w) = ["output"%string]
  | _ => False
  end.
Proof. vm_compute. reflexivity. Qed.
