(* ===== verification/WorkflowOrder.v ===== *)
(** The order of the jobs of a workflow without conditions and loops: the jobs
    below a job start when, and only when, all its tasks have succeeded; and the
    [status] attribute of a task says who holds it. *)

From S2P Require Import Prelude CString Configuration Dom Task WorkflowInstance WorkflowShape WorkflowProgress.

Open Scope Z_scope.

Section order.
Context {D : Type} `{WorkflowDomLaws D} `{!DomAttributes D}.
Context (known_queue : string -> bool).
Context (GetTask : string -> option Task).
Context (format_time : Z -> string).
Context (engine_env : string -> option string).
Context (configuration : Configuration).
Context (S : shape).
Implicit Types (w : world (D := D)) (d : D) (t j p : node_ref).

Definition doc w : D := xmldoc (wi w).

(** No condition, no loop; exit statuses are those that the program wrote. *)
Record good d : Prop := {
  good_shows : shows S d;
  good_jobs j : j ∈ sjobs S -> getNamedItem d j "condition" = None /\ getNamedItem d j "loop" = None;
  good_tasks t : is_task S t -> getNamedItem d t "loop" = None /\ printed_retval d t;
}.

(** The calls that give a task to the rest of the program. *)
Definition calls (es : list effect) : list node_ref := enqueued es ++ resumed es ++ inserted es.

Lemma calls_app a b : calls (a ++ b) = [] <-> calls a = [] /\ calls b = [].
Proof.
  unfold calls. rewrite enqueued_app, resumed_app, inserted_app. split.
  - intros (E1 & (E2 & E3)%app_nil)%app_nil.
    apply app_nil in E1 as [-> ->]. apply app_nil in E2 as [-> ->]. by apply app_nil in E3 as [-> ->].
  - by intros [[-> [-> ->]%app_nil]%app_nil [-> [-> ->]%app_nil]%app_nil].
Qed.

(** From [w] to [w'] the effects [es] happen, and only the tasks of [U] change
    their state. *)
Record does (U : gset node_ref) w w' (es : list effect) : Prop := {
  do_good : good (doc w');
  do_same t : is_task S t -> t ∉ U -> status_of (doc w') t = status_of (doc w) t /\ retval_of (doc w') t = retval_of (doc w) t;
  do_effects : effects w' = es ++ effects w;
}.

Lemma does_refl w : good (doc w) -> does ∅ w w [].
Proof. by split. Qed.

(** Changes outside of the document. *)
Lemma does_doc w w' es : good (doc w) -> doc w' = doc w -> effects w' = es ++ effects w -> does ∅ w w' es.
Proof. intros G E Ee. split; rewrite ?E; done. Qed.

Lemma does_trans U1 U2 w1 w2 w3 es1 es2 :
  does U1 w1 w2 es1 -> does U2 w2 w3 es2 -> does (U1 ∪ U2) w1 w3 (es2 ++ es1).
Proof.
  intros [G1 S1 E1] [G2 S2 E2]. split; [done| |by rewrite E2, E1, app_assoc].
  intros t Ht Hn. destruct (S1 t Ht) as [<- <-]; [set_solver|]. apply S2; [done|set_solver].
Qed.

Lemma does_weaken U U' w w' es : does U w w' es -> U ⊆ U' -> does U' w w' es.
Proof. intros [G Sa E] Hs. split; [done| |done]. intros t Ht Hn. apply Sa; [done|set_solver]. Qed.

(** * Programs that leave the tasks alone *)

Definition still w w' : Prop := exists es, does ∅ w w' es /\ calls es = [].

Lemma still_refl w : good (doc w) -> still w w.
Proof. exists []. split; [by apply does_refl|done]. Qed.

Lemma still_trans w1 w2 w3 : still w1 w2 -> still w2 w3 -> still w1 w3.
Proof.
  intros (es1 & D1 & C1) (es2 & D2 & C2). exists (es2 ++ es1). split; [|by apply calls_app].
  apply (does_weaken (∅ ∪ ∅)); [by eapply does_trans|set_solver].
Qed.

Lemma still_good w w' : still w w' -> good (doc w').
Proof. by intros (es & D1 & _); apply D1. Qed.

Lemma still_status w w' t :
  still w w' -> is_task S t -> status_of (doc w') t = status_of (doc w) t /\ retval_of (doc w') t = retval_of (doc w) t.
Proof. intros (es & D1 & _) Ht. apply (do_same _ _ _ _ D1 t Ht). set_solver. Qed.

Definition quiet {A} (m : M A) : Prop :=
  forall w, good (doc w) -> match m w with Ok _ w' | Exn _ w' => still w w' | Crash => True end.

Lemma quiet_refl {A} (m : M A) :
  (forall w, m w = Crash \/ (exists x, m w = Ok x w) \/ (exists e, m w = Exn e w)) -> quiet m.
Proof.
  intros Hm w Hw. destruct (Hm w) as [->|[[x ->]|[e ->]]]; [done|..]; by apply still_refl.
Qed.

Lemma quiet_ret {A} (x : A) : quiet (mret x).
Proof. apply quiet_refl. eauto. Qed.
Lemma quiet_throw {A} e : quiet (throw e : M A).
Proof. apply quiet_refl. unfold throw. eauto. Qed.
Lemma quiet_crash {A} : quiet (crash : M A).
Proof. apply quiet_refl. eauto. Qed.
Lemma quiet_gets {A} (f : WorkflowInstance -> A) : quiet (gets f).
Proof. apply quiet_refl. unfold gets. eauto. Qed.
Lemma quiet_time : quiet (get_time : M Z).
Proof. apply quiet_refl. unfold get_time. eauto. Qed.
Lemma quiet_fuel : quiet (query_fuel : M nat).
Proof. apply quiet_refl. unfold query_fuel. eauto. Qed.

Lemma quiet_bind {A B} (m : M A) (k : A -> M B) : quiet m -> (forall x, quiet (k x)) -> quiet (m ≫= k).
Proof.
  intros Hm Hk w Hw. specialize (Hm w Hw). unfold mbind, M_bind. destruct (m w) as [x w1|e w1|]; [|done|done].
  specialize (Hk x w1 (still_good _ _ Hm)). destruct (k x w1) as [y w2|e w2|]; [..|done]; by eapply still_trans.
Qed.

Lemma quiet_try {A} (m : M A) h : quiet m -> (forall e, quiet (h e)) -> quiet (try_catch m h).
Proof.
  intros Hm Hh w Hw. specialize (Hm w Hw). unfold try_catch. destruct (m w) as [x w1|e w1|]; [done| |done].
  specialize (Hh e w1 (still_good _ _ Hm)). destruct (h e w1) as [y w2|e' w2|]; [..|done]; by eapply still_trans.
Qed.

(** Changes of the fields other than the document. *)
Lemma quiet_modify f : (forall i, xmldoc (f i) = xmldoc i) -> quiet (modify f).
Proof.
  intros Hf w Hw. exists []. split; [|done]. split; unfold doc in *; cbn; [by rewrite Hf| |done].
  intros t _ _. by rewrite Hf.
Qed.

Lemma quiet_emit e : calls [e] = [] -> quiet (emit e).
Proof. intros Hc w Hw. exists [e]. by split. Qed.

Lemma quiet_db q : quiet (db_query q).
Proof.
  intros w Hw. unfold db_query. destruct (db_results w) as [|[] r];
    [exists [Query q true]|exists [Query q true]|exists [Query q false]]; by split.
Qed.

Lemma quiet_connect : quiet db_connect.
Proof. intros w Hw. unfold db_connect. destruct (db_results w) as [|[] r]; exists []; by split. Qed.

(** Attributes that no theorem here depends on. *)
Definition free_attribute (a : string) : bool :=
  negb (bool_decide (a ∈ ["loop"; "condition"; "status"; "retval"]%string)).

Lemma free_attribute_ne a b : free_attribute a = true -> free_attribute b = false -> a <> b.
Proof. congruence. Qed.

Lemma good_set d n a v :
  good d -> free_attribute a = true \/ ~ is_task S n /\ (a = "status" \/ a = "retval")%string ->
  good (setAttribute n a v d) /\
  forall t, is_task S t -> status_of (setAttribute n a v d) t = status_of d t /\
                           retval_of (setAttribute n a v d) t = retval_of d t.
Proof.
  intros [G1 G2 G3] Ha.
  assert (forall m b, b = "loop"%string \/ b = "condition"%string -> (n, a) <> (m, b)) as Hl.
  { intros m b Hb [= -> <-]. destruct Ha as [Ha|[_ Ha]]; [|naive_solver]. by destruct Hb as [-> | ->]. }
  assert (forall m b, is_task S m -> b = "status"%string \/ b = "retval"%string -> (n, a) <> (m, b)) as Ht.
  { intros m b Hm Hb [= -> <-]. destruct Ha as [Ha|[Hn _]]; [|done]. by destruct Hb as [-> | ->]. }
  unfold status_of, retval_of. split.
  - split.
    + by apply shows_set.
    + intros j Hj. rewrite !getNamedItem_set_ne by (apply Hl; auto). by apply G2.
    + intros t Hit. unfold printed_retval, retval_of. rewrite !getNamedItem_set_ne by (first [apply Hl; by auto|apply Ht; by auto]).
      by apply G3.
  - intros t Hit. by rewrite !getNamedItem_set_ne by (apply Ht; auto).
Qed.

Lemma quiet_set_attr n a v :
  free_attribute a = true \/ ~ is_task S n /\ (a = "status" \/ a = "retval")%string -> quiet (set_attr n a v).
Proof.
  intros Ha w Hw. exists []. destruct (good_set (doc w) n a v Hw Ha) as [G Sa]. split; [|done]. split; [done| |done].
  intros t Ht _. by apply Sa.
Qed.

Lemma quiet_remove n a : free_attribute a = true -> quiet (dom (removeAttribute n a)).
Proof.
  intros Ha w [G1 G2 G3]. exists []. split; [|done].
  assert (forall m b, free_attribute b = false -> getNamedItem (removeAttribute n a (doc w)) m b = getNamedItem (doc w) m b) as Hr.
  { intros m b Hb. apply removeAttribute_ne. intros [= -> ->]. congruence. }
  split; [| |done]; unfold doc, status_of, retval_of, printed_retval in *; cbn.
  - split.
    + apply shows_remove; [done|]. intros ->. done.
    + intros j Hj. rewrite !Hr by done. by apply G2.
    + intros t Ht. unfold printed_retval, retval_of. rewrite !Hr by done. by apply G3.
  - intros t Ht _. by rewrite !Hr.
Qed.

#[local] Hint Resolve quiet_ret quiet_throw quiet_crash quiet_gets quiet_time quiet_fuel quiet_db : core.
#[local] Hint Extern 1 (quiet (emit _)) => by apply quiet_emit : core.
#[local] Hint Extern 1 (quiet (set_attr _ _ _)) => by apply quiet_set_attr; left : core.
#[local] Hint Extern 1 (quiet (dom (removeAttribute _ _))) => by apply quiet_remove : core.
#[local] Hint Extern 1 (quiet inc_errors) => by apply quiet_modify : core.
#[local] Hint Extern 1 (quiet inc_retrying) => by apply quiet_modify : core.
#[local] Hint Extern 1 (quiet inc_running) => by apply quiet_modify : core.
#[local] Hint Extern 1 (quiet dec_retrying) => by apply quiet_modify : core.
#[local] Hint Extern 1 (quiet dec_running) => by apply quiet_modify : core.

(** Follows a program to the operations that are known. *)
Ltac calm :=
  try solve [auto];
  lazymatch goal with
  | |- quiet (mbind _ _) => apply quiet_bind; [calm|intros; calm]
  | |- quiet (try_catch _ _) => apply quiet_try; [calm|intros; calm]
  | |- quiet (match ?x with _ => _ end) => destruct x eqn:?; calm
  | |- quiet (when ?b _) => unfold when; calm
  | |- quiet (let '(_, _) := ?x in _) => destruct x; calm
  | |- _ => idtac
  end.

Lemma quiet_nonnull {A} (o : option A) : quiet (nonnull o).
Proof. destruct o; simpl; auto. Qed.
Lemma quiet_int z : quiet (int z).
Proof. unfold int. calm. Qed.
Lemma quiet_sprintf n s : quiet (sprintf n s).
Proof. unfold sprintf. calm. Qed.
Lemma quiet_ask {A} (f : D -> A) : quiet (ask f).
Proof. apply quiet_gets. Qed.
Lemma quiet_node_value i : quiet (node_value i).
Proof. destruct i; simpl; auto. Qed.
#[local] Hint Resolve quiet_nonnull quiet_int quiet_sprintf quiet_ask quiet_node_value : core.

Lemma quiet_parse_int s : quiet (parse_int s).
Proof. unfold parse_int. auto. Qed.
Lemma quiet_named n a : quiet (get_named n a).
Proof. apply quiet_ask. Qed.
Lemma quiet_attr n a : quiet (get_attr n a).
Proof. apply quiet_ask. Qed.
Lemma quiet_element : quiet document_element.
Proof. unfold document_element. calm. Qed.
Lemma quiet_eval e n : quiet (eval e n).
Proof. unfold eval, try_eval. calm. Qed.
#[local] Hint Resolve quiet_parse_int quiet_named quiet_attr quiet_element quiet_eval : core.

Lemma quiet_eval_integer e n : quiet (eval_integer e n).
Proof. unfold eval_integer. calm. Qed.
Lemma quiet_datetime : quiet (format_datetime format_time).
Proof. unfold format_datetime. calm. Qed.
#[local] Hint Resolve quiet_eval_integer quiet_datetime : core.

Lemma quiet_schedule_update t s : quiet (schedule_update t s).
Proof. unfold schedule_update. calm. Qed.
#[local] Hint Resolve quiet_schedule_update : core.
Lemma quiet_retry_parameters t rs l : quiet (retry_parameters t rs l).
Proof. unfold retry_parameters. calm. Qed.
Lemma quiet_retval_matches t : quiet (retval_matches t).
Proof. unfold retval_matches. calm. Qed.
#[local] Hint Resolve quiet_retry_parameters quiet_retval_matches : core.

Lemma quiet_savepoint_loop fuel q n : quiet (savepoint_loop fuel q n).
Proof. revert n. induction fuel as [|fuel IH]; intros n; cbn [savepoint_loop]; unfold savepoint_again; calm. Qed.
#[local] Hint Resolve quiet_savepoint_loop : core.
Lemma quiet_record_savepoint force : quiet (record_savepoint format_time force).
Proof. unfold record_savepoint, write_savepoint, savepoint_query. calm. Qed.
#[local] Hint Resolve quiet_record_savepoint : core.

Lemma quiet_kill_each pid ts : quiet (kill_each pid ts).
Proof. induction ts as [|i ts IH]; cbn [kill_each]; calm. Qed.
#[local] Hint Resolve quiet_kill_each : core.
Lemma quiet_KillTask pid : quiet (KillTask pid).
Proof. unfold KillTask. calm. Qed.

Lemma quiet_read_parameters ps : quiet (read_parameters ps).
Proof. induction ps; simpl; calm. Qed.
Lemma quiet_read_stdin t : quiet (read_stdin t).
Proof. unfold read_stdin. calm. Qed.
Lemma quiet_get_config e : quiet (get_config configuration e).
Proof. unfold get_config. calm. Qed.
#[local] Hint Resolve quiet_read_parameters quiet_read_stdin quiet_get_config : core.
Lemma quiet_ssh_env task env : quiet (ssh_env engine_env configuration task env).
Proof. unfold ssh_env. calm. Qed.
#[local] Hint Resolve quiet_ssh_env : core.
Lemma quiet_child task tid ps i : quiet (child engine_env configuration task tid ps i).
Proof. unfold child. calm. Qed.
#[local] Hint Resolve quiet_child : core.

(** * What a program does when it returns *)

Definition runs {A} (m : M A) w (Q : A -> world (D := D) -> Prop) : Prop :=
  match m w with Ok x w' => Q x w' | Exn _ _ => False | Crash => True end.

(** The same of a program that may throw. *)
Definition returns {A} (m : M A) w (Q : A -> world (D := D) -> Prop) : Prop :=
  match m w with Ok x w' => Q x w' | _ => True end.

Lemma runs_bind {A B} (m : M A) (k : A -> M B) w Q : runs m w (fun x w1 => runs (k x) w1 Q) -> runs (m ≫= k) w Q.
Proof. unfold runs, mbind, M_bind. by destruct (m w). Qed.
Lemma returns_bind {A B} (m : M A) (k : A -> M B) w Q : returns m w (fun x w1 => returns (k x) w1 Q) -> returns (m ≫= k) w Q.
Proof. unfold returns, mbind, M_bind. by destruct (m w). Qed.

Lemma runs_mono {A} (m : M A) w (P Q : A -> world -> Prop) : runs m w P -> (forall x w', P x w' -> Q x w') -> runs m w Q.
Proof. unfold runs. destruct (m w); auto. Qed.
Lemma returns_mono {A} (m : M A) w (P Q : A -> world -> Prop) : returns m w P -> (forall x w', P x w' -> Q x w') -> returns m w Q.
Proof. unfold returns. destruct (m w); auto. Qed.
Lemma runs_returns {A} (m : M A) w Q : runs m w Q -> returns m w Q.
Proof. unfold runs, returns. by destruct (m w). Qed.

(** A handler is not reached. *)
Lemma runs_try {A} (m : M A) h w Q : runs m w Q -> runs (try_catch m h) w Q.
Proof. unfold runs, try_catch. by destruct (m w). Qed.

Lemma returns_quiet {A} (m : M A) w (Q : A -> world -> Prop) :
  quiet m -> good (doc w) -> (forall x w', still w w' -> Q x w') -> returns m w Q.
Proof. intros Hm Hw HQ. specialize (Hm w Hw). unfold returns. destruct (m w); auto. Qed.

Lemma runs_ask {A} (f : D -> A) w (Q : A -> world -> Prop) : Q (f (doc w)) w -> runs (ask f) w Q.
Proof. done. Qed.
Lemma runs_eval e n w r (Q : _ -> world -> Prop) : evaluate e n (doc w) = Some r -> Q r w -> runs (eval e n) w Q.
Proof. intros E HQ. unfold eval, try_eval. apply runs_bind, runs_ask. by rewrite E. Qed.
Lemma runs_eval_integer e n w i r z (Q : _ -> world -> Prop) :
  evaluate e n (doc w) = Some (i :: r) -> getIntegerValue (doc w) i = Some z -> Q z w -> runs (eval_integer e n) w Q.
Proof.
  intros E Ei HQ. unfold eval_integer. apply runs_bind. eapply runs_eval; [done|]. apply runs_bind. cbn.
  apply runs_bind, runs_ask. by rewrite Ei.
Qed.

(** ** Starting tasks

    The tasks [ts], which were all waiting, are put in a queue once or aborted;
    nothing else is touched. *)
Record starts (ts : list node_ref) w w' (es : list effect) : Prop := {
  st_does : does (list_to_set ts) w w' es;
  st_calls : resumed es = [] /\ inserted es = [];
  st_nodup : NoDup (enqueued es);
  st_in t : t ∈ enqueued es <-> t ∈ ts /\ status_of (doc w') t = Some "QUEUED"%string;
  st_status t : t ∈ ts ->
    (status_of (doc w') t = Some "QUEUED" \/ status_of (doc w') t = Some "ABORTED")%string /\
    retval_of (doc w') t = retval_of (doc w) t;
}.

Lemma starts_nil w : good (doc w) -> starts [] w w [].
Proof. intros Hw. split; [by apply does_refl|done|constructor| |]; set_solver. Qed.

Lemma starts_app ts1 ts2 w1 w2 w3 es1 es2 :
  Forall (is_task S) (ts1 ++ ts2) -> (forall t, t ∈ ts1 -> t ∉ ts2) ->
  starts ts1 w1 w2 es1 -> starts ts2 w2 w3 es2 -> starts (ts1 ++ ts2) w1 w3 (es2 ++ es1).
Proof.
  intros [T1 T2]%Forall_app Hd [D1 [R1 I1] N1 E1 S1] [D2 [R2 I2] N2 E2 S2]. rewrite Forall_forall in T1, T2.
  assert (forall t, t ∈ ts1 -> status_of (doc w3) t = status_of (doc w2) t /\ retval_of (doc w3) t = retval_of (doc w2) t) as K2.
  { intros t Ht. apply (do_same _ _ _ _ D2); [auto|]. rewrite elem_of_list_to_set. auto. }
  assert (forall t, t ∈ ts2 -> status_of (doc w2) t = status_of (doc w1) t /\ retval_of (doc w2) t = retval_of (doc w1) t) as K1.
  { intros t Ht. apply (do_same _ _ _ _ D1); [auto|]. rewrite elem_of_list_to_set. intros ?. by eapply Hd. }
  split.
  - rewrite list_to_set_app_L. by eapply does_trans.
  - by rewrite resumed_app, inserted_app, R1, R2, I1, I2.
  - rewrite enqueued_app. apply NoDup_app. split; [done|]. split; [|done]. intros t [? _]%E2 [? _]%E1. by eapply Hd.
  - intros t. rewrite enqueued_app, !elem_of_app, E1, E2. split.
    + intros [[Ht Es]|[Ht Es]]; [auto|]. rewrite (proj1 (K2 t Ht)). auto.
    + intros [[Ht|Ht] Es]; [right; rewrite <- (proj1 (K2 t Ht))|left]; auto.
  - intros t [Ht|Ht]%elem_of_app.
    + rewrite (proj1 (K2 t Ht)), (proj2 (K2 t Ht)). auto.
    + rewrite <- (proj2 (K1 t Ht)). auto.
Qed.

Lemma set_status t v w :
  good (doc w) -> is_task S t ->
  does {[t]} w (set_wi (set_xmldoc (setAttribute t "status" v (doc w)) (wi w)) w) [] /\
  status_of (setAttribute t "status" v (doc w)) t = Some v /\
  retval_of (setAttribute t "status" v (doc w)) t = retval_of (doc w) t.
Proof.
  intros [G1 G2 G3] Ht. unfold status_of, retval_of. rewrite getNamedItem_set_eq, getNamedItem_set_ne by congruence.
  split; [|done]. split; [| |done]; unfold doc, status_of, retval_of, printed_retval in *; cbn.
  - split.
    + by apply shows_set.
    + intros j Hj. rewrite !getNamedItem_set_ne by congruence. by apply G2.
    + intros t' Ht'. unfold printed_retval, retval_of. rewrite !getNamedItem_set_ne by congruence. by apply G3.
  - intros t' Ht' Hn. assert (t <> t') by set_solver. by rewrite !getNamedItem_set_ne by congruence.
Qed.

(** The attributes of a task are [v] and [r] now, and nothing was called. *)
Definition marked t (v : string) (r : option string) w w' : Prop :=
  exists es, does {[t]} w w' es /\ calls es = [] /\ status_of (doc w') t = Some v /\ retval_of (doc w') t = r.

Lemma marked_good t v r w w' : marked t v r w w' -> good (doc w').
Proof. by intros (es & D1 & _); apply D1. Qed.

Lemma marked_still t v r w w1 w2 : is_task S t -> marked t v r w w1 -> still w1 w2 -> marked t v r w w2.
Proof.
  intros Ht (es1 & D1 & C1 & St & Rt) St2. destruct (still_status _ _ t St2 Ht) as [E1 E2].
  destruct St2 as (es & D2 & C2). exists (es ++ es1). split; [|split; [by apply calls_app|]].
  - apply (does_weaken ({[t]} ∪ ∅)); [by eapply does_trans|set_solver].
  - by rewrite E1, E2.
Qed.

Lemma marked_twice t v1 r1 v2 r2 w w1 w2 : marked t v1 r1 w w1 -> marked t v2 r2 w1 w2 -> marked t v2 r2 w w2.
Proof.
  intros (es1 & D1 & C1 & _) (es2 & D2 & C2 & E2 & R2). exists (es2 ++ es1). split; [|split; [by apply calls_app|done]].
  eapply does_weaken; [by eapply does_trans|]. set_solver.
Qed.

Lemma marked_before t v r w w1 w2 : still w w1 -> marked t v r w1 w2 -> marked t v r w w2.
Proof.
  intros (es1 & D1 & C1) (es2 & D2 & C2 & E2 & R2). exists (es2 ++ es1). split; [|split; [by apply calls_app|done]].
  apply (does_weaken (∅ ∪ {[t]})); [by eapply does_trans|set_solver].
Qed.

Lemma runs_mark t v w :
  good (doc w) -> is_task S t -> runs (set_attr t "status" v) w (fun _ => marked t v (retval_of (doc w) t) w).
Proof. intros Hw Ht. destruct (set_status t v w Hw Ht) as (Dw & Es & Er). exists []. by split. Qed.

Lemma runs_quiet_last {A} (m : M A) w (P : A -> world -> Prop) :
  quiet m -> good (doc w) -> (forall e w', m w <> Exn e w') -> (forall x w', still w w' -> P x w') -> runs m w P.
Proof.
  intros Hm Hw Hn HP. specialize (Hm w Hw). unfold runs. destruct (m w) as [x w'|e w'|] eqn:E; [auto| |done].
  by destruct (Hn e w').
Qed.

Lemma abort_task_marks t why w :
  good (doc w) -> is_task S t -> runs (abort_task t why) w (fun _ => marked t "ABORTED" (retval_of (doc w) t) w).
Proof.
  intros Hw Ht. apply runs_bind. eapply runs_mono; [by apply runs_mark|]. intros [] w1 M1.
  apply runs_quiet_last; [auto|by eapply marked_good|done|]. intros x w2 S2. by eapply marked_still.
Qed.

Lemma calls_nil es : calls es = [] -> enqueued es = [] /\ resumed es = [] /\ inserted es = [].
Proof. unfold calls. intros (-> & (-> & ->)%app_nil)%app_nil. done. Qed.

Lemma marked_starts t w w' :
  is_task S t -> marked t "ABORTED" (retval_of (doc w) t) w w' -> exists es, starts [t] w w' es.
Proof.
  intros Ht (es & Dm & C & Es & Er). apply calls_nil in C as (C1 & C2 & C3). exists es. split.
  - eapply does_weaken; [done|]. set_solver.
  - done.
  - rewrite C1. constructor.
  - intros t'. rewrite C1, list_elem_of_singleton. split; [by intros ?%not_elem_of_nil|]. intros [-> E]. congruence.
  - intros t' ->%list_elem_of_singleton. auto.
Qed.

Lemma enqueue_task_starts t w :
  good (doc w) -> is_task S t -> runs (enqueue_task known_queue t) w (fun _ w' => exists es, starts [t] w w' es).
Proof.
  intros Hw Ht. unfold enqueue_task.
  assert (forall why w0, good (doc w0) -> retval_of (doc w0) t = retval_of (doc w) t ->
    (forall v r w1, marked t v r w0 w1 -> marked t v r w w1) ->
    runs (_ ← abort_task t why; inc_errors) w0 (fun _ w' => exists es, starts [t] w w' es)) as Ab.
  { intros why w0 Hw0 Er Hm. apply runs_bind. eapply runs_mono; [by apply abort_task_marks|]. rewrite Er. intros [] w1 M1%Hm.
    apply runs_quiet_last; [auto|by eapply marked_good|done|]. intros x w2 S2.
    eapply marked_starts; [done|]. by eapply marked_still. }
  apply runs_bind. cbn. destruct (is_cancelling (wi w)); [by apply Ab|].
  apply runs_bind. cbn. apply runs_bind. destruct (getNamedItem _ t "name"); [|done]. cbn.
  apply runs_bind. cbn. apply runs_bind. eapply runs_mono; [by apply runs_mark|]. intros [] w1 M1.
  destruct (known_queue _).
  - destruct M1 as (es1 & D1 & C1 & Es & Er). apply calls_nil in C1 as (C1 & C2 & C3).
    match goal with |- runs (mbind _ (emit ?e)) _ _ =>
      assert (does ∅ w1 (set_wi (set_running_tasks (u32 (running_tasks (wi w1) + 1)) (wi w1))
        (mkWorld (wi w1) (e :: effects w1) (db_results w1) (time w1))) [e]) as D2 by (by apply does_doc; [apply D1|..]);
      exists ([e] ++ es1) end.
    split.
    + eapply does_weaken; [by eapply does_trans|]. set_solver.
    + rewrite resumed_app, inserted_app, C2, C3. done.
    + rewrite enqueued_app, C1. apply NoDup_singleton.
    + intros t'. rewrite enqueued_app, C1. change (t' ∈ [t] <-> t' ∈ [t] /\ status_of (doc w1) t' = Some "QUEUED"%string).
      rewrite list_elem_of_singleton. split; [by intros ->|by intros [-> _]].
    + intros t' ->%list_elem_of_singleton. auto.
  - apply Ab; [by eapply marked_good|by destruct M1 as (? & _ & _ & _ & ?)|]. intros v r w2 M2. by eapply marked_twice.
Qed.

(** ** Starting jobs *)

(** The tasks have not been touched since the workflow began. *)
Definition waiting d (ts : list node_ref) : Prop := forall t, t ∈ ts -> status_of d t = None.

Lemma waiting_after U w w' es ts :
  does U w w' es -> Forall (is_task S) ts -> (forall t, t ∈ ts -> t ∉ U) -> waiting (doc w) ts -> waiting (doc w') ts.
Proof.
  intros Dw F Hn Hw t Ht. rewrite Forall_forall in F. destruct (do_same _ _ _ _ Dw t (F t Ht) (Hn t Ht)) as [-> _]. auto.
Qed.

Lemma replace_value_nothing t ctx w :
  good (doc w) -> is_task S t -> status_of (doc w) t = None -> runs (replace_value t ctx) w (fun _ w' => w' = w).
Proof.
  intros Hw Ht Hs. destruct (shows_values _ _ t (good_shows _ Hw) Ht Hs) as [E1 E2]. unfold replace_value.
  apply runs_bind. eapply runs_eval; [done|]. apply runs_bind. cbn. apply runs_bind. by eapply runs_eval.
Qed.

Lemma run_tasks_starts ctx i ts w :
  good (doc w) -> Forall (is_task S) ts -> NoDup ts -> waiting (doc w) ts ->
  runs (run_tasks known_queue ctx i (INode <$> ts)) w (fun _ w' => exists es, starts ts w w' es).
Proof.
  revert w. induction ts as [|t ts IH]; intros w Hw F N Hwait.
  { exists []. by apply starts_nil. }
  apply Forall_cons in F as [Ht F]. apply NoDup_cons in N as [Hn N].
  assert (status_of (doc w) t = None) as Hs by (apply Hwait; by left).
  cbn [fmap list_fmap run_tasks]. apply runs_bind. cbn. apply runs_bind, runs_ask.
  change (getNamedItem (doc w) t "status") with (status_of (doc w) t). rewrite Hs. rewrite bool_decide_false by done.
  apply runs_bind, runs_ask. rewrite (proj1 (good_tasks _ Hw t Ht)).
  apply runs_bind. eapply runs_mono; [by apply replace_value_nothing|]. intros _ ? ->.
  apply runs_bind. eapply runs_mono; [by apply enqueue_task_starts|]. intros _ w1 (es1 & S1).
  eapply runs_mono; [apply (IH w1)|].
  - apply S1.
  - done.
  - done.
  - eapply (waiting_after _ _ _ _ ts (st_does _ _ _ _ S1) F); [|intros t' ?; apply Hwait; by right].
    intros t' Ht'. rewrite elem_of_list_to_set. set_solver.
  - intros _ w2 (es2 & S2). exists (es2 ++ es1). apply (starts_app [t] ts w w1); [by constructor|set_solver|done|done].
Qed.

Lemma run_starts j ctx w :
  wf_shape S -> j ∈ sjobs S -> good (doc w) -> waiting (doc w) (stasks S j) ->
  runs (run known_queue j ctx) w (fun _ w' => exists es, starts (stasks S j) w w' es).
Proof.
  intros HS Hj Hw Hwait. unfold run. apply runs_bind. eapply runs_eval; [by apply (shows_tasks S); [apply Hw|]|].
  apply run_tasks_starts; [done| |by apply (wf_tasks S)|done].
  apply Forall_forall. intros t Ht. by exists j.
Qed.

Definition tasks_below (js : list node_ref) : list node_ref := js ≫= stasks S.

Lemma tasks_below_tasks js : (forall j, j ∈ js -> j ∈ sjobs S) -> Forall (is_task S) (tasks_below js).
Proof. intros Hj. apply Forall_forall. intros t (j & Ht & Hin)%list_elem_of_bind. exists j. auto. Qed.

Lemma run_each_subjob_starts p i js w :
  wf_shape S -> (forall j, j ∈ js -> j ∈ sjobs S) -> NoDup js -> good (doc w) -> waiting (doc w) (tasks_below js) ->
  runs (run_each_subjob known_queue p i (INode <$> js)) w (fun _ w' => exists es, starts (tasks_below js) w w' es).
Proof.
  intros HS. revert w i. induction js as [|j js IH]; intros w i Hj N Hw Hwait.
  { exists []. by apply starts_nil. }
  apply NoDup_cons in N as [Hn N]. assert (j ∈ sjobs S) as Hjob by (apply Hj; by left).
  assert (forall t, t ∈ stasks S j -> t ∉ tasks_below js) as Hd.
  { intros t Ht (j' & Ht' & Hin)%list_elem_of_bind. apply Hn.
    by rewrite (wf_job S HS j j' t Hjob (Hj j' (list_elem_of_further _ _ _ Hin)) Ht Ht'). }
  change (tasks_below (j :: js)) with (stasks S j ++ tasks_below js) in *.
  cbn [fmap list_fmap run_each_subjob]. apply runs_bind. cbn. apply runs_bind, runs_try. unfold run_subjob.
  destruct (good_jobs _ Hw j Hjob) as [Ec El]. apply runs_bind. unfold job_condition. apply runs_bind, runs_ask. rewrite Ec. cbn [mret].
  apply runs_bind, runs_ask. rewrite El. apply runs_bind.
  eapply runs_mono; [apply run_starts; [done|done|done|]|].
  { intros t Ht. apply Hwait. set_solver. }
  intros _ w1 (es1 & S1). cbn. eapply runs_mono; [apply (IH w1)|].
  - set_solver.
  - done.
  - apply S1.
  - eapply (waiting_after _ _ _ _ _ (st_does _ _ _ _ S1)); [apply tasks_below_tasks; set_solver| |intros t ?; apply Hwait; set_solver].
    intros t Ht. rewrite elem_of_list_to_set. intros ?. by eapply Hd.
  - intros _ w2 (es2 & S2). exists (es2 ++ es1). eapply starts_app; [|exact Hd|exact S1|exact S2].
    apply (tasks_below_tasks (j :: js)). done.
Qed.

Lemma run_subjobs_starts p w :
  wf_shape S -> p ∈ all_jobs S -> good (doc w) -> waiting (doc w) (tasks_below (ssubjobs S p)) ->
  runs (run_subjobs known_queue p) w (fun _ w' => exists es, starts (tasks_below (ssubjobs S p)) w w' es).
Proof.
  intros HS Hp Hw Hwait. unfold run_subjobs. apply runs_bind. eapply runs_eval; [by apply (shows_subjobs S); [apply Hw|]|].
  apply run_each_subjob_starts; [done| |by apply (wf_below S)|done|done]. intros j. by apply (wf_subjobs S HS).
Qed.

(** A job with tasks, all successful. *)
Definition completed d p : bool :=
  match stasks S p with [] => false | ts => forallb (successful d) ts end.

Lemma filter_all {A} (f : A -> bool) l : List.length (filter (fun x => f x = true) l) = List.length l <-> forallb f l = true.
Proof.
  induction l as [|x l IH]; [done|]. rewrite filter_cons. pose proof (length_filter (fun x => f x = true) l).
  destruct (f x) eqn:E; case_decide; try congruence; simpl; rewrite E; simpl; [rewrite <- IH; lia|split; [lia|done]].
Qed.

Lemma continue_job_starts j t w :
  wf_shape S -> j ∈ sjobs S -> t ∈ stasks S j -> good (doc w) ->
  (completed (doc w) j = true -> waiting (doc w) (tasks_below (ssubjobs S j))) ->
  runs (continue_job known_queue t) w (fun _ w' =>
    if completed (doc w) j then exists es, starts (tasks_below (ssubjobs S j)) w w' es else w' = w).
Proof.
  intros HS Hj Ht Hw Hwait. unfold continue_job.
  assert (forall t', t' ∈ stasks S j -> printed_retval (doc w) t') as Hp by (intros t' ?; apply (good_tasks _ Hw); by exists j).
  destruct (shows_count S _ j t (good_shows _ Hw) Hj Ht) as (i1 & r1 & E1 & V1).
  destruct (shows_successful S _ j t (good_shows _ Hw) Hj Ht Hp) as (i2 & r2 & E2 & V2).
  destruct (shows_job S _ j t (good_shows _ Hw) Hj Ht) as (p & P1 & P2).
  apply runs_bind. eapply runs_eval_integer; [done..|]. apply runs_bind. eapply runs_eval_integer; [done..|].
  assert (completed (doc w) j = (Z.of_nat (List.length (stasks S j)) =?
    Z.of_nat (List.length (filter (fun t' => successful (doc w) t' = true) (stasks S j))))) as Ec.
  { pose proof (filter_all (successful (doc w)) (stasks S j)) as Hf. unfold completed.
    destruct (stasks S j) as [|t0 ts] eqn:Es; [set_solver|].
    destruct (forallb _ _); destruct (Z.eqb_spec (Z.of_nat (List.length (t0 :: ts)))
      (Z.of_nat (List.length (filter (fun t' => successful (doc w) t' = true) (t0 :: ts))))) as [E|E]; try done.
    - destruct E. by rewrite (proj2 Hf).
    - apply Nat2Z.inj in E. symmetry in E. by apply Hf in E. }
  rewrite <- Ec. destruct (completed (doc w) j); [|done].
  apply runs_bind, runs_ask. rewrite P1. apply runs_bind. cbn. apply runs_bind, runs_ask. rewrite P2. apply runs_bind. cbn.
  apply runs_try. apply run_subjobs_starts; [done|by right|done|auto].
Qed.

(** ** The end of an operation *)

Lemma quiet_root {B} (k : node_ref -> M B) : quiet (k (sroot S)) -> quiet (document_element ≫= k).
Proof.
  intros Hk w Hw. specialize (Hk w Hw). unfold document_element, mbind, M_bind, ask, gets.
  fold (doc w). by rewrite (shows_root _ _ (good_shows _ Hw)).
Qed.

Lemma root_not_task : wf_shape S -> ~ is_task S (sroot S).
Proof. intros HS Ht. apply (wf_roles S HS _ Ht). by left. Qed.

Lemma quiet_ended : wf_shape S -> quiet workflow_ended.
Proof.
  intros HS. unfold workflow_ended. apply quiet_bind; [auto|]. intros r. apply quiet_bind; [auto|]. intros r'.
  destruct (_ && _); [|auto]. apply quiet_root, quiet_bind; [|intros; calm].
  apply quiet_set_attr. right. auto using root_not_task.
Qed.

(** Report and savepoint. *)
Lemma quiet_finish (m : M bool) : m = finish_operation format_time -> wf_shape S -> quiet m.
Proof. intros -> HS. unfold finish_operation. apply quiet_bind; [by apply quiet_ended|]. intros. calm. Qed.
#[local] Hint Extern 1 (quiet (mbind _ workflow_ended)) => by apply quiet_finish : core.

(** [retry_task] gives the task to the retrier, at most. *)
Definition retries t w w' : Prop :=
  exists es, does ∅ w w' es /\ enqueued es = [] /\ resumed es = [] /\ (inserted es = [] \/ inserted es = [t]).

Lemma still_retries t w w' : still w w' -> retries t w w'.
Proof. intros (es & Dw & (? & ? & ?)%calls_nil). exists es. auto. Qed.

Lemma retries_after t w w1 w2 : still w w1 -> retries t w1 w2 -> retries t w w2.
Proof.
  intros (es1 & D1 & (Q1 & R1 & I1)%calls_nil) (es2 & D2 & Q2 & R2 & I2). exists (es2 ++ es1).
  rewrite enqueued_app, resumed_app, inserted_app, Q1, R1, I1, Q2, R2, !app_nil_r. split; [|done].
  apply (does_weaken (∅ ∪ ∅)); [by eapply does_trans|set_solver].
Qed.

Lemma returns_calm {A B} (m : M A) (k : A -> M B) w (Q : B -> world -> Prop) :
  quiet m -> good (doc w) -> (forall x w1, still w w1 -> returns (k x) w1 Q) -> returns (m ≫= k) w Q.
Proof. intros Hm Hw HQ. apply returns_bind. by apply returns_quiet. Qed.

Lemma do_retry_retries t delay times w :
  good (doc w) -> returns (do_retry format_time t delay times) w (fun _ => retries t w).
Proof.
  intros Hw. unfold do_retry.
  assert (forall (m : M unit), quiet m -> returns m w (fun _ => retries t w)) as Hq.
  { intros m Hm. apply returns_quiet; [done|done|]. intros _ w1. apply still_retries. }
  destruct (_ || _); [apply Hq; auto|].
  apply returns_calm; [auto|done|]. intros [] w1 S1; [|by apply still_retries].
  apply returns_calm; [auto|by eapply still_good|]. intros at_ w2 S2.
  apply returns_calm; [auto|by eapply still_good|]. intros _ w3 S3.
  apply returns_calm; [auto|by eapply still_good|]. intros left_ w4 S4.
  apply returns_calm; [auto|by eapply still_good|]. intros _ w5 S5.
  assert (still w w5) as St by eauto using still_trans. apply (retries_after _ _ _ _ St).
  exists [InsertTask t (at_ + delay)]. split; [|auto]. apply does_doc; [by eapply still_good|done|done].
Qed.

Lemma retry_task_retries t w : good (doc w) -> returns (retry_task format_time t) w (fun _ => retries t w).
Proof.
  intros Hw. unfold retry_task.
  apply returns_calm; [auto|done|]. intros schedule w1 S1.
  apply returns_calm; [auto|by eapply still_good|]. intros level w2 S2.
  apply returns_calm; [calm|by eapply still_good|]. intros schedule_level w3 S3.
  apply returns_calm; [auto|by eapply still_good|]. intros parameters w4 S4.
  assert (still w w4) as St by eauto using still_trans. destruct parameters as [[delay times]|].
  - apply returns_calm; [calm|by eapply still_good|]. intros [delay' times'] w5 S5.
    eapply returns_mono; [apply do_retry_retries; by eapply still_good|].
    intros [] w6 R6. apply (retries_after _ _ w5); [by eapply still_trans|done].
  - apply returns_quiet; [auto|by eapply still_good|]. intros _ w5 S5. apply still_retries. by eapply still_trans.
Qed.

(** ** New nodes *)

Lemma still_document w d' :
  good (doc w) -> shows S d' -> same_attributes S (doc w) d' ->
  still w (set_wi (set_xmldoc d' (wi w)) w).
Proof.
  intros [G1 G2 G3] Hs Ha. exists []. split; [|done]. split; [| |done]; unfold doc, status_of, retval_of, printed_retval in *; cbn.
  - split; [done|..].
    + intros j Hj. rewrite !Ha by (left; by right). by apply G2.
    + intros t Ht. unfold printed_retval, retval_of. rewrite !Ha by auto. by apply G3.
  - intros t Ht _. by rewrite !Ha by auto.
Qed.

Lemma runs_new f w (Q : node_ref -> world -> Prop) :
  good (doc w) -> creates S (doc w) (f (doc w)) ->
  (forall n w', still w w' -> detached S (doc w') n ->
     (forall m, detached S (doc w) m -> detached S (doc w') m /\ m <> n) -> Q n w') ->
  runs (dom_new f) w Q.
Proof.
  intros Hw (C1 & C2 & C3 & C4) HQ. unfold dom_new. apply runs_bind, runs_ask, runs_bind.
  apply HQ; [by apply still_document|done|done].
Qed.

Lemma runs_datetime w (Q : string -> world -> Prop) : Q (format_time (time w)) w -> runs (format_datetime format_time) w Q.
Proof. done. Qed.

(** Attributes of a node outside of the document. *)
Lemma runs_set_detached n a v w (Q : unit -> world -> Prop) :
  good (doc w) -> detached S (doc w) n -> free_attribute a = true \/ a = "retval"%string ->
  (forall w', still w w' -> detached S (doc w') n -> Q tt w') -> runs (set_attr n a v) w Q.
Proof.
  intros Hw Hn Ha HQ. pose proof (detached_not_task _ _ _ Hn) as Ht.
  assert (quiet (set_attr n a v)) as Hq by (apply quiet_set_attr; destruct Ha; auto).
  specialize (Hq w Hw). unfold runs. cbn in *. apply HQ; [done|]. by apply detached_set.
Qed.

Lemma runs_append p c w (Q : unit -> world -> Prop) :
  good (doc w) -> detached S (doc w) p -> detached S (doc w) c -> p <> c ->
  (forall w', still w w' -> detached S (doc w') p -> Q tt w') -> runs (dom (appendChild p c)) w Q.
Proof.
  intros Hw Hp Hc Hne HQ. destruct (shows_append _ _ _ _ (good_shows _ Hw) Hp Hc Hne) as (A1 & A2 & A3).
  apply HQ; [by apply still_document|done].
Qed.

Lemma runs_output t c w :
  good (doc w) -> is_task S t -> status_of (doc w) t <> None -> detached S (doc w) c ->
  runs (dom (appendChild t c)) w (fun _ => still w).
Proof.
  intros Hw Ht Hs Hc. destruct (shows_output _ _ _ _ (good_shows _ Hw) Ht Hs Hc) as (A1 & A2).
  by apply still_document.
Qed.

(** ** The end of a task *)

Lemma runs_mark_retval t v z w :
  good (doc w) -> is_task S t -> status_of (doc w) t = Some v ->
  runs (set_attr t "retval" (sprintf_d z)) w (fun _ => marked t v (Some (sprintf_d z)) w).
Proof.
  intros [G1 G2 G3] Ht Hs. exists [].
  assert (forall a, a <> "retval"%string -> forall n,
    getNamedItem (setAttribute t "retval" (sprintf_d z) (doc w)) n a = getNamedItem (doc w) n a) as Ha.
  { intros a Ha n. apply getNamedItem_set_ne. congruence. }
  split; [|split; [done|split; [unfold status_of, doc in *; cbn; by rewrite Ha|by apply getNamedItem_set_eq]]].
  split; [| |done]; unfold doc, status_of, retval_of, printed_retval in *; cbn.
  - split.
    + by apply shows_set.
    + intros j Hj. rewrite !Ha by done. by apply G2.
    + intros t' Ht'. rewrite !Ha by done. split; [by apply G3|]. unfold printed_retval, retval_of.
      destruct (decide (t' = t)) as [->|Hne]; [right; exists z; by apply getNamedItem_set_eq|].
      rewrite getNamedItem_set_ne by congruence. by apply G3.
  - intros t' Ht' Hn. assert (t <> t') by set_solver. rewrite Ha by done. by rewrite getNamedItem_set_ne by congruence.
Qed.

(** The task has ended, and it may have been given to the retrier. *)
Record ends t (retval : Z) w w' (es : list effect) : Prop := {
  en_does : does {[t]} w w' es;
  en_calls : enqueued es = [] /\ resumed es = [];
  en_status : status_of (doc w') t = Some "TERMINATED"%string \/ status_of (doc w') t = Some "ABORTED"%string;
  en_retval : retval_of (doc w') t = Some (sprintf_d retval);
  en_retried : inserted es = [] \/ inserted es = [t] /\ retval <> 0 /\ status_of (doc w') t = Some "TERMINATED"%string;
}.

Lemma marked_ends t v z w w' :
  v = "TERMINATED"%string \/ v = "ABORTED"%string -> marked t v (Some (sprintf_d z)) w w' -> exists es, ends t z w w' es.
Proof.
  intros Hv (es & Dw & (? & ? & ?)%calls_nil & Es & Er). exists es. split; auto.
  rewrite Es. destruct Hv as [-> | ->]; auto.
Qed.

Lemma marked_retries_ends t z w w1 w2 :
  is_task S t -> z <> 0 -> marked t "TERMINATED" (Some (sprintf_d z)) w w1 -> retries t w1 w2 -> exists es, ends t z w w2 es.
Proof.
  intros Ht Hz (es1 & D1 & (Q1 & R1 & I1)%calls_nil & Es & Er) (es2 & D2 & Q2 & R2 & I2). exists (es2 ++ es1).
  destruct (do_same _ _ _ _ D2 t Ht) as [E1 E2]; [set_solver|].
  split; rewrite ?enqueued_app, ?resumed_app, ?inserted_app, ?Q1, ?R1, ?I1, ?Q2, ?R2, ?E1, ?E2, ?app_nil_r; auto.
  - apply (does_weaken ({[t]} ∪ ∅)); [by eapply does_trans|set_solver].
  - destruct I2; auto.
Qed.

(** An output element with a text. *)
Lemma returns_text_output {A} o text (k : M A) w Q :
  good (doc w) -> detached S (doc w) o ->
  (forall w1, still w w1 -> detached S (doc w1) o -> returns k w1 Q) ->
  returns (_ ← set_attr o "method" "text"; n ← dom_new (createTextNode text); _ ← dom (appendChild o n); k) w Q.
Proof.
  intros Hw Ho Hk. apply returns_bind, runs_returns. apply runs_set_detached; [done|done|by left|]. intros w1 S1 O1.
  apply returns_bind, runs_returns. apply runs_new; [by eapply still_good|apply shows_text; apply (still_good _ _ S1)|].
  intros n w2 S2 N2 HO. destruct (HO _ O1) as [O2 Hne].
  apply returns_bind, runs_returns. apply runs_append; [by eapply still_good|done..|]. intros w3 S3 O3.
  apply Hk; [eauto using still_trans|done].
Qed.

Lemma abort_task_vanished t why w m (Q : unit -> world -> Prop) :
  good (doc w) -> is_task S t -> detached S (doc w) m ->
  (forall w', marked t "ABORTED" (retval_of (doc w) t) w w' -> detached S (doc w') m -> Q tt w') ->
  runs (_ ← abort_task t why; inc_errors) w Q.
Proof.
  intros Hw Ht Hm HQ. pose proof (abort_task_marks t why w Hw Ht) as Ma. unfold runs in *. cbn in *.
  apply HQ; [|by do 2 apply detached_set].
  eapply marked_still; [done|exact Ma|]. exists []. split; [|done].
  apply does_doc; [apply (marked_good _ _ _ _ _ Ma)|done|done].
Qed.

(** Puts the output in the task, which has a status. *)
Lemma returns_output t v r o w w1 (Q : unit -> world -> Prop) :
  is_task S t -> marked t v r w w1 -> detached S (doc w1) o ->
  (forall w2, marked t v r w w2 -> Q tt w2) -> returns (dom (appendChild t o)) w1 Q.
Proof.
  intros Ht M1 O1 HQ. apply runs_returns. eapply runs_mono.
  - apply runs_output; [by eapply marked_good|done| |done]. destruct M1 as (_ & _ & _ & -> & _). done.
  - intros [] w2 S2. apply HQ. by eapply marked_still.
Qed.

Lemma returns_invalid t z v o output w w1 :
  is_task S t -> marked t v (Some (sprintf_d z)) w w1 -> detached S (doc w1) o ->
  returns (errlogs ← gets (fun i => errlogs (config i));
           _ ← when errlogs (emit (WriteErrlog output)); _ ← abort_task t "Invalid XML returned"; inc_errors) w1
    (fun _ w2 => exists es, ends t z w w2 es).
Proof.
  intros Ht M1 O1. apply returns_calm; [auto|by eapply marked_good|]. intros e w2 S2.
  apply returns_calm; [calm|by eapply still_good|]. intros _ w3 S3.
  assert (marked t v (Some (sprintf_d z)) w w3) as M3 by (eapply marked_still; [done|exact M1|]; eauto using still_trans).
  assert (retval_of (doc w3) t = Some (sprintf_d z)) as Er by (by destruct M3 as (? & _ & _ & _ & ?)).
  apply returns_bind. pose proof (abort_task_marks t "Invalid XML returned" w3 (marked_good _ _ _ _ _ M3) Ht) as Ma.
  eapply returns_mono; [by apply runs_returns|]. rewrite Er. intros [] w4 M4.
  apply returns_quiet; [auto|by eapply marked_good|]. intros _ w5 S5.
  apply (marked_ends _ "ABORTED"); [auto|]. eapply marked_still; [done| |done]. by eapply marked_twice.
Qed.

Lemma store_output_ends t o output z w w1 :
  is_task S t -> marked t "TERMINATED" (Some (sprintf_d z)) w w1 -> detached S (doc w1) o ->
  returns (store_output GetTask t o output) w1 (fun _ w2 => exists es, ends t z w w2 es).
Proof.
  intros Ht M1 O1. unfold store_output. apply returns_bind, runs_returns, runs_ask, returns_bind.
  assert (exists v, (v = "TERMINATED" \/ v = "ABORTED")%string /\ marked t v (Some (sprintf_d z)) w w1) as Hm by eauto.
  clear M1. apply (returns_mono _ _ (fun _ w2 => detached S (doc w2) o /\
    exists v, (v = "TERMINATED" \/ v = "ABORTED")%string /\ marked t v (Some (sprintf_d z)) w w2)).
  { destruct (GetTask _); [done|]. destruct Hm as (v & _ & M1). pose proof M1 as (_ & _ & _ & _ & Er).
    apply runs_returns. change (runs (x ← (_ ← abort_task t "Task has vanished"; inc_errors); mret (output_method Task_default)) w1
      (fun _ w2 => detached S (doc w2) o /\
         exists v, (v = "TERMINATED" \/ v = "ABORTED")%string /\ marked t v (Some (sprintf_d z)) w w2)).
    apply runs_bind. eapply abort_task_vanished; [by eapply marked_good|done|done|]. rewrite Er. intros w2 M2 O2.
    split; [done|]. exists "ABORTED"%string. split; [auto|]. by eapply marked_twice. }
  clear w1 O1 Hm. intros method w1 (O1 & v & Hv & M1). destruct method.
  - destruct (parse output) as [d|]; cbn [mbind option_bind]; [destruct (getDocumentElement d) as [n|]; cbn [mbind option_bind]|].
    + apply returns_bind, runs_returns. apply runs_set_detached; [by eapply marked_good|done|by left|]. intros w2 S2 O2.
      apply returns_bind, runs_returns. apply runs_new; [by eapply still_good|apply shows_import; apply (still_good _ _ S2)|].
      intros i w3 S3 N3 HO. destruct (HO _ O2) as [O3 Hne].
      apply returns_bind, runs_returns. apply runs_append; [by eapply still_good|done..|]. intros w4 S4 O4.
      eapply returns_output; [done|eapply marked_still; [done|exact M1|]; eauto using still_trans|done|].
      intros w5 M5. by eapply marked_ends.
    + by eapply returns_invalid.
    + by eapply returns_invalid.
  - apply returns_text_output; [by eapply marked_good|done|]. intros w2 S2 O2.
    eapply returns_output; [done|by eapply marked_still|done|]. intros w3 M3. by eapply marked_ends.
  - by eapply marked_ends.
Qed.

Lemma fail_task_ends t o output z w w1 :
  is_task S t -> z <> 0 -> marked t "TERMINATED" (Some (sprintf_d z)) w w1 -> detached S (doc w1) o ->
  returns (fail_task format_time t o output) w1 (fun _ w2 => exists es, ends t z w w2 es).
Proof.
  intros Ht Hz M1 O1. unfold fail_task. apply returns_text_output; [by eapply marked_good|done|]. intros w2 S2 O2.
  apply returns_bind. eapply returns_output; [done|by eapply marked_still|done|]. intros w3 M3.
  apply returns_calm; [auto|by eapply marked_good|]. intros cancelling w4 S4.
  assert (marked t "TERMINATED" (Some (sprintf_d z)) w w4) as M4 by (by eapply marked_still). destruct cancelling.
  - apply returns_quiet; [auto|by eapply marked_good|]. intros _ w5 S5. eapply marked_ends; [by left|]. by eapply marked_still.
  - eapply returns_mono; [apply retry_task_retries; by eapply marked_good|]. intros [] w5 R5.
    by eapply marked_retries_ends.
Qed.

(** The jobs below [j] start if all its tasks are successful now. *)
Definition continues j w w' (es : list effect) : Prop :=
  if completed (doc w) j then starts (tasks_below (ssubjobs S j)) w w' es else does ∅ w w' es /\ calls es = [].

Lemma starts_still ts w w1 w2 es :
  Forall (is_task S) ts -> starts ts w w1 es -> still w1 w2 -> exists es', starts ts w w2 es'.
Proof.
  intros F [D1 [R1 I1] N1 E1 S1] St. rewrite Forall_forall in F.
  assert (forall t, t ∈ ts -> status_of (doc w2) t = status_of (doc w1) t /\ retval_of (doc w2) t = retval_of (doc w1) t) as K.
  { intros t Ht. apply (still_status _ _ _ St); auto. }
  destruct St as (es2 & D2 & (Q2 & R2 & I2)%calls_nil). exists (es2 ++ es).
  assert (enqueued (es2 ++ es) = enqueued es) as Ee by (by rewrite enqueued_app, Q2).
  split; rewrite ?Ee; [|by rewrite resumed_app, inserted_app, R2, I2, R1, I1|done|..].
  - eapply does_weaken; [by eapply does_trans|]. set_solver.
  - intros t. rewrite E1. split; intros [Ht Es]; (split; [done|]); destruct (K t Ht) as [K1 _]; congruence.
  - intros t Ht. destruct (K t Ht) as [-> ->]. auto.
Qed.

Lemma continues_good j w w' es : continues j w w' es -> good (doc w').
Proof. unfold continues. destruct (completed _ _); [intros [[? _ _] _ _ _ _]|intros [[? _ _] _]]; done. Qed.

Lemma starts_after ts w w1 w2 es :
  Forall (is_task S) ts -> still w w1 -> starts ts w1 w2 es -> exists es', starts ts w w2 es'.
Proof.
  intros F St [D1 [R1 I1] N1 E1 S1]. rewrite Forall_forall in F.
  assert (forall t, t ∈ ts -> retval_of (doc w1) t = retval_of (doc w) t) as K.
  { intros t Ht. apply (still_status _ _ _ St); auto. }
  destruct St as (es0 & D0 & (Q0 & R0 & I0)%calls_nil). exists (es ++ es0).
  assert (enqueued (es ++ es0) = enqueued es) as Ee by (by rewrite enqueued_app, Q0, app_nil_r).
  split; rewrite ?Ee; [|by rewrite resumed_app, inserted_app, R0, I0, R1, I1|done|done|].
  - eapply does_weaken; [by eapply does_trans|]. set_solver.
  - intros t Ht. rewrite <- (K t Ht). auto.
Qed.

Definition stopped j t z w w' : Prop :=
  exists w1 es1 es2, ends t z w w1 es1 /\ continues j w1 w' es2.

Lemma tasks_below_all p t : wf_shape S -> p ∈ all_jobs S -> t ∈ tasks_below (ssubjobs S p) -> is_task S t.
Proof.
  intros HS Hp. apply Forall_forall, tasks_below_tasks. intros j. by apply (wf_subjobs S HS).
Qed.

Lemma continues_still j w w1 w2 es :
  wf_shape S -> j ∈ all_jobs S -> continues j w w1 es -> still w1 w2 -> exists es', continues j w w2 es'.
Proof.
  intros HS Hj. unfold continues. destruct (completed (doc w) j).
  - intros St. apply (starts_still _ _ _ _ es); [|done]. apply Forall_forall. intros t. by apply tasks_below_all.
  - intros [D1 C1] S2. destruct (still_trans w w1 w2) as (es2 & D2); [by exists es|done|by exists es2].
Qed.

Lemma TaskStop_stopped j t z output w :
  wf_shape S -> j ∈ sjobs S -> t ∈ stasks S j -> good (doc w) -> status_of (doc w) t <> None ->
  waiting (doc w) (tasks_below (ssubjobs S j)) ->
  returns (TaskStop known_queue GetTask format_time t z output) w (fun _ => stopped j t z w).
Proof.
  intros HS Hj Hjt Hw Hs Hwait. assert (is_task S t) as Ht by (by exists j).
  assert (j ∈ all_jobs S) as Hall by (by right). unfold TaskStop.
  apply returns_bind. eapply returns_mono; [by apply runs_returns, runs_mark|]. intros [] w1 M1.
  apply returns_bind. eapply returns_mono.
  { apply runs_returns, (runs_mark_retval _ "TERMINATED"); [by eapply marked_good|done|by destruct M1 as (? & _ & _ & ? & _)]. }
  intros [] w2 M2. pose proof (marked_twice _ _ _ _ _ _ _ _ M1 M2) as M. clear M1 M2 w1.
  apply returns_calm; [auto|by eapply marked_good|]. intros _ w3 S3.
  apply returns_calm; [auto|by eapply still_good|]. intros _ w4 S4.
  apply returns_bind, runs_returns, runs_new; [by eapply still_good|apply shows_element; apply (still_good _ _ S4)|].
  intros o w5 S5 O5 _.
  apply returns_bind, runs_returns, runs_set_detached; [by eapply still_good|done|by right|]. intros w6 S6 O6.
  apply returns_bind, runs_returns, runs_ask.
  apply returns_bind, runs_returns, runs_set_detached; [by eapply still_good|done|by left|]. intros w7 S7 O7.
  apply returns_bind, runs_returns, runs_datetime.
  apply returns_bind, runs_returns, runs_set_detached; [by eapply still_good|done|by left|]. intros w8 S8 O8.
  assert (marked t "TERMINATED" (Some (sprintf_d z)) w w8) as M8.
  { eapply marked_still; [done|exact M|]. eauto 10 using still_trans. }
  clear M S3 S4 S5 S6 S7 S8 O5 O6 O7. apply returns_bind.
  apply (returns_mono _ _ (fun _ w9 => exists es, ends t z w w9 es)).
  { destruct (Z.eqb_spec z 0); [by apply store_output_ends|by apply fail_task_ends]. }
  intros [] w9 (es1 & E1). apply returns_bind.
  assert (waiting (doc w9) (tasks_below (ssubjobs S j))) as Hwait9.
  { eapply waiting_after; [apply E1|apply tasks_below_tasks; intros j'; by apply (wf_subjobs S HS)| |done].
    intros t' Hb ->%elem_of_singleton. by apply Hs, Hwait. }
  eapply returns_mono; [apply runs_returns, continue_job_starts; [done|exact Hj|exact Hjt|apply E1|done]|].
  intros [] w10 C10. cbv beta in C10.
  assert (exists es2, continues j w9 w10 es2) as (es2 & C2).
  { unfold continues. destruct (completed (doc w9) j); [done|]. subst w10. exists []. split; [|done]. apply does_refl, E1. }
  clear C10. apply returns_quiet; [|by eapply continues_good|].
  { apply quiet_bind; [auto|]. intros _. by apply quiet_finish. }
  intros b w11 S11. destruct (continues_still _ _ _ _ _ HS Hall C2 S11) as (es3 & C3). by exists w9, es1, es3.
Qed.

(** ** The other operations *)

Lemma drop_task_marks t why w :
  good (doc w) -> is_task S t -> returns (drop_task t why) w (fun _ => marked t "ABORTED" (retval_of (doc w) t) w).
Proof.
  intros Hw Ht. unfold drop_task. apply returns_bind. eapply returns_mono; [by apply runs_returns, abort_task_marks|].
  intros [] w1 M1. apply returns_quiet; [calm|by eapply marked_good|]. intros _ w2 S2. by eapply marked_still.
Qed.

(** [TaskExecute] takes the task to the process manager or gives it up. *)
Definition executed t (p : Z) w w' : Prop :=
  marked t (if p >? 0 then "EXECUTING" else "ABORTED") (retval_of (doc w) t) w w'.

Lemma returns_report t v r (p : Z) w w1 :
  wf_shape S -> is_task S t -> marked t v r w w1 ->
  returns (b ← finish_operation format_time; mret (p, b)) w1 (fun x w2 => x.1 = p /\ marked t v r w w2).
Proof.
  intros HS Ht M1. apply returns_calm; [by apply quiet_finish|by eapply marked_good|]. intros b w2 S2.
  split; [done|]. by eapply marked_still.
Qed.

Lemma TaskExecute_executed t tid fork w :
  wf_shape S -> is_task S t -> good (doc w) -> fork <> 0 ->
  returns (TaskExecute GetTask format_time engine_env configuration t tid fork) w (fun x => executed t x.1 w).
Proof.
  intros HS Ht Hw Hf. unfold TaskExecute.
  assert (forall why, returns (_ ← drop_task t why; b ← finish_operation format_time; mret (-1, b)) w
    (fun x => executed t x.1 w)) as Hd.
  { intros why. apply returns_bind. eapply returns_mono; [by apply drop_task_marks|]. intros [] w1 M1.
    eapply returns_mono; [by apply (returns_report t _ _ (-1) w w1 HS Ht M1)|]. intros [p b] w2 [E M2]. simpl in *. by subst p. }
  apply returns_bind. cbn [gets returns]. destruct (is_cancelling (wi w)); [apply Hd|].
  apply returns_bind, runs_returns, runs_ask. destruct (GetTask _) as [task|]; [|apply Hd].
  apply returns_calm; [auto|done|]. intros count w1 S1.
  apply returns_calm; [auto|by eapply still_good|]. intros inputs w2 S2.
  apply returns_calm; [auto|by eapply still_good|]. intros ps w3 S3.
  apply returns_calm; [calm|by eapply still_good|]. intros _ w4 S4.
  apply returns_calm; [auto|by eapply still_good|]. intros i w5 S5.
  assert (still w w5) as St by eauto using still_trans. clear S1 S2 S3 S4 S5.
  destruct (still_status _ _ _ St Ht) as [_ Er]. unfold executed.
  destruct (Z.gtb_spec fork 0) as [Hp|Hp].
  - assert (fork <? 0 = false) as -> by lia. apply returns_bind.
    apply (returns_mono _ _ (fun _ => marked t "EXECUTING" (retval_of (doc w) t) w)).
    { apply returns_calm; [auto|by eapply still_good|]. intros x w6 S6.
      apply returns_calm; [auto|by eapply still_good|]. intros _ w7 S7.
      unfold mark_executing. assert (still w w7) as St7 by eauto using still_trans. destruct (still_status _ _ _ St7 Ht) as [_ Er7].
      apply returns_bind. eapply returns_mono; [apply runs_returns, runs_mark; [by eapply still_good|done]|].
      intros [] w8 M8. rewrite Er7 in M8. apply returns_quiet; [calm|by eapply marked_good|]. intros _ w9 S9.
      eapply marked_still; [done| |done]. by eapply marked_before. }
    intros [] w6 M6. eapply returns_mono; [by apply (returns_report t _ _ fork w w6 HS Ht M6)|].
    intros [p b] w7 [E M7]. simpl in *. subst p. by destruct (Z.gtb_spec fork 0); [|lia].
  - assert (fork <? 0 = true) as -> by lia. apply returns_bind. cbn [mret M_ret returns].
    apply returns_bind. eapply returns_mono; [apply drop_task_marks; [by eapply still_good|done]|]. intros [] w6 M6.
    rewrite Er in M6. eapply returns_mono.
    { apply (returns_report t "ABORTED" (retval_of (doc w) t) fork w w6 HS Ht). by eapply marked_before. }
    intros [p b] w7 [E M7]. simpl in *. subst p. by destruct (Z.gtb_spec fork 0); [lia|].
Qed.

Lemma TaskRestart_starts t w :
  wf_shape S -> is_task S t -> good (doc w) ->
  returns (TaskRestart known_queue format_time t) w (fun _ w' => exists es, starts [t] w w' es).
Proof.
  intros HS Ht Hw. unfold TaskRestart. apply returns_bind.
  eapply returns_mono; [by apply runs_returns, enqueue_task_starts|]. intros [] w1 (es & S1).
  apply returns_quiet; [|apply S1|].
  { apply quiet_bind; [auto|]. intros _. by apply quiet_finish. }
  intros _ w2 S2. eapply starts_still; [by constructor|done|done].
Qed.

Lemma Start_starts w :
  wf_shape S -> good (doc w) -> waiting (doc w) (tasks_below (ssubjobs S (sroot S))) ->
  returns (Start known_queue format_time) w (fun _ w' => exists es, starts (tasks_below (ssubjobs S (sroot S))) w w' es).
Proof.
  intros HS Hw Hwait. assert (sroot S ∈ all_jobs S) as Hr by by left. unfold Start.
  apply returns_calm; [auto|done|]. intros id w1 S1.
  apply returns_calm; [auto|by eapply still_good|]. intros s w2 S2. pose proof (still_good _ _ S2) as G2.
  apply returns_bind. unfold document_element. apply returns_bind, runs_returns, runs_ask.
  rewrite (shows_root _ _ (good_shows _ G2)). cbn [nonnull mret M_ret returns].
  apply returns_calm; [auto|done|]. intros _ w3 S3.
  apply returns_calm; [apply quiet_set_attr; auto using root_not_task|by eapply still_good|]. intros _ w4 S4.
  apply returns_calm; [auto|by eapply still_good|]. intros at_ w5 S5.
  apply returns_calm; [auto|by eapply still_good|]. intros _ w6 S6.
  assert (still w w6) as St by eauto 10 using still_trans. clear S1 S2 S3 S4 S5 S6 G2. apply returns_bind, runs_returns.
  eapply runs_mono; [apply runs_try, run_subjobs_starts; [done|done|by eapply still_good|]|].
  { intros t Hb. rewrite (proj1 (still_status _ _ _ St (tasks_below_all _ _ HS Hr Hb))). by apply Hwait. }
  intros [] w7 (es7 & S7). apply returns_quiet; [by apply quiet_finish|apply S7|]. intros b w8 S8.
  pose proof (tasks_below_tasks _ (fun j => wf_subjobs S HS _ j Hr)) as F.
  destruct (starts_still _ _ _ _ es7 F S7 S8) as (es8 & S9). by eapply starts_after.
Qed.

(** ** Resuming *)

(** The tasks [ts] are given again to those who held them; a queue may have
    disappeared since. *)
Record resumes (ts : list node_ref) w w' (es : list effect) : Prop := {
  re_does : does (list_to_set ts) w w' es;
  re_nodup : NoDup (enqueued es) /\ NoDup (resumed es) /\ NoDup (inserted es);
  re_queued t : t ∈ enqueued es <-> t ∈ ts /\ status_of (doc w') t = Some "QUEUED"%string;
  re_executing t : t ∈ resumed es <-> t ∈ ts /\ status_of (doc w') t = Some "EXECUTING"%string;
  re_inserted t : t ∈ inserted es -> t ∈ ts /\ status_of (doc w') t = Some "TERMINATED"%string /\
    exists z, z <> 0 /\ retval_of (doc w') t = Some (sprintf_d z);
  re_status t : t ∈ ts ->
    (status_of (doc w') t = status_of (doc w) t \/
     status_of (doc w) t = Some "QUEUED" /\ status_of (doc w') t = Some "ABORTED")%string /\
    retval_of (doc w') t = retval_of (doc w) t;
}.

Lemma resumes_nil w w' : still w w' -> exists es, resumes [] w w' es.
Proof.
  intros (es & Dw & (Q & R & I)%calls_nil). exists es. split; rewrite ?Q, ?R, ?I; auto using NoDup_nil_2; set_solver.
Qed.

Lemma resumes_still ts w w1 w2 es :
  Forall (is_task S) ts -> resumes ts w w1 es -> still w1 w2 -> exists es', resumes ts w w2 es'.
Proof.
  intros F [D1 N1 Q1 R1 I1 S1] St. rewrite Forall_forall in F.
  assert (forall t, t ∈ ts -> status_of (doc w2) t = status_of (doc w1) t /\ retval_of (doc w2) t = retval_of (doc w1) t) as K.
  { intros t Ht. apply (still_status _ _ _ St); auto. }
  destruct St as (es2 & D2 & (Q2 & R2 & I2)%calls_nil). exists (es2 ++ es).
  split; rewrite ?enqueued_app, ?resumed_app, ?inserted_app, ?Q2, ?R2, ?I2; [|done|..].
  - eapply does_weaken; [by eapply does_trans|]. set_solver.
  - intros t. rewrite Q1. split; intros [Ht Es]; (split; [done|]); destruct (K t Ht) as [K1 _]; congruence.
  - intros t. rewrite R1. split; intros [Ht Es]; (split; [done|]); destruct (K t Ht) as [K1 _]; congruence.
  - intros t Hin. destruct (I1 t Hin) as (Ht & ? & ?). destruct (K t Ht) as [-> ->]. auto.
  - intros t Ht. destruct (K t Ht) as [-> ->]. auto.
Qed.

Lemma resumes_app ts1 ts2 w1 w2 w3 es1 es2 :
  Forall (is_task S) (ts1 ++ ts2) -> (forall t, t ∈ ts1 -> t ∉ ts2) ->
  resumes ts1 w1 w2 es1 -> resumes ts2 w2 w3 es2 -> resumes (ts1 ++ ts2) w1 w3 (es2 ++ es1).
Proof.
  intros [T1 T2]%Forall_app Hd [D1 (NQ1 & NR1 & NI1) Q1 R1 I1 S1] [D2 (NQ2 & NR2 & NI2) Q2 R2 I2 S2].
  rewrite Forall_forall in T1, T2.
  assert (forall t, t ∈ ts1 -> status_of (doc w3) t = status_of (doc w2) t /\ retval_of (doc w3) t = retval_of (doc w2) t) as K2.
  { intros t Ht. apply (do_same _ _ _ _ D2); [auto|]. rewrite elem_of_list_to_set. auto. }
  assert (forall t, t ∈ ts2 -> status_of (doc w2) t = status_of (doc w1) t /\ retval_of (doc w2) t = retval_of (doc w1) t) as K1.
  { intros t Ht. apply (do_same _ _ _ _ D1); [auto|]. rewrite elem_of_list_to_set. intros ?. by eapply Hd. }
  split.
  - rewrite list_to_set_app_L. by eapply does_trans.
  - rewrite enqueued_app, resumed_app, inserted_app. split_and!; apply NoDup_app; (split; [done|split; [|done]]); intros t H2' H1'.
    + apply Q2 in H2' as [? _]. apply Q1 in H1' as [? _]. by eapply Hd.
    + apply R2 in H2' as [? _]. apply R1 in H1' as [? _]. by eapply Hd.
    + apply I2 in H2' as [? _]. apply I1 in H1' as [? _]. by eapply Hd.
  - intros t. rewrite enqueued_app, !elem_of_app, Q1, Q2. split.
    + intros [[Ht Es]|[Ht Es]]; [auto|]. rewrite (proj1 (K2 t Ht)). auto.
    + intros [[Ht|Ht] Es]; [right; rewrite <- (proj1 (K2 t Ht))|left]; auto.
  - intros t. rewrite resumed_app, !elem_of_app, R1, R2. split.
    + intros [[Ht Es]|[Ht Es]]; [auto|]. rewrite (proj1 (K2 t Ht)). auto.
    + intros [[Ht|Ht] Es]; [right; rewrite <- (proj1 (K2 t Ht))|left]; auto.
  - intros t. rewrite inserted_app, !elem_of_app. intros [Ht|Ht].
    + apply I2 in Ht as (? & ? & ?). auto.
    + apply I1 in Ht as (Ht & ? & ?). rewrite (proj1 (K2 t Ht)), (proj2 (K2 t Ht)). auto.
  - intros t [Ht|Ht]%elem_of_app.
    + rewrite (proj1 (K2 t Ht)), (proj2 (K2 t Ht)). auto.
    + destruct (K1 t Ht) as [<- <-]. auto.
Qed.

(** A task that ended has its exit status. *)
Definition ended_retval d t : Prop :=
  status_of d t = Some "TERMINATED"%string -> exists z, retval_of d t = Some (sprintf_d z).

Lemma starts_resumes t w w' es :
  status_of (doc w) t = Some "QUEUED"%string -> starts [t] w w' es -> resumes [t] w w' es.
Proof.
  intros Es [D1 [R1 I1] N1 E1 S1]. split; rewrite ?R1, ?I1; [done|auto using NoDup_nil_2|done| |set_solver|].
  - intros u. split; [set_solver|]. intros [Hu Eu]. by destruct (S1 u Hu) as [[E|E] _]; rewrite E in Eu.
  - intros u Hu. destruct (S1 u Hu) as [[E|E] Er]; rewrite E; (split; [|done]); apply list_elem_of_singleton in Hu as ->; auto.
Qed.

(** The retrier gets the task, or nothing happens to a task that is not held. *)
Lemma retries_resumes t w w' :
  is_task S t -> status_of (doc w) t <> Some "QUEUED"%string -> status_of (doc w) t <> Some "EXECUTING"%string ->
  retries t w w' ->
  (still w w' \/ status_of (doc w) t = Some "TERMINATED"%string /\ exists z, z <> 0 /\ retval_of (doc w) t = Some (sprintf_d z)) ->
  exists es, resumes [t] w w' es.
Proof.
  intros Ht Hq Hx (es & Dw & Q & R & I) Hc. destruct (do_same _ _ _ _ Dw t Ht) as [Es Er]; [set_solver|].
  assert (does (list_to_set [t]) w w' es) as Dt by (eapply does_weaken; [done|set_solver]).
  assert (forall u, u ∈ [t] -> u = t) as Hu by (by intros u ->%list_elem_of_singleton).
  exists es. split; rewrite ?Q, ?R; [done| | | | |].
  - split; [apply NoDup_nil_2|split; [apply NoDup_nil_2|]]. destruct I as [-> | ->]; [apply NoDup_nil_2|apply NoDup_singleton].
  - intros u. split; [set_solver|]. intros [->%Hu Eu]. congruence.
  - intros u. split; [set_solver|]. intros [->%Hu Eu]. congruence.
  - intros u Hin. destruct I as [I|I]; rewrite I in Hin; [set_solver|]. pose proof (Hu u Hin) as ->. split; [done|].
    rewrite Es, Er. destruct Hc as [(es' & D' & (_ & _ & I')%calls_nil)|Hc]; [|done].
    assert (es' = es) as -> by (apply (app_inv_tail (effects w)); by rewrite <- (do_effects _ _ _ _ Dw), <- (do_effects _ _ _ _ D')).
    congruence.
  - intros u ->%Hu. auto.
Qed.

Lemma getAttribute_String d t a c v :
  bool_decide (getAttribute d t a = String c v) = bool_decide (getNamedItem d t a = Some (String c v)).
Proof. apply bool_decide_ext. unfold getAttribute. destruct (getNamedItem d t a); simpl; split; congruence. Qed.

(** The process manager gets a task back. *)
Lemma execute_resumes t q tid w :
  good (doc w) -> is_task S t -> status_of (doc w) t = Some "EXECUTING"%string ->
  returns (_ ← emit (ExecuteTask q t tid); inc_running) w (fun _ w' => exists es, resumes [t] w w' es).
Proof.
  intros Hw Ht Es. cbn. exists [ExecuteTask q t tid]. split.
  - eapply (does_weaken ∅); [by apply does_doc|set_solver].
  - split; [apply NoDup_nil_2|split; [apply NoDup_singleton|apply NoDup_nil_2]].
  - intros u. unfold doc. cbn. split; [by intros ?%not_elem_of_nil|].
    intros [->%list_elem_of_singleton Eu]. unfold doc in Es. congruence.
  - intros u. unfold doc. cbn. rewrite list_elem_of_singleton. split; [intros ->; by split|by intros [-> _]].
  - intros u Hu. by apply not_elem_of_nil in Hu.
  - intros u _. auto.
Qed.

Lemma resume_task_resumes t w :
  good (doc w) -> is_task S t -> ended_retval (doc w) t ->
  returns (resume_task known_queue format_time t) w (fun _ w' => exists es, resumes [t] w w' es).
Proof.
  intros Hw Ht Hr. unfold resume_task. apply returns_bind, runs_returns, runs_ask.
  rewrite !getAttribute_String. fold (status_of (doc w) t).
  case_bool_decide as Hq.
  { eapply returns_mono; [by apply runs_returns, enqueue_task_starts|]. intros [] w' (es & Hs). exists es.
    by apply starts_resumes. }
  case_bool_decide as Hx.
  { apply returns_bind, runs_returns, runs_ask, returns_bind, runs_returns, runs_ask.
    apply returns_bind. unfold parse_int, nonnull. destruct (Dom.parseInt _); [|done]. cbn [returns mret M_ret].
    by apply execute_resumes. }
  assert (forall w', still w w' -> exists es, resumes [t] w w' es) as Hstill.
  { intros w' St. apply (retries_resumes t); [done..|by apply still_retries|by left]. }
  case_bool_decide as Ht'; [|by apply Hstill, still_refl].
  apply returns_bind, runs_returns, runs_ask. rewrite getAttribute_String.
  fold (retval_of (doc w) t). case_bool_decide as H0'; [by apply Hstill, still_refl|].
  eapply returns_mono; [by apply retry_task_retries|]. intros [] w' R. apply (retries_resumes t); [done..|].
  right. split; [done|]. destruct (Hr Ht') as [z Ez]. exists z. split; [|done]. intros ->. by rewrite Ez in H0'.
Qed.

Lemma resume_tasks_resumes ts w :
  good (doc w) -> Forall (is_task S) ts -> NoDup ts -> (forall t, t ∈ ts -> ended_retval (doc w) t) ->
  returns (resume_tasks known_queue format_time (INode <$> ts)) w (fun _ w' => exists es, resumes ts w w' es).
Proof.
  revert w. induction ts as [|t ts IH]; intros w Hw F N Hr; [by apply resumes_nil, still_refl|].
  apply Forall_cons in F as [Ht F]. apply NoDup_cons in N as [Hn N]. cbn [fmap list_fmap resume_tasks].
  apply returns_bind. cbn [node_value mret M_ret returns]. apply returns_bind.
  eapply returns_mono; [apply resume_task_resumes; [done|done|apply Hr; by left]|]. intros [] w1 (es1 & R1).
  eapply returns_mono; [apply (IH w1); [apply R1|done|done|]|].
  - intros u Hu. rewrite Forall_forall in F. destruct (do_same _ _ _ _ (re_does _ _ _ _ R1) u (F u Hu)) as [Es Er].
    { rewrite elem_of_list_to_set. set_solver. }
    unfold ended_retval. rewrite Es, Er. apply Hr. by right.
  - intros [] w2 (es2 & R2). exists (es2 ++ es1). apply (resumes_app [t] ts w w1); [by constructor|set_solver|done|done].
Qed.

Lemma connect_returns w (Q : unit -> world -> Prop) :
  good (doc w) -> (forall w', still w w' -> doc w' = doc w -> Q tt w') -> returns db_connect w Q.
Proof.
  intros Hw HQ. pose proof (quiet_connect w Hw) as K. unfold returns, db_connect in *.
  destruct (db_results w) as [|[] r]; cbn in *; [by apply HQ..|done].
Qed.

(** The tasks that a savepoint shows as held, or ended. *)
Definition to_resume : string := "//task[@status='QUEUED' or @status='EXECUTING' or @status='TERMINATED']".

Lemma Resume_resumes ts w :
  wf_shape S -> good (doc w) -> evaluate to_resume (sroot S) (doc w) = Some (INode <$> ts) ->
  Forall (is_task S) ts -> NoDup ts -> (forall t, t ∈ ts -> ended_retval (doc w) t) ->
  returns (Resume known_queue format_time) w (fun _ w' => exists es, resumes ts w w' es).
Proof.
  intros HS Hw He F N Hr. unfold Resume. apply returns_bind, connect_returns; [done|]. intros w0 S0 E0.
  apply returns_bind. unfold document_element. apply returns_bind, runs_returns, runs_ask.
  rewrite E0, (shows_root _ _ (good_shows _ Hw)). cbn [nonnull mret M_ret returns].
  apply returns_bind, runs_returns. eapply runs_eval; [rewrite E0; exact He|]. apply returns_bind.
  eapply returns_mono; [apply resume_tasks_resumes; by rewrite ?E0|]. intros [] w1 (es1 & R1).
  destruct (resumes_nil _ _ S0) as [es0 R0]. pose proof (resumes_app [] ts w w0 w1 es0 es1 F (fun t Ht => False_ind _ (not_elem_of_nil t Ht)) R0 R1) as R.
  apply returns_quiet; [by apply quiet_finish|apply R|]. intros b w2 S2. by eapply resumes_still.
Qed.
End order.
