(* ===== verification/JobOrder.v ===== *)
(** The jobs of a running workflow: from its start on, whatever order its tasks
    are executed, ended and restarted in, a job below the root or below another
    one has been started when, and only when, all the tasks above it have
    succeeded, and the [status] attribute of a task says who holds it. *)

From S2P Require Import Prelude CString Configuration Dom TreeDom Task WorkflowInstance WorkflowExamples WorkflowShape TreeShape WorkflowProgress WorkflowOrder.

Open Scope Z_scope.

Section jobs.
Context {D : Type} `{WorkflowDomLaws D} `{!DomAttributes D}.
Context (known_queue : string -> bool).
Context (GetTask : string -> option Task).
Context (format_time : Z -> string).
Context (engine_env : string -> option string).
Context (configuration : Configuration).
Context (S : shape) (HS : wf_shape S).
Implicit Types (w : world (D := D)) (d : D) (t j p u : node_ref) (s : sys (D := D)).

Notation work := (work known_queue GetTask format_time engine_env configuration).
Notation step := (step known_queue GetTask format_time engine_env configuration).

Definition document s : D := doc (state s).

(** [l] are the tasks with the status [v]. *)
Definition held d (v : string) (l : list node_ref) : Prop :=
  NoDup l /\ forall t, t ∈ l <-> is_task S t /\ status_of d t = Some v.

(** The tasks of the retrier have failed. *)
Definition failed d (l : list node_ref) : Prop :=
  NoDup l /\ forall t, t ∈ l -> is_task S t /\ status_of d t = Some "TERMINATED"%string /\
    exists z, z <> 0 /\ retval_of d t = Some (sprintf_d z).

(** The jobs below [p] are due. *)
Definition due d p : bool := bool_decide (p = sroot S) || completed S d p.

Definition begun d (ts : list node_ref) : Prop := forall t, t ∈ ts -> status_of d t <> None.

Definition in_order d : Prop :=
  forall p j, p ∈ all_jobs S -> j ∈ ssubjobs S p ->
    if due d p then begun d (stasks S j) else waiting d (stasks S j).

Definition task_status (o : option string) : Prop :=
  (o = None \/ o = Some "QUEUED" \/ o = Some "EXECUTING" \/ o = Some "TERMINATED" \/ o = Some "ABORTED")%string.

(** Who holds the tasks of a document. *)
Record holders d (q x r : list node_ref) : Prop := {
  ho_good : good S d;
  ho_queued : held d "QUEUED" q;
  ho_executing : held d "EXECUTING" x;
  ho_retrying : failed d r;
  ho_status t : is_task S t -> task_status (status_of d t);
  ho_ended t : is_task S t -> ended_retval d t;
}.

Definition ordered s : Prop :=
  holders (document s) (queued s) (executing s) (retrying s) /\ in_order (document s).

(** ** Beginnings *)

(** A workflow that has not started. *)
Record fresh w : Prop := {
  fresh_good : good S (doc w);
  fresh_tasks t : is_task S t -> status_of (doc w) t = None;
}.

(** A document from which a workflow can be resumed. *)
Record resumable d : Prop := {
  rs_good : good S d;
  rs_status t : is_task S t -> task_status (status_of d t);
  rs_ended t : is_task S t -> ended_retval d t;
  rs_jobs : in_order d;
}.

(** [//task] finds the tasks of the shape that have to be resumed, and no [task]
    element of an output. *)
Definition finds_tasks d : Prop :=
  exists ts, evaluate to_resume (sroot S) d = Some (INode <$> ts) /\ NoDup ts /\
    forall t, t ∈ ts <-> is_task S t /\ (status_of d t = Some "QUEUED" \/ status_of d t = Some "EXECUTING" \/
                                        status_of d t = Some "TERMINATED")%string.

(** A savepoint. *)
Record saved w : Prop := {
  sv_resumable : resumable (doc w);
  sv_tasks : finds_tasks (doc w);
}.

(** An instance that was just constructed. *)
Definition constructed w : Prop := running_tasks (wi w) = 0 /\ retrying_tasks (wi w) = 0.

(** [s] is the state that [Start] or [Resume] leaves. *)
Definition launched s : Prop :=
  exists w b w' es, constructed w /\
    (fresh w /\ Start known_queue format_time w = Ok b w' \/ saved w /\ Resume known_queue format_time w = Ok b w') /\
    effects w' = es ++ effects w /\ s = give es w' [] [] [] b /\ fits s.

(** * The tasks that others hold *)

Lemma held_same d d' v l :
  (forall u, is_task S u -> status_of d' u = Some v <-> status_of d u = Some v) -> held d v l -> held d' v l.
Proof. intros E [N Hl]. split; [done|]. intros u. rewrite Hl. split; intros [Hu ?]; (split; [done|]); by apply E. Qed.

Lemma held_remove d d' v a t b :
  (forall u, is_task S u -> u <> t -> status_of d' u = status_of d u) -> status_of d' t <> Some v ->
  held d v (a ++ t :: b) -> held d' v (a ++ b).
Proof.
  intros E Ht [N Hl]. apply NoDup_app in N as (Na & Nab & [Nt Nb]%NoDup_cons). split.
  - apply NoDup_app. set_solver.
  - intros u. destruct (decide (u = t)) as [->|Hne].
    + split; [intros [?|?]%elem_of_app; set_solver|naive_solver].
    + specialize (Hl u). rewrite elem_of_app, elem_of_cons in Hl. rewrite elem_of_app.
      split; [intros Hu|intros [Hu Hv]]; [|rewrite E in Hv by done; naive_solver].
      destruct (proj1 Hl) as [Hu1 Hu2]; [naive_solver|]. split; [done|]. by rewrite E.
Qed.

Lemma held_add d d' v l l' :
  NoDup l' -> (forall u, u ∈ l' -> is_task S u /\ status_of d' u = Some v /\ status_of d u <> Some v) ->
  (forall u, is_task S u -> u ∉ l' -> status_of d' u = Some v <-> status_of d u = Some v) ->
  held d v l -> held d' v (l ++ l').
Proof.
  intros N' Hl' E [N Hl]. split.
  - apply NoDup_app. split; [done|]. split; [|done]. intros u [_ Hu]%Hl Hu'. by destruct (Hl' u Hu') as (_ & _ & ?).
  - intros u. rewrite elem_of_app. destruct (decide (u ∈ l')) as [Hu|Hu].
    + destruct (Hl' u Hu) as (? & ? & _). naive_solver.
    + split; [intros [[Hu1 Hu2]%Hl|?]; [|done]|intros [Hu1 Hu2]; left]; [split; [done|]; by apply E|].
      apply Hl. split; [done|]. by apply E.
Qed.

Lemma held_task d v l t : held d v l -> t ∈ l -> is_task S t /\ status_of d t = Some v.
Proof. intros [_ Hl] ?. by apply Hl. Qed.

Lemma failed_same d d' l :
  (forall u, u ∈ l -> status_of d' u = status_of d u /\ retval_of d' u = retval_of d u) -> failed d l -> failed d' l.
Proof. intros E [N Hl]. split; [done|]. intros u Hu. destruct (E u Hu) as [-> ->]. by apply Hl. Qed.

Lemma failed_remove d a t b : failed d (a ++ t :: b) -> failed d (a ++ b) /\ t ∉ a ++ b.
Proof.
  intros [N Hl]. apply NoDup_app in N as (Na & Nab & [Nt Nb]%NoDup_cons). split; [split|].
  - apply NoDup_app. set_solver.
  - set_solver.
  - set_solver.
Qed.

Lemma holders_starts ts w w' es q x r :
  Forall (is_task S) ts ->
  (forall t, t ∈ ts -> status_of (doc w) t <> Some "QUEUED" /\ status_of (doc w) t <> Some "EXECUTING" /\ t ∉ r)%string ->
  starts S ts w w' es -> holders (doc w) q x r -> holders (doc w') (q ++ enqueued es) (x ++ resumed es) (r ++ inserted es).
Proof.
  intros F Hts [Dw [-> ->] N Eq St] [G Q X R T V]. rewrite Forall_forall in F. rewrite !app_nil_r.
  assert (forall u, is_task S u -> u ∉ ts -> status_of (doc w') u = status_of (doc w) u /\ retval_of (doc w') u = retval_of (doc w) u) as K.
  { intros u Hu Hn. apply (do_same _ _ _ _ _ Dw u Hu). by rewrite elem_of_list_to_set. }
  split.
  - apply Dw.
  - apply (held_add (doc w)); [done|..|done].
    + intros u [Hu Es]%Eq. split; [auto|]. split; [done|]. by apply Hts.
    + intros u Hu Hn. destruct (decide (u ∈ ts)) as [Hin|Hin]; [|by rewrite (proj1 (K u Hu Hin))].
      split; intros Es; [|by destruct (proj1 (Hts u Hin))]. destruct Hn. by apply Eq.
  - apply (held_same (doc w)); [|done]. intros u Hu. destruct (decide (u ∈ ts)) as [Hin|Hin]; [|by rewrite (proj1 (K u Hu Hin))].
    destruct (Hts u Hin) as (_ & Hx & _), (St u Hin) as [[-> | ->] _]; done.
  - apply (failed_same (doc w)); [|done]. intros u Hu. apply K; [by apply R|]. intros Hin. by apply (Hts u Hin).
  - intros u Hu. destruct (decide (u ∈ ts)) as [Hin|Hin]; [|rewrite (proj1 (K u Hu Hin)); auto].
    unfold task_status. destruct (St u Hin) as [[-> | ->] _]; auto.
  - intros u Hu. unfold ended_retval. destruct (decide (u ∈ ts)) as [Hin|Hin].
    + by destruct (St u Hin) as [[-> | ->] _].
    + destruct (K u Hu Hin) as [-> ->]. by apply V.
Qed.

Lemma holders_executed t (n : Z) w w' es q1 q2 x r :
  is_task S t -> does S {[t]} w w' es -> status_of (doc w') t = Some (if n >? 0 then "EXECUTING" else "ABORTED")%string ->
  holders (doc w) (q1 ++ t :: q2) x r -> holders (doc w') (q1 ++ q2) (if n >? 0 then t :: x else x) r.
Proof.
  intros Ht Dw Es [G Q X R T V].
  assert (status_of (doc w) t = Some "QUEUED"%string) as Et by (apply (held_task _ _ _ _ Q); set_solver).
  assert (forall u, is_task S u -> u <> t -> status_of (doc w') u = status_of (doc w) u /\ retval_of (doc w') u = retval_of (doc w) u) as K.
  { intros u Hu Hn. apply (do_same _ _ _ _ _ Dw u Hu). set_solver. }
  split.
  - apply Dw.
  - apply (held_remove (doc w) _ _ _ t); [|by rewrite Es; destruct (n >? 0)|done]. intros u Hu Hn. by apply K.
  - destruct (n >? 0).
    + destruct (held_add (doc w) (doc w') "EXECUTING" x [t]) as [N Hl]; [apply NoDup_singleton| | |done|].
      * intros u ->%list_elem_of_singleton. split_and!; [done|done|congruence].
      * intros u Hu Hn. rewrite list_elem_of_singleton in Hn. by rewrite (proj1 (K u Hu Hn)).
      * split; [by rewrite Permutation_cons_append|]. intros u. by rewrite <- Hl, Permutation_cons_append.
    + apply (held_same (doc w)); [|done]. intros u Hu. destruct (decide (u = t)) as [->|Hn]; [by rewrite Es, Et|].
      by rewrite (proj1 (K u Hu Hn)).
  - apply (failed_same (doc w)); [|done]. intros u Hu. destruct R as [_ R], (R u Hu) as (Hk & Ek & _).
    apply K; [done|]. intros ->. congruence.
  - intros u Hu. destruct (decide (u = t)) as [->|Hn]; [|rewrite (proj1 (K u Hu Hn)); auto].
    rewrite Es. unfold task_status. destruct (n >? 0); auto.
  - intros u Hu. unfold ended_retval. destruct (decide (u = t)) as [->|Hn]; [rewrite Es; by destruct (n >? 0)|].
    destruct (K u Hu Hn) as [-> ->]. by apply V.
Qed.

Lemma holders_ends t z w w' es q x1 x2 r :
  ends S t z w w' es -> holders (doc w) q (x1 ++ t :: x2) r ->
  holders (doc w') (q ++ enqueued es) (x1 ++ x2 ++ resumed es) (r ++ inserted es).
Proof.
  intros [Dw [-> ->] Es Er Ei] [G Q X R T V]. rewrite !app_nil_r.
  destruct (held_task _ _ _ t X) as [Ht Et]; [set_solver|].
  assert (forall u, is_task S u -> u <> t -> status_of (doc w') u = status_of (doc w) u /\ retval_of (doc w') u = retval_of (doc w) u) as K.
  { intros u Hu Hn. apply (do_same _ _ _ _ _ Dw u Hu). set_solver. }
  assert (failed (doc w') r /\ t ∉ r) as [R' Hr].
  { assert (t ∉ r) as Hn by (intros Hin; destruct R as [_ R], (R t Hin) as (_ & Ek & _); congruence). split; [|done].
    apply (failed_same (doc w)); [|done]. intros u Hu. apply K; [by apply R|]. by intros ->. }
  split.
  - apply Dw.
  - apply (held_same (doc w)); [|done]. intros u Hu. destruct (decide (u = t)) as [->|Hn]; [|by rewrite (proj1 (K u Hu Hn))].
    rewrite Et. by destruct Es as [-> | ->].
  - apply (held_remove (doc w) _ _ _ t); [|by destruct Es as [-> | ->]|done]. intros u Hu Hn. by apply K.
  - destruct Ei as [->|(-> & Hz & Ev)]; [by rewrite app_nil_r|]. destruct R' as [N Hl]. split.
    + apply NoDup_app. split; [done|]. split; [|apply NoDup_singleton]. intros u ? ->%list_elem_of_singleton. done.
    + intros u [Hu| ->%list_elem_of_singleton]%elem_of_app; [auto|]. eauto.
  - intros u Hu. destruct (decide (u = t)) as [->|Hn]; [|rewrite (proj1 (K u Hu Hn)); auto].
    unfold task_status. destruct Es as [-> | ->]; auto.
  - intros u Hu. unfold ended_retval. destruct (decide (u = t)) as [->|Hn]; [eauto|].
    destruct (K u Hu Hn) as [-> ->]. by apply V.
Qed.

(** * The order of the jobs *)

Lemma successful_same d d' u :
  status_of d' u = status_of d u -> retval_of d' u = retval_of d u -> successful d' u = successful d u.
Proof. unfold successful. by intros -> ->. Qed.

Lemma unsuccessful d u : status_of d u <> Some "TERMINATED"%string -> successful d u = false.
Proof. intros Hu. unfold successful. by rewrite bool_decide_false. Qed.

Lemma unsuccessful_retval d u z : z <> 0 -> retval_of d u = Some (sprintf_d z) -> successful d u = false.
Proof.
  intros Hz E. unfold successful. rewrite E. rewrite (bool_decide_false (Some (sprintf_d z) = _)); [apply andb_false_r|].
  intros [= E0]. by apply Hz, (inj pretty z 0).
Qed.

Lemma completed_same d d' p :
  (forall u, u ∈ stasks S p -> successful d' u = successful d u) -> completed S d' p = completed S d p.
Proof.
  unfold completed. intros E. destruct (stasks S p) as [|u ts]; [done|].
  induction (u :: ts) as [|u' l IH]; [done|]. simpl. rewrite E by (by left). f_equal. apply IH. intros v Hv. apply E. by right.
Qed.

Lemma completed_all d p : stasks S p <> [] -> (forall u, u ∈ stasks S p -> successful d u = true) -> completed S d p = true.
Proof.
  unfold completed. destruct (stasks S p) as [|v ts]; [done|]. intros _ Hu.
  apply forallb_forall. intros u Hin%list_elem_of_In. auto.
Qed.

Lemma completed_task d p u : u ∈ stasks S p -> successful d u = false -> completed S d p = false.
Proof.
  unfold completed. intros Hu Hs. destruct (stasks S p) as [|v ts]; [set_solver|].
  apply not_true_is_false. intros Hf. rewrite forallb_forall in Hf.
  assert (successful d u = true) by (by apply Hf, list_elem_of_In). congruence.
Qed.

Lemma due_job d j : j ∈ sjobs S -> due d j = completed S d j.
Proof. intros Hj. unfold due. rewrite bool_decide_false; [done|]. intros ->. by apply (wf_root S HS). Qed.

(** The task [t] of [j] changes; if this completes [j] the jobs below start. *)
Lemma in_order_next d d' j t (b : bool) (ts := if b then tasks_below S (ssubjobs S j) else []) :
  j ∈ sjobs S -> t ∈ stasks S j -> in_order d ->
  status_of d t <> None -> status_of d' t <> None -> successful d t = false -> completed S d' j = b ->
  (forall u, u ∈ ts -> status_of d' u = Some "QUEUED" \/ status_of d' u = Some "ABORTED")%string ->
  (forall u, is_task S u -> u <> t -> u ∉ ts -> status_of d' u = status_of d u /\ retval_of d' u = retval_of d u) ->
  in_order d'.
Proof.
  intros Hj Hjt Ho St St' Hs Hb Hts Ks.
  assert (j ∈ all_jobs S) as Hja by (by right).
  (* the tasks that are started have waited *)
  assert (forall u, u ∈ ts -> status_of d u = None) as Hwait.
  { subst ts. destruct b; [|set_solver]. intros u (j' & Hu & Hin)%list_elem_of_bind. specialize (Ho j j' Hja Hin).
    rewrite due_job, (completed_task _ _ _ Hjt Hs) in Ho by done. by apply Ho. }
  assert (forall u, is_task S u -> status_of d u <> None -> status_of d' u <> None) as Hbegun.
  { intros u Hu Hn. destruct (decide (u = t)) as [->|Ht]; [done|]. destruct (decide (u ∈ ts)) as [Hin|Hin].
    - by destruct (Hts u Hin) as [-> | ->].
    - by rewrite (proj1 (Ks u Hu Ht Hin)). }
  assert (forall u, is_task S u -> u ∉ ts -> status_of d u = None -> status_of d' u = None) as Hstill.
  { intros u Hu Hin Hn. rewrite (proj1 (Ks u Hu (fun E => ltac:(congruence)) Hin)). done. }
  assert (due d j = false) as Hdue by (rewrite due_job by done; by eapply completed_task).
  intros p j' Hp Hj'. specialize (Ho p j' Hp Hj').
  assert (j' ∈ sjobs S) as Hjob by (by apply (wf_subjobs S HS p)).
  destruct (decide (p = j)) as [->|Hne].
  - rewrite Hdue in Ho. rewrite due_job, Hb by done. destruct b.
    + intros u Hu. assert (u ∈ ts) as Hin by (apply list_elem_of_bind; eauto). by destruct (Hts u Hin) as [-> | ->].
    + intros u Hu. apply Hstill; [by exists j'|set_solver|by apply Ho].
  - assert (due d' p = due d p) as ->.
    { unfold due. destruct (decide (p = sroot S)) as [->|Hr]; [by rewrite bool_decide_true|]. f_equal.
      assert (p ∈ sjobs S) as Hpj by set_solver. apply completed_same. intros u Hu.
      assert (u <> t) as Ht by (intros ->; by destruct Hne; apply (wf_job S HS p j t)).
      destruct (decide (u ∈ ts)) as [Hin|Hin].
      - rewrite !unsuccessful; [done|by rewrite (Hwait u Hin)|by destruct (Hts u Hin) as [-> | ->]].
      - apply successful_same; apply Ks; try done; by exists p. }
    destruct (due d p).
    + intros u Hu. apply Hbegun; [by exists j'|by apply Ho].
    + intros u Hu. apply Hstill; [by exists j'| |by apply Ho]. subst ts. destruct b; [|set_solver].
      intros (j2 & Hu2 & Hj2)%list_elem_of_bind. apply Hne.
      assert (j2 ∈ sjobs S) by (by apply (wf_subjobs S HS j)).
      assert (j2 = j') as -> by (by apply (wf_job S HS j2 j' u)). by apply (wf_parent S HS p j j').
Qed.

(** * The operations keep the order *)

Lemma returns_Ok {A} (m : M A) w Q x w' : m w = Ok x w' -> returns m w Q -> Q x w'.
Proof. unfold returns. by intros ->. Qed.

(** The effects of an operation are those between its two states. *)
Lemma does_effects U es es' w w' : does S U w w' es -> effects w' = es' ++ effects w -> es' = es.
Proof. intros [_ _ E] E'. rewrite E in E'. by apply app_inv_tail in E'. Qed.

Lemma give_ordered es w q x r (b : bool) :
  holders (doc w) (q ++ enqueued es) (x ++ resumed es) (r ++ inserted es) -> in_order (doc w) ->
  ordered (give es w q x r b).
Proof. by split. Qed.

Lemma execute_ordered s q1 t q2 tid fork n b w es :
  ordered s -> queued s = q1 ++ t :: q2 -> fork <> 0 ->
  TaskExecute GetTask format_time engine_env configuration t tid fork (state s) = Ok (n, b) w ->
  effects w = es ++ effects (state s) ->
  ordered (give es w (q1 ++ q2) (if n >? 0 then t :: executing s else executing s) (retrying s) b).
Proof.
  intros [Hh Ho] Hq Hf E He. rewrite Hq in Hh.
  destruct (held_task _ _ _ t (ho_queued _ _ _ _ Hh)) as [Ht Et]; [set_solver|].
  eapply returns_Ok in E; [|apply (TaskExecute_executed known_queue _ _ _ _ S); [done|done|by apply Hh|done]].
  destruct E as (es' & Dw & (C1 & C2 & C3)%calls_nil & Es & Er). simpl in Es, Er.
  pose proof (does_effects _ _ _ _ _ Dw He) as ->. apply give_ordered.
  { rewrite C1, C2, C3, !app_nil_r. by eapply holders_executed. }
  destruct Ht as (j & Hj & Hjt).
  assert (forall d u, status_of d u = Some (if n >? 0 then "EXECUTING" else "ABORTED")%string -> successful d u = false) as Hu.
  { intros d u E. apply unsuccessful. rewrite E. by destruct (n >? 0). }
  eapply (in_order_next (document s) _ j t false); [done|done|done| | | | |set_solver|].
  - by rewrite Et.
  - by rewrite Es.
  - apply unsuccessful. by rewrite Et.
  - eapply completed_task; eauto.
  - intros u Hut Hne _. apply (do_same _ _ _ _ _ Dw u Hut). set_solver.
Qed.

Lemma restart_ordered s r1 t r2 b w es :
  ordered s -> retrying s = r1 ++ t :: r2 ->
  TaskRestart known_queue format_time t (state s) = Ok b w ->
  effects w = es ++ effects (state s) ->
  ordered (give es w (queued s) (executing s) (r1 ++ r2) b).
Proof.
  intros [Hh Ho] Hr E He. rewrite Hr in Hh. pose proof (ho_retrying _ _ _ _ Hh) as R.
  destruct R as [_ R], (R t) as (Ht & Et & z & Hz & Ez); [set_solver|].
  eapply returns_Ok in E; [|apply (TaskRestart_starts _ GetTask _ engine_env S); [done|done|by apply Hh]].
  destruct E as (es' & St). pose proof (does_effects _ _ _ _ _ (st_does _ _ _ _ _ St) He) as ->.
  destruct (failed_remove _ _ _ _ (ho_retrying _ _ _ _ Hh)) as [R' Hn].
  apply give_ordered.
  { apply (holders_starts [t] (state s)); [by constructor| |done|by destruct Hh].
    intros u ->%list_elem_of_singleton. unfold document in Et. rewrite Et. done. }
  destruct Ht as (j & Hj & Hjt). destruct (st_status _ _ _ _ _ St t) as [Es _]; [by left|].
  eapply (in_order_next (document s) _ j t false); [done|done|done| | | | |set_solver|].
  - by rewrite Et.
  - by destruct Es as [-> | ->].
  - by eapply unsuccessful_retval.
  - eapply completed_task; [done|]. apply unsuccessful. by destruct Es as [-> | ->].
  - intros u Hut Hne _. apply (do_same _ _ _ _ _ (st_does _ _ _ _ _ St) u Hut). set_solver.
Qed.

(** The end of a task, then the jobs below. *)
Lemma continues_holders j w w' es q x r :
  j ∈ all_jobs S -> (completed S (doc w) j = true -> waiting (doc w) (tasks_below S (ssubjobs S j))) ->
  continues S j w w' es -> holders (doc w) q x r ->
  holders (doc w') (q ++ enqueued es) (x ++ resumed es) (r ++ inserted es).
Proof.
  intros Hj Hw C Hh. unfold continues in C. destruct (completed S (doc w) j).
  - eapply holders_starts; [| |exact C|done].
    + apply Forall_forall. intros t. by apply tasks_below_all.
    + intros t Ht. rewrite (Hw eq_refl t Ht). split_and!; [done..|]. intros Hr.
      destruct (ho_retrying _ _ _ _ Hh) as [_ R], (R t Hr) as (_ & E & _). by rewrite (Hw eq_refl t Ht) in E.
  - destruct C as [Dw (-> & -> & ->)%calls_nil]. rewrite !app_nil_r. destruct Hh as [G Q X R T V].
    assert (forall u, is_task S u -> status_of (doc w') u = status_of (doc w) u /\ retval_of (doc w') u = retval_of (doc w) u) as K.
    { intros u Hu. apply (do_same _ _ _ _ _ Dw u Hu). set_solver. }
    split; [apply Dw|..].
    + apply (held_same (doc w)); [|done]. intros u Hu. by rewrite (proj1 (K u Hu)).
    + apply (held_same (doc w)); [|done]. intros u Hu. by rewrite (proj1 (K u Hu)).
    + apply (failed_same (doc w)); [|done]. intros u Hu. by apply K, R.
    + intros u Hu. rewrite (proj1 (K u Hu)). auto.
    + intros u Hu. unfold ended_retval. destruct (K u Hu) as [-> ->]. by apply V.
Qed.

Lemma continues_view j w w' es (ts := if completed S (doc w) j then tasks_below S (ssubjobs S j) else []) :
  j ∈ all_jobs S -> continues S j w w' es ->
  effects w' = es ++ effects w /\ (resumed es = [] /\ inserted es = []) /\
  (forall u, u ∈ ts -> status_of (doc w') u = Some "QUEUED" \/ status_of (doc w') u = Some "ABORTED")%string /\
  (forall u, is_task S u -> u ∉ ts -> status_of (doc w') u = status_of (doc w) u /\ retval_of (doc w') u = retval_of (doc w) u).
Proof.
  intros Hj C. unfold continues in C. subst ts. destruct (completed S (doc w) j).
  - destruct C as [Dw Cc _ _ St]. split; [apply Dw|]. split; [done|]. split; [intros u Hu; by apply St|].
    intros u Hu Hn. apply (do_same _ _ _ _ _ Dw u Hu). by rewrite elem_of_list_to_set.
  - destruct C as [Dw (_ & ? & ?)%calls_nil]. split; [apply Dw|]. split; [done|]. split; [set_solver|].
    intros u Hu _. apply (do_same _ _ _ _ _ Dw u Hu). set_solver.
Qed.

Lemma stop_ordered s x1 t x2 retval output b w es :
  ordered s -> executing s = x1 ++ t :: x2 ->
  TaskStop known_queue GetTask format_time t retval output (state s) = Ok b w ->
  effects w = es ++ effects (state s) ->
  ordered (give es w (queued s) (x1 ++ x2) (retrying s) b).
Proof.
  intros [Hh Ho] Hx E He. rewrite Hx in Hh.
  destruct (held_task _ _ _ t (ho_executing _ _ _ _ Hh)) as [(j & Hj & Hjt) Et]; [set_solver|].
  assert (j ∈ all_jobs S) as Hja by (by right).
  assert (successful (document s) t = false) as Hs by (apply unsuccessful; by rewrite Et).
  assert (waiting (document s) (tasks_below S (ssubjobs S j))) as Hwait.
  { intros u (j' & Hu & Hin)%list_elem_of_bind. specialize (Ho j j' Hja Hin).
    rewrite due_job, (completed_task _ _ _ Hjt Hs) in Ho by done. by apply Ho. }
  eapply returns_Ok in E; [|apply (TaskStop_stopped _ _ _ engine_env S j);
    [done|done|done|by apply Hh|unfold document in Et; by rewrite Et|done]].
  destruct E as (w1 & es1 & es2 & En & C).
  destruct (continues_view _ _ _ _ Hja C) as (Ee & (C2 & C3) & Kts & Ks).
  assert (es = es2 ++ es1) as ->.
  { apply (app_inv_tail (effects (state s))). rewrite <- He, <- app_assoc, Ee. by rewrite (do_effects _ _ _ _ _ (en_does _ _ _ _ _ _ En)). }
  assert (forall u, is_task S u -> u <> t ->
    status_of (doc w1) u = status_of (document s) u /\ retval_of (doc w1) u = retval_of (document s) u) as K1.
  { intros u Hu Hne. apply (do_same _ _ _ _ _ (en_does _ _ _ _ _ _ En) u Hu). set_solver. }
  assert (t ∉ tasks_below S (ssubjobs S j)) as Hnt by (intros Hin; specialize (Hwait t Hin); congruence).
  assert (forall u, u ∈ stasks S j -> u ∉ tasks_below S (ssubjobs S j)) as Hnj.
  { intros u Hu (j' & Hu' & Hin)%list_elem_of_bind. apply Hnt, list_elem_of_bind. exists j. split; [done|].
    assert (j' ∈ sjobs S) by (by apply (wf_subjobs S HS j)).
    by assert (j' = j) as -> by (by apply (wf_job S HS j' j u)). }
  assert (waiting (doc w1) (tasks_below S (ssubjobs S j))) as Hwait1.
  { intros u Hu. rewrite (proj1 (K1 u (tasks_below_all _ _ _ HS Hja Hu) ltac:(by intros ->))). by apply Hwait. }
  apply give_ordered.
  - apply (holders_ends _ _ _ _ _ _ _ _ _ En) in Hh. apply (continues_holders _ _ _ _ _ _ _ Hja (fun _ => Hwait1) C) in Hh.
    destruct (en_calls _ _ _ _ _ _ En) as [Q1 R1]. rewrite Q1, R1, C2, C3, !app_nil_r in Hh.
    by rewrite enqueued_app, resumed_app, inserted_app, Q1, R1, C2, C3, !app_nil_r.
  - assert (status_of (doc w1) t <> None) as Et1 by (by destruct (en_status _ _ _ _ _ _ En) as [-> | ->]).
    eapply (in_order_next (document s) _ j t (completed S (doc w1) j)); [done|done|done|by rewrite Et| |done| |done|].
    + rewrite (proj1 (Ks t (ltac:(by exists j)) ltac:(by destruct (completed _ _ _); [|set_solver]))). done.
    + apply completed_same. intros u Hu. apply successful_same; apply Ks; try (by exists j);
        (destruct (completed _ _ _); [by apply Hnj|set_solver]).
    + intros u Hu Hne Hin. destruct (K1 u Hu Hne) as [<- <-]. by apply Ks.
Qed.

(** * The start *)

Lemma completed_unsuccessful d p : (forall u, u ∈ stasks S p -> successful d u = false) -> completed S d p = false.
Proof.
  intros Hu. destruct (stasks S p) as [|u ts] eqn:E; [unfold completed; by rewrite E|].
  apply (completed_task _ _ u); [rewrite E; by left|]. apply Hu. by left.
Qed.

Lemma fresh_holders w : fresh w -> holders (doc w) [] [] [].
Proof.
  intros [G F]. assert (forall v, held (doc w) v []) as Hn.
  { intros v. split; [constructor|]. intros t. split; [by intros ?%not_elem_of_nil|]. intros [Ht E]. by rewrite F in E. }
  split; [done|done|done| | |]; [split; [constructor|set_solver]| |]; intros t Ht; [left; by apply F|].
  unfold ended_retval. by rewrite F.
Qed.

Lemma start_ordered w b w' es' :
  fresh w -> effects w' = es' ++ effects w -> Start known_queue format_time w = Ok b w' -> ordered (give es' w' [] [] [] b).
Proof.
  intros Hf He E. pose proof (fresh_tasks _ Hf) as Hn. set (ts := tasks_below S (ssubjobs S (sroot S))).
  assert (sroot S ∈ all_jobs S) as Hr by by left.
  assert (forall t, t ∈ ts -> is_task S t) as Hts by (intros t; by apply tasks_below_all).
  eapply returns_Ok in E; [|apply (Start_starts _ GetTask _ engine_env S);
    [done|by apply Hf|intros t Ht; by apply Hn, Hts]].
  destruct E as (es & St). fold ts in St.
  rewrite (does_effects _ _ _ _ _ (st_does _ _ _ _ _ St) He) in *.
  assert (forall u, is_task S u -> u ∉ ts -> status_of (doc w') u = None) as Ks.
  { intros u Hu Hin. rewrite <- (Hn u Hu). apply (do_same _ _ _ _ _ (st_does _ _ _ _ _ St) u Hu). by rewrite elem_of_list_to_set. }
  apply give_ordered.
  - apply (holders_starts ts w); [by apply Forall_forall| |done|by apply fresh_holders].
    intros t Ht. rewrite (Hn t (Hts t Ht)). set_solver.
  - intros p j Hp Hj. unfold due. destruct (decide (p = sroot S)) as [->|Hne].
    + rewrite bool_decide_true by done. intros u Hu.
      assert (u ∈ ts) as Hin by (apply list_elem_of_bind; eauto). by destruct (st_status _ _ _ _ _ St u Hin) as [[-> | ->] _].
    + rewrite bool_decide_false by done. rewrite completed_unsuccessful; simpl.
      * intros u Hu. assert (j ∈ sjobs S) as Hjob by (by apply (wf_subjobs S HS p)). apply Ks; [by exists j|].
        intros (j' & Hu' & Hin)%list_elem_of_bind. apply Hne.
        assert (j' ∈ sjobs S) by (by apply (wf_subjobs S HS (sroot S))).
        assert (j' = j) as -> by (by apply (wf_job S HS j' j u)). by apply (wf_parent S HS p (sroot S) j).
      * intros u Hu. apply unsuccessful. destruct (decide (u ∈ ts)) as [Hin|Hin].
        -- by destruct (st_status _ _ _ _ _ St u Hin) as [[-> | ->] _].
        -- rewrite Ks; [done| |done]. exists p. set_solver.
Qed.

(** * The resumption *)

Lemma in_order_same d d' :
  (forall u, is_task S u -> (status_of d' u = None <-> status_of d u = None) /\ successful d' u = successful d u) ->
  in_order d -> in_order d'.
Proof.
  intros E Ho p j Hp Hj. specialize (Ho p j Hp Hj). assert (j ∈ sjobs S) as Hjob by (by apply (wf_subjobs S HS p)).
  assert (due d' p = due d p) as ->.
  { unfold due. destruct (decide (p = sroot S)) as [->|Hr]; [by rewrite bool_decide_true|]. f_equal.
    apply completed_same. intros u Hu. apply E. exists p. set_solver. }
  assert (forall u, u ∈ stasks S j -> status_of d' u = None <-> status_of d u = None) as Ej by (intros u Hu; apply E; by exists j).
  destruct (due d p); intros u Hu; [intros Hn; apply (Ho u Hu); by apply Ej|]. apply Ej; [done|]. by apply Ho.
Qed.

Lemma resume_ordered w b w' es' :
  saved w -> effects w' = es' ++ effects w -> Resume known_queue format_time w = Ok b w' -> ordered (give es' w' [] [] [] b).
Proof.
  intros [[G T V Ho] (ts & Et & N & Hts)] He E.
  assert (Forall (is_task S) ts) as F by (apply Forall_forall; intros t Ht; by apply Hts).
  eapply returns_Ok in E; [|apply (Resume_resumes _ GetTask _ engine_env S ts);
    [done|done|exact Et|done|done|intros t Ht; by apply V, Hts]].
  destruct E as (es & Rs).
  rewrite (does_effects _ _ _ _ _ (re_does _ _ _ _ _ Rs) He) in *.
  assert (forall u, is_task S u -> u ∉ ts -> status_of (doc w') u = status_of (doc w) u /\ retval_of (doc w') u = retval_of (doc w) u) as Ks.
  { intros u Hu Hin. apply (do_same _ _ _ _ _ (re_does _ _ _ _ _ Rs) u Hu). by rewrite elem_of_list_to_set. }
  rewrite Forall_forall in F. destruct (re_nodup _ _ _ _ _ Rs) as (NQ & NR & NI).
  apply give_ordered; [split|].
  - apply Rs.
  - split; [done|]. intros t. rewrite (re_queued _ _ _ _ _ Rs). split; [naive_solver|]. intros [Ht Es]. split; [|done].
    destruct (decide (t ∈ ts)) as [|Hn]; [done|]. destruct (Ks t Ht Hn) as [Ek _]. apply Hts. rewrite <- Ek. auto.
  - split; [done|]. intros t. rewrite (re_executing _ _ _ _ _ Rs). split; [naive_solver|]. intros [Ht Es]. split; [|done].
    destruct (decide (t ∈ ts)) as [|Hn]; [done|]. destruct (Ks t Ht Hn) as [Ek _]. apply Hts. rewrite <- Ek. auto.
  - split; [done|]. intros t Hin. destruct (re_inserted _ _ _ _ _ Rs t Hin) as (Ht & Es & Er). auto.
  - intros t Ht. destruct (decide (t ∈ ts)) as [Hin|Hn]; [|by rewrite (proj1 (Ks t Ht Hn)); apply T].
    unfold task_status. destruct (re_status _ _ _ _ _ Rs t Hin) as [[Es|[_ Es]] _]; rewrite Es; [by apply T|auto].
  - intros t Ht. unfold ended_retval. destruct (decide (t ∈ ts)) as [Hin|Hn].
    + destruct (re_status _ _ _ _ _ Rs t Hin) as [[Es|[_ Es]] Er]; rewrite Es, Er; [by apply V|done].
    + destruct (Ks t Ht Hn) as [-> ->]. by apply V.
  - apply (in_order_same (doc w)); [|done]. intros u Hu. destruct (decide (u ∈ ts)) as [Hin|Hn].
    + destruct (re_status _ _ _ _ _ Rs u Hin) as [[Es|[Es Es']] Er].
      * rewrite Es. split; [done|]. by apply successful_same.
      * rewrite Es, Es'. split; [done|]. by rewrite !unsuccessful by (by rewrite ?Es, ?Es').
    + destruct (Ks u Hu Hn) as [Es Er]. rewrite Es. split; [done|]. by apply successful_same.
Qed.

Lemma launched_ordered s : launched s -> ordered s.
Proof.
  intros (w & b & w' & es & _ & [[Hf E]|[Hf E]] & He & -> & _); [by eapply start_ordered|by eapply resume_ordered].
Qed.

(** An operation that leaves the tasks alone. *)
Lemma still_ordered s w :
  ordered s -> still S (state s) w -> ordered (mkSys w (queued s) (executing s) (retrying s) (over s)).
Proof.
  intros [[G Q X [N R] T V] Ho] St. assert (forall t, is_task S t ->
    status_of (doc w) t = status_of (document s) t /\ retval_of (doc w) t = retval_of (document s) t) as K
    by (intros t; by apply still_status).
  unfold ordered. change (document (mkSys w _ _ _ _)) with (doc w). cbn [queued executing retrying]. split; [split|].
  - by eapply still_good.
  - apply (held_same (document s) (doc w)); [|exact Q]. intros u Hu. by rewrite (proj1 (K u Hu)).
  - apply (held_same (document s) (doc w)); [|exact X]. intros u Hu. by rewrite (proj1 (K u Hu)).
  - apply (failed_same (document s) (doc w)); [|by split]. intros u Hu. by apply K, R.
  - intros t Ht. rewrite (proj1 (K t Ht)). by apply T.
  - intros t Ht. unfold ended_retval. destruct (K t Ht) as [-> ->]. by apply V.
  - apply (in_order_same (document s) (doc w)); [|exact Ho]. intros u Hu. destruct (K u Hu) as [E1 E2]. rewrite E1. split; [done|]. by apply successful_same.
Qed.

Lemma step_ordered s s' : ordered s -> step s s' -> ordered s'.
Proof.
  intros Ho Hs. destruct Hs as [s s' Hw|s w E|s w E|s pid b w E|s db t].
  - destruct Hw; eauto using execute_ordered, stop_ordered, restart_ordered.
  - unfold Cancel, modify in E. injection E as <-. destruct Ho as [[? ? ? ? ? ?] ?]. split; [split|]; done.
  - eapply still_ordered; [done|]. pose proof (quiet_record_savepoint known_queue GetTask format_time engine_env S true (state s)) as K.
    unfold RecordSavepoint in E. rewrite E in K. apply K, Ho.
  - eapply still_ordered; [done|]. pose proof (quiet_KillTask format_time S pid (state s)) as K. rewrite E in K. apply K, Ho.
  - destruct Ho as [[? ? ? ? ? ?] ?]. split; [split|]; done.
Qed.

Lemma run_ordered s0 s : launched s0 -> rtc step s0 s -> ordered s.
Proof. intros Hl Hr. apply launched_ordered in Hl. induction Hr; eauto using step_ordered. Qed.

Lemma launched_begins s : launched s -> begins known_queue format_time s.
Proof.
  intros (w & b & w' & es & (? & ?) & [[_ E]|[_ E]] & He & -> & Hfit).
  - by apply (begins_start _ _ w b w' es).
  - by apply (begins_resume _ _ w b w' es).
Qed.

(** * Properties *)

(** C8: In a workflow without conditions, loops and computed inputs, started
    anew or resumed from a savepoint whose outputs contain no task element,
    whatever the order in which its tasks are executed, ended and restarted:
    every task of a job below the root, and of a job below one whose tasks
    have all ended with the exit status 0, has been queued or aborted; no
    task of a job below any other job has been touched; and what Resume
    makes of the document of any state, if its outputs contain no task
    element, is again such a launch, with the same guarantee. *)
Theorem job_order s0 s p j :
  launched s0 -> rtc step s0 s -> p ∈ all_jobs S -> j ∈ ssubjobs S p ->
  (if due (document s) p then begun (document s) (stasks S j) else waiting (document s) (stasks S j)) /\
  (forall w b w' es,
     doc w = document s -> constructed w -> finds_tasks (doc w) ->
     Resume known_queue format_time w = Ok b w' -> effects w' = es ++ effects w -> fits (give es w' [] [] [] b) ->
     launched (give es w' [] [] [] b)).
Proof.
  intros Hl Hr Hp Hj. destruct (run_ordered _ _ Hl Hr) as [[G _ _ _ T V] Ho]. split; [by apply Ho|].
  intros w b w' es Hw Hc Hf E Ee F. exists w, b, w', es. split; [done|]. split; [|done]. right. split; [|done].
  split; [|done]. rewrite Hw. by split.
Qed.

(** C9: In such a workflow the status attribute of a task is always missing,
    QUEUED, EXECUTING, TERMINATED or ABORTED, and it says who holds the
    task: the queue pool holds the QUEUED tasks and no other, the process
    manager the EXECUTING ones and no other, each once; what the retrier
    holds has TERMINATED with an exit status other than 0. *)
Theorem status_type s0 s :
  launched s0 -> rtc step s0 s ->
  (forall t, is_task S t -> task_status (status_of (document s) t)) /\
  held (document s) "QUEUED" (queued s) /\ held (document s) "EXECUTING" (executing s) /\
  failed (document s) (retrying s).
Proof. intros Hl Hr. destruct (run_ordered _ _ Hl Hr) as [[_ Q X R T _] _]. by split_and!. Qed.

(** C15: When the end of a workflow without conditions, loops and computed
    inputs is reported, its tasks are untouched, TERMINATED or ABORTED; if
    none was aborted or has failed and every job has a task, all the tasks
    of all the jobs have succeeded. *)
Theorem workflow_completes s0 s :
  launched s0 -> rtc step s0 s -> over s = true ->
  (forall t, is_task S t -> status_of (document s) t <> Some "QUEUED" /\ status_of (document s) t <> Some "EXECUTING")%string /\
  ((forall t, is_task S t -> status_of (document s) t = None \/ successful (document s) t = true) ->
   (forall j, j ∈ sjobs S -> stasks S j <> []) ->
   forall j, rtc (fun p j => j ∈ ssubjobs S p) (sroot S) j -> j ∈ sjobs S -> completed S (document s) j = true).
Proof.
  intros Hl Hr Ho. destruct (run_ordered _ _ Hl Hr) as [[_ [_ Q] [_ X] _ _ _] Hord].
  pose proof (workflow_inv _ _ _ _ _ _ _ (launched_begins _ Hl) Hr) as Hi.
  rewrite (inv_over _ Hi) in Ho. apply (ended_iff _ Hi) in Ho as (Eq & Ex & _). rewrite Eq in Q. rewrite Ex in X. split.
  { intros t Ht. split; intros E; [destruct (not_elem_of_nil t)|destruct (not_elem_of_nil t)]; [apply Q|apply X]; done. }
  intros Hok Hne j Hj. enough (j ∈ all_jobs S /\ (j ∈ sjobs S -> completed S (document s) j = true)) by tauto.
  revert j Hj. refine (rtc_ind_r _ _ _ _); [split; [by left|intros Hj; by destruct (wf_root S HS)]|].
  intros p j Hrp Hpj [Hp IH]. assert (j ∈ sjobs S) as Hj by (by apply (wf_subjobs S HS p)). split; [by right|]. intros _.
  specialize (Hord p j Hp Hpj). assert (due (document s) p = true) as Hd.
  { unfold due. destruct (decide (p = sroot S)) as [->|Hpr]; [by rewrite bool_decide_true|].
    rewrite IH; [apply orb_true_r|]. set_solver. }
  rewrite Hd in Hord. apply completed_all; [by apply Hne|]. intros u Hu.
  destruct (Hok u) as [E|E]; [by exists j| |done]. by destruct (Hord u Hu).
Qed.
End jobs.

(** * A run *)

#[local] Instance ex_shapes : @WorkflowDom TreeDom.doc ex_dom := TreeWorkflow ex_library.
#[local] Instance ex_laws : WorkflowDomLaws TreeDom.doc := TreeWorkflow_laws ex_library.
#[local] Instance ex_attributes : DomAttributes TreeDom.doc := TreeDom_attributes ex_library.

Definition ex_shape : shape := shape_of ex_workflow.

(** The job below the root, and the one below it. *)
Definition ex_job (i : nat) : node_ref := default 1%positive (sjobs ex_shape !! i).

Lemma ex_wf_shape : wf_shape ex_shape.
Proof. apply check_wf_shape_ok. vm_compute. reflexivity. Qed.

Definition check_attributes (S : shape) (d : TreeDom.doc) : bool :=
  forallb (fun j => bool_decide (getNamedItem d j "condition" = None) && bool_decide (getNamedItem d j "loop" = None)) (sjobs S) &&
  forallb (fun t => bool_decide (getNamedItem d t "loop" = None) && bool_decide (retval_of d t = None) &&
                    bool_decide (status_of d t = None)) (all_stasks S).

Lemma check_fresh S d : check_shows S d = true -> check_attributes S d = true -> fresh S (ex_world d).
Proof.
  intros Hs Ha. unfold check_attributes in Ha. rewrite andb_true_iff, !forallb_forall in Ha. destruct Ha as [Hj Ht].
  split; [split|].
  - by apply check_shows_ok.
  - intros j Hin%list_elem_of_In. specialize (Hj j Hin). by rewrite andb_true_iff, !bool_decide_eq_true in Hj.
  - intros t Hin%is_task_all%list_elem_of_In. specialize (Ht t Hin). rewrite !andb_true_iff, !bool_decide_eq_true in Ht.
    destruct Ht as ((? & ?) & _). split; [done|by left].
  - intros t Hin%is_task_all%list_elem_of_In. specialize (Ht t Hin). rewrite !andb_true_iff, !bool_decide_eq_true in Ht.
    by destruct Ht.
Qed.

Lemma ex_fresh : fresh ex_shape (ex_world ex_workflow).
Proof. apply check_fresh; vm_compute; reflexivity. Qed.

Lemma ex_constructed d : constructed (ex_world d).
Proof. by split. Qed.

Lemma ex_launched : launched ex_known_queue ex_format_time ex_shape ex_begin.
Proof.
  pose proof ex_start_fits as F. unfold ex_begin.
  destruct (Start ex_known_queue ex_format_time (ex_world ex_workflow)) as [b w|e w|] eqn:E; [|destruct F..].
  exists (ex_world ex_workflow), b, w, (effects w). split; [exact (ex_constructed _)|].
  split; [left; split; [exact ex_fresh|exact E]|]. split; [by rewrite app_nil_r|]. split; [reflexivity|exact F].
Qed.

(** The tasks of the upper job have succeeded. *)
Definition ex_below : sys := default ex_begin (ex_acts (take 7 ex_actions) ex_begin).

Lemma ex_below_runs : rtc ex_step ex_begin ex_below.
Proof. apply (ex_runs (take 7 ex_actions)). vm_compute. reflexivity. Qed.

Lemma status_type_witness :
  executing ex_middle = [ex_task 0] /\ held ex_shape (document ex_middle) "EXECUTING" (executing ex_middle) /\
  retrying ex_middle = [ex_task 1] /\ failed ex_shape (document ex_middle) (retrying ex_middle).
Proof.
  assert (rtc ex_step ex_begin ex_middle) as Hr by (apply (ex_runs (take 3 ex_actions ++ [CancelIt])); vm_compute; reflexivity).
  destruct (status_type ex_known_queue ex_GetTask ex_format_time ex_env Configuration_new ex_shape ex_wf_shape
    ex_begin ex_middle ex_launched Hr) as (_ & _ & X & R).
  split; [vm_compute; reflexivity|]. split; [exact X|]. split; [vm_compute; reflexivity|exact R].
Defined.

Lemma check_successful S (d : TreeDom.doc) :
  forallb (successful d) (all_stasks S) = true -> forall t, is_task S t -> status_of d t = None \/ successful d t = true.
Proof. intros Ha t Ht%is_task_all%list_elem_of_In. right. rewrite forallb_forall in Ha. by apply Ha. Qed.

Lemma check_nonempty S :
  forallb (fun j => negb (bool_decide (stasks S j = []))) (sjobs S) = true -> forall j, j ∈ sjobs S -> stasks S j <> [].
Proof.
  intros Ha j Hj%list_elem_of_In. rewrite forallb_forall in Ha. specialize (Ha j Hj).
  by rewrite negb_true_iff, bool_decide_eq_false in Ha.
Qed.

Lemma workflow_completes_witness :
  over ex_end = true /\ completed ex_shape (document ex_end) (ex_job 1) = true.
Proof.
  assert (over ex_end = true) as Ho by (vm_compute; reflexivity). split; [exact Ho|].
  assert (rtc ex_step ex_begin ex_end) as Hr by (apply (ex_runs ex_actions); vm_compute; reflexivity).
  destruct (workflow_completes ex_known_queue ex_GetTask ex_format_time ex_env Configuration_new ex_shape ex_wf_shape
    ex_begin ex_end ex_launched Hr Ho) as [_ Hc].
  apply Hc.
  - apply check_successful. vm_compute. reflexivity.
  - apply check_nonempty. vm_compute. reflexivity.
  - apply (rtc_l _ _ (ex_job 0)); [|apply (rtc_l _ _ (ex_job 1)); [|apply rtc_refl]];
      apply (bool_decide_unpack _); vm_compute; exact I.
  - apply (bool_decide_unpack _); vm_compute; exact I.
Defined.

(** ** A resumption *)

#[local] Instance item_eq : EqDecision item.
Proof. solve_decision. Defined.

Definition item_nodes (l : list item) : list node_ref :=
  omap (fun i => match i with INode n => Some n | IAtom _ => None end) l.

Definition to_resume_b (d : TreeDom.doc) (t : node_ref) : bool :=
  bool_decide (status_of d t ∈ [Some "QUEUED"; Some "EXECUTING"; Some "TERMINATED"]%string).

(** The conditions of [saved], evaluated. *)
Definition check_saved (S : shape) (d : TreeDom.doc) : bool :=
  check_shows S d &&
  forallb (fun j => bool_decide (getNamedItem d j "condition" = None) && bool_decide (getNamedItem d j "loop" = None)) (sjobs S) &&
  forallb (fun t => bool_decide (getNamedItem d t "loop" = None) &&
    match retval_of d t with
    | None => negb (bool_decide (status_of d t = Some "TERMINATED"%string))
    | Some v => match tree_parseInt v with Some z => bool_decide (v = sprintf_d z) | None => false end
    end &&
    bool_decide (status_of d t ∈ [None; Some "QUEUED"; Some "EXECUTING"; Some "TERMINATED"; Some "ABORTED"]%string))
    (all_stasks S) &&
  forallb (fun p => forallb (fun j => forallb (fun t =>
    if due S d p then negb (bool_decide (status_of d t = None)) else bool_decide (status_of d t = None)) (stasks S j))
    (ssubjobs S p)) (all_jobs S) &&
  match evaluate to_resume (sroot S) d with
  | Some l => bool_decide (INode <$> item_nodes l = l) && bool_decide (NoDup (item_nodes l)) &&
              forallb (fun t => bool_decide (t ∈ all_stasks S) && to_resume_b d t) (item_nodes l) &&
              forallb (fun t => negb (to_resume_b d t) || bool_decide (t ∈ item_nodes l)) (all_stasks S)
  | None => false
  end.

Lemma check_saved_ok S d : check_saved S d = true -> saved S (ex_world d).
Proof.
  unfold check_saved. rewrite !andb_true_iff, !forallb_forall. intros ((((Hs & Hj) & Ht) & Ho) & He).
  assert (forall t, is_task S t -> getNamedItem d t "loop" = None /\
    match retval_of d t with
    | None => status_of d t <> Some "TERMINATED"%string
    | Some v => exists z, v = sprintf_d z
    end /\ status_of d t ∈ [None; Some "QUEUED"; Some "EXECUTING"; Some "TERMINATED"; Some "ABORTED"]%string) as Ht'.
  { intros t Hin%is_task_all%list_elem_of_In. specialize (Ht t Hin). rewrite !andb_true_iff, !bool_decide_eq_true in Ht.
    destruct Ht as ((Hl & Hr) & Hst). split_and!; [done| |done]. destruct (retval_of d t) as [v|].
    - destruct (tree_parseInt v) as [z|]; [|done]. apply bool_decide_eq_true in Hr. eauto.
    - by rewrite negb_true_iff, bool_decide_eq_false in Hr. }
  split; [split; [split|..]|].
  - by apply check_shows_ok.
  - intros j Hin%list_elem_of_In. specialize (Hj j Hin). by rewrite andb_true_iff, !bool_decide_eq_true in Hj.
  - intros t Hin. destruct (Ht' t Hin) as (Hl & Hr & _). split; [done|]. unfold printed_retval.
    change (doc (ex_world d)) with d. destruct (retval_of d t) as [v|]; [|by left]. destruct Hr as [z ->]. right. eauto.
  - intros t Hin. destruct (Ht' t Hin) as (_ & _ & Hst). change (doc (ex_world d)) with d. unfold task_status. set_solver.
  - intros t Hin Es. destruct (Ht' t Hin) as (_ & Hr & _). change (doc (ex_world d)) with d in *.
    destruct (retval_of d t) as [v|]; [|done]. destruct Hr as [z ->]. eauto.
  - intros p j Hp Hin. change (doc (ex_world d)) with d. specialize (Ho p (proj1 (list_elem_of_In _ _) Hp)).
    rewrite forallb_forall in Ho. specialize (Ho j (proj1 (list_elem_of_In _ _) Hin)). rewrite forallb_forall in Ho.
    destruct (due S d p); intros t Hi%list_elem_of_In; specialize (Ho t Hi).
    + by rewrite negb_true_iff, bool_decide_eq_false in Ho.
    + by rewrite bool_decide_eq_true in Ho.
  - unfold finds_tasks. change (doc (ex_world d)) with d. destruct (evaluate to_resume (sroot S) d) as [l|]; [|done].
    rewrite !andb_true_iff, !forallb_forall, !bool_decide_eq_true in He. destruct He as (((El & N) & H1) & H2).
    exists (item_nodes l). split; [by rewrite El|]. split; [done|]. intros t.
    assert (to_resume_b d t = true <-> (status_of d t = Some "QUEUED" \/ status_of d t = Some "EXECUTING" \/
      status_of d t = Some "TERMINATED")%string) as Hb by (unfold to_resume_b; rewrite bool_decide_eq_true; set_solver).
    rewrite <- Hb. split.
    + intros Hi%list_elem_of_In. specialize (H1 t Hi). rewrite andb_true_iff, bool_decide_eq_true in H1.
      by rewrite is_task_all.
    + intros [Hi%is_task_all%list_elem_of_In Hr]. specialize (H2 t Hi). rewrite Hr in H2. cbn in H2. by apply bool_decide_eq_true in H2.
Qed.

(** The engine stops after the second task has failed; the workflow is resumed. *)
Definition ex_savepoint : TreeDom.doc := document (default ex_begin (ex_acts (take 3 ex_actions) ex_begin)).

Definition ex_resumed : sys :=
  match Resume ex_known_queue ex_format_time (ex_world ex_savepoint) with
  | Ok b w => give (effects w) w [] [] [] b
  | _ => mkSys (ex_world ex_savepoint) [] [] [] false
  end.

Lemma ex_resume_fits :
  match Resume ex_known_queue ex_format_time (ex_world ex_savepoint) with
  | Ok b w => fits (give (effects w) w [] [] [] b)
  | _ => False
  end.
Proof. vm_compute. split; reflexivity. Qed.

Lemma ex_saved : saved ex_shape (ex_world ex_savepoint).
Proof. apply check_saved_ok. vm_compute. reflexivity. Qed.

Lemma ex_resumed_launched : launched ex_known_queue ex_format_time ex_shape ex_resumed.
Proof.
  pose proof ex_resume_fits as F. unfold ex_resumed.
  destruct (Resume ex_known_queue ex_format_time (ex_world ex_savepoint)) as [b w|e w|] eqn:E; [|destruct F..].
  exists (ex_world ex_savepoint), b, w, (effects w). split; [exact (ex_constructed _)|].
  split; [right; split; [exact ex_saved|exact E]|]. split; [by rewrite app_nil_r|]. split; [reflexivity|exact F].
Qed.

(** The second task, whose last retry was pending, is given up (see
    [WorkflowResume]). *)
Example ex_resumed_tasks : executing ex_resumed = [ex_task 0] /\ retrying ex_resumed = [] /\ queued ex_resumed = [].
Proof. vm_compute. repeat split; reflexivity. Qed.

Lemma job_order_witness :
  due ex_shape (document ex_begin) (ex_job 0) = false /\ waiting (document ex_begin) (stasks ex_shape (ex_job 1)) /\
  due ex_shape (document ex_below) (ex_job 0) = true /\ begun (document ex_below) (stasks ex_shape (ex_job 1)) /\
  waiting (document ex_resumed) (stasks ex_shape (ex_job 1)).
Proof.
  assert (ex_job 0 ∈ all_jobs ex_shape) as Hp by (apply (bool_decide_unpack _); vm_compute; exact I).
  assert (ex_job 1 ∈ ssubjobs ex_shape (ex_job 0)) as Hj by (apply (bool_decide_unpack _); vm_compute; exact I).
  assert (due ex_shape (document ex_begin) (ex_job 0) = false) as E1 by (vm_compute; reflexivity).
  assert (due ex_shape (document ex_below) (ex_job 0) = true) as E2 by (vm_compute; reflexivity).
  pose proof (job_order ex_known_queue ex_GetTask ex_format_time ex_env Configuration_new ex_shape ex_wf_shape
    ex_begin ex_begin (ex_job 0) (ex_job 1) ex_launched (rtc_refl _ _) Hp Hj) as H1.
  pose proof (job_order ex_known_queue ex_GetTask ex_format_time ex_env Configuration_new ex_shape ex_wf_shape
    ex_begin ex_below (ex_job 0) (ex_job 1) ex_launched ex_below_runs Hp Hj) as H2.
  assert (due ex_shape (document ex_resumed) (ex_job 0) = false) as E3 by (vm_compute; reflexivity).
  pose proof (job_order ex_known_queue ex_GetTask ex_format_time ex_env Configuration_new ex_shape ex_wf_shape
    ex_resumed ex_resumed (ex_job 0) (ex_job 1) ex_resumed_launched (rtc_refl _ _) Hp Hj) as H3.
  rewrite E1 in H1. rewrite E2 in H2. rewrite E3 in H3. destruct H1 as [H1 _], H2 as [H2 _], H3 as [H3 _]. split_and!; assumption.
Defined.
