(* ===== verification/System.v ===== *)
(** The engine at work: the workflow instances together with the pool of queues,
    the forker, the gatherer and the processes of [ProcessManager], and the events
    of [Retrier].  Each operation of an instance runs under its mutex and is one
    step; the calls that it makes to the pool and to the retrier are carried out
    one by one, in order, while the other threads go on. *)

From S2P Require Import Prelude CString Configuration Dom Task QueueIface QueuePool ProcessManager PoolTasks Scheduler Retrier.
From S2P Require Import WorkflowInstance WorkflowProgress.

Open Scope Z_scope.

(** A task of an instance, as the other components hold it. *)
Definition task_ref : Type := wi_ref * node_ref.

Definition tasks_of (w : wi_ref) (l : list task_ref) : Z := count (fun x => bool_decide (x.1 = w)) l.

Section System.
Context {D : Type} `{Dom D} {Q : Type} `{QueueTasks Q}.
Context (names : list string) (GetTask : string -> option Task) (format_time : Z -> string).
Context (engine_env : string -> option string) (configuration : Configuration.Configuration).

(** An instance is made from the description of its workflow, or read from a
    savepoint, and this decides how it is launched. *)
Inductive origin : Type := New | Resumed.

(** What the two constructors leave. *)
Context (built : origin -> world (D := D) -> Prop).

(** The queues are those of the pool. *)
Definition known_queue (queue_name : string) : bool := bool_decide (queue_name ∈ names).

(** * State *)

(** The calls of an instance that concern its tasks. *)
Inductive call : Type :=
  | CallEnqueueTask (queue_name : string) (task : node_ref)
  | CallExecuteTask (queue_name : string) (task : node_ref) (tid : Z)
  | CallInsertTask (task : node_ref) (retry_at : Z).

Definition call_of (e : effect) : option call :=
  match e with
  | WorkflowInstance.EnqueueTask queue_name task => Some (CallEnqueueTask queue_name task)
  | WorkflowInstance.ExecuteTask queue_name task tid => Some (CallExecuteTask queue_name task tid)
  | WorkflowInstance.InsertTask task retry_at => Some (CallInsertTask task retry_at)
  | _ => None
  end.

(** The effects of an operation, the last one first. *)
Definition calls_of (w : wi_ref) (es : list effect) : list (wi_ref * call) := (w,.) <$> omap call_of (reverse es).

(** [instances] are the allocated objects: [starting] those whose constructor
    returned and whose [Start] or [Resume] was not called yet, [ending] those
    that a thread is about to delete.  [restarting] are the events that a thread
    took out of the retrier, [stopping] is what the gatherer does next with the
    message that it received, [calls] are those still to be carried out. *)
Record system : Type := mkSystem {
  instances : gmap wi_ref (world (D := D));
  starting : list (wi_ref * origin);
  ending : list wi_ref;
  processes : ProcessManager.system (Q := Q);
  retrier : Retrier;
  restarting : list task_ref;
  stopping : option (task_ref * (Z * string));
  calls : list (wi_ref * call);
}.

Definition set_processes (m : ProcessManager.system (Q := Q)) (e : system) : system :=
  mkSystem (instances e) (starting e) (ending e) m (retrier e) (restarting e) (stopping e) (calls e).
Definition set_retrier (r : Retrier) (restarting : list task_ref) (e : system) : system :=
  mkSystem (instances e) (starting e) (ending e) (processes e) r restarting (stopping e) (calls e).
Definition set_calls (c : list (wi_ref * call)) (e : system) : system :=
  mkSystem (instances e) (starting e) (ending e) (processes e) (retrier e) (restarting e) (stopping e) c.
Definition set_stopping (s : option (task_ref * (Z * string))) (e : system) : system :=
  mkSystem (instances e) (starting e) (ending e) (processes e) (retrier e) (restarting e) s (calls e).
Definition set_instances (i : gmap wi_ref (world (D := D))) (starting : list (wi_ref * origin)) (ending : list wi_ref)
    (e : system) : system :=
  mkSystem i starting ending (processes e) (retrier e) (restarting e) (stopping e) (calls e).

(** The pool and the forker. *)
Definition the_pool (e : system) : QueuePool Q := ProcessManager.pool (processes e).
Definition with_pool (c : fork_pc) (p : QueuePool Q) (m : ProcessManager.system (Q := Q))
    : ProcessManager.system (Q := Q) :=
  ProcessManager.mkSystem (ProcessManager.manager m) c p (ProcessManager.processes m) (messages m) (gathering m).

(** The instance [w] made the calls of [es] and is now [x]; [workflow_terminated]
    makes the caller delete it. *)
Definition returns (w : wi_ref) (es : list effect) (x : world (D := D)) (workflow_terminated : bool) (e : system) : system :=
  set_calls (calls e ++ calls_of w es)
    (set_instances (<[w := x]> (instances e)) (starting e)
       (if workflow_terminated then w :: ending e else ending e) e).

Definition GetInstanceID (e : system) (w : wi_ref) : Z :=
  match instances e !! w with Some x => workflow_instance_id (wi x) | None => 0 end.

(** [TaskStop] among what the gatherer does with a message. *)
Fixpoint stop_of (l : list ProcessManager.action) : option (task_ref * (Z * string)) :=
  match l with
  | ProcessManager.TaskStop w (Some t) retcode output :: _ => Some ((w, t), (retcode, output))
  | _ :: l => stop_of l
  | [] => None
  end.

(** * The tasks that are not finished *)

Definition queued_call (c : wi_ref * call) : list task_ref :=
  match c.2 with CallEnqueueTask _ t => [(c.1, t)] | _ => [] end.
Definition executing_call (c : wi_ref * call) : list task_ref :=
  match c.2 with CallExecuteTask _ t _ => [(c.1, t)] | _ => [] end.
Definition retrying_call (c : wi_ref * call) : list task_ref :=
  match c.2 with CallInsertTask t _ => [(c.1, t)] | _ => [] end.

Definition forker_hand (c : fork_pc) : list task_ref :=
  match c with InPool f => PoolTasks.in_hand f | Registered w t _ => [(w, t)] end.

(** The tasks of the processes and of the messages that they sent. *)
Definition launched (m : ProcessManager.system (Q := Q)) : list task_ref :=
  ((of_process <$> ProcessManager.processes m) ++ (messages m ≫= of_message)).*2.

(** Those on their way to a queue, in a queue, or in the hand of the forker. *)
Definition queued (e : system) : list task_ref :=
  (calls e ≫= queued_call) ++ forker_hand (ProcessManager.pc (processes e)) ++ pool_tasks (the_pool e).

(** Those that have a process or an identifier from a savepoint, whose process
    has ended, or that are in the hand of the gatherer. *)
Definition executing (e : system) : list task_ref :=
  (calls e ≫= executing_call) ++ launched (processes e) ++ option_list (fst <$> stopping e).

(** Those that [running_tasks] counts. *)
Definition running (e : system) : list task_ref := queued e ++ executing e.

(** Those that [retrying_tasks] counts. *)
Definition retrying (e : system) : list task_ref :=
  (calls e ≫= retrying_call) ++ (data <$> first_event (retrier e)) ++ restarting e.

Definition small (e : system) : Prop := len (running e) < 2 ^ 32 /\ len (retrying e) < 2 ^ 32.

(** * Steps *)

(** What the thread that constructed an instance calls. *)
Definition launch (o : origin) : M (D := D) bool :=
  match o with
  | New => Start known_queue format_time
  | Resumed => Resume known_queue format_time
  end.

(** [fork] gives a process, or fails; the process of a task sends one message.
    These are the steps where a task is put in a queue that can take it (see
    [Queue]), an identifier is free when the forker asks for one, and one read from a
    savepoint is free and belongs to a process that was launched before the restart;
    what happens otherwise is [fault]. *)
Inductive step : system -> system -> Prop :=
  (* constructors, [Start] and [Resume], destructors *)
  | step_construct e w o x :
      instances e !! w = None -> built o x -> running_tasks (wi x) = 0 -> retrying_tasks (wi x) = 0 ->
      step e (set_instances (<[w := x]> (instances e)) ((w, o) :: starting e) (ending e) e)
  | step_start e s1 w o s2 x x' b es :
      starting e = s1 ++ (w, o) :: s2 -> instances e !! w = Some x ->
      launch o x = Ok b x' -> effects x' = es ++ effects x ->
      let e' := returns w es x' b (set_instances (instances e) (s1 ++ s2) (ending e) e) in
      small e' -> step e e'
  (* a resumption that throws: who constructed the instance deletes it *)
  | step_start_fails e s1 w o s2 x ex x' :
      starting e = s1 ++ (w, o) :: s2 -> instances e !! w = Some x -> launch o x = Exn ex x' ->
      step e (set_instances (delete w (instances e)) (s1 ++ s2) (ending e) e)
  | step_delete e s1 w s2 :
      ending e = s1 ++ w :: s2 ->
      step e (set_instances (delete w (instances e)) (starting e) (s1 ++ s2) e)
  (* the calls, those of an instance in order *)
  | step_enqueue e c1 w queue_name t c2 r p' :
      calls e = c1 ++ (w, CallEnqueueTask queue_name t) :: c2 -> w ∉ c1.*1 ->
      sizes_ok (the_pool e) -> pool_accepts queue_name (the_pool e) = true ->
      QueuePool.EnqueueTask queue_name w t (the_pool e) = Ret (r, p') ->
      step e (set_calls (c1 ++ c2) (set_processes (with_pool (ProcessManager.pc (processes e)) p' (processes e)) e))
  | step_register e c1 w queue_name t tid c2 pid p' :
      calls e = c1 ++ (w, CallExecuteTask queue_name t tid) :: c2 -> w ∉ c1.*1 ->
      ProcessManager.pc (processes e) = InPool FReady -> queue_name ∈ names -> tid <> 0 -> free_tid (the_pool e) tid -> 0 < pid ->
      QueuePool.ExecuteTask w t queue_name tid (the_pool e) = Ret (tid, p') ->
      step e (set_calls (c1 ++ c2) (set_processes
        (ProcessManager.mkSystem (manager (processes e)) (InPool FReady) p'
           (mkProcess pid tid w t :: ProcessManager.processes (processes e)) (messages (processes e)) (gathering (processes e))) e))
  | step_insert e c1 w t retry_at c2 n r' :
      calls e = c1 ++ (w, CallInsertTask t retry_at) :: c2 -> w ∉ c1.*1 ->
      Z.of_nat (List.length (first_event (retrier e))) + 1 < 2 ^ 32 ->
      Retrier.InsertTask w t retry_at (retrier e) = (n, r') ->
      step e (set_calls (c1 ++ c2) (set_retrier r' (restarting e) e))
  (* the forker *)
  | step_dequeue e f f' p' :
      ProcessManager.pc (processes e) = InPool f -> forker_step (f, the_pool e) (f', p') ->
      step e (set_processes (with_pool (InPool f') p' (processes e)) e)
  | step_execute e nm w t free tid p' :
      ProcessManager.pc (processes e) = InPool (FGot nm w t) -> free_tid (the_pool e) free ->
      QueuePool.ExecuteTask w t nm 0 (the_pool e) = Ret (tid, p') ->
      step e (set_processes (with_pool (Registered w t tid) p' (processes e)) e)
  | step_launch e w t tid x fork pid b x' es a p' :
      ProcessManager.pc (processes e) = Registered w t tid -> instances e !! w = Some x -> fork = -1 \/ 0 < fork ->
      TaskExecute GetTask format_time engine_env configuration t tid fork x = Ok (pid, b) x' ->
      effects x' = es ++ effects x ->
      Fork_launched w tid pid b (the_pool e) = Ret (a, p') ->
      let m := with_pool (InPool FReady) p' (processes e) in
      let m' := if pid >? 0
                then ProcessManager.mkSystem (manager m) (ProcessManager.pc m) p' (mkProcess pid tid w t :: ProcessManager.processes m)
                       (messages m) (gathering m)
                else m in
      let e' := returns w es x' b (set_processes m' e) in
      small e' -> step e e'
  (* the processes and the gatherer *)
  | step_ends e l1 x l2 retcode :
      ProcessManager.processes (processes e) = l1 ++ x :: l2 ->
      step e (set_processes (ProcessManager.mkSystem (manager (processes e)) (ProcessManager.pc (processes e)) (the_pool e) (l1 ++ l2)
                (messages (processes e) ++ [Ended x retcode]) (gathering (processes e))) e)
  | step_gather e read_log x q a k p' :
      messages (processes e) = x :: q -> gathering (processes e) = true -> stopping e = None ->
      Gather (manager (processes e)) read_log false (message_buf x) (the_pool e) = Ret (a, k, p') ->
      step e (set_stopping (stop_of a)
        (set_processes (ProcessManager.mkSystem (manager (processes e)) (ProcessManager.pc (processes e)) p'
           (ProcessManager.processes (processes e)) q k) e))
  | step_stop e w t retcode output x b x' es :
      stopping e = Some ((w, t), (retcode, output)) -> instances e !! w = Some x ->
      TaskStop known_queue GetTask format_time t retcode output x = Ok b x' -> effects x' = es ++ effects x ->
      let e' := returns w es x' b (set_stopping None e) in
      small e' -> step e e'
  (* the retrier *)
  | step_due e now ev r' :
      shift_event now (retrier e) = (Some ev, r') ->
      step e (set_retrier r' (data ev :: restarting e) e)
  | step_flush e use_filter id removed wake r' :
      Flush use_filter (flush_filter (GetInstanceID e) id) (retrier e) = (removed, wake, r') ->
      step e (set_retrier r' ((data <$> removed) ++ restarting e) e)
  | step_restart e r1 w t r2 x b x' es :
      restarting e = r1 ++ (w, t) :: r2 -> instances e !! w = Some x ->
      TaskRestart known_queue format_time t x = Ok b x' -> effects x' = es ++ effects x ->
      let e' := returns w es x' b (set_retrier (retrier e) (r1 ++ r2) e) in
      small e' -> step e e'
  (* what clients and the main program ask for, and what changes outside *)
  | step_cancel e w x x' :
      instances e !! w = Some x -> Cancel x = Ok tt x' ->
      step e (set_instances (<[w := x']> (instances e)) (starting e) (ending e) e)
  | step_savepoint e w x x' :
      instances e !! w = Some x -> RecordSavepoint format_time x = Ok tt x' ->
      step e (set_instances (<[w := x']> (instances e)) (starting e) (ending e) e)
  | step_kill e w pid x b x' :
      instances e !! w = Some x -> KillTask pid x = Ok b x' ->
      step e (set_instances (<[w := x']> (instances e)) (starting e) (ending e) e)
  | step_cancel_tasks e id r p' :
      CancelTasks (GetInstanceID e) id (the_pool e) = Ret (r, p') ->
      step e (set_processes (with_pool (ProcessManager.pc (processes e)) p' (processes e)) e)
  | step_shutdown e m' p' b :
      ProcessManager.Shutdown (manager (processes e)) (the_pool e) = (m', p', b) ->
      step e (set_processes (ProcessManager.mkSystem m' (ProcessManager.pc (processes e)) p' (ProcessManager.processes (processes e))
                (messages (processes e) ++ [ShutdownRequest]) (gathering (processes e))) e)
  | step_environment e w x db now :
      instances e !! w = Some x ->
      step e (set_instances (<[w := mkWorld (wi x) (effects x) db now]> (instances e)) (starting e) (ending e) e).

(** What the code does, and does not mean to: a task is put in a queue whose tail
    pointer is wrong; the forker launches a task with identifier 0 when none is free;
    a task read from a savepoint is in an unknown queue, has the identifier 0, for which
    another one is then chosen, or that of another task, which it replaces. *)
Inductive fault : system -> system -> Prop :=
  | fault_enqueue e c1 w queue_name t c2 r p' :
      calls e = c1 ++ (w, CallEnqueueTask queue_name t) :: c2 -> w ∉ c1.*1 ->
      pool_accepts queue_name (the_pool e) = false ->
      QueuePool.EnqueueTask queue_name w t (the_pool e) = Ret (r, p') ->
      fault e (set_calls (c1 ++ c2) (set_processes (with_pool (ProcessManager.pc (processes e)) p' (processes e)) e))
  | fault_execute e nm w t tid p' :
      ProcessManager.pc (processes e) = InPool (FGot nm w t) -> (forall free, ~ free_tid (the_pool e) free) ->
      QueuePool.ExecuteTask w t nm 0 (the_pool e) = Ret (tid, p') ->
      fault e (set_processes (with_pool (Registered w t tid) p' (processes e)) e)
  | fault_register e c1 w queue_name t tid c2 pid tid' p' :
      calls e = c1 ++ (w, CallExecuteTask queue_name t tid) :: c2 -> w ∉ c1.*1 ->
      ProcessManager.pc (processes e) = InPool FReady -> queue_name ∉ names \/ tid = 0 \/ ~ free_tid (the_pool e) tid -> 0 < pid ->
      QueuePool.ExecuteTask w t queue_name tid (the_pool e) = Ret (tid', p') ->
      fault e (set_calls (c1 ++ c2) (set_processes
        (ProcessManager.mkSystem (manager (processes e)) (InPool FReady) p'
           (mkProcess pid tid w t :: ProcessManager.processes (processes e)) (messages (processes e)) (gathering (processes e))) e)).

(** A run, and whether a fault has happened. *)
Inductive run (e0 : system) : bool -> system -> Prop :=
  | run_begins : run e0 false e0
  | run_step b e e' : run e0 b e -> step e e' -> run e0 b e'
  | run_fault b e e' : run e0 b e -> fault e e' -> run e0 true e'.

Lemma run_faultless e0 e : run e0 false e <-> rtc step e0 e.
Proof.
  split.
  - intros R. remember false as b eqn:Eb. induction R; [apply rtc_refl|eapply rtc_r; eauto|done].
  - revert e. apply rtc_ind_r; [apply run_begins|]. intros e1 e2 _ S R. by eapply run_step.
Qed.
End System.
