(* ===== verification/WorkflowErrors.v ===== *)
(** Exceptions and the instances: no operation of an instance throws one while it
    holds the mutex, so that none leaves it locked or ends a thread of the engine; a
    constructor may throw, but not once it has registered the instance or given a
    task to somebody. *)

From S2P Require Import Prelude CString Configuration Dom TreeDom Task QueueIface QueuePool ProcessManager PoolTasks Scheduler Retrier.
From S2P Require Import WorkflowInstance WorkflowExamples WorkflowProgress System.

Open Scope Z_scope.

Section constructors.
Context {D : Type} `{Dom D}.
Context (format_time : Z -> string) (configuration : Configuration.Configuration).
Context (GetWorkflow : string -> option (Z * string)) (GetRetrySchedule : string -> option string).
Context (next_sequence insert_id : Z).

(** * Constructors *)

(** The effects of [es] give no task to the rest of the program, and do not
    register the instance. *)
Definition registers (e : effect) : bool :=
  match e with AddInstance _ | IncWorkflowInstanceExecuting => true | _ => false end.

Definition unnoticed (es : list effect) : Prop := omap call_of es = [] /\ forallb (fun e => negb (registers e)) es = true.

Lemma unnoticed_app a b : unnoticed a -> unnoticed b -> unnoticed (a ++ b).
Proof. intros [C1 R1] [C2 R2]. split; [by rewrite omap_app, C1, C2|by rewrite forallb_app, R1, R2]. Qed.

(** A program that leaves the counters alone and is not noticed. *)
Definition idle {A} (m : M (D := D) A) : Prop := forall w,
  match m w with
  | Ok _ w' | Exn _ w' =>
      running_tasks (wi w') = running_tasks (wi w) /\ retrying_tasks (wi w') = retrying_tasks (wi w) /\
      exists es, effects w' = es ++ effects w /\ unnoticed es
  | Crash => True
  end.

Lemma idle_refl {A} (m : M (D := D) A) :
  (forall w, m w = Crash \/ (exists x, m w = Ok x w) \/ (exists e, m w = Exn e w)) -> idle m.
Proof. intros Hm w. destruct (Hm w) as [->|[[x ->]|[e ->]]]; [done|..]; (split; [done|]; split; [done|]; by exists []). Qed.

Lemma idle_trans (w1 w2 w3 : world (D := D)) :
  (running_tasks (wi w2) = running_tasks (wi w1) /\ retrying_tasks (wi w2) = retrying_tasks (wi w1) /\
   exists es, effects w2 = es ++ effects w1 /\ unnoticed es) ->
  (running_tasks (wi w3) = running_tasks (wi w2) /\ retrying_tasks (wi w3) = retrying_tasks (wi w2) /\
   exists es, effects w3 = es ++ effects w2 /\ unnoticed es) ->
  running_tasks (wi w3) = running_tasks (wi w1) /\ retrying_tasks (wi w3) = retrying_tasks (wi w1) /\
  exists es, effects w3 = es ++ effects w1 /\ unnoticed es.
Proof.
  intros (-> & -> & es1 & E1 & N1) (-> & -> & es2 & E2 & N2). split; [done|]. split; [done|].
  exists (es2 ++ es1). split; [by rewrite E2, E1, app_assoc|by apply unnoticed_app].
Qed.

Lemma idle_bind {A B} (m : M (D := D) A) (k : A -> M B) : idle m -> (forall x, idle (k x)) -> idle (m ≫= k).
Proof.
  intros Hm Hk w. specialize (Hm w). unfold mbind, M_bind. destruct (m w) as [x w1|e w1|]; [|done|done].
  specialize (Hk x w1). destruct (k x w1); try done; by eapply idle_trans.
Qed.

Lemma idle_try {A} (m : M (D := D) A) h : idle m -> (forall e, idle (h e)) -> idle (try_catch m h).
Proof.
  intros Hm Hh w. specialize (Hm w). unfold try_catch. destruct (m w) as [x w1|e w1|]; [done| |done].
  specialize (Hh e w1). destruct (h e w1); try done; by eapply idle_trans.
Qed.

Lemma idle_modify f :
  (forall i, running_tasks (f i) = running_tasks i /\ retrying_tasks (f i) = retrying_tasks i) -> idle (modify (D := D) f).
Proof. intros Hf w. cbn. destruct (Hf (wi w)) as [-> ->]. split; [done|]. split; [done|]. by exists []. Qed.

Lemma idle_emit e : call_of e = None -> registers e = false -> idle (emit (D := D) e).
Proof.
  intros E R w. cbn. split; [done|]. split; [done|]. exists [e]. split; [done|]. split; cbn; [by rewrite E|by rewrite R].
Qed.

Lemma idle_db q : idle (db_query (D := D) q).
Proof.
  intros w. unfold db_query. destruct (db_results w) as [|[] r]; cbn; split_and!; try done;
    eexists [_]; by split.
Qed.

Lemma idle_ret {A} (x : A) : idle (mret x : M (D := D) A).
Proof. apply idle_refl. eauto. Qed.
Lemma idle_throw {A} e : idle (throw e : M (D := D) A).
Proof. apply idle_refl. unfold throw. eauto. Qed.
Lemma idle_crash {A} : idle (crash : M (D := D) A).
Proof. by intros w. Qed.
Lemma idle_gets {A} (f : WorkflowInstance -> A) : idle (gets (D := D) f).
Proof. apply idle_refl. unfold gets. eauto. Qed.
Lemma idle_time : idle (get_time (D := D)).
Proof. apply idle_refl. unfold get_time. eauto. Qed.
Lemma idle_fuel : idle (query_fuel (D := D)).
Proof. apply idle_refl. unfold query_fuel. eauto. Qed.
Lemma idle_dom f : idle (dom (D := D) f).
Proof. by apply idle_modify. Qed.

#[local] Hint Resolve idle_ret idle_throw idle_crash idle_gets idle_time idle_fuel idle_dom idle_db : core.
#[local] Hint Extern 1 (idle (emit _)) => apply idle_emit; reflexivity : core.
#[local] Hint Extern 1 (idle (modify _)) => apply idle_modify; done : core.

Ltac stays_idle :=
  try solve [auto];
  lazymatch goal with
  | |- idle (mbind _ _) => apply idle_bind; [stays_idle|intros; stays_idle]
  | |- idle (try_catch _ _) => apply idle_try; [stays_idle|intros; stays_idle]
  | |- idle (match ?x with _ => _ end) => destruct x eqn:?; stays_idle
  | |- idle (let '(_, _) := ?x in _) => destruct x; stays_idle
  | |- idle _ =>
      progress unfold instantiate, import_schedule, record_savepoint, write_savepoint, savepoint_query, savepoint_again,
        format_datetime, document_element, set_attr, get_attr, get_named, dom_new, eval, try_eval, eval_integer, sprintf, int,
        node_value, nonnull, parse_int, when, ask; stays_idle
  | |- _ => idtac
  end.

Lemma idle_set_parameters ps n : idle (set_parameters (D := D) ps n).
Proof. revert n. induction ps as [|[a v] ps IH]; intros n; cbn [set_parameters]; stays_idle. Qed.

Lemma idle_import_schedules ts : idle (import_schedules (D := D) GetRetrySchedule ts).
Proof. induction ts as [|t ts IH]; cbn [import_schedules]; stays_idle. Qed.

Lemma idle_insert_parameters ps : idle (insert_parameters (D := D) ps).
Proof. induction ps as [|[a v] ps IH]; cbn [insert_parameters]; stays_idle. Qed.

Lemma idle_savepoint_loop fuel q n : idle (savepoint_loop (D := D) fuel q n).
Proof. revert n. induction fuel as [|fuel IH]; intros n; cbn [savepoint_loop]; stays_idle. Qed.
#[local] Hint Resolve idle_set_parameters idle_import_schedules idle_insert_parameters idle_savepoint_loop : core.

Lemma idle_instantiate nm ps host user :
  idle (instantiate (D := D) format_time GetRetrySchedule next_sequence insert_id nm ps host user).
Proof. stays_idle. Qed.

(** What the constructors leave: [WorkflowInstance(workflow_name,...)] reads the
    description of the workflow, [WorkflowInstance(workflow_instance_id)] the row
    of the instance. *)
Definition constructs (o : origin) (x : world (D := D)) : Prop :=
  match o with
  | New => exists workflow_name parameters schedule_id host user db t,
      WorkflowInstance_new format_time configuration GetWorkflow GetRetrySchedule next_sequence insert_id
        workflow_name parameters schedule_id host user db t = Constructed x
  | Resumed => exists id row db t, WorkflowInstance_resume configuration id row db t = Constructed x
  end.

(** The end of a constructor. *)
Definition registered (y : world (D := D)) (es : list effect) : Prop :=
  running_tasks (wi y) = 0 /\ retrying_tasks (wi y) = 0 /\
  effects y = IncWorkflowInstanceExecuting :: AddInstance (workflow_instance_id (wi y)) :: es /\ unnoticed es.

Lemma construction_registers (m : M (D := D) unit) x c :
  idle m -> WorkflowInstance.constructed ((_ ← m; register) x) = c -> running_tasks (wi x) = 0 -> retrying_tasks (wi x) = 0 ->
  effects x = [] ->
  match c with
  | Constructed y => exists es, registered y es
  | Failed _ es => unnoticed es
  | ConstructionCrash => True
  end.
Proof.
  intros Hm <- Hr Ht He. specialize (Hm x). unfold mbind, M_bind. destruct (m x) as [[] w|e w|]; cbn; try done.
  - destruct Hm as (E1 & E2 & es & E3 & U). exists es. unfold registered. cbn. by rewrite E1, E2, E3, He, app_nil_r.
  - destruct Hm as (_ & _ & es & -> & U). by rewrite He, app_nil_r.
Qed.

Definition built_or_failed (c : construction (D := D)) : Prop :=
  match c with
  | Constructed y => exists es, registered y es
  | Failed _ es => unnoticed es
  | ConstructionCrash => True
  end.

Lemma WorkflowInstance_new_registers nm ps sid host user db t :
  built_or_failed (WorkflowInstance_new format_time configuration GetWorkflow GetRetrySchedule next_sequence insert_id
                     nm ps sid host user db t).
Proof.
  unfold WorkflowInstance_new. repeat case_match; try done.
  all: eapply construction_registers; try reflexivity; apply idle_instantiate.
Qed.

Lemma WorkflowInstance_resume_registers id row db t :
  built_or_failed (WorkflowInstance_resume (D := D) configuration id row db t).
Proof.
  unfold WorkflowInstance_resume. repeat case_match; try done; exists []; by split_and!.
Qed.

(** The premises of [step_construct] hold. *)
Lemma constructs_idle o x : constructs o x -> running_tasks (wi x) = 0 /\ retrying_tasks (wi x) = 0 /\ omap call_of (effects x) = [].
Proof.
  assert (Hb : forall c : construction, built_or_failed c -> c = Constructed x ->
    running_tasks (wi x) = 0 /\ retrying_tasks (wi x) = 0 /\ omap call_of (effects x) = []).
  { intros c Hc ->. destruct Hc as (es & E1 & E2 & E3 & [E4 _]). by rewrite E1, E2, E3. }
  destruct o.
  - intros (nm & ps & sid & host & user & db & t & E). eapply Hb; [apply WorkflowInstance_new_registers|exact E].
  - intros (id & row & db & t & E). eapply Hb; [apply WorkflowInstance_resume_registers|exact E].
Qed.
End constructors.

(** * Operations *)

Section operations.
Context {D : Type} `{Dom D}.
Context (known_queue : string -> bool) (GetTask : string -> option Task) (format_time : Z -> string).
Context (engine_env : string -> option string) (configuration : Configuration.Configuration).

Definition catches {A} (m : M (D := D) A) : Prop := forall w e w', m w <> Exn e w'.

Lemma catches_bind {A B} (m : M (D := D) A) (k : A -> M B) : catches m -> (forall x, catches (k x)) -> catches (m ≫= k).
Proof.
  intros Hm Hk w e w' E. unfold mbind, M_bind in E. destruct (m w) as [x w1|e1 w1|] eqn:E1; [by apply Hk in E| |done].
  by apply Hm in E1.
Qed.

Lemma catches_try {A} (m : M (D := D) A) h : (forall e, catches (h e)) -> catches (try_catch m h).
Proof. intros Hh w e w' E. unfold try_catch in E. destruct (m w); [done|by apply Hh in E|done]. Qed.

Lemma catches_ret {A} (x : A) : catches (mret x : M (D := D) A).
Proof. by intros w. Qed.
Lemma catches_crash {A} : catches (crash : M (D := D) A).
Proof. by intros w. Qed.
Lemma catches_gets {A} (f : WorkflowInstance -> A) : catches (gets (D := D) f).
Proof. by intros w. Qed.
Lemma catches_modify f : catches (modify (D := D) f).
Proof. by intros w. Qed.
Lemma catches_emit e : catches (emit (D := D) e).
Proof. by intros w. Qed.
Lemma catches_time : catches (get_time (D := D)).
Proof. by intros w. Qed.
Lemma catches_fuel : catches (query_fuel (D := D)).
Proof. by intros w. Qed.
#[local] Hint Resolve catches_ret catches_crash catches_gets catches_modify catches_emit catches_time catches_fuel : core.

Ltac contain :=
  try solve [auto];
  lazymatch goal with
  | |- catches (mbind _ _) => apply catches_bind; [contain|intros; contain]
  | |- catches (try_catch _ _) => apply catches_try; intros; contain
  | |- catches (match ?x with _ => _ end) => destruct x eqn:?; contain
  | |- catches (let '(_, _) := ?x in _) => destruct x; contain
  | |- catches _ =>
      progress unfold record_savepoint, write_savepoint, savepoint_query, savepoint_again, format_datetime, document_element,
        set_attr, get_attr, get_named, dom_new, WorkflowInstance.dom, eval, try_eval, eval_integer, sprintf, int, node_value, nonnull, parse_int,
        when, ask, enqueue_task, abort_task, inc_running, dec_running, inc_retrying, dec_retrying, inc_errors, workflow_ended,
        schedule_update, retry_parameters, retval_matches, do_retry, retry_task, resume_task, store_output, fail_task, continue_job,
        drop_task, mark_executing, finish_operation, read_stdin, get_config, ssh_env, child; contain
  | |- _ => idtac
  end.

Lemma catches_savepoint_loop fuel q n : catches (savepoint_loop (D := D) fuel q n).
Proof. revert n. induction fuel as [|fuel IH]; intros n; cbn [savepoint_loop]; contain. Qed.
Lemma catches_resume_tasks ts : catches (resume_tasks (D := D) known_queue format_time ts).
Proof. induction ts as [|[] ts IH]; cbn [resume_tasks]; contain. Qed.
Lemma catches_read_parameters ps : catches (read_parameters (D := D) ps).
Proof. induction ps as [|[] ps IH]; cbn [read_parameters]; contain. Qed.
Lemma catches_kill_each pid ts : catches (kill_each (D := D) pid ts).
Proof. induction ts as [|[] ts IH]; cbn [kill_each]; contain. Qed.
#[local] Hint Resolve catches_savepoint_loop catches_resume_tasks catches_read_parameters catches_kill_each : core.

Lemma catches_Start : catches (Start (D := D) known_queue format_time).
Proof. unfold Start. contain. Qed.
(** Only the connection, before the mutex is taken. *)
Lemma connect_throws {A} (k : unit -> M (D := D) A) x :
  (forall u, catches (k u)) ->
  match (db_connect ≫= k) x with Exn _ x' => wi x' = wi x /\ effects x' = effects x | _ => True end.
Proof.
  intros Hk. unfold mbind, M_bind, db_connect. destruct (db_results x) as [|[] r].
  - destruct (k tt x) eqn:E; [done|by apply Hk in E|done].
  - match goal with |- context [k tt ?y] => destruct (k tt y) eqn:E end; [done|by apply Hk in E|done].
  - done.
Qed.

Lemma Resume_throws (x : world (D := D)) :
  match Resume known_queue format_time x with Exn _ x' => wi x' = wi x /\ effects x' = effects x | _ => True end.
Proof. apply connect_throws. intros u. contain. Qed.
Lemma catches_TaskRestart t : catches (TaskRestart (D := D) known_queue format_time t).
Proof. unfold TaskRestart. contain. Qed.
Lemma catches_TaskStop t retval output : catches (TaskStop (D := D) known_queue GetTask format_time t retval output).
Proof. unfold TaskStop. contain. Qed.
Lemma catches_RecordSavepoint : catches (RecordSavepoint (D := D) format_time).
Proof. unfold RecordSavepoint. contain. Qed.
Lemma catches_KillTask pid : catches (KillTask (D := D) pid).
Proof. unfold KillTask. contain. Qed.
Lemma catches_TaskExecute t tid fork : catches (TaskExecute (D := D) GetTask format_time engine_env configuration t tid fork).
Proof. unfold TaskExecute. contain. Qed.
End operations.

(** * Property *)

Section properties.
Context {D : Type} `{Dom D}.
Context (known_queue : string -> bool) (GetTask : string -> option Task) (format_time : Z -> string).
Context (engine_env : string -> option string) (configuration : Configuration.Configuration).
Context (GetWorkflow : string -> option (Z * string)) (GetRetrySchedule : string -> option string).
Context (next_sequence insert_id : Z).

(** C7: Whatever the document, the database and the task do, no Exception of
    the program leaves an operation of an instance that holds the mutex, so
    that none of them leaves it locked or ends a thread: only Resume can
    throw one, when its connection to the database fails and before it has
    changed anything. A constructor that throws one has not registered the
    instance nor given a task to anybody, and one that returns has
    registered it last, under its identifier and without a task. Not covered
    are the exceptions of the XML libraries, on a number or an expression
    that they do not read, and those of Logger::Log when messages are also
    written to the database: these do leave the mutex locked. *)
Theorem exceptions_contained :
  (forall (x : world (D := D)) e x',
     Start known_queue format_time x <> Exn e x' /\
     match Resume known_queue format_time x with Exn _ x' => wi x' = wi x /\ effects x' = effects x | _ => True end /\
     (forall t, TaskRestart known_queue format_time t x <> Exn e x') /\
     (forall t tid fork, TaskExecute GetTask format_time engine_env configuration t tid fork x <> Exn e x') /\
     (forall t retval output, TaskStop known_queue GetTask format_time t retval output x <> Exn e x') /\
     RecordSavepoint format_time x <> Exn e x' /\ (forall pid, KillTask pid x <> Exn e x') /\ Cancel x <> Exn e x') /\
  (forall workflow_name parameters schedule_id host user db t,
     built_or_failed (WorkflowInstance_new (D := D) format_time configuration GetWorkflow GetRetrySchedule next_sequence insert_id
                        workflow_name parameters schedule_id host user db t)) /\
  (forall id row db t, built_or_failed (WorkflowInstance_resume (D := D) configuration id row db t)).
Proof.
  split; [|split; [intros; apply WorkflowInstance_new_registers|intros; apply WorkflowInstance_resume_registers]].
  intros x e x'. split; [apply catches_Start|]. split; [apply Resume_throws|]. split; [intros; apply catches_TaskRestart|].
  split; [intros; apply catches_TaskExecute|]. split; [intros; apply catches_TaskStop|].
  split; [by apply catches_RecordSavepoint|]. split; [intros; apply catches_KillTask|]. done.
Qed.
End properties.

(** An exception of the XML library is not one of the program's: a number that does
    not parse, for instance, makes [TaskStop] end with the mutex locked. *)
Definition ex_bad_delay : doc :=
  to_doc (Elem "workflow" [("name"%string, "bad"%string)]
    [Elem "subjobs" [] [job_node [] [task_node "echo" [("retry_delay", "soon"); ("retry_times", "1")]%string []] []]]).

Example library_exception_escapes :
  match Start ex_known_queue ex_format_time (ex_world ex_bad_delay) with
  | Ok _ w => TaskStop ex_known_queue ex_GetTask ex_format_time (default 1%positive (all_tasks ex_bad_delay !! 0%nat)) 1 "" w = Crash
  | _ => False
  end.
Proof. by vm_compute. Qed.
