(* ===== verification/SystemSafety.v ===== *)
(** The engine never loses a task nor calls a deleted instance: the counters of
    every instance agree with the tasks that the other components hold for it. *)

From S2P Require Import Prelude CString Configuration Dom Task QueueIface QueuePool ProcessManager PoolTasks Scheduler Retrier.
From S2P Require Import WorkflowInstance WorkflowProgress System.

Open Scope Z_scope.

(** * Counting the tasks of an instance *)

Lemma tasks_of_app w a b : tasks_of w (a ++ b) = tasks_of w a + tasks_of w b.
Proof. unfold tasks_of, count. rewrite List.filter_app, List.length_app, Nat2Z.inj_add. done. Qed.

#[export] Instance tasks_of_perm w : Proper (Permutation ==> eq) (tasks_of w).
Proof.
  intros a b E. unfold tasks_of, count. f_equal.
  induction E as [|x a b _ IH|x y a|a b c _ IH1 _ IH2]; cbn; [done| | |congruence].
  - by destruct (bool_decide _); cbn; rewrite IH.
  - by destruct (bool_decide _), (bool_decide _).
Qed.

Lemma tasks_of_bound w l : 0 <= tasks_of w l <= len l.
Proof. apply count_bound. Qed.

Lemma tasks_of_cons w u t l : tasks_of w ((u, t) :: l) = (if bool_decide (u = w) then 1 else 0) + tasks_of w l.
Proof. unfold tasks_of, count. cbn. case_bool_decide; cbn; lia. Qed.

Lemma tasks_of_own w (l : list node_ref) : tasks_of w ((w,.) <$> l) = len l.
Proof.
  induction l as [|t l IH]; [done|]. cbn [fmap list_fmap]. change (list_fmap _ _ _ l) with ((w,.) <$> l).
  rewrite tasks_of_cons, IH, bool_decide_true by done. unfold len. cbn [List.length]. lia.
Qed.

Lemma tasks_of_other w u (l : list node_ref) : u <> w -> tasks_of u ((w,.) <$> l) = 0.
Proof.
  intros Hne. apply count_zero. intros x (t & -> & _)%list_elem_of_fmap. by apply bool_decide_eq_false.
Qed.

Lemma tasks_of_pos w t l : (w, t) ∈ l -> 0 < tasks_of w l.
Proof.
  intros (i & Hi)%list_elem_of_lookup. eapply count_pos; [exact Hi|]. by apply bool_decide_eq_true.
Qed.

(** * The ledger *)

Section ledger.
Context {D : Type} `{Dom D}.
Context (known_queue : string -> bool).
Implicit Types (live : gmap wi_ref (world (D := D))) (st en : list wi_ref) (R T : list task_ref).

(** The instances that are allocated, those not started or about to be deleted,
    and the tasks that run or wait. *)
Record ledger live st en R T : Prop := {
  l_running w x : live !! w = Some x -> running_tasks (wi x) = tasks_of w R;
  l_retrying w x : live !! w = Some x -> retrying_tasks (wi x) = tasks_of w T;
  l_dead w : live !! w = None -> tasks_of w R = 0 /\ tasks_of w T = 0;
  l_starting w : w ∈ st -> is_Some (live !! w) /\ tasks_of w R = 0 /\ tasks_of w T = 0;
  l_ending w : w ∈ en <-> is_Some (live !! w) /\ w ∉ st /\ tasks_of w R = 0 /\ tasks_of w T = 0;
  l_st : NoDup st;
  l_en : NoDup en;
  l_R : len R < 2 ^ 32;
  l_T : len T < 2 ^ 32;
}.

Lemma len_perm {A} (a b : list A) : a ≡ₚ b -> len a = len b.
Proof. intros E. unfold len. by rewrite E. Qed.

#[export] Instance ledger_perm live st en : Proper (Permutation ==> Permutation ==> iff) (ledger live st en).
Proof.
  assert (Hi : forall R R' T T', R ≡ₚ R' -> T ≡ₚ T' -> ledger live st en R T -> ledger live st en R' T').
  { intros R R' T T' ER ET []. split; try done.
    - intros w x. rewrite <- ER. eauto.
    - intros w x. rewrite <- ET. eauto.
    - intros w. rewrite <- ER, <- ET. eauto.
    - intros w. rewrite <- ER, <- ET. eauto.
    - intros w. rewrite <- ER, <- ET. eauto.
    - by rewrite <- (len_perm _ _ ER).
    - by rewrite <- (len_perm _ _ ET). }
  intros R R' ER T T' ET. split; apply Hi; done.
Qed.

(** An instance that holds tasks is allocated, started and not about to be deleted. *)
Lemma ledger_alive live st en R T w t :
  ledger live st en R T -> (w, t) ∈ R \/ (w, t) ∈ T -> is_Some (live !! w) /\ w ∉ st /\ w ∉ en.
Proof.
  intros L Hin. assert (0 < tasks_of w R \/ 0 < tasks_of w T) as Hp by (destruct Hin; [left|right]; by eapply tasks_of_pos).
  split; [|split].
  - destruct (live !! w) eqn:E; [done|]. apply (l_dead _ _ _ _ _ L) in E. lia.
  - intros Hs. apply (l_starting _ _ _ _ _ L) in Hs. lia.
  - intros He. apply (l_ending _ _ _ _ _ L) in He. lia.
Qed.

(** The counters are in range. *)
Lemma ledger_counters live st en R T w x : ledger live st en R T -> live !! w = Some x -> counters_ok x.
Proof.
  intros L E. unfold counters_ok. rewrite (l_running _ _ _ _ _ L _ _ E), (l_retrying _ _ _ _ _ L _ _ E).
  pose proof (tasks_of_bound w R). pose proof (tasks_of_bound w T). pose proof (l_R _ _ _ _ _ L). pose proof (l_T _ _ _ _ _ L). lia.
Qed.

Lemma ledger_new live st en R T w x :
  ledger live st en R T -> live !! w = None -> running_tasks (wi x) = 0 -> retrying_tasks (wi x) = 0 ->
  ledger (<[w := x]> live) (w :: st) en R T.
Proof.
  intros L Hn Hr Ht. destruct (l_dead _ _ _ _ _ L w Hn) as [R0 T0].
  assert (w ∉ st) as Hst by (intros Hs%(l_starting _ _ _ _ _ L); rewrite Hn in Hs; by destruct Hs as [[] _]).
  assert (w ∉ en) as Hen by (intros He%(l_ending _ _ _ _ _ L); rewrite Hn in He; by destruct He as [[] _]).
  destruct L. split; try done.
  - intros u y. destruct (decide (u = w)) as [->|Hne]; [rewrite lookup_insert_eq; intros [= <-]; lia|].
    rewrite lookup_insert_ne by done. eauto.
  - intros u y. destruct (decide (u = w)) as [->|Hne]; [rewrite lookup_insert_eq; intros [= <-]; lia|].
    rewrite lookup_insert_ne by done. eauto.
  - intros u. destruct (decide (u = w)) as [->|Hne]; [by rewrite lookup_insert_eq|]. rewrite lookup_insert_ne by done. eauto.
  - intros u [->|Hu]%elem_of_cons; [by rewrite lookup_insert_eq|].
    destruct (decide (u = w)) as [->|Hne]; [done|]. rewrite lookup_insert_ne by done. eauto.
  - intros u. rewrite elem_of_cons. destruct (decide (u = w)) as [->|Hne].
    + rewrite lookup_insert_eq. naive_solver.
    + rewrite lookup_insert_ne by done. rewrite l_ending0. naive_solver.
  - by constructor.
Qed.

Lemma ledger_delete live st en1 w en2 R T :
  ledger live st (en1 ++ w :: en2) R T -> ledger (delete w live) st (en1 ++ en2) R T.
Proof.
  intros L. assert (w ∈ en1 ++ w :: en2) as Hin by set_solver.
  destruct (proj1 (l_ending _ _ _ _ _ L w) Hin) as (Hl & Hst & R0 & T0).
  pose proof (l_en _ _ _ _ _ L) as Hnd. rewrite <- Permutation_middle in Hnd. apply NoDup_cons in Hnd as [Hne Hnd].
  destruct L. split; try done.
  - intros u y [_ Hu]%lookup_delete_Some. eauto.
  - intros u y [_ Hu]%lookup_delete_Some. eauto.
  - intros u [<-|Hu]%lookup_delete_None; [done|eauto].
  - intros u Hu. rewrite lookup_delete_ne; [eauto|]. by intros ->.
  - intros u. destruct (decide (u = w)) as [->|Hd].
    + rewrite lookup_delete_eq. split; [done|]. by intros [[] _].
    + rewrite lookup_delete_ne by done. rewrite <- l_ending0. set_solver.
Qed.

(** An instance that could not be started is deleted. *)
Lemma ledger_abandon live st1 w st2 en R T :
  ledger live (st1 ++ w :: st2) en R T -> ledger (delete w live) (st1 ++ st2) en R T.
Proof.
  intros L. destruct (l_starting _ _ _ _ _ L w) as (Hl & R0 & T0); [set_solver|].
  pose proof (l_st _ _ _ _ _ L) as Hnd. rewrite <- Permutation_middle in Hnd. apply NoDup_cons in Hnd as [Hne Hnd].
  assert (w ∉ en) as Hen by (intros (_ & Hx & _)%(l_ending _ _ _ _ _ L); set_solver).
  destruct L. split; try done.
  - intros u y [_ Hu]%lookup_delete_Some. eauto.
  - intros u y [_ Hu]%lookup_delete_Some. eauto.
  - intros u [<-|Hu]%lookup_delete_None; [done|eauto].
  - intros u Hu. assert (u <> w) by (by intros ->). rewrite lookup_delete_ne by done. apply l_starting0. set_solver.
  - intros u. destruct (decide (u = w)) as [->|Hd].
    + rewrite lookup_delete_eq. split; [done|]. by intros [[] _].
    + rewrite lookup_delete_ne by done. rewrite l_ending0. set_solver.
Qed.

(** A change of an instance that leaves its counters alone. *)
Lemma ledger_same live st en R T w x x' :
  ledger live st en R T -> live !! w = Some x ->
  running_tasks (wi x') = running_tasks (wi x) -> retrying_tasks (wi x') = retrying_tasks (wi x) ->
  ledger (<[w := x']> live) st en R T.
Proof.
  intros L Hw Hr Ht. assert (Hs : forall u, is_Some (<[w:=x']> live !! u) <-> is_Some (live !! u)).
  { intros u. destruct (decide (u = w)) as [->|Hne]; [by rewrite lookup_insert_eq, Hw|by rewrite lookup_insert_ne]. }
  destruct L. split; try done.
  - intros u y. destruct (decide (u = w)) as [->|Hne]; [rewrite lookup_insert_eq; intros [= <-]; rewrite Hr; eauto|].
    rewrite lookup_insert_ne by done. eauto.
  - intros u y. destruct (decide (u = w)) as [->|Hne]; [rewrite lookup_insert_eq; intros [= <-]; rewrite Ht; eauto|].
    rewrite lookup_insert_ne by done. eauto.
  - intros u Hu. apply l_dead0. apply eq_None_not_Some. rewrite <- Hs. by apply eq_None_not_Some.
  - intros u. rewrite Hs. eauto.
  - intros u. rewrite Hs. eauto.
Qed.

(** An operation of [w] gives back the tasks [r] and [s] and makes the calls of [es]. *)
Lemma ledger_operation str es live st st' en R T r s w x x' :
  ledger live st en (((w,.) <$> r) ++ R) (((w,.) <$> s) ++ T) -> live !! w = Some x ->
  moves known_queue str es (- len r) (- len s) x x' ->
  w ∉ en -> w ∉ st' -> (forall u, u <> w -> u ∈ st' <-> u ∈ st) -> NoDup st' ->
  let R' := ((w,.) <$> (enqueued es ++ resumed es)) ++ R in
  let T' := ((w,.) <$> inserted es) ++ T in
  len R' < 2 ^ 32 -> len T' < 2 ^ 32 ->
  ledger (<[w := x']> live) st' (if ended x' then w :: en else en) R' T'.
Proof.
  intros L Hw [_ Mr Mt _ _ _] Hen Hst' Hst Hnd R' T' BR BT.
  pose proof (l_running _ _ _ _ _ L _ _ Hw) as Er. pose proof (l_retrying _ _ _ _ _ L _ _ Hw) as Et.
  rewrite tasks_of_app, tasks_of_own in Er, Et.
  assert (Or : forall u, u <> w -> tasks_of u R' = tasks_of u (((w,.) <$> r) ++ R))
    by (intros u Hu; unfold R'; by rewrite !tasks_of_app, !tasks_of_other).
  assert (Ot : forall u, u <> w -> tasks_of u T' = tasks_of u (((w,.) <$> s) ++ T))
    by (intros u Hu; unfold T'; by rewrite !tasks_of_app, !tasks_of_other).
  pose proof (tasks_of_bound w R') as B1. pose proof (tasks_of_bound w T') as B2.
  assert (Fr : running_tasks (wi x') = tasks_of w R').
  { rewrite Mr, Er. unfold R' in *. rewrite tasks_of_app, tasks_of_own, len_app in *. rewrite u32_small; lia. }
  assert (Ft : retrying_tasks (wi x') = tasks_of w T').
  { rewrite Mt, Et. unfold T' in *. rewrite tasks_of_app, tasks_of_own in *. rewrite u32_small; lia. }
  assert (Fe : ended x' = true <-> tasks_of w R' = 0 /\ tasks_of w T' = 0)
    by (unfold ended; rewrite Fr, Ft, andb_true_iff, !Z.eqb_eq; done).
  destruct L. split; try done.
  - intros u y. destruct (decide (u = w)) as [->|Hne]; [rewrite lookup_insert_eq; by intros [= <-]|].
    rewrite lookup_insert_ne, Or by done. eauto.
  - intros u y. destruct (decide (u = w)) as [->|Hne]; [rewrite lookup_insert_eq; by intros [= <-]|].
    rewrite lookup_insert_ne, Ot by done. eauto.
  - intros u. destruct (decide (u = w)) as [->|Hne]; [by rewrite lookup_insert_eq|].
    rewrite lookup_insert_ne, Or, Ot by done. eauto.
  - intros u Hu. assert (u <> w) as Hne by (by intros ->). rewrite lookup_insert_ne, Or, Ot by done. apply l_starting0. by apply Hst.
  - intros u. destruct (decide (u = w)) as [->|Hne].
    + rewrite lookup_insert_eq. destruct (ended x') eqn:E.
      * split; [|by intros; left]. intros _. destruct (proj1 Fe eq_refl). split_and!; done.
      * split; [done|]. intros (_ & _ & Hz). by apply Fe in Hz.
    + rewrite lookup_insert_ne, Or, Ot, Hst by done. rewrite <- l_ending0. destruct (ended x'); set_solver.
  - destruct (ended x'); [by constructor|done].
Qed.
End ledger.

(** * The invariant *)

Section invariant.
Context {D : Type} `{Dom D} {Q : Type} `{QueueLaws Q, !QueueTasks Q, !QueueTasksLaws Q}.
Context (names : list string) (GetTask : string -> option Task) (format_time : Z -> string).
Context (engine_env : string -> option string) (configuration : Configuration.Configuration).
Context (built : origin -> world (D := D) -> Prop).
Implicit Types (e : System.system (D := D) (Q := Q)).

Definition call_known (c : wi_ref * call) : Prop :=
  match c.2 with CallEnqueueTask queue_name _ => queue_name ∈ names | _ => True end.

Record inv e : Prop := {
  e_processes : ProcessManager.inv (processes e);
  e_pool : pool_ok (the_pool e);
  e_names : name (the_pool e) = names;
  e_retrier : scheduler_ok (retrier e);
  e_calls : Forall call_known (calls e);
  e_ledger : ledger (instances e) (starting e).*1 (ending e) (running e) (retrying e);
}.

(** ** Steps that move tasks around *)

(** No instance changes, and each task stays on its side. *)
Record moved e e' : Prop := {
  mo_instances : instances e' = instances e;
  mo_starting : starting e' = starting e;
  mo_ending : ending e' = ending e;
  mo_queued : queued e' ≡ₚ queued e;
  mo_executing : executing e' ≡ₚ executing e;
  mo_retrying : retrying e' ≡ₚ retrying e;
}.

Lemma inv_moved e e' :
  inv e -> moved e e' ->
  ProcessManager.inv (processes e') -> pool_ok (the_pool e') -> name (the_pool e') = name (the_pool e) ->
  scheduler_ok (retrier e') -> Forall call_known (calls e') -> inv e' /\ moved e e'.
Proof.
  intros [_ _ En _ _ L] M Hm Hp Hn Hr Hc. split; [|done]. destruct M as [E1 E2 E3 EQ EX ET]. split; try done; [congruence|].
  unfold running in *. by rewrite E1, E2, E3, EQ, EX, ET.
Qed.

(** The same, when only the processes and the gatherer change. *)
Lemma inv_processes e m' s' :
  inv e -> ProcessManager.inv m' -> pool_ok (ProcessManager.pool m') -> name (ProcessManager.pool m') = name (the_pool e) ->
  forker_hand (ProcessManager.pc m') ++ pool_tasks (ProcessManager.pool m') ≡ₚ
    forker_hand (ProcessManager.pc (processes e)) ++ pool_tasks (the_pool e) ->
  launched m' ++ option_list (fst <$> s') ≡ₚ launched (processes e) ++ option_list (fst <$> stopping e) ->
  inv (set_stopping s' (set_processes m' e)) /\ moved e (set_stopping s' (set_processes m' e)).
Proof.
  intros I Hm Hp Hn HQ HX. eapply inv_moved; try done; try apply I. split; try done.
  - unfold queued. cbn. by rewrite HQ.
  - unfold executing. cbn. by rewrite HX.
Qed.

(** The tasks of the processes. *)
Lemma launched_ended m c p l1 x l2 q rc g :
  launched (ProcessManager.mkSystem (Q := Q) m c p (l1 ++ l2) (q ++ [Ended x rc]) g) ≡ₚ
  launched (ProcessManager.mkSystem m c p (l1 ++ x :: l2) q g).
Proof.
  unfold launched. cbn. rewrite bind_app, !fmap_app, fmap_cons. cbn. solve_Permutation.
Qed.

Lemma launched_message m c p l x rc q g :
  launched (ProcessManager.mkSystem (Q := Q) m c p l (Ended x rc :: q) g) ≡ₚ
  (pr_instance x, pr_task x) :: launched (ProcessManager.mkSystem m c p l q g).
Proof.
  unfold launched. cbn. rewrite !fmap_app. cbn. solve_Permutation.
Qed.

Lemma set_stopping_same e m' : set_stopping (stopping e) (set_processes m' e) = set_processes m' e.
Proof. by destruct e. Qed.

Lemma processes_eta e : processes e = with_pool (ProcessManager.pc (processes e)) (the_pool e) (processes e).
Proof. unfold with_pool, the_pool. by destruct (processes e). Qed.

(** The calls are carried out. *)
Lemma calls_remove (f : wi_ref * call -> list task_ref) c1 x c2 :
  ((c1 ++ x :: c2) ≫= f) ≡ₚ f x ++ ((c1 ++ c2) ≫= f).
Proof. rewrite !bind_app, bind_cons. solve_Permutation. Qed.

Lemma enqueue_inv e c1 w queue_name t c2 r p' :
  inv e -> calls e = c1 ++ (w, CallEnqueueTask queue_name t) :: c2 ->
  sizes_ok (the_pool e) -> pool_accepts queue_name (the_pool e) = true ->
  QueuePool.EnqueueTask queue_name w t (the_pool e) = Ret (r, p') ->
  let e' := set_calls (c1 ++ c2) (set_processes (with_pool (ProcessManager.pc (processes e)) p' (processes e)) e) in
  inv e' /\ moved e e'.
Proof.
  intros I Ec Hs Ha E e'. pose proof I as [Hm Hp En _ Hc _]. rewrite Ec in Hc.
  apply Forall_app in Hc as [Hc1 [Hq Hc2]%Forall_cons].
  cbn in Hq. rewrite <- En in Hq.
  destruct (EnqueueTask_tasks _ _ _ _ _ _ (inv_wf _ (i_pool _ Hm)) Hp Hq Hs Ha E) as (_ & Hp' & P).
  pose proof (other_enqueue (GetInstanceID e) _ _ _ _ _ _ Hs E) as S.
  pose proof (other_same _ _ _ S) as Sm.
  eapply inv_moved; try done; try apply I; [split; try done|..]; unfold e'; cbn.
  - unfold queued. cbn. rewrite Ec, (calls_remove queued_call c1). cbn. rewrite P. solve_Permutation.
  - unfold executing. cbn. by rewrite Ec, (calls_remove executing_call c1).
  - unfold retrying. cbn. by rewrite Ec, (calls_remove retrying_call c1).
  - eapply (manager_step_inv (GetInstanceID e)); [exact Hm|]. rewrite (processes_eta e) at 1. by apply step_other.
  - apply Sm.
  - by apply Forall_app.
Qed.

Lemma insert_inv e c1 w t retry_at c2 n r' :
  inv e -> calls e = c1 ++ (w, CallInsertTask t retry_at) :: c2 ->
  Z.of_nat (List.length (first_event (retrier e))) + 1 < 2 ^ 32 ->
  Retrier.InsertTask w t retry_at (retrier e) = (n, r') ->
  let e' := set_calls (c1 ++ c2) (set_retrier r' (restarting e) e) in inv e' /\ moved e e'.
Proof.
  intros I Ec Hb E e'. pose proof I as [_ _ _ Hr Hc _]. rewrite Ec in Hc. apply Forall_app in Hc as [Hc1 [_ Hc2]%Forall_cons].
  unfold Retrier.InsertTask in E. pose proof (f_equal snd E) as E2. cbn in E2. subst r'.
  eapply inv_moved; try done; try apply I; [split; try done|..]; unfold e'; cbn.
  - unfold queued. cbn. by rewrite Ec, (calls_remove queued_call c1).
  - unfold executing. cbn. by rewrite Ec, (calls_remove executing_call c1).
  - unfold retrying. cbn. rewrite Ec, (calls_remove retrying_call c1). cbn.
    destruct (InsertEvent_split (mkEvent retry_at (w, t)) (retrier e) (ok_sorted _ Hr)) as (l1 & l2 & E1 & E2 & _).
    unfold Retrier, task_ref in *. rewrite E2, E1, !fmap_app. cbn. solve_Permutation.
  - by apply InsertEvent_ok.
  - by apply Forall_app.
Qed.

(** An identifier read from a savepoint. *)
Lemma register_tracks nm w t tid p p' l :
  wf p -> nm ∈ name p -> tid <> 0 -> free_tid p tid -> tracks p l ->
  QueuePool.ExecuteTask w t nm tid p = Ret (tid, p') ->
  wf p' /\ tracks p' ((tid, (w, t)) :: l) /\ name p' = name p /\ fork_possible p' = negb (IsLocked p').
Proof.
  intros W Hin Hz F Ht E. destruct (lookup_known nm p W Hin) as (i & q & El & Hi & _ & Hq).
  pose proof (wf_maxpid _ W). destruct F as [Hr Hn].
  rewrite (ExecuteTask_slot w t nm tid i q p W El Hi Hq Hz) in E by lia. injection E as <-.
  split; [by apply with_slot_wf; try done; lia|]. split; [|split].
  - eapply tracks_same; [|by apply (tracks_add p tid i w t q l)]. unfold with_slot.
    eapply same_tables_trans; [|apply same_update].
    destruct (same_update (set_queue (<[Z.to_nat i:=qi_ExecuteTask q]> (queue (set_lasttid tid p)))
      (set_tids (<[Z.to_nat tid:=i]> (tid_queue_index (set_lasttid tid p))) (<[Z.to_nat tid:=Some t]> (tid_task (set_lasttid tid p)))
         (<[Z.to_nat tid:=Some w]> (tid_workflow_instance (set_lasttid tid p))) (set_lasttid tid p)))) as [A1 A2 A3 A4 A5 A6].
    split; cbn in *; congruence.
  - unfold with_slot, update_fork_possible. cbn. by destruct (_ && _).
  - unfold with_slot, update_fork_possible. cbn. by destruct (_ && _).
Qed.

Lemma register_inv e c1 w queue_name t tid c2 pid p' :
  inv e -> calls e = c1 ++ (w, CallExecuteTask queue_name t tid) :: c2 ->
  ProcessManager.pc (processes e) = InPool FReady -> queue_name ∈ names -> tid <> 0 ->
  free_tid (the_pool e) tid -> 0 < pid ->
  QueuePool.ExecuteTask w t queue_name tid (the_pool e) = Ret (tid, p') ->
  let e' := set_calls (c1 ++ c2) (set_processes
        (ProcessManager.mkSystem (manager (processes e)) (InPool FReady) p'
           (mkProcess pid tid w t :: ProcessManager.processes (processes e)) (messages (processes e)) (gathering (processes e))) e) in
  inv e' /\ moved e e'.
Proof.
  intros I Ec Epc Hq Hz F Hpid E e'. pose proof I as [Hm Hp En _ Hc _]. rewrite Ec in Hc.
  apply Forall_app in Hc as [Hc1 [_ Hc2]%Forall_cons]. destruct Hm as [Hi Hk Ht Hps Hms Hl].
  destruct (register_tracks queue_name w t tid (the_pool e) p' (entries (processes e)) (inv_wf _ Hi)) as (W' & Ht' & En' & Ef);
    [by rewrite En|done|done|exact Ht|done|].
  destruct (ExecuteTask_tasks _ _ _ _ _ _ _ Hp E) as [Hp' P].
  eapply inv_moved; try done; try apply I; [split; try done|..]; unfold e'; cbn.
  - unfold queued. cbn. by rewrite Ec, (calls_remove queued_call c1), Epc, P.
  - unfold executing. cbn. rewrite Ec, (calls_remove executing_call c1).
    unfold launched. cbn. unfold task_ref. solve_Permutation.
  - unfold retrying. cbn. by rewrite Ec, (calls_remove retrying_call c1).
  - rewrite Epc in *. split; cbn; try done.
    + eapply tracks_perm; [|exact Ht']. unfold entries. rewrite Epc. cbn. done.
    + by constructor.
  - by apply Forall_app.
Qed.

Lemma dequeue_inv e f f' p' :
  inv e -> ProcessManager.pc (processes e) = InPool f -> forker_step (f, the_pool e) (f', p') ->
  let e' := set_processes (with_pool (InPool f') p' (processes e)) e in inv e' /\ moved e e'.
Proof.
  intros I Epc S. cbv zeta. pose proof I as [Hm Hp _ _ _ _]. destruct (forker_tasks _ _ _ _ Hp S) as [Hp' P].
  destruct (forker_same _ _ _ _ S) as [Sm _]. rewrite <- set_stopping_same. apply inv_processes; try done.
  - eapply (manager_step_inv (GetInstanceID e)); [exact Hm|]. rewrite (processes_eta e) at 1. rewrite Epc. by apply ProcessManager.step_dequeue.
  - apply Sm.
  - cbn. rewrite Epc. cbn. by rewrite P.
Qed.

Lemma execute_step_inv e nm w t free tid p' :
  inv e -> ProcessManager.pc (processes e) = InPool (FGot nm w t) -> free_tid (the_pool e) free ->
  QueuePool.ExecuteTask w t nm 0 (the_pool e) = Ret (tid, p') ->
  let e' := set_processes (with_pool (Registered w t tid) p' (processes e)) e in inv e' /\ moved e e'.
Proof.
  intros I Epc [F1 F2] E. cbv zeta. pose proof I as [Hm Hp _ _ _ _]. destruct (ExecuteTask_tasks _ _ _ _ _ _ _ Hp E) as [Hp' P].
  rewrite <- set_stopping_same. apply inv_processes; try done.
  - eapply (manager_step_inv (GetInstanceID e)); [exact Hm|]. rewrite (processes_eta e) at 1. rewrite Epc.
    by eapply ProcessManager.step_execute.
  - by eapply ExecuteTask_name.
  - cbn. by rewrite Epc, P.
Qed.

Lemma ends_inv e l1 x l2 retcode :
  inv e -> ProcessManager.processes (processes e) = l1 ++ x :: l2 ->
  let e' := set_processes (ProcessManager.mkSystem (manager (processes e)) (ProcessManager.pc (processes e)) (the_pool e) (l1 ++ l2)
         (messages (processes e) ++ [Ended x retcode]) (gathering (processes e))) e in
  inv e' /\ moved e e'.
Proof.
  intros I El. cbv zeta. pose proof I as [Hm Hp _ _ _ _]. rewrite <- set_stopping_same. apply inv_processes; try done.
  - eapply (manager_step_inv (GetInstanceID e)); [exact Hm|]. rewrite (processes_eta e) at 1. unfold with_pool. rewrite El.
    by apply ProcessManager.step_ends.
  - pose proof (f_equal launched (processes_eta e)) as Ee. unfold with_pool in Ee. rewrite El in Ee.
    by rewrite Ee, launched_ended.
Qed.

Lemma cancel_tasks_inv e id r p' :
  inv e -> CancelTasks (GetInstanceID e) id (the_pool e) = Ret (r, p') ->
  let e' := set_processes (with_pool (ProcessManager.pc (processes e)) p' (processes e)) e in inv e' /\ moved e e'.
Proof.
  intros I E. cbv zeta. pose proof I as [Hm Hp _ _ _ _]. destruct (CancelTasks_tasks _ _ _ _ _ Hp E) as [Hp' P].
  pose proof (other_cancel _ _ _ _ _ E) as S. rewrite <- set_stopping_same. apply inv_processes; try done.
  - eapply (manager_step_inv (GetInstanceID e)); [exact Hm|]. rewrite (processes_eta e) at 1. by apply step_other.
  - apply (other_same _ _ _ S).
  - cbn. by rewrite P.
Qed.

Lemma shutdown_inv e m' p' b :
  inv e -> ProcessManager.Shutdown (manager (processes e)) (the_pool e) = (m', p', b) ->
  let e' := set_processes (ProcessManager.mkSystem m' (ProcessManager.pc (processes e)) p' (ProcessManager.processes (processes e))
         (messages (processes e) ++ [ShutdownRequest]) (gathering (processes e))) e in
  inv e' /\ moved e e'.
Proof.
  intros I E. cbv zeta. pose proof I as [Hm Hp _ _ _ _]. pose proof E as E2. injection E2 as _ Ep _.
  destruct (Shutdown_tasks (the_pool e)) as [P Hok]. rewrite <- set_stopping_same. apply inv_processes; try done.
  - eapply (manager_step_inv (GetInstanceID e)); [exact Hm|]. rewrite (processes_eta e) at 1. by eapply ProcessManager.step_shutdown.
  - cbn. rewrite <- Ep. by apply Hok.
  - cbn. rewrite <- Ep. unfold QueuePool.Shutdown. cbn. by destruct (fork_locked _).
  - cbn. by rewrite <- Ep, P.
  - unfold launched. cbn. rewrite bind_app. cbn. by rewrite app_nil_r.
Qed.

(** ** The retrier *)

Lemma due_inv e now ev r' :
  inv e -> shift_event now (retrier e) = (Some ev, r') ->
  let e' := set_retrier r' (data ev :: restarting e) e in inv e' /\ moved e e'.
Proof.
  intros I E. destruct (shift_event_some _ _ _ _ (e_retrier _ I) E) as (El & _ & Hok & _).
  eapply inv_moved; try done; try apply I. split; try done. unfold retrying. cbn. unfold Retrier, task_ref in *. rewrite El. cbn. solve_Permutation.
Qed.

Lemma flush_inv e use_filter id removed wake r' :
  inv e -> Flush use_filter (flush_filter (GetInstanceID e) id) (retrier e) = (removed, wake, r') ->
  let e' := set_retrier r' ((data <$> removed) ++ restarting e) e in inv e' /\ moved e e'.
Proof.
  intros I E. pose proof (Flush_ok use_filter (flush_filter (GetInstanceID e) id) _ (e_retrier _ I)) as Hok.
  unfold TimedTask in *. rewrite E in Hok. rewrite (Flush_spec use_filter _ _ (e_retrier _ I)) in E. injection E as <- _ <-.
  eapply inv_moved; try done; try apply I. split; try done. unfold retrying. cbn. unfold Retrier, TimedTask, task_ref in *.
  rewrite (filter_partition (fun ev => negb use_filter || flush_filter (GetInstanceID e) id ev) (first_event (retrier e))) at 3.
  rewrite fmap_app. solve_Permutation.
Qed.

(** ** The gatherer receives a message *)

Lemma stop_of_gathered pm read_log x retcode :
  exists o, stop_of (gathered pm read_log false x retcode) = Some ((pr_instance x, pr_task x), o).
Proof. unfold gathered. destruct (logs_delete pm), (read_log _); cbn; eauto. Qed.

Lemma gather_step_inv e read_log x q a k p' :
  inv e -> messages (processes e) = x :: q -> gathering (processes e) = true -> stopping e = None ->
  Gather (manager (processes e)) read_log false (message_buf x) (the_pool e) = Ret (a, k, p') ->
  let e' := set_stopping (stop_of a)
        (set_processes (ProcessManager.mkSystem (manager (processes e)) (ProcessManager.pc (processes e)) p'
           (ProcessManager.processes (processes e)) q k) e) in
  inv e' /\ moved e e'.
Proof.
  intros I Eq Eg Es E. cbv zeta. pose proof I as [Hm Hp _ _ _ _]. pose proof Hm as [Hi _ Ht _ Hq Hl]. rewrite Eq in Hq.
  assert (St : ProcessManager.step (GetInstanceID e) (processes e)
    (ProcessManager.mkSystem (manager (processes e)) (ProcessManager.pc (processes e)) p' (ProcessManager.processes (processes e)) q k)).
  { rewrite (processes_eta e) at 1. unfold with_pool. rewrite Eq, Eg. by eapply ProcessManager.step_gather. }
  pose proof (manager_step_inv _ _ _ Hm St) as Hm'.
  destruct x as [x rc|].
  - apply Forall_cons in Hq as [Hx Hq].
    pose proof (f_equal entries (processes_eta e)) as Ee. unfold with_pool in Ee. rewrite Eq in Ee.
    pose proof Ht as Ht2. rewrite Ee in Ht2.
    eapply tracks_perm in Ht2; [|by apply (entries_message _ _ _ _ _ x rc [] q)].
    destruct (Gather_ended (manager (processes e)) read_log false x rc (the_pool e) _ Hl (inv_wf _ Hi) Hx Ht2) as (p1 & E1 & E2 & _ & En1).
    rewrite E2 in E. injection E as <- <- <-. destruct (TerminateTask_tasks _ _ _ _ Hp E1) as [Hp' P].
    apply inv_processes; try done; [cbn; by rewrite P|]. clear Ee.
    pose proof (f_equal launched (processes_eta e)) as Ee. unfold with_pool in Ee. rewrite Eq in Ee. rewrite Ee, launched_message, Es.
    destruct (stop_of_gathered (manager (processes e)) read_log x rc) as [o ->].
    unfold launched. cbn. unfold task_ref. solve_Permutation.
  - rewrite Gather_shutdown in E. injection E as <- <- <-. apply inv_processes; try done.
    pose proof (f_equal launched (processes_eta e)) as Ee. unfold with_pool in Ee. rewrite Eq in Ee. by rewrite Ee, Es.
Qed.

(** ** The operations of the instances *)

Lemma queued_calls w es : (calls_of w es ≫= queued_call) ≡ₚ (w,.) <$> enqueued es.
Proof.
  unfold calls_of. rewrite (reverse_Permutation es). induction es as [|e es IH]; [done|].
  destruct e; cbn; try exact IH; cbn in *; by rewrite IH.
Qed.

Lemma executing_calls w es : (calls_of w es ≫= executing_call) ≡ₚ (w,.) <$> resumed es.
Proof.
  unfold calls_of. rewrite (reverse_Permutation es). induction es as [|e es IH]; [done|].
  destruct e; cbn; try exact IH; cbn in *; by rewrite IH.
Qed.

Lemma retrying_calls w es : (calls_of w es ≫= retrying_call) ≡ₚ (w,.) <$> inserted es.
Proof.
  unfold calls_of. rewrite (reverse_Permutation es). induction es as [|e es IH]; [done|].
  destruct e; cbn; try exact IH; cbn in *; by rewrite IH.
Qed.

(** What an operation adds to each side. *)
Lemma returns_queued w es x b e : queued (returns w es x b e) ≡ₚ ((w,.) <$> enqueued es) ++ queued e.
Proof. unfold queued, returns. cbn. rewrite bind_app, queued_calls. solve_Permutation. Qed.

Lemma returns_executing w es x b e : executing (returns w es x b e) ≡ₚ ((w,.) <$> resumed es) ++ executing e.
Proof. unfold executing, returns. cbn. rewrite bind_app, executing_calls. solve_Permutation. Qed.

Lemma returns_retrying w es x b e : retrying (returns w es x b e) ≡ₚ ((w,.) <$> inserted es) ++ retrying e.
Proof. unfold retrying, returns. cbn. rewrite bind_app, retrying_calls. solve_Permutation. Qed.

Lemma returns_running w es x b e : running (returns w es x b e) ≡ₚ ((w,.) <$> (enqueued es ++ resumed es)) ++ running e.
Proof. unfold running. rewrite returns_queued, returns_executing, fmap_app. solve_Permutation. Qed.

Lemma known_calls w es : Forall (known (known_queue names)) es -> Forall call_known (calls_of w es).
Proof.
  intros Hk. unfold calls_of. rewrite Forall_fmap. apply Forall_forall. intros c (e & He & Hc)%list_elem_of_omap.
  rewrite elem_of_reverse in He. rewrite Forall_forall in Hk. specialize (Hk e He).
  destruct e; try done; cbn in Hc; injection Hc as <-; cbn; try done. by apply bool_decide_eq_true in Hk.
Qed.

(** An operation of [w] takes the tasks [r] and [s] from those of [e], which
    leaves [e0], and returns. *)
Lemma returns_inv str e e0 w x x' es es' r s b :
  inv e -> instances e0 = instances e -> ending e0 = ending e ->
  ProcessManager.inv (processes e0) -> pool_ok (the_pool e0) -> name (the_pool e0) = name (the_pool e) ->
  scheduler_ok (retrier e0) -> calls e0 = calls e ->
  running e ≡ₚ ((w,.) <$> r) ++ running e0 -> retrying e ≡ₚ ((w,.) <$> s) ++ retrying e0 ->
  instances e !! w = Some x -> moves (known_queue names) str es (- len r) (- len s) x x' ->
  effects x' = es' ++ effects x -> b = ended x' ->
  w ∉ ending e -> w ∉ (starting e0).*1 ->
  (forall u, u <> w -> u ∈ (starting e0).*1 <-> u ∈ (starting e).*1) -> NoDup (starting e0).*1 ->
  small (returns w es' x' b e0) -> inv (returns w es' x' b e0).
Proof.
  intros [_ _ En _ Hc L] Ei Ee Hm Hp Hn Hr Ec ER ET Hw M Heff Hb Hen Hst Hst2 Hnd [B1 B2].
  rewrite (moves_effects _ _ _ _ _ _ _ _ M Heff) in *. clear Heff es'. rewrite ER, ET in L.
  pose proof (returns_running w es x' b e0) as R'. pose proof (returns_retrying w es x' b e0) as T'.
  rewrite (len_perm _ _ R') in B1. rewrite (len_perm _ _ T') in B2.
  pose proof (ledger_operation _ _ _ _ _ _ _ _ _ _ _ _ _ _ L Hw M Hen Hst Hst2 Hnd B1 B2) as L'.
  split; try done.
  - unfold the_pool in *. cbn in *. congruence.
  - cbn. rewrite Ec. apply Forall_app. split; [done|]. apply known_calls, M.
  - rewrite R', T'. cbn. rewrite Ei, Ee, Hb. exact L'.
Qed.

Lemma construct_inv e w o x :
  inv e -> instances e !! w = None -> running_tasks (wi x) = 0 -> retrying_tasks (wi x) = 0 ->
  inv (set_instances (<[w := x]> (instances e)) ((w, o) :: starting e) (ending e) e).
Proof. intros [? ? ? ? ? L] Hn Hr Ht. split; try done. by apply ledger_new. Qed.

Lemma delete_inv e s1 w s2 :
  inv e -> ending e = s1 ++ w :: s2 -> inv (set_instances (delete w (instances e)) (starting e) (s1 ++ s2) e).
Proof. intros [? ? ? ? ? L] E. rewrite E in L. split; try done. by apply ledger_delete. Qed.

Lemma abandon_inv e s1 w o s2 :
  inv e -> starting e = s1 ++ (w, o) :: s2 -> inv (set_instances (delete w (instances e)) (s1 ++ s2) (ending e) e).
Proof.
  intros [? ? ? ? ? L] E. rewrite E, fmap_app, fmap_cons in L. split; try done. cbn. rewrite fmap_app. by apply ledger_abandon.
Qed.

(** A change of an instance that leaves its counters alone. *)
Lemma change_inv e w x x' :
  inv e -> instances e !! w = Some x -> running_tasks (wi x') = running_tasks (wi x) ->
  retrying_tasks (wi x') = retrying_tasks (wi x) ->
  inv (set_instances (<[w := x']> (instances e)) (starting e) (ending e) e).
Proof. intros [? ? ? ? ? L] Hw Hr Ht. split; try done. by eapply ledger_same. Qed.

Lemma launch_accounts o x b x' : counters_ok x -> launch names format_time o x = Ok b x' ->
  b = ended x' /\ exists es, moves (known_queue names) false es 0 0 x x'.
Proof.
  intros Hc E. destruct o; cbn in E.
  - split; [by eapply Start_over|]. eapply accounts_ok_of; [apply accounts_weaken, accounts_Start|exact Hc|reflexivity|exact E].
  - split; [by eapply Resume_over|]. eapply accounts_ok_of; [apply accounts_Resume|exact Hc|reflexivity|exact E].
Qed.

Lemma system_start_inv e s1 w o s2 x x' b es :
  inv e -> starting e = s1 ++ (w, o) :: s2 -> instances e !! w = Some x ->
  launch names format_time o x = Ok b x' -> effects x' = es ++ effects x ->
  small (returns w es x' b (set_instances (instances e) (s1 ++ s2) (ending e) e)) ->
  inv (returns w es x' b (set_instances (instances e) (s1 ++ s2) (ending e) e)).
Proof.
  intros I Es Hw E Heff Hs. pose proof (e_ledger _ I) as L. pose proof (ledger_counters _ _ _ _ _ _ _ L Hw) as Hc.
  destruct (launch_accounts _ _ _ _ Hc E) as [Hb [es' M]].
  assert (w ∈ (starting e).*1) as Hin by (rewrite Es, fmap_app; set_solver).
  pose proof (l_st _ _ _ _ _ L) as Hnd. rewrite Es, fmap_app, fmap_cons, <- Permutation_middle, <- fmap_app in Hnd.
  apply NoDup_cons in Hnd as [Hne Hnd].
  eapply (returns_inv false e _ w x x' es' es [] []); try done; try apply I.
  - intros (_ & Hx & _)%(l_ending _ _ _ _ _ L). done.
  - intros u Hu. cbn. rewrite Es, !fmap_app. cbn. set_solver.
Qed.

Lemma stop_inv e w t retcode output x b x' es :
  inv e -> stopping e = Some ((w, t), (retcode, output)) -> instances e !! w = Some x ->
  TaskStop (known_queue names) GetTask format_time t retcode output x = Ok b x' -> effects x' = es ++ effects x ->
  small (returns w es x' b (set_stopping None e)) -> inv (returns w es x' b (set_stopping None e)).
Proof.
  intros I Es Hw E Heff Hs. pose proof (e_ledger _ I) as L. pose proof (ledger_counters _ _ _ _ _ _ _ L Hw) as Hc.
  destruct (accounts_TaskStop _ _ _ _ _ _ _ _ _ _ Hc eq_refl E) as [es' M].
  assert (R : running e ≡ₚ ((w,.) <$> [t]) ++ running (set_stopping None e)).
  { unfold running, executing. cbn. rewrite Es. cbn. unfold task_ref. solve_Permutation. }
  destruct (ledger_alive _ _ _ _ _ w t L) as (_ & Hst & Hen); [left; rewrite R; by left|].
  eapply (returns_inv true e _ w x x' es' es [t] []); try done; try apply I. by eapply TaskStop_over.
Qed.

Lemma restart_inv e r1 w t r2 x b x' es :
  inv e -> restarting e = r1 ++ (w, t) :: r2 -> instances e !! w = Some x ->
  TaskRestart (known_queue names) format_time t x = Ok b x' -> effects x' = es ++ effects x ->
  small (returns w es x' b (set_retrier (retrier e) (r1 ++ r2) e)) ->
  inv (returns w es x' b (set_retrier (retrier e) (r1 ++ r2) e)).
Proof.
  intros I Es Hw E Heff Hs. pose proof (e_ledger _ I) as L. pose proof (ledger_counters _ _ _ _ _ _ _ L Hw) as Hc.
  destruct (accounts_TaskRestart _ _ _ _ _ _ _ Hc eq_refl E) as [es' M].
  assert (T : retrying e ≡ₚ ((w,.) <$> [t]) ++ retrying (set_retrier (retrier e) (r1 ++ r2) e)).
  { unfold retrying. cbn. rewrite Es. unfold task_ref. solve_Permutation. }
  destruct (ledger_alive _ _ _ _ _ w t L) as (_ & Hst & Hen); [right; rewrite T; by left|].
  eapply (returns_inv true e _ w x x' es' es [] [t]); try done; try apply I. by eapply TaskRestart_over.
Qed.

(** The forker's task leaves the table of identifiers when it was not launched,
    and its hand in any case. *)
Lemma launched_processes e w t tid pid b a p' :
  inv e -> ProcessManager.pc (processes e) = Registered w t tid -> pid = -1 \/ 0 < pid ->
  Fork_launched w tid pid b (the_pool e) = Ret (a, p') ->
  let m := with_pool (InPool FReady) p' (processes e) in
  let m' := if pid >? 0
            then ProcessManager.mkSystem (manager m) (ProcessManager.pc m) p' (mkProcess pid tid w t :: ProcessManager.processes m)
                   (messages m) (gathering m)
            else m in
  ProcessManager.inv m' /\ pool_ok p' /\ name p' = name (the_pool e) /\
  queued e ≡ₚ (w, t) :: queued (set_processes m' e) /\
  executing (set_processes m' e) ≡ₚ (if pid >? 0 then [(w, t)] else []) ++ executing e.
Proof.
  intros I Epc Hpid E m m'. pose proof I as [Hm Hp _ _ _ _].
  assert (St : ProcessManager.step (GetInstanceID e) (processes e) m').
  { rewrite (processes_eta e) at 1. unfold with_pool, m', m. rewrite Epc. destruct Hpid as [->|Hpid].
    - by eapply ProcessManager.step_launch_fails.
    - assert (pid >? 0 = true) as -> by lia. by eapply ProcessManager.step_launch. }
  pose proof (manager_step_inv _ _ _ Hm St) as Hm'. split; [done|]. clear St.
  pose proof Hm as [Hi _ Ht _ _ _]. unfold entries in Ht. rewrite Epc in Ht. cbn in Ht.
  unfold Fork_launched in E. destruct Hpid as [->|Hpid].
  - change (-1 =? -1) with true in E. change (-1 >? 0) with false in *. cbv iota in *.
    destruct (tracks_remove _ _ _ _ _ Ht) as (p1 & E1 & _ & En). unfold the_pool in *. rewrite E1 in E. injection E as _ <-.
    destruct (TerminateTask_tasks _ _ _ _ Hp E1) as [Hp' P]. split_and!; try done.
    unfold queued, the_pool. cbn. rewrite P, Epc. cbn. unfold task_ref. solve_Permutation.
  - assert (pid >? 0 = true) as Hg by lia. unfold m', m. rewrite Hg. rewrite (proj2 (Z.eqb_neq pid (-1))) in E by lia.
    injection E as _ <-. split_and!; try done.
    + unfold queued, the_pool. cbn. rewrite Epc. cbn. unfold task_ref. solve_Permutation.
    + unfold executing, launched, the_pool. cbn. unfold task_ref. solve_Permutation.
Qed.

Lemma launch_inv e w t tid x fork pid b x' es a p' :
  inv e -> ProcessManager.pc (processes e) = Registered w t tid -> instances e !! w = Some x -> fork = -1 \/ 0 < fork ->
  TaskExecute GetTask format_time engine_env configuration t tid fork x = Ok (pid, b) x' ->
  effects x' = es ++ effects x -> Fork_launched w tid pid b (the_pool e) = Ret (a, p') ->
  let m := with_pool (InPool FReady) p' (processes e) in
  let m' := if pid >? 0
            then ProcessManager.mkSystem (manager m) (ProcessManager.pc m) p' (mkProcess pid tid w t :: ProcessManager.processes m)
                   (messages m) (gathering m)
            else m in
  small (returns w es x' b (set_processes m' e)) -> inv (returns w es x' b (set_processes m' e)).
Proof.
  intros I Epc Hw Hf E Heff El m m' Hs. pose proof (e_ledger _ I) as L. pose proof (ledger_counters _ _ _ _ _ _ _ L Hw) as Hc.
  assert (fork <> 0) as Hn by lia.
  destruct (TaskExecute_spec (known_queue names) _ _ _ _ _ _ _ _ _ _ _ Hc Hn E) as (Hb & Hpid & _ & es' & M).
  assert (pid = -1 \/ 0 < pid) as Hpid' by lia.
  destruct (launched_processes _ _ _ _ _ _ _ _ I Epc Hpid' El) as (Hm & Hp & En & RQ & RX). fold m m' in Hm, RQ, RX.
  assert (R : running e ≡ₚ ((w,.) <$> (if pid >? 0 then [] else [t])) ++ running (set_processes m' e)).
  { unfold running. rewrite RQ, RX. destruct (pid >? 0); cbn; unfold task_ref; solve_Permutation. }
  assert (the_pool (set_processes m' e) = p') as Ep by (unfold the_pool, m', m; cbn; by destruct (pid >? 0)).
  destruct (ledger_alive _ _ _ _ _ w t L) as (_ & Hst & Hen).
  { left. unfold running. rewrite RQ. by left. }
  eapply (returns_inv true e _ w x x' es' es (if pid >? 0 then [] else [t]) []); try done; try apply I; try (by rewrite Ep).
  - destruct (pid >? 0); exact M.
Qed.

Lemma system_step_inv e e' :
  inv e -> System.step names GetTask format_time engine_env configuration built e e' -> inv e'.
Proof.
  intros I St. destruct St; subst.
  - by apply construct_inv.
  - by eapply system_start_inv.
  - by eapply abandon_inv.
  - by eapply delete_inv.
  - by eapply enqueue_inv.
  - by eapply register_inv.
  - by eapply insert_inv.
  - by eapply dequeue_inv.
  - by eapply execute_step_inv.
  - by eapply launch_inv.
  - by eapply ends_inv.
  - by eapply gather_step_inv.
  - by eapply stop_inv.
  - by eapply due_inv.
  - by eapply flush_inv.
  - by eapply restart_inv.
  - match goal with E : Cancel _ = _ |- _ => injection E as <- end. by eapply change_inv.
  - match goal with E : RecordSavepoint _ ?x = _ |- _ => pose proof (keeps_record_savepoint format_time true x) as K;
      unfold RecordSavepoint in E; rewrite E in K end. destruct K. by eapply change_inv.
  - match goal with E : KillTask ?pid ?x = _ |- _ => pose proof (keeps_KillTask pid x) as K; rewrite E in K end.
    destruct K. by eapply change_inv.
  - by eapply cancel_tasks_inv.
  - by eapply shutdown_inv.
  - by eapply change_inv.
Qed.

(** ** Properties *)

(** An engine without instances, with its pool as the constructor makes it. *)
Record begins (new_Queue : string -> outcome Q) (pid_max : string) e : Prop := {
  b_instances : instances e = ∅;
  b_starting : starting e = [];
  b_ending : ending e = [];
  b_pool : QueuePool.start new_Queue names pid_max (the_pool e);
  b_queues : forall nm q, new_Queue nm = Ret q -> qi_ok q /\ qi_tasks q = [];
  b_processes : exists pm, manager_ok pm /\ processes e = initial pm (the_pool e);
  b_retrier : retrier e = Retrier_new;
  b_restarting : restarting e = [];
  b_stopping : stopping e = None;
  b_calls : calls e = [];
}.

Lemma new_queues_empty (new_Queue : string -> outcome Q) nms qs :
  (forall nm q, new_Queue nm = Ret q -> qi_ok q /\ qi_tasks q = []) ->
  new_queues new_Queue nms = Ret qs -> Forall qi_ok qs /\ qs ≫= qi_tasks = [].
Proof.
  intros Hn. revert qs. induction nms as [|nm nms IH]; intros qs E; cbn [new_queues] in E; [by inv_ret|].
  apply bind_Ret in E as (q & Eq & E). apply bind_Ret in E as (qs1 & E1 & E). injection E as <-.
  destruct (Hn _ _ Eq) as [O T], (IH _ E1) as [O1 T1]. split; [by constructor|]. by rewrite bind_cons, T, T1.
Qed.

Lemma system_begins_inv (new_Queue : string -> outcome Q) pid_max e : begins new_Queue pid_max e -> inv e.
Proof.
  intros [Ei Es Ee Sp Hq (pm & Hm & Ep) Er Ers Est Ec].
  assert (Hp : pool_ok (the_pool e) /\ pool_tasks (the_pool e) = [] /\ name (the_pool e) = names).
  { destruct Sp as [_ _ _ _ E]. unfold QueuePool_new in E. apply bind_Ret in E as (qs & Eq & E).
    destruct (new_queues_empty _ _ _ Hq Eq) as [O T]. injection E as <-. done. }
  destruct Hp as (Hp & Tp & En).
  assert (R : running e = []).
  { unfold running, queued, executing. rewrite Ec, Tp, Est, Ep. done. }
  assert (T : retrying e = []) by (unfold retrying; rewrite Ec, Er, Ers; done).
  split; try done.
  - rewrite Ep. split; cbn; try done; [by eapply QueuePool.start_inv|by eapply start_tracks].
  - rewrite Er. split; cbn; try done. constructor.
  - rewrite Ec. constructor.
  - rewrite R, T, Ei, Es, Ee. split; try done; try (by constructor).
    + by intros w ?%not_elem_of_nil.
    + intros w. rewrite lookup_empty. split; [by intros ?%not_elem_of_nil|]. by intros [[] _].
Qed.

Lemma system_inv new_Queue pid_max e0 e :
  begins new_Queue pid_max e0 -> rtc (System.step names GetTask format_time engine_env configuration built) e0 e -> inv e.
Proof. intros B R. apply system_begins_inv in B. induction R; eauto using system_step_inv. Qed.

End invariant.
