(* ===== verification/SystemProperties.v ===== *)
(** The properties of the engine at work, and a run of it. *)

From S2P Require Import Prelude CString QueueIface Queue QueueTasks QueuePool ProcessManager PoolTasks Configuration Dom TreeDom Task.
From S2P Require Import Scheduler Retrier WorkflowInstance WorkflowExamples WorkflowProgress JobOrder System SystemSafety.

Open Scope Z_scope.

Section properties.
Context {D : Type} `{Dom D} {Q : Type} `{QueueLaws Q, !QueueTasks Q, !QueueTasksLaws Q}.
Context (names : list string) (GetTask : string -> option Task) (format_time : Z -> string).
Context (engine_env : string -> option string) (configuration : Configuration.Configuration).
Context (built : origin -> world (D := D) -> Prop).

(** C3: In every state of the whole engine that is reached without a fault
    (no task put in a queue whose tail is wrong after a cancellation, an
    identifier free when the forker asks for one, resumed tasks in known
    queues with nonzero free identifiers) and with fewer than 2^32 tasks
    running or waiting for a retry: running_tasks of an instance is the
    number of its tasks that are on their way to a queue, queued, in the
    hand of the forker or of the gatherer, or registered with an identifier,
    retrying_tasks the number that the retrier holds, and a started instance
    is about to be deleted exactly when both are zero. *)
Theorem engine_accounting new_Queue pid_max e0 e :
  begins names new_Queue pid_max e0 -> System.run names GetTask format_time engine_env configuration built e0 false e ->
  forall w x, instances e !! w = Some x ->
    running_tasks (wi x) = tasks_of w (running e) /\
    retrying_tasks (wi x) = tasks_of w (retrying e) /\
    (w ∈ ending e <-> w ∉ (starting e).*1 /\ running_tasks (wi x) = 0 /\ retrying_tasks (wi x) = 0).
Proof.
  intros B R%run_faultless w x Hw. pose proof (e_ledger _ _ (system_inv _ _ _ _ _ _ _ _ _ _ B R)) as L.
  rewrite (l_running _ _ _ _ _ L _ _ Hw), (l_retrying _ _ _ _ _ L _ _ Hw).
  split; [done|]. split; [done|]. rewrite (l_ending _ _ _ _ _ L), Hw. naive_solver.
Qed.

(** C2: Whatever the workflow instances, the forker, the processes, the
    gatherer, the retrier, cancellations and a shutdown do in any order, as
    long as no fault happens (a task put in a queue whose tail is wrong
    after a cancellation, a forker that finds no free identifier, a resumed
    task in an unknown queue or whose identifier is 0 or taken) and fewer
    than 2^32 tasks are running or wait for a retry: a task that any
    component holds, in a call under way, a queue, the table of identifiers,
    a process, a message or the retrier, belongs to an instance that is
    allocated, started and not about to be deleted, and no instance is
    deleted twice. *)
Theorem engine_memory_safe new_Queue pid_max e0 e :
  begins names new_Queue pid_max e0 -> System.run names GetTask format_time engine_env configuration built e0 false e ->
  (forall w t, (w, t) ∈ running e ++ retrying e -> is_Some (instances e !! w) /\ w ∉ (starting e).*1 /\ w ∉ ending e) /\
  (forall w, w ∈ (starting e).*1 ++ ending e -> is_Some (instances e !! w)) /\
  NoDup ((starting e).*1 ++ ending e).
Proof.
  intros B R%run_faultless. pose proof (e_ledger _ _ (system_inv _ _ _ _ _ _ _ _ _ _ B R)) as L. split; [|split].
  - intros w t Hin%elem_of_app. by eapply ledger_alive.
  - intros w [Hs|He]%elem_of_app; [by apply (l_starting _ _ _ _ _ L)|by apply (l_ending _ _ _ _ _ L)].
  - apply NoDup_app. split; [apply L|]. split; [|apply L]. intros w Hs He. by apply (l_ending _ _ _ _ _ L) in He as (_ & ? & _).
Qed.
End properties.

(** * Running the engine *)

(** The steps of a run where the calls are carried out at once and in order. *)
Inductive action : Type :=
  | AStart (w : wi_ref)
  | ACall
  | ADequeue
  | AExecute (free : Z)
  | ALaunch (fork : Z)
  | AEnd (retcode : Z)
  | AGather (log : string)
  | AStop
  | ADue (now : Z)
  | ARestart
  | ACancel (w : wi_ref)
  | ADelete.

Section run.
Context {D : Type} `{Dom D} {Q : Type} `{QueueTasks Q}.
Context (names : list string) (GetTask : string -> option Task) (format_time : Z -> string).
Context (engine_env : string -> option string) (configuration : Configuration.Configuration).
Implicit Types (e : System.system (D := D) (Q := Q)).

Definition check_small e : option (System.system (D := D) (Q := Q)) :=
  if (len (System.running e) <? 2 ^ 32) && (len (System.retrying e) <? 2 ^ 32) then Some e else None.

Definition result_of {A} (r : result (D := D) A) : option (A * world (D := D)) :=
  match r with Ok a w => Some (a, w) | _ => None end.

Definition ret_of {A} (r : outcome A) : option A := match r with Ret a => Some a | _ => None end.

Definition operate (w : wi_ref) (m : world (D := D) -> option (bool * world (D := D))) e (e0 : System.system (D := D) (Q := Q))
    : option (System.system (D := D) (Q := Q)) :=
  x ← instances e !! w;
  '(b, x') ← m x;
  check_small (returns w (new_effects x x') x' b e0).

Definition call_step e : option (System.system (D := D) (Q := Q)) :=
  match calls e with
  | (w, CallEnqueueTask nm t) :: c2 =>
      if forallb (fun q => qi_GetSize q + 1 <? 2 ^ 32) (queue (the_pool e)) && pool_accepts nm (the_pool e) then
        '(_, p') ← ret_of (QueuePool.EnqueueTask nm w t (the_pool e));
        Some (set_calls c2 (set_processes (with_pool (ProcessManager.pc (processes e)) p' (processes e)) e))
      else None
  | (w, CallInsertTask t at_) :: c2 =>
      if Z.of_nat (List.length (first_event (retrier e))) + 1 <? 2 ^ 32 then
        Some (set_calls c2 (set_retrier (Retrier.InsertTask w t at_ (retrier e)).2 (restarting e) e))
      else None
  | _ => None
  end.

Definition launch_step (fork : Z) e : option (System.system (D := D) (Q := Q)) :=
  match ProcessManager.pc (processes e) with
  | Registered w t tid =>
      x ← instances e !! w;
      '(pid, b, x') ← result_of (TaskExecute GetTask format_time engine_env configuration t tid fork x);
      '(_, p') ← ret_of (Fork_launched w tid pid b (the_pool e));
      let m := with_pool (InPool FReady) p' (processes e) in
      let m' := if pid >? 0
                then ProcessManager.mkSystem (manager m) (ProcessManager.pc m) p' (mkProcess pid tid w t :: ProcessManager.processes m)
                       (messages m) (gathering m)
                else m in
      if (fork =? -1) || (0 <? fork) then check_small (returns w (new_effects x x') x' b (set_processes m' e)) else None
  | _ => None
  end.

Definition act (a : action) e : option (System.system (D := D) (Q := Q)) :=
  match a with
  | AStart w =>
      match starting e with
      | (u, o) :: s =>
          if bool_decide (u = w)
          then operate w (fun x => result_of (launch names format_time o x)) e (set_instances (instances e) s (ending e) e)
          else None
      | [] => None
      end
  | ACall => call_step e
  | ADequeue =>
      match ProcessManager.pc (processes e), ret_of (DequeueTask (the_pool e)) with
      | InPool FReady, Some (Returned r p') => Some (set_processes (with_pool (InPool (forker_after r)) p' (processes e)) e)
      | _, _ => None
      end
  | AExecute free =>
      match ProcessManager.pc (processes e), tid_workflow_instance (the_pool e) !! Z.to_nat free with
      | InPool (FGot nm w t), Some None =>
          if (0 <=? free) && (free <? maxpid (the_pool e)) then
            '(tid, p') ← ret_of (QueuePool.ExecuteTask w t nm 0 (the_pool e));
            Some (set_processes (with_pool (Registered w t tid) p' (processes e)) e)
          else None
      | _, _ => None
      end
  | ALaunch fork => launch_step fork e
  | AEnd retcode =>
      match ProcessManager.processes (processes e) with
      | x :: l => Some (set_processes (ProcessManager.mkSystem (manager (processes e)) (ProcessManager.pc (processes e)) (the_pool e) l
                          (messages (processes e) ++ [Ended x retcode]) (gathering (processes e))) e)
      | [] => None
      end
  | AGather log =>
      match messages (processes e), gathering (processes e), stopping e with
      | x :: q, true, None =>
          '(a, k, p') ← ret_of (Gather (manager (processes e)) (fun _ => Some log) false (message_buf x) (the_pool e));
          Some (set_stopping (stop_of a)
            (set_processes (ProcessManager.mkSystem (manager (processes e)) (ProcessManager.pc (processes e)) p'
               (ProcessManager.processes (processes e)) q k) e))
      | _, _, _ => None
      end
  | AStop =>
      match stopping e with
      | Some ((w, t), (retcode, output)) =>
          operate w (fun x => result_of (TaskStop (known_queue names) GetTask format_time t retcode output x)) e (set_stopping None e)
      | None => None
      end
  | ADue now =>
      match shift_event now (retrier e) with
      | (Some ev, r') => Some (set_retrier r' (data ev :: restarting e) e)
      | _ => None
      end
  | ARestart =>
      match restarting e with
      | (w, t) :: r =>
          operate w (fun x => result_of (TaskRestart (known_queue names) format_time t x)) e (set_retrier (retrier e) r e)
      | [] => None
      end
  | ACancel w =>
      x ← instances e !! w;
      '(_, x') ← result_of (Cancel x);
      Some (set_instances (<[w := x']> (instances e)) (starting e) (ending e) e)
  | ADelete =>
      match ending e with
      | w :: s => Some (set_instances (delete w (instances e)) (starting e) s e)
      | [] => None
      end
  end.

Fixpoint acts (l : list action) e : option (System.system (D := D) (Q := Q)) :=
  match l with
  | [] => Some e
  | a :: l => e ← act a e; acts l e
  end.
End run.

Section sound.
Context {D : Type} `{Dom D} {Q : Type} `{QueueLaws Q, !QueueTasks Q, !QueueTasksLaws Q}.
Context (names : list string) (GetTask : string -> option Task) (format_time : Z -> string).
Context (engine_env : string -> option string) (configuration : Configuration.Configuration).
Context (built : origin -> world (D := D) -> Prop).
Implicit Types (e : System.system (D := D) (Q := Q)).
Abbreviation system_step := (System.step names GetTask format_time engine_env configuration built).

Lemma check_small_Some e e' : check_small e = Some e' -> e' = e /\ small e.
Proof.
  unfold check_small, small. destruct (Z.ltb_spec (len (System.running e)) (2 ^ 32)), (Z.ltb_spec (len (System.retrying e)) (2 ^ 32));
    cbn; try done. by intros [= <-].
Qed.

Lemma result_of_Some {A} (r : result (D := D) A) a w : result_of r = Some (a, w) -> r = Ok a w.
Proof. destruct r; try done. by intros [= <- <-]. Qed.

Lemma ret_of_Some {A} (r : outcome A) a : ret_of r = Some a -> r = Ret a.
Proof. destruct r; try done. by intros [= <-]. Qed.

(** An operation that accounts for its calls. *)
Lemma operate_Some st a b w m e e0 e' :
  inv names e -> (forall x : world (D := D), accounts_ok (known_queue names) st (is_cancelling (wi x)) a b m) ->
  operate w (fun x => result_of (m x)) e e0 = Some e' ->
  exists x t x', instances e !! w = Some x /\ m x = Ok t x' /\ effects x' = new_effects x x' ++ effects x /\
    e' = returns w (new_effects x x') x' t e0 /\ small e'.
Proof.
  intros I Ha E. unfold operate in E. destruct (instances e !! w) as [x|] eqn:Hw; [|done]. cbn in E.
  destruct (result_of (m x)) as [[t x']|] eqn:Em; [|done]. cbn in E. apply result_of_Some in Em.
  apply check_small_Some in E as [-> Hs]. pose proof (ledger_counters _ _ _ _ _ _ _ (e_ledger _ _ I) Hw) as Hc.
  destruct (Ha x _ _ _ Hc eq_refl Em) as [es M]. exists x, t, x'. split_and!; try done. by eapply new_effects_eq.
Qed.

Lemma call_step_sound e e' : call_step e = Some e' -> system_step e e'.
Proof.
  unfold call_step. intros E. destruct (calls e) as [|[w [nm t|nm t tid|t at_]] c2] eqn:Ec; try done.
  - destruct (forallb _ _) eqn:F; [|done]. destruct (pool_accepts _ _) eqn:A; [|done]. cbn in E.
    destruct (ret_of _) as [[r p']|] eqn:R; [|done]. apply ret_of_Some in R. cbn in E. injection E as <-.
    eapply (step_enqueue _ _ _ _ _ _ e [] w nm t c2); [done|apply not_elem_of_nil| |done|exact R].
    apply Forall_forall. intros q Hq. rewrite forallb_forall in F. specialize (F q). rewrite Z.ltb_lt in F. by apply F, list_elem_of_In.
  - destruct (Z.ltb_spec (Z.of_nat (List.length (first_event (retrier e))) + 1) (2 ^ 32)); [|done]. injection E as <-.
    eapply (step_insert _ _ _ _ _ _ e [] w t at_ c2); [done|apply not_elem_of_nil|done|].
    apply surjective_pairing.
Qed.

Lemma launch_step_sound fork e e' :
  inv names e -> launch_step GetTask format_time engine_env configuration fork e = Some e' -> system_step e e'.
Proof.
  unfold launch_step. intros I E. destruct (ProcessManager.pc (processes e)) as [|w t tid] eqn:Epc; [done|].
  destruct (instances e !! w) as [x|] eqn:Hw; [|done]. cbn in E.
  destruct (result_of _) as [[[pid b] x']|] eqn:Em; [|done]. cbn in E. apply result_of_Some in Em.
  destruct (ret_of _) as [[a p']|] eqn:R; [|done]. cbn in E. apply ret_of_Some in R.
  destruct ((fork =? -1) || (0 <? fork)) eqn:F; [|done]. apply check_small_Some in E as [-> Hs].
  pose proof (ledger_counters _ _ _ _ _ _ _ (e_ledger _ _ I) Hw) as Hc. assert (fork <> 0) as Hn by lia.
  destruct (TaskExecute_spec (known_queue names) _ _ _ _ _ _ _ _ _ _ _ Hc Hn Em) as (_ & _ & _ & es & M).
  eapply step_launch; [exact Epc|exact Hw| |exact Em| |exact R|exact Hs]; [lia|by eapply new_effects_eq].
Qed.

Lemma act_sound a e e' :
  inv names e -> act names GetTask format_time engine_env configuration a e = Some e' -> system_step e e'.
Proof.
  intros I E. destruct a as [w| | |free|fork|retcode|log| |now| |w|]; cbn [act] in E.
  - destruct (starting e) as [|[u o] s] eqn:Es; [done|]. case_bool_decide; [subst u|done].
    eapply (operate_Some false) in E as (x & b & x' & Hw & Em & Heff & -> & Hs); [|exact I|intros; destruct o].
    + by eapply (step_start _ _ _ _ _ _ e [] w o s); eauto.
    + apply accounts_ok_of, accounts_weaken, accounts_Start.
    + apply accounts_ok_of, accounts_Resume.
  - by apply call_step_sound.
  - destruct (ProcessManager.pc (processes e)) as [[]|] eqn:Epc; try done.
    destruct (ret_of _) as [[r p'|]|] eqn:R; try done. apply ret_of_Some in R. injection E as <-.
    eapply step_dequeue; [exact Epc|by apply forker_returns].
  - destruct (ProcessManager.pc (processes e)) as [[]|] eqn:Epc; try done.
    destruct (_ !! Z.to_nat free) as [[]|] eqn:Hf; try done. destruct (_ && _) eqn:B; [|done].
    destruct (ret_of _) as [[tid p']|] eqn:R; [|done]. apply ret_of_Some in R. injection E as <-.
    eapply (System.step_execute _ _ _ _ _ _ e _ _ _ free); [exact Epc|split; [lia|exact Hf]|exact R].
  - by apply launch_step_sound in E.
  - destruct (ProcessManager.processes (processes e)) as [|x l] eqn:El; [done|]. injection E as <-. by apply (System.step_ends _ _ _ _ _ _ e []).
  - destruct (messages (processes e)) as [|x q] eqn:Eq; [done|]. destruct (gathering (processes e)) eqn:Eg; [|done].
    destruct (stopping e) eqn:Es; [done|]. destruct (ret_of _) as [[[a k] p']|] eqn:R; [|done]. apply ret_of_Some in R.
    injection E as <-. by eapply System.step_gather.
  - destruct (stopping e) as [[[w t] [retcode output]]|] eqn:Es; [|done].
    eapply (operate_Some true) in E as (x & b & x' & Hw & Em & Heff & -> & Hs); [|exact I|intros; apply accounts_TaskStop].
    by eapply step_stop.
  - destruct (shift_event _ _) as [[ev|] r'] eqn:S; [|done]. injection E as <-. by eapply step_due.
  - destruct (restarting e) as [|[w t] r] eqn:Es; [done|].
    eapply (operate_Some true) in E as (x & b & x' & Hw & Em & Heff & -> & Hs); [|exact I|intros; apply accounts_TaskRestart].
    by eapply (step_restart _ _ _ _ _ _ e [] w t r).
  - destruct (instances e !! w) as [x|] eqn:Hw; [|done]. cbn in E. destruct (result_of (Cancel x)) as [[[] x']|] eqn:R; [|done].
    apply result_of_Some in R. injection E as <-. by eapply step_cancel.
  - destruct (ending e) as [|w s] eqn:Es; [done|]. injection E as <-. by apply (step_delete _ _ _ _ _ _ e []).
Qed.

Lemma acts_sound l e e' :
  inv names e -> acts names GetTask format_time engine_env configuration l e = Some e' -> rtc system_step e e'.
Proof.
  revert e. induction l as [|a l IH]; intros e I E; cbn [acts] in E; [injection E as <-; apply rtc_refl|].
  destruct (act _ _ _ _ _ a e) as [e1|] eqn:Ea; [|done]. pose proof (act_sound _ _ _ I Ea) as S.
  eapply rtc_l; [exact S|]. apply IH; [by eapply system_step_inv|exact E].
Qed.
End sound.

(** * A run *)

(** One queue, two tasks at a time, and three identifiers. *)
Definition ex_queue (nm : string) : outcome Queue.Queue := Queue_new (fun _ => Some (1, 2)) nm.

Definition ex_pool : QueuePool Queue.Queue :=
  Eval vm_compute in
    match QueuePool_new ex_queue ["default"%string] (Some "3"%string) with
    | Ret p => p
    | _ => mkQueuePool [] [] [] [] [] 0 0 false false false false
    end.

Definition ex_engine : System.system (D := doc) (Q := Queue.Queue) :=
  System.mkSystem ∅ [] [] (initial ex_manager ex_pool) Retrier_new [] None [].

(** The workflow of [WorkflowExamples] is constructed at address 1. *)
Definition ex_constructed : System.system (D := doc) (Q := Queue.Queue) :=
  set_instances (<[1%positive := ex_world ex_workflow]> ∅) [(1%positive, New)] [] ex_engine.

(** The documents that instances are made from. *)
Definition ex_built (o : origin) (x : world (D := doc)) : Prop :=
  x = ex_world (match o with New => ex_workflow | Resumed => ex_savepoint end).

Definition ex_system_step : System.system (D := doc) (Q := Queue.Queue) -> System.system -> Prop :=
  System.step ["default"%string] ex_GetTask ex_format_time ex_env Configuration_new ex_built.
Definition ex_run (l : list action) : System.system (D := doc) (Q := Queue.Queue) :=
  default ex_constructed (acts ["default"%string] ex_GetTask ex_format_time ex_env Configuration_new l ex_constructed).

(** Both tasks run; the second one fails, and its retry is due. *)
Definition ex_first : list action :=
  [AStart 1; ACall; ACall; ADequeue; AExecute 1; ALaunch 501; ADequeue; AExecute 2; ALaunch 502;
   AEnd 3; AGather "oops"; AStop; ACall; ADue 2000]%positive%string.

(** The first task ends, the second one ends at its second try, and so does the
    task of the job below. *)
Definition ex_rest : list action :=
  [AEnd 0; AGather "<list><x/><x/></list>"; AStop; ARestart; ACall; ADequeue; AExecute 0; ALaunch 503;
   AEnd 0; AGather "fine"; AStop; ACall; ADequeue; AExecute 0; ALaunch 504; AEnd 0; AGather "done"; AStop]%positive%string.

Lemma ex_system_begins : begins ["default"%string] ex_queue "3" ex_engine.
Proof.
  split; try done.
  - split; try done; [by intros [|i] [|j] a b Hij Ha Hb; simplify_eq/=; lia|].
    intros nm q. unfold ex_queue, Queue_new. case_match; [done|]. by intros [= <-].
  - intros nm q. unfold ex_queue, Queue_new. case_match; [done|]. intros [= <-]. split; [|done].
    exists [], []. split; cbn; try done; [constructor|]. intros l Hl. rewrite lookup_empty in Hl. by destruct Hl.
  - by exists ex_manager.
Qed.

Lemma ex_system_construct : ex_system_step ex_engine ex_constructed.
Proof. by apply (step_construct _ _ _ _ _ _ ex_engine 1 New (ex_world ex_workflow)). Qed.

Abbreviation ex_system_run_to :=
  (System.run ["default"%string] ex_GetTask ex_format_time ex_env Configuration_new ex_built ex_engine false).

Lemma ex_system_run l e :
  acts ["default"%string] ex_GetTask ex_format_time ex_env Configuration_new l ex_constructed = Some e ->
  ex_system_run_to e.
Proof.
  intros E. apply run_faultless. eapply rtc_l; [apply ex_system_construct|]. eapply acts_sound; [|exact E].
  eapply system_step_inv; [by eapply system_begins_inv, ex_system_begins|apply ex_system_construct].
Qed.

Lemma engine_accounting_witness :
  exists x, instances (ex_run ex_first) !! 1%positive = Some x /\
    running_tasks (wi x) = 1 /\ retrying_tasks (wi x) = 1 /\ 1%positive ∉ ending (ex_run ex_first).
Proof.
  assert (R : ex_system_run_to (ex_run ex_first)) by (apply (ex_system_run ex_first); vm_compute; reflexivity).
  destruct (is_some_check (instances (ex_run ex_first) !! 1%positive)) as [x E]; [vm_compute; reflexivity|].
  exists x. split; [exact E|].
  destruct (engine_accounting _ _ _ _ _ _ ex_queue "3" ex_engine (ex_run ex_first) ex_system_begins R 1 x E) as (H1 & H2 & H3).
  rewrite H1, H2 in *. clear R. split; [vm_compute; reflexivity|]. split; [vm_compute; reflexivity|].
  rewrite H3. intros (_ & Hz & _). vm_compute in Hz. discriminate Hz.
Defined.

Lemma engine_memory_safe_witness :
  ending (ex_run (ex_first ++ ex_rest)) = [1%positive] /\
  System.running (ex_run ex_first) = [(1%positive, ex_task 0)] /\
  is_Some (instances (ex_run (ex_first ++ ex_rest)) !! 1%positive) /\
  is_Some (instances (ex_run ex_first) !! 1%positive) /\ 1%positive ∉ ending (ex_run ex_first).
Proof.
  assert (R : ex_system_run_to (ex_run (ex_first ++ ex_rest)))
    by (apply (ex_system_run (ex_first ++ ex_rest)); vm_compute; reflexivity).
  assert (R1 : ex_system_run_to (ex_run ex_first)) by (apply (ex_system_run ex_first); vm_compute; reflexivity).
  assert (E : ending (ex_run (ex_first ++ ex_rest)) = [1%positive]) by (vm_compute; reflexivity).
  assert (E1 : System.running (ex_run ex_first) = [(1%positive, ex_task 0)]) by (vm_compute; reflexivity).
  split; [exact E|]. split; [exact E1|].
  destruct (engine_memory_safe _ _ _ _ _ _ ex_queue "3" ex_engine _ ex_system_begins R) as (_ & H & _).
  destruct (engine_memory_safe _ _ _ _ _ _ ex_queue "3" ex_engine _ ex_system_begins R1) as (H1 & _ & _).
  split; [apply H, elem_of_app; right; rewrite E; by left|].
  destruct (H1 1%positive (ex_task 0)) as (H2 & _ & H3); [apply elem_of_app; left; rewrite E1; by left|]. by split.
Defined.
