(* ===== verification/SystemRefinement.v ===== *)
(** Each instance of the engine behaves as an instance alone: whatever the pool,
    the forker, the processes, the gatherer, the retrier and the other instances
    do in between, what happens to it is a run of the system of
    [WorkflowProgress]; the theorems on such runs hold in the whole engine. *)

From S2P Require Import Prelude CString QueueIface Queue QueueTasks QueuePool ProcessManager PoolTasks Configuration Dom TreeDom Task.
From S2P Require Import Scheduler Retrier WorkflowInstance WorkflowExamples WorkflowShape TreeShape WorkflowProgress WorkflowOrder JobOrder.
From S2P Require Import System SystemSafety SystemProperties.

Open Scope Z_scope.

(** * The tasks of one instance *)

Definition own (w : wi_ref) (l : list task_ref) : list node_ref :=
  omap (fun x : task_ref => if bool_decide (x.1 = w) then Some x.2 else None) l.

Lemma own_app w a b : own w (a ++ b) = own w a ++ own w b.
Proof. apply omap_app. Qed.

#[export] Instance own_perm w : Proper (Permutation ==> Permutation) (own w).
Proof. intros a b E. by apply omap_Permutation. Qed.

Lemma own_cons w t l : own w ((w, t) :: l) = t :: own w l.
Proof. unfold own. cbn. by rewrite bool_decide_true. Qed.

Lemma own_same w (l : list node_ref) : own w ((w,.) <$> l) = l.
Proof. induction l as [|t l IH]; [done|]. rewrite fmap_cons, own_cons. by f_equal. Qed.

Lemma own_other w u (l : list node_ref) : u <> w -> own w ((u,.) <$> l) = [].
Proof.
  intros Hne. induction l as [|t l IH]; [done|]. rewrite fmap_cons. unfold own in *. cbn. by rewrite bool_decide_false.
Qed.

Lemma own_elem w t l : t ∈ own w l <-> (w, t) ∈ l.
Proof.
  unfold own. rewrite list_elem_of_omap. split.
  - intros ([u v] & Hin & E). case_bool_decide; simplify_eq/=. done.
  - intros Hin. exists (w, t). split; [done|]. by rewrite bool_decide_true.
Qed.

Lemma own_len w l : len (own w l) = tasks_of w l.
Proof.
  unfold tasks_of, count, len. f_equal. induction l as [|[u t] l IH]; [done|]. unfold own in *. cbn in *.
  case_bool_decide; cbn; lia.
Qed.

Lemma own_bound w l : len (own w l) <= len l.
Proof. rewrite own_len. apply tasks_of_bound. Qed.

Lemma own_none w l : tasks_of w l = 0 -> own w l = [].
Proof. rewrite <- own_len. unfold len. destruct (own w l); cbn; [done|lia]. Qed.

(** * The simulation *)

Section simulation.
Context {D : Type} `{Dom D} {Q : Type} `{QueueLaws Q, !QueueTasks Q, !QueueTasksLaws Q}.
Context (names : list string) (GetTask : string -> option Task) (format_time : Z -> string).
Context (engine_env : string -> option string) (configuration : Configuration.Configuration).
Context (built : origin -> world (D := D) -> Prop).
Implicit Types (e : System.system (D := D) (Q := Q)) (s : sys (D := D)).

Abbreviation system_step := (System.step names GetTask format_time engine_env configuration built).
Abbreviation workflow_step := (WorkflowProgress.step (known_queue names) GetTask format_time engine_env configuration).

(** What can happen to an instance between its constructor and its launch. *)
Inductive waits : world (D := D) -> world (D := D) -> Prop :=
  | waits_cancel x x' : Cancel x = Ok tt x' -> waits x x'
  | waits_savepoint x x' : RecordSavepoint format_time x = Ok tt x' -> waits x x'
  | waits_kill pid x b x' : KillTask pid x = Ok b x' -> waits x x'
  | waits_environment x db now : waits x (mkWorld (wi x) (effects x) db now).

Lemma waits_counters x x' :
  waits x x' -> running_tasks (wi x') = running_tasks (wi x) /\ retrying_tasks (wi x') = retrying_tasks (wi x).
Proof.
  intros [y y' E|y y' E|pid y b y' E|y db now]; [| | |done].
  - unfold Cancel, modify in E. by injection E as <-.
  - pose proof (keeps_record_savepoint format_time true y) as K. unfold RecordSavepoint in E. by rewrite E in K.
  - pose proof (keeps_KillTask pid y) as K. by rewrite E in K.
Qed.

(** [x] is what a constructor left and the clients have done to it since. *)
Definition pending (o : origin) (x : world (D := D)) : Prop :=
  exists x0, built o x0 /\ rtc waits x0 x /\ running_tasks (wi x) = 0 /\ retrying_tasks (wi x) = 0.

(** [s] is the state that the launch of a constructed instance leaves. *)
Definition launched_from (o : origin) s : Prop :=
  exists x b x' es, pending o x /\ launch names format_time o x = Ok b x' /\ effects x' = es ++ effects x /\
    s = give es x' [] [] [] b /\ fits s.

(** [s] is the instance [w] in the state [x], with the tasks that the others hold. *)
Record stands_for (w : wi_ref) (x : world (D := D)) e s : Prop := {
  sh_state : state s = x;
  sh_queued : WorkflowProgress.queued s ≡ₚ own w (System.queued e);
  sh_executing : WorkflowProgress.executing s ≡ₚ own w (System.executing e);
  sh_retrying : WorkflowProgress.retrying s ≡ₚ own w (System.retrying e);
}.

Record simulated e : Prop := {
  si_starting w o x : (w, o) ∈ starting e -> instances e !! w = Some x -> pending o x;
  si_started w x : instances e !! w = Some x -> w ∉ (starting e).*1 ->
    exists o s0 s, launched_from o s0 /\ rtc workflow_step s0 s /\ stands_for w x e s;
}.

Lemma launched_from_begins o s : launched_from o s -> WorkflowProgress.begins (known_queue names) format_time s.
Proof.
  intros (x & b & x' & es & (x0 & _ & _ & Hr & Ht) & E & He & -> & F). destruct o; cbn in E.
  - by eapply (begins_start _ _ x b x').
  - by eapply (begins_resume _ _ x b x').
Qed.

(** ** Steps of the others *)

Lemma shows_moved e e' w x s : moved e e' -> stands_for w x e s -> stands_for w x e' s.
Proof. intros [_ _ _ EQ EX ET] [Es Sq Sx Sr]. split; [done|..]; by rewrite ?EQ, ?EX, ?ET. Qed.

Lemma simulated_moved e e' : moved e e' -> simulated e -> simulated e'.
Proof.
  intros M [Si Sd]. pose proof M as [E1 E2 _ _ _ _]. split.
  - intros w o x. rewrite E1, E2. apply Si.
  - intros w x. rewrite E1, E2. intros Hw Hst. destruct (Sd w x Hw Hst) as (o & s0 & s & Hl & Hr & Hs).
    exists o, s0, s. split; [done|]. split; [done|]. by eapply shows_moved.
Qed.

(** ** Operations *)

(** The instances other than [u] do not see what [u] does. *)
Record elsewhere (u : wi_ref) e e' : Prop := {
  el_instances w : w <> u -> instances e' !! w = instances e !! w;
  el_starting w o : w <> u -> (w, o) ∈ starting e' -> (w, o) ∈ starting e;
  el_started w : w <> u -> w ∈ (starting e).*1 -> w ∈ (starting e').*1;
  el_queued w : w <> u -> own w (System.queued e') ≡ₚ own w (System.queued e);
  el_executing w : w <> u -> own w (System.executing e') ≡ₚ own w (System.executing e);
  el_retrying w : w <> u -> own w (System.retrying e') ≡ₚ own w (System.retrying e);
}.

Lemma simulated_elsewhere u e e' :
  simulated e -> elsewhere u e e' ->
  (forall o x, (u, o) ∈ starting e' -> instances e' !! u = Some x -> pending o x) ->
  (forall x, instances e' !! u = Some x -> u ∉ (starting e').*1 ->
     exists o s0 s, launched_from o s0 /\ rtc workflow_step s0 s /\ stands_for u x e' s) ->
  simulated e'.
Proof.
  intros [Si Sd] [E1 E2 E3 EQ EX ET] Hc Hs. split.
  - intros w o x Hst Hw. destruct (decide (w = u)) as [->|Hne]; [by apply Hc|]. rewrite E1 in Hw by done. eauto.
  - intros w x Hw Hst. destruct (decide (w = u)) as [->|Hne]; [by apply Hs|]. rewrite E1 in Hw by done.
    destruct (Sd w x Hw) as (o & s0 & s & Hl & Hr & [? ? ? ?]); [by intros ?%E3|].
    exists o, s0, s. split; [done|]. split; [done|]. split; [done|..]; by rewrite ?EQ, ?EX, ?ET.
Qed.

(** An operation of [u] takes the tasks [q], [x] and [r] from the three sides
    of [e] and adds [y] to the processes, which leaves [e0]. *)
Record takes (u : wi_ref) (q x y r : list node_ref) e e0 : Prop := {
  tk_instances : instances e0 = instances e;
  tk_starting w o : w <> u -> (w, o) ∈ starting e0 <-> (w, o) ∈ starting e;
  tk_queued : System.queued e ≡ₚ ((u,.) <$> q) ++ System.queued e0;
  tk_executing : ((u,.) <$> y) ++ System.executing e ≡ₚ ((u,.) <$> x) ++ System.executing e0;
  tk_retrying : System.retrying e ≡ₚ ((u,.) <$> r) ++ System.retrying e0;
}.

Lemma own_added u w l a b : w <> u -> a ≡ₚ ((u,.) <$> l) ++ b -> own w a ≡ₚ own w b.
Proof. intros Hne E. by rewrite E, own_app, own_other. Qed.

Lemma takes_elsewhere u q x y r e e0 es z b : takes u q x y r e e0 -> elsewhere u e (returns u es z b e0).
Proof.
  intros [Ei Es EQ EX ET]. split; intros w.
  - intros Hne. cbn. by rewrite lookup_insert_ne, Ei.
  - intros o Hne. by apply Es.
  - intros Hne (p & -> & Hp)%list_elem_of_fmap. apply list_elem_of_fmap. exists p. split; [done|]. destruct p. by apply Es.
  - intros Hne. rewrite (own_added u w _ _ _ Hne (returns_queued _ _ _ _ _)). by rewrite (own_added u w _ _ _ Hne EQ).
  - intros Hne. rewrite (own_added u w _ _ _ Hne (returns_executing _ _ _ _ _)).
    rewrite <- (own_added u w x _ _ Hne (reflexivity _)), <- EX. by rewrite own_app, own_other.
  - intros Hne. rewrite (own_added u w _ _ _ Hne (returns_retrying _ _ _ _ _)). by rewrite (own_added u w _ _ _ Hne ET).
Qed.

Lemma own_taken u l a b l' : own u a ≡ₚ l ++ l' -> a ≡ₚ ((u,.) <$> l) ++ b -> l' ≡ₚ own u b.
Proof. intros E1 E2. rewrite E2, own_app, own_same in E1. symmetry. by apply Permutation_app_inv_l in E1. Qed.

Lemma takes_shows u q x y r e e0 z s es z' b q' x' r' :
  takes u q x y r e e0 -> stands_for u z e s ->
  WorkflowProgress.queued s ≡ₚ q ++ q' -> y ++ WorkflowProgress.executing s ≡ₚ x ++ x' -> WorkflowProgress.retrying s ≡ₚ r ++ r' ->
  stands_for u z' (returns u es z' b e0) (give es z' q' x' r' b).
Proof.
  intros [_ _ EQ EX ET] [_ Sq Sx Sr] Hq Hx Hr.
  split; [done|..]; cbn [give WorkflowProgress.queued WorkflowProgress.executing WorkflowProgress.retrying].
  - rewrite returns_queued, own_app, own_same, Permutation_app_comm. apply Permutation_app_head. eapply own_taken; [|exact EQ]. by rewrite <- Sq.
  - rewrite returns_executing, own_app, own_same, Permutation_app_comm. apply Permutation_app_head.
    eapply own_taken; [|exact EX]. by rewrite own_app, own_same, <- Sx.
  - rewrite returns_retrying, own_app, own_same, Permutation_app_comm. apply Permutation_app_head. eapply own_taken; [|exact ET]. by rewrite <- Sr.
Qed.

Lemma shows_fits w x e s : stands_for w x e s -> small e -> fits s.
Proof.
  intros [_ Sq Sx Sr] [B1 B2]. split.
  - rewrite (len_perm _ _ Sq), (len_perm _ _ Sx), <- len_app, <- own_app. pose proof (own_bound w (running e)). unfold running in *. lia.
  - rewrite (len_perm _ _ Sr). pose proof (own_bound w (System.retrying e)). lia.
Qed.

(** An operation of [u] that is a step of the instance alone. *)
Lemma simulated_operation u q x y r e e0 es z z' b :
  simulated e -> takes u q x y r e e0 -> instances e !! u = Some z ->
  u ∉ (starting e).*1 -> u ∉ (starting e0).*1 ->
  let e' := returns u es z' b e0 in
  (forall s, stands_for u z e s -> exists s', workflow_step s s' /\ stands_for u z' e' s') ->
  simulated e'.
Proof.
  intros Si Tk Hu Hst Hst0 e' Hstep. eapply simulated_elsewhere; [done|by eapply takes_elsewhere|..].
  - intros o v Hin. destruct Hst0. apply list_elem_of_fmap. by exists (u, o).
  - intros v. unfold e'. cbn. rewrite lookup_insert_eq. intros [= <-] _.
    destruct (si_started _ Si u z Hu Hst) as (o & s0 & s & Hl & Hr & Hs). destruct (Hstep s Hs) as (s' & Hs' & Hsh).
    exists o, s0, s'. split; [done|]. split; [by eapply rtc_r|done].
Qed.

Lemma shows_member w t l m : l ≡ₚ own w m -> (w, t) ∈ m -> exists l1 l2, l = l1 ++ t :: l2.
Proof. intros E Hin. apply list_elem_of_split. by rewrite E, own_elem. Qed.

Lemma stop_simulated e w t retcode output x b x' es :
  inv names e -> simulated e -> stopping e = Some ((w, t), (retcode, output)) -> instances e !! w = Some x ->
  TaskStop (known_queue names) GetTask format_time t retcode output x = Ok b x' -> effects x' = es ++ effects x ->
  small (returns w es x' b (set_stopping None e)) -> simulated (returns w es x' b (set_stopping None e)).
Proof.
  intros I Si Es Hw E Heff Hs.
  assert (R : System.executing e ≡ₚ (w, t) :: System.executing (set_stopping None e)).
  { unfold System.executing. cbn. rewrite Es. cbn. unfold task_ref. solve_Permutation. }
  destruct (ledger_alive _ _ _ _ _ w t (e_ledger _ _ I)) as (_ & Hst & _); [left; unfold running; rewrite R; set_solver|].
  assert (Tk : takes w [] [t] [] [] e (set_stopping None e)) by (by split).
  eapply simulated_operation; try done. intros s Hsh. pose proof Hsh as [S1 _ S3 _].
  destruct (shows_member w t _ _ S3) as (x1 & x2 & Ex); [rewrite R; by left|].
  assert (stands_for w x' (returns w es x' b (set_stopping None e))
            (give es x' (WorkflowProgress.queued s) (x1 ++ x2) (WorkflowProgress.retrying s) b)) as Hsh'.
  { eapply takes_shows; try done. cbn. rewrite Ex. solve_Permutation. }
  eexists. split; [|exact Hsh']. apply step_work. eapply work_stop; [exact Ex|by rewrite S1|by rewrite S1|by eapply shows_fits].
Qed.

Lemma restart_simulated e r1 w t r2 x b x' es :
  inv names e -> simulated e -> restarting e = r1 ++ (w, t) :: r2 -> instances e !! w = Some x ->
  TaskRestart (known_queue names) format_time t x = Ok b x' -> effects x' = es ++ effects x ->
  small (returns w es x' b (set_retrier (retrier e) (r1 ++ r2) e)) ->
  simulated (returns w es x' b (set_retrier (retrier e) (r1 ++ r2) e)).
Proof.
  intros I Si Es Hw E Heff Hs.
  assert (R : System.retrying e ≡ₚ (w, t) :: System.retrying (set_retrier (retrier e) (r1 ++ r2) e)).
  { unfold System.retrying. cbn. rewrite Es. unfold task_ref. solve_Permutation. }
  destruct (ledger_alive _ _ _ _ _ w t (e_ledger _ _ I)) as (_ & Hst & _); [right; rewrite R; by left|].
  assert (Tk : takes w [] [] [] [t] e (set_retrier (retrier e) (r1 ++ r2) e)) by (by split).
  eapply simulated_operation; try done. intros s Hsh. pose proof Hsh as [S1 _ _ S4].
  destruct (shows_member w t _ _ S4) as (l1 & l2 & El); [rewrite R; by left|].
  assert (stands_for w x' (returns w es x' b (set_retrier (retrier e) (r1 ++ r2) e))
            (give es x' (WorkflowProgress.queued s) (WorkflowProgress.executing s) (l1 ++ l2) b)) as Hsh'.
  { eapply takes_shows; try done. cbn. rewrite El. solve_Permutation. }
  eexists. split; [|exact Hsh']. apply step_work. eapply work_restart; [exact El|by rewrite S1|by rewrite S1|by eapply shows_fits].
Qed.

Lemma launch_simulated e w t tid x fork pid b x' es a p' :
  inv names e -> simulated e -> ProcessManager.pc (processes e) = Registered w t tid -> instances e !! w = Some x ->
  fork = -1 \/ 0 < fork ->
  TaskExecute GetTask format_time engine_env configuration t tid fork x = Ok (pid, b) x' ->
  effects x' = es ++ effects x -> Fork_launched w tid pid b (the_pool e) = Ret (a, p') ->
  let m := with_pool (InPool FReady) p' (processes e) in
  let m' := if pid >? 0
            then ProcessManager.mkSystem (manager m) (ProcessManager.pc m) p' (mkProcess pid tid w t :: ProcessManager.processes m)
                   (messages m) (gathering m)
            else m in
  small (returns w es x' b (set_processes m' e)) -> simulated (returns w es x' b (set_processes m' e)).
Proof.
  intros I Si Epc Hw Hf E Heff El m m' Hs. pose proof (ledger_counters _ _ _ _ _ _ _ (e_ledger _ _ I) Hw) as Hc.
  assert (fork <> 0) as Hn by lia.
  destruct (TaskExecute_spec (known_queue names) _ _ _ _ _ _ _ _ _ _ _ Hc Hn E) as (_ & Hpid & _).
  assert (pid = -1 \/ 0 < pid) as Hpid' by lia.
  destruct (launched_processes _ _ _ _ _ _ _ _ _ I Epc Hpid' El) as (_ & _ & _ & RQ & RX). fold m m' in RQ, RX.
  destruct (ledger_alive _ _ _ _ _ w t (e_ledger _ _ I)) as (_ & Hst & _); [left; unfold running; rewrite RQ; by left|].
  assert (Tk : takes w [t] [] (if pid >? 0 then [t] else []) [] e (set_processes m' e)).
  { split; try done. rewrite RX. by destruct (pid >? 0). }
  eapply simulated_operation; try done. intros s Hsh. pose proof Hsh as [S1 S2 _ _].
  destruct (shows_member w t _ _ S2) as (q1 & q2 & Eq); [rewrite RQ; by left|].
  assert (stands_for w x' (returns w es x' b (set_processes m' e)) (give es x' (q1 ++ q2)
            (if pid >? 0 then t :: WorkflowProgress.executing s else WorkflowProgress.executing s)
            (WorkflowProgress.retrying s) b)) as Hsh'.
  { eapply takes_shows; try done; [rewrite Eq; solve_Permutation|by destruct (pid >? 0)]. }
  eexists. split; [|exact Hsh']. apply step_work.
  eapply work_execute; [exact Eq|exact Hn|by rewrite S1|by rewrite S1|by eapply shows_fits].
Qed.

Lemma start_simulated e c1 w o c2 x x' b es :
  inv names e -> simulated e -> starting e = c1 ++ (w, o) :: c2 -> instances e !! w = Some x ->
  launch names format_time o x = Ok b x' -> effects x' = es ++ effects x ->
  let e' := returns w es x' b (set_instances (instances e) (c1 ++ c2) (ending e) e) in
  small e' -> simulated e'.
Proof.
  intros I Si Es Hw E Heff e' Hs. pose proof (e_ledger _ _ I) as L.
  assert ((w, o) ∈ starting e) as Hin by (rewrite Es; set_solver).
  pose proof (si_starting _ Si _ _ _ Hin Hw) as Hc.
  pose proof (l_st _ _ _ _ _ L) as Hnd. rewrite Es, fmap_app, fmap_cons, <- Permutation_middle, <- fmap_app in Hnd.
  apply NoDup_cons in Hnd as [Hne _].
  destruct (l_starting _ _ _ _ _ L w) as (_ & R0 & T0); [rewrite Es, fmap_app; set_solver|].
  unfold running in R0. rewrite tasks_of_app in R0.
  pose proof (tasks_of_bound w (System.queued e)). pose proof (tasks_of_bound w (System.executing e)).
  assert (Tk : takes w [] [] [] [] e (set_instances (instances e) (c1 ++ c2) (ending e) e)).
  { split; try done. intros u o' Hu. rewrite Es. cbn. set_solver. }
  eapply simulated_elsewhere; [exact Si|by eapply takes_elsewhere|..].
  - intros o' v Hin'. destruct Hne. apply list_elem_of_fmap. by exists (w, o').
  - intros v. unfold e'. cbn. rewrite lookup_insert_eq. intros [= <-] _.
    assert (stands_for w x' e' (give es x' [] [] [] b)) as Hsh.
    { apply (takes_shows w [] [] [] [] _ _ x (mkSys x [] [] [] b) es x' b [] [] [] Tk); try done.
      split; cbn; [done|..]; rewrite own_none by lia; done. }
    exists o, (give es x' [] [] [] b), (give es x' [] [] [] b). split; [|split; [apply rtc_refl|exact Hsh]].
    exists x, b, x', es. split_and!; try done. by eapply shows_fits.
Qed.

(** ** Changes of the set of instances *)

Lemma construct_simulated e w o x :
  simulated e -> w ∉ (starting e).*1 ->
  built o x -> running_tasks (wi x) = 0 -> retrying_tasks (wi x) = 0 ->
  simulated (set_instances (<[w := x]> (instances e)) ((w, o) :: starting e) (ending e) e).
Proof.
  intros Si Hst Hb Hr Ht. eapply (simulated_elsewhere w); [exact Si|split; cbn; try done|..].
  - intros u Hu. by rewrite lookup_insert_ne.
  - intros u o' Hu. set_solver.
  - intros u Hu. set_solver.
  - cbn. intros o' v [[= <-]|Hin]%elem_of_cons; [|destruct Hst; apply list_elem_of_fmap; by exists (w, o')].
    rewrite lookup_insert_eq. intros [= <-]. by exists x.
  - cbn. set_solver.
Qed.

Lemma delete_simulated e w en : simulated e -> simulated (set_instances (delete w (instances e)) (starting e) en e).
Proof.
  intros Si. eapply (simulated_elsewhere w); [exact Si|split; cbn; try done|..].
  - intros u Hu. by rewrite lookup_delete_ne.
  - cbn. intros o v _. by rewrite lookup_delete_eq.
  - cbn. intros v. by rewrite lookup_delete_eq.
Qed.

Lemma abandon_simulated e c1 w o c2 :
  simulated e -> starting e = c1 ++ (w, o) :: c2 ->
  simulated (set_instances (delete w (instances e)) (c1 ++ c2) (ending e) e).
Proof.
  intros Si Es. eapply (simulated_elsewhere w); [exact Si|split; cbn; try done|..].
  - intros u Hu. by rewrite lookup_delete_ne.
  - intros u o' Hu. rewrite Es. set_solver.
  - intros u Hu. rewrite Es, !fmap_app. cbn. set_solver.
  - cbn. intros o' v _. by rewrite lookup_delete_eq.
  - cbn. intros v. by rewrite lookup_delete_eq.
Qed.

(** A change of an instance that its own system makes too, or that its launch
    can wait for. *)
Lemma change_simulated e w x x' :
  simulated e -> instances e !! w = Some x -> waits x x' ->
  (forall s, state s = x -> workflow_step s (mkSys x' (WorkflowProgress.queued s) (WorkflowProgress.executing s) (WorkflowProgress.retrying s) (over s))) ->
  simulated (set_instances (<[w := x']> (instances e)) (starting e) (ending e) e).
Proof.
  intros Si Hw Hx Hstep. eapply (simulated_elsewhere w); [exact Si|split; cbn; try done|..].
  - intros u Hu. by rewrite lookup_insert_ne.
  - cbn. intros o v Hin. rewrite lookup_insert_eq. intros [= <-].
    destruct (si_starting _ Si _ _ _ Hin Hw) as (x0 & Hb & Hr & Hn & Hn'). exists x0. split; [done|].
    split; [by eapply rtc_r|]. by destruct (waits_counters _ _ Hx) as [-> ->].
  - cbn. intros v. rewrite lookup_insert_eq. intros [= <-] Hst.
    destruct (si_started _ Si w x Hw Hst) as (o & s0 & s & Hl & Hr & [S1 S2 S3 S4]).
    exists o, s0. eexists. split; [done|]. split; [eapply rtc_r; [exact Hr|by apply Hstep]|]. by split.
Qed.

Lemma step_simulated e e' : inv names e -> simulated e -> system_step e e' -> simulated e'.
Proof.
  intros I Si St. destruct St; subst.
  - apply construct_simulated; try done. intros [[] _]%(l_starting _ _ _ _ _ (e_ledger _ _ I)). congruence.
  - by eapply start_simulated.
  - by eapply abandon_simulated.
  - by eapply delete_simulated.
  - eapply simulated_moved; [by eapply enqueue_inv|done].
  - eapply simulated_moved; [by eapply register_inv|done].
  - eapply simulated_moved; [by eapply insert_inv|done].
  - eapply simulated_moved; [by eapply dequeue_inv|done].
  - eapply simulated_moved; [by eapply execute_step_inv|done].
  - by eapply launch_simulated.
  - eapply simulated_moved; [by eapply ends_inv|done].
  - eapply simulated_moved; [by eapply gather_step_inv|done].
  - by eapply stop_simulated.
  - eapply simulated_moved; [by eapply due_inv|done].
  - eapply simulated_moved; [by eapply flush_inv|done].
  - by eapply restart_simulated.
  - eapply change_simulated; [done|done|by apply waits_cancel|]. intros s <-. by apply WorkflowProgress.step_cancel.
  - eapply change_simulated; [done|done|by apply waits_savepoint|]. intros s <-. by apply WorkflowProgress.step_savepoint.
  - eapply change_simulated; [done|done|by eapply waits_kill|]. intros s <-. by eapply WorkflowProgress.step_kill.
  - eapply simulated_moved; [by eapply cancel_tasks_inv|done].
  - eapply simulated_moved; [by eapply shutdown_inv|done].
  - eapply change_simulated; [done|done|apply waits_environment|]. intros s <-. by apply WorkflowProgress.step_environment.
Qed.

Lemma begins_simulated new_Queue pid_max e : SystemSafety.begins names new_Queue pid_max e -> simulated e.
Proof. intros [Ei _ _ _ _ _ _ _ _ _]. split; intros w; rewrite Ei; [intros o|]; intros x; [intros _|]; by rewrite lookup_empty. Qed.

Lemma system_simulated new_Queue pid_max e0 e :
  SystemSafety.begins names new_Queue pid_max e0 -> rtc system_step e0 e -> inv names e /\ simulated e.
Proof.
  intros B R. assert (inv names e0 /\ simulated e0) as [I Si] by (split; [by eapply system_begins_inv|by eapply begins_simulated]).
  clear B. induction R as [|e e1 e2 S R IH]; [done|]. apply IH; [by eapply system_step_inv|by eapply step_simulated].
Qed.

(** The instance has reported its end exactly when it is about to be deleted. *)
Lemma shows_over e w x o s0 s :
  inv names e -> instances e !! w = Some x -> w ∉ (starting e).*1 -> launched_from o s0 -> rtc workflow_step s0 s ->
  stands_for w x e s -> over s = true <-> w ∈ ending e.
Proof.
  intros I Hw Hst Hl Hr [Es Sq Sx Sr]. pose proof (workflow_inv _ _ _ _ _ _ _ (launched_from_begins _ _ Hl) Hr) as Hi.
  pose proof (e_ledger _ _ I) as L. rewrite (inv_over _ Hi), (l_ending _ _ _ _ _ L), Hw. unfold ended. rewrite Es.
  rewrite (l_running _ _ _ _ _ L _ _ Hw), (l_retrying _ _ _ _ _ L _ _ Hw), andb_true_iff, !Z.eqb_eq. naive_solver.
Qed.
End simulation.

(** * Properties *)

Section properties.
Context {D : Type} `{WorkflowDomLaws D} `{!DomAttributes D} {Q : Type} `{QueueLaws Q, !QueueTasks Q, !QueueTasksLaws Q}.
Context (names : list string) (GetTask : string -> option Task) (format_time : Z -> string).
Context (engine_env : string -> option string) (configuration : Configuration.Configuration).
Context (built : origin -> world (D := D) -> Prop).
Implicit Types (e : System.system (D := D) (Q := Q)) (s : sys (D := D)) (S : shape).

Abbreviation system_step := (System.step names GetTask format_time engine_env configuration built).
Abbreviation workflow_step := (WorkflowProgress.step (known_queue names) GetTask format_time engine_env configuration).

(** C4: As long as no fault happens (a task put in a queue whose tail is
    wrong after a cancellation, a forker that finds no free identifier, a
    resumed task in an unknown queue or whose identifier is 0 or taken) and
    fewer than 2^32 tasks are running or wait for a retry, each instance
    behaves in the whole engine as it does alone: whatever the pool, the
    forker, the processes, the gatherer, the retrier and the other instances
    do in between, the state of a started instance is one that a run of the
    system of one instance reaches from its launch, with the same tasks
    queued, executing and waiting for their retry, and this run has reported
    its end exactly when the engine is about to delete the instance. *)
Theorem engine_refines_workflow new_Queue pid_max e0 e w x :
  SystemSafety.begins names new_Queue pid_max e0 -> System.run names GetTask format_time engine_env configuration built e0 false e ->
  instances e !! w = Some x -> w ∉ (starting e).*1 ->
  exists o s0 s, launched_from names format_time built o s0 /\ rtc workflow_step s0 s /\ stands_for w x e s /\
    (over s = true <-> w ∈ ending e).
Proof.
  intros B R%run_faultless Hw Hst. destruct (system_simulated _ _ _ _ _ _ _ _ _ _ B R) as [I [_ Sd]].
  destruct (Sd w x Hw Hst) as (o & s0 & s & Hl & Hr & Hs). exists o, s0, s. split_and!; try done. by eapply shows_over.
Qed.

(** ** Before the launch *)

(** A program that leaves the document alone. *)
Definition reads {A} (m : M (D := D) A) : Prop := forall w,
  match m w with Ok _ w' | Exn _ w' => doc w' = doc w | Crash => True end.

Lemma reads_bind {A B} (m : M (D := D) A) (k : A -> M B) : reads m -> (forall x, reads (k x)) -> reads (m ≫= k).
Proof.
  intros Hm Hk w. specialize (Hm w). unfold mbind, M_bind. destruct (m w) as [x w1|e w1|]; [|done|done].
  specialize (Hk x w1). destruct (k x w1); congruence.
Qed.

Lemma reads_try {A} (m : M (D := D) A) h : reads m -> (forall y, reads (h y)) -> reads (try_catch m h).
Proof.
  intros Hm Hh w. specialize (Hm w). unfold try_catch. destruct (m w) as [x w1|e w1|]; [done| |done].
  specialize (Hh e w1). destruct (h e w1); congruence.
Qed.

Lemma reads_ret {A} (x : A) : reads (mret x : M (D := D) A).
Proof. by intros w. Qed.
Lemma reads_crash {A} : reads (crash : M (D := D) A).
Proof. by intros w. Qed.
Lemma reads_gets {A} (f : WorkflowInstance -> A) : reads (gets (D := D) f).
Proof. by intros w. Qed.
Lemma reads_emit y : reads (emit (D := D) y).
Proof. by intros w. Qed.
Lemma reads_db q : reads (db_query (D := D) q).
Proof. intros w. unfold db_query. by destruct (db_results w) as [|[] r]. Qed.
Lemma reads_fuel : reads (query_fuel (D := D)).
Proof. by intros w. Qed.
#[local] Hint Resolve reads_ret reads_crash reads_gets reads_emit reads_db reads_fuel : core.

Ltac read :=
  try solve [auto];
  lazymatch goal with
  | |- reads (mbind _ _) => apply reads_bind; [read|intros; read]
  | |- reads (try_catch _ _) => apply reads_try; [read|intros; read]
  | |- reads (match ?x with _ => _ end) => destruct x; read
  | |- reads _ =>
      progress unfold write_savepoint, savepoint_query, savepoint_again, KillTask, document_element, eval, try_eval,
        get_attr, get_named, nonnull, when, ask; read
  | |- _ => idtac
  end.

Lemma reads_savepoint_loop fuel q n : reads (savepoint_loop (D := D) fuel q n).
Proof. revert n. induction fuel as [|fuel IH]; intros n; cbn [savepoint_loop]; read. Qed.
Lemma reads_kill_each pid ts : reads (kill_each (D := D) pid ts).
Proof. induction ts as [|[] ts IH]; cbn [kill_each node_value]; read. Qed.
#[local] Hint Resolve reads_savepoint_loop reads_kill_each : core.

(** The root of the document does not say that the workflow has ended. *)
Definition unended (d : D) : Prop :=
  exists root, getDocumentElement d = Some root /\ getAttribute d root "status" <> "TERMINATED"%string.

Lemma RecordSavepoint_doc x x' : unended (doc x) -> RecordSavepoint format_time x = Ok tt x' -> doc x' = doc x.
Proof.
  intros (root & Er & Es) E. unfold RecordSavepoint, record_savepoint in E.
  apply bind_Ok in E as (r & w1 & E1 & E). unfold document_element, ask in E1.
  apply bind_Ok in E1 as (o & w2 & [= <- <-] & E1). unfold doc in Er, Es. rewrite Er in E1. injection E1 as <- <-.
  apply bind_Ok in E as (st & w2 & [= <- <-] & E). apply bind_Ok in E as (l & w2 & [= <- <-] & E).
  rewrite bool_decide_false in E by done. cbn [negb andb] in E.
  assert (reads (write_savepoint root)) as R by read. specialize (R x). by rewrite E in R.
Qed.

Lemma waits_doc x x' : waits format_time x x' -> unended (doc x) -> doc x' = doc x.
Proof.
  intros [y y' E|y y' E|pid y b y' E|y db now] Hu; [| | |done].
  - unfold Cancel, modify in E. by injection E as <-.
  - by eapply RecordSavepoint_doc.
  - assert (reads (KillTask pid)) as R by read. specialize (R y). by rewrite E in R.
Qed.

(** The document of an instance that was constructed, for a shape. *)
Definition laid_out S (o : origin) (x : world (D := D)) : Prop :=
  wf_shape S /\ unended (doc x) /\ match o with New => fresh S x | Resumed => saved S x end.

Lemma laid_out_waits S o x x' : rtc (waits format_time) x x' -> laid_out S o x -> laid_out S o x'.
Proof.
  induction 1 as [|x y z Hx _ IH]; [done|]. intros (HS & Hu & Hl). apply IH.
  pose proof (waits_doc _ _ Hx Hu) as Ed. split; [done|]. rewrite Ed. split; [done|].
  destruct o; destruct Hl as [? ?]; split; by rewrite Ed.
Qed.

Lemma launched_from_laid_out o s :
  (forall o x, built o x -> exists S, laid_out S o x) -> launched_from names format_time built o s ->
  exists S, wf_shape S /\ JobOrder.launched (known_queue names) format_time S s.
Proof.
  intros Hb (x & b & x' & es & (x0 & Hx & Hw & Hc) & E & He & Es & F). destruct (Hb _ _ Hx) as [S Hl].
  destruct (laid_out_waits _ _ _ _ Hw Hl) as (HS & _ & Hl'). exists S. split; [done|]. exists x, b, x', es. split; [done|].
  split; [|done]. destruct o; [by left|by right].
Qed.

Lemma holders_perm S (d : D) q q' x x' r r' :
  q ≡ₚ q' -> x ≡ₚ x' -> r ≡ₚ r' -> holders S d q x r -> holders S d q' x' r'.
Proof.
  intros Eq Ex Er [Hg [Nq Hq] [Nx Hx] [Nr Hr] Hs He]. split; try done; split; try (by rewrite <- ?Eq, <- ?Ex, <- ?Er);
    intros t; rewrite <- ?Eq, <- ?Ex, <- ?Er; auto.
Qed.

(** C5: The order of the jobs holds in the whole engine, as long as no fault
    happens (a task put in a queue whose tail is wrong after a cancellation,
    a forker that finds no free identifier, a resumed task in an unknown
    queue or whose identifier is 0 or taken) and fewer than 2^32 tasks are
    running or wait for a retry: when the instances are made from workflows
    without conditions, loops and computed inputs, or from savepoints of
    them whose outputs contain no task element, then in every state of the
    engine and for each started instance, the tasks of a job have been
    queued or aborted if all those of the job above have succeeded and are
    untouched otherwise, the pool holds the QUEUED tasks of the document and
    no other, the processes and the gatherer the EXECUTING ones, the retrier
    only tasks that failed, and none of them holds a task twice. *)
Theorem engine_job_order new_Queue pid_max e0 e w x :
  (forall o x, built o x -> exists S, laid_out S o x) ->
  SystemSafety.begins names new_Queue pid_max e0 -> System.run names GetTask format_time engine_env configuration built e0 false e ->
  instances e !! w = Some x -> w ∉ (starting e).*1 ->
  exists S, wf_shape S /\ in_order S (doc x) /\
    holders S (doc x) (own w (System.queued e)) (own w (System.executing e)) (own w (System.retrying e)).
Proof.
  intros Hb B R%run_faultless Hw Hst. destruct (system_simulated _ _ _ _ _ _ _ _ _ _ B R) as [I [_ Sd]].
  destruct (Sd w x Hw Hst) as (o & s0 & s & Hl & Hr & [<- Sq Sx Sr]). destruct (launched_from_laid_out _ _ Hb Hl) as (S & HS & Hl').
  destruct (run_ordered _ _ _ _ _ _ HS _ _ Hl' Hr) as [Hh Ho]. exists S. split; [done|]. split; [done|]. by eapply holders_perm.
Qed.
End properties.

(** * A run *)

#[local] Instance ex_shapes : @WorkflowDom TreeDom.doc ex_dom := TreeWorkflow ex_library.
#[local] Instance ex_laws : WorkflowDomLaws TreeDom.doc := TreeWorkflow_laws ex_library.
#[local] Instance ex_attributes : DomAttributes TreeDom.doc := TreeDom_attributes ex_library.

Lemma engine_refines_workflow_witness :
  exists x o s0 s, instances (ex_run ex_first) !! 1%positive = Some x /\
    launched_from ["default"%string] ex_format_time ex_built o s0 /\
    rtc (WorkflowProgress.step (known_queue ["default"%string]) ex_GetTask ex_format_time ex_env Configuration_new) s0 s /\
    state s = x /\ WorkflowProgress.executing s ≡ₚ [ex_task 0] /\ WorkflowProgress.retrying s ≡ₚ [ex_task 1].
Proof.
  assert (R : ex_system_run_to (ex_run ex_first)) by (apply (ex_system_run ex_first); vm_compute; reflexivity).
  destruct (is_some_check (instances (ex_run ex_first) !! 1%positive)) as [x E]; [vm_compute; reflexivity|].
  assert (1%positive ∉ (starting (ex_run ex_first)).*1) as Hst by (vm_compute; by intros ?%not_elem_of_nil).
  assert (own 1 (System.executing (ex_run ex_first)) = [ex_task 0]) as EX by (vm_compute; reflexivity).
  assert (own 1 (System.retrying (ex_run ex_first)) = [ex_task 1]) as ER by (vm_compute; reflexivity).
  destruct (engine_refines_workflow _ _ _ _ _ _ ex_queue "3" ex_engine (ex_run ex_first) 1 x ex_system_begins R E Hst)
    as (o & s0 & s & Hl & Hr & [Hs _ Hx Ht] & _).
  rewrite EX in Hx. rewrite ER in Ht. exists x, o, s0, s. split_and!; assumption || reflexivity.
Defined.

Lemma ex_laid_out o x : ex_built o x -> exists S, laid_out S o x.
Proof.
  intros ->. exists ex_shape. split; [exact ex_wf_shape|].
  destruct o; (split; [eexists; split; vm_compute; done|]); [exact ex_fresh|exact ex_saved].
Qed.

(** The tasks of the first job have succeeded, the one of the job below is queued. *)
Definition ex_next : System.system (D := TreeDom.doc) (Q := Queue.Queue) := ex_run (ex_first ++ take 12 ex_rest).

Lemma engine_job_order_witness :
  exists x S, instances ex_next !! 1%positive = Some x /\ in_order S (doc x) /\ holders S (doc x) [ex_task 2] [] [].
Proof.
  assert (R : ex_system_run_to ex_next) by (apply (ex_system_run (ex_first ++ take 12 ex_rest)); vm_compute; reflexivity).
  destruct (is_some_check (instances ex_next !! 1%positive)) as [x E]; [vm_compute; reflexivity|].
  assert (1%positive ∉ (starting ex_next).*1) as Hst by (vm_compute; by intros ?%not_elem_of_nil).
  assert (own 1 (System.queued ex_next) = [ex_task 2]) as EQ by (vm_compute; reflexivity).
  assert (own 1 (System.executing ex_next) = []) as EX by (vm_compute; reflexivity).
  assert (own 1 (System.retrying ex_next) = []) as ER by (vm_compute; reflexivity).
  destruct (engine_job_order _ _ _ _ _ _ ex_queue "3" ex_engine ex_next 1 x ex_laid_out ex_system_begins R E Hst)
    as (S & _ & Ho & Hh).
  rewrite EQ, EX, ER in Hh. exists x, S. split_and!; assumption || reflexivity.
Defined.
