(* ===== verification/SystemClients.v ===== *)
(** The engine and its clients: the map of instances, through which the
    connections and the main program reach an instance by its identifier; the
    destructor, which takes an instance out of the map before it goes; and the
    threads of connections, which keep a pointer to the instance that they have
    launched. *)

From stdpp Require Import sorting.
From S2P Require Import Prelude CString WorkflowInstances QueueIface Queue QueueTasks QueuePool ProcessManager PoolTasks Configuration Dom TreeDom Task.
From S2P Require Import Scheduler Retrier WorkflowInstance WorkflowExamples WorkflowProgress JobOrder System SystemSafety SystemProperties.

Open Scope Z_scope.

Section clients.
Context {D : Type} `{Dom D} {Q : Type} `{QueueLaws Q, !QueueTasks Q, !QueueTasksLaws Q}.
Context (names : list string) (GetTask : string -> option Task) (format_time : Z -> string).
Context (engine_env : string -> option string) (configuration : Configuration.Configuration).
Context (built : origin -> world (D := D) -> Prop).
Implicit Types (s : System.system (D := D) (Q := Q)).

Abbreviation system_step := (System.step names GetTask format_time engine_env configuration built).

Definition allocated s : gset wi_ref := base.dom (instances s).

(** The thread of a connection that has launched an instance: what [Start] told of
    the end of the workflow; whether the query is synchronous. *)
Inductive launcher : Type :=
  | Started (workflow_terminated synchronous : bool)
  | Waiting (wait_cond : positive) (workflow_terminated : bool)
  | Replying (workflow_terminated : bool).

Definition told (l : launcher) : bool :=
  match l with Started b _ | Waiting _ b | Replying b => b end.

(** The instances that the threads of [l] delete once they have replied. *)
Definition told_by (l : list (wi_ref * launcher)) : list wi_ref :=
  omap (fun x => if told x.2 then Some x.1 else None) l.
#[local] Arguments told_by : simpl never.

(** [pthread_cond_broadcast] on [c]. *)
Definition woken (c : option positive) (l : wi_ref * launcher) : wi_ref * launcher :=
  match l.2 with
  | Waiting c' b => if bool_decide (c = Some c') then (l.1, Replying b) else l
  | _ => l
  end.

(** [removed] are the instances whose destructor has called [Remove] and has not
    ended yet, [launchers] the threads of connections that hold the pointer to the
    instance that they have started. *)
Record engine : Type := mkEngine {
  sys : System.system (D := D) (Q := Q);
  registered : WorkflowInstances;
  removed : list wi_ref;
  launchers : list (wi_ref * launcher);
}.
Implicit Types (e : engine).

(** [WorkflowInstances::Remove], called by a destructor. *)
Definition do_remove (id : Z) (s : System.system (D := D) (Q := Q)) (removed : list wi_ref) e : engine :=
  let '(c, r) := Remove id (registered e) in mkEngine s r removed (woken c <$> launchers e).

(** Who is told of the end of a workflow deletes the instance: the thread that has
    launched it, once it has replied, if [Start] told it so.  A thread that reads an
    instance that is deleted has no step.  [spurious]: a thread may leave
    [pthread_cond_wait] without a broadcast. *)
Inductive step (spurious : bool) : engine -> engine -> Prop :=
  (* the instances at work *)
  | cl_engine e s' :
      system_step (sys e) s' -> allocated s' = allocated (sys e) ->
      step spurious e (mkEngine s' (registered e) (removed e) (launchers e))
  (* the end of a constructor; the identifier is a new one *)
  | cl_construct e w o x :
      instances (sys e) !! w = None -> built o x -> running_tasks (wi x) = 0 -> retrying_tasks (wi x) = 0 ->
      WorkflowInstances.wi (registered e) !! workflow_instance_id (wi x) = None ->
      step spurious e
        (mkEngine (set_instances (<[w := x]> (instances (sys e))) ((w, o) :: starting (sys e)) (ending (sys e)) (sys e))
           (Add (workflow_instance_id (wi x)) w (registered e)) (removed e) (launchers e))
  (* a resumption that throws: the main program, which does not serve clients
     yet, takes the instance out of the map and deletes it *)
  | cl_abandon e c1 w o c2 x ex x' :
      starting (sys e) = c1 ++ (w, o) :: c2 -> instances (sys e) !! w = Some x -> launch names format_time o x = Exn ex x' ->
      step spurious e
        (do_remove (workflow_instance_id (wi x))
           (set_instances (delete w (instances (sys e))) (c1 ++ c2) (ending (sys e)) (sys e)) (removed e) e)
  (* the query of a launch: [Start] *)
  | cl_launch e w s' synchronous :
      (w, New) ∈ starting (sys e) -> system_step (sys e) s' -> allocated s' = allocated (sys e) ->
      w ∉ (starting s').*1 ->
      step spurious e (mkEngine s' (registered e) (removed e)
                         ((w, Started (bool_decide (w ∈ ending s')) synchronous) :: launchers e))
  (* [GetInstanceID] for the log, and for [Wait] of a synchronous launch *)
  | cl_reads e l1 w b l2 :
      launchers e = l1 ++ (w, Started b false) :: l2 -> is_Some (instances (sys e) !! w) ->
      step spurious e (mkEngine (sys e) (registered e) (removed e) (l1 ++ (w, Replying b) :: l2))
  | cl_waits e l1 w b l2 fresh_cond :
      launchers e = l1 ++ (w, Started b true) :: l2 -> is_Some (instances (sys e) !! w) ->
      (forall i, wi_wait (registered e) !! i <> Some fresh_cond) ->
      step spurious e
        match Wait (GetInstanceID (sys e) w) fresh_cond (registered e) with
        | None => mkEngine (sys e) (registered e) (removed e) (l1 ++ (w, Replying b) :: l2)
        | Some (c, r) => mkEngine (sys e) r (removed e) (l1 ++ (w, Waiting c b) :: l2)
        end
  | cl_spurious e l1 w c b l2 :
      spurious = true -> launchers e = l1 ++ (w, Waiting c b) :: l2 ->
      step spurious e (mkEngine (sys e) (registered e) (removed e) (l1 ++ (w, Replying b) :: l2))
  (* the reply, with the identifier *)
  | cl_replies e l1 w b l2 :
      launchers e = l1 ++ (w, Replying b) :: l2 -> is_Some (instances (sys e) !! w) ->
      step spurious e (mkEngine (sys e) (registered e) (removed e) (l1 ++ l2))
  (* the destructor *)
  | cl_remove e w :
      w ∈ ending (sys e) -> w ∉ removed e -> w ∉ told_by (launchers e) ->
      step spurious e (do_remove (GetInstanceID (sys e) w) (sys e) (w :: removed e) e)
  | cl_delete e r1 w r2 d1 d2 :
      removed e = r1 ++ w :: r2 -> ending (sys e) = d1 ++ w :: d2 ->
      step spurious e (mkEngine (set_instances (delete w (instances (sys e))) (starting (sys e)) (d1 ++ d2) (sys e))
                         (registered e) (r1 ++ r2) (launchers e))
  (* the query of a wait *)
  | cl_wait e id fresh_cond c r :
      (forall i, wi_wait (registered e) !! i <> Some fresh_cond) ->
      Wait id fresh_cond (registered e) = Some (c, r) -> step spurious e (mkEngine (sys e) r (removed e) (launchers e)).

(** The faults of the engine (see [System.fault]). *)
Inductive fault : engine -> engine -> Prop :=
  | cl_fault e s' :
      System.fault names (sys e) s' -> fault e (mkEngine s' (registered e) (removed e) (launchers e)).

(** A run, and whether a fault has happened. *)
Inductive run (e0 : engine) : bool -> engine -> Prop :=
  | run_begins : run e0 false e0
  | run_step b e e' : run e0 b e -> step true e e' -> run e0 b e'
  | run_fault b e e' : run e0 b e -> fault e e' -> run e0 true e'.

Lemma clients_run_faultless e0 e : run e0 false e <-> rtc (step true) e0 e.
Proof.
  split.
  - intros R. remember false as b eqn:Eb. induction R; [apply rtc_refl|eapply rtc_r; eauto|done].
  - revert e. apply rtc_ind_r; [apply run_begins|]. intros e1 e2 _ S R. by eapply run_step.
Qed.

(** * What the steps of the engine leave alone *)

Lemma same_insert u (y y' : world (D := D)) s w x x' :
  instances s !! u = Some y -> same_instance y y' ->
  instances s !! w = Some x -> <[u := y']> (instances s) !! w = Some x' -> same_instance x x'.
Proof.
  intros Hu Hs Hw. destruct (decide (w = u)) as [->|Hne].
  - rewrite lookup_insert_eq. intros [= <-]. congruence.
  - rewrite lookup_insert_ne by done. intros Hw'. rewrite Hw in Hw'. injection Hw' as <-. by split.
Qed.

(** An operation keeps the identifier, whatever it does. *)
Lemma step_same s s' w x x' :
  inv names s -> system_step s s' -> instances s !! w = Some x -> instances s' !! w = Some x' -> same_instance x x'.
Proof.
  intros I St Hw. assert (Hc : forall u y, instances s !! u = Some y -> counters_ok y)
    by (intros u y; apply (ledger_counters _ _ _ _ _ _ _ (e_ledger _ _ I))).

  assert (Hsame : instances s !! w = Some x' -> same_instance x x') by (rewrite Hw; intros [= <-]; by split).
  destruct St; cbn; try exact Hsame.
  - rewrite lookup_insert_ne by congruence. exact Hsame.
  - eapply same_insert; [eassumption| |done].
    match goal with E : launch _ _ _ _ = Ok _ _ |- _ => apply launch_accounts in E as (_ & es' & M); [apply M|by eapply Hc] end.
  - intros [_ Hw']%lookup_delete_Some. by apply Hsame.
  - intros [_ Hw']%lookup_delete_Some. by apply Hsame.
  - eapply same_insert; [eassumption| |done].
    match goal with E : TaskExecute _ _ _ _ _ _ _ _ = Ok _ _ |- _ =>
      apply (TaskExecute_spec (known_queue names)) in E as (_ & _ & _ & es' & M); [apply M|by eapply Hc|lia] end.
  - eapply same_insert; [eassumption| |done].
    match goal with E : TaskStop _ _ _ _ _ _ _ = Ok _ _ |- _ =>
      eapply accounts_TaskStop in E as [es' M]; [apply M|by eapply Hc|done] end.
  - eapply same_insert; [eassumption| |done].
    match goal with E : TaskRestart _ _ _ _ = Ok _ _ |- _ =>
      eapply accounts_TaskRestart in E as [es' M]; [apply M|by eapply Hc|done] end.
  - eapply same_insert; [eassumption| |done]. match goal with E : Cancel _ = Ok _ _ |- _ => by injection E as <- end.
  - eapply same_insert; [eassumption| |done].
    match goal with E : RecordSavepoint _ _ = Ok _ _, Hx : instances _ !! _ = Some ?y |- same_instance ?y _ =>
      pose proof (accounts_record_savepoint (known_queue names) format_time true _ true y (Hc _ _ Hx) eq_refl) as K;
      unfold RecordSavepoint in E; rewrite E in K; destruct K as [es' M]; apply M end.
  - eapply same_insert; [eassumption| |done].
    match goal with E : KillTask ?pid ?y = Ok _ _, Hx : instances _ !! _ = Some ?y |- _ =>
      pose proof (accounts_KillTask (known_queue names) true _ pid y (Hc _ _ Hx) eq_refl) as K;
      rewrite E in K; destruct K as [es' M]; apply M end.
  - eapply same_insert; [eassumption|by split|done].
Qed.

Lemma step_ending s s' w :
  inv names s -> system_step s s' -> allocated s' = allocated s -> w ∈ ending s -> w ∈ ending s'.
Proof.
  intros I St Ha Hw. destruct St; cbn; try exact Hw; try (destruct b; cbn; set_solver).
  exfalso. unfold allocated in Ha. cbn in Ha. rewrite dom_delete_L in Ha.
  match goal with E : ending _ = _ ++ ?v :: _ |- _ => rename v into u;
    destruct (proj1 (l_ending _ _ _ _ _ (e_ledger _ _ I) u)) as (Hu & _); [rewrite E; set_solver|] end.
  apply elem_of_dom in Hu. set_solver.
Qed.

(** * The threads of the connections *)

Lemma elem_of_told_by w ls : w ∈ told_by ls <-> exists l, (w, l) ∈ ls /\ told l = true.
Proof.
  unfold told_by. rewrite list_elem_of_omap. split.
  - intros ([u l] & Hin & E). cbn in E. destruct (told l) eqn:Et; [|done]. injection E as <-. eauto.
  - intros (l & Hin & E). exists (w, l). cbn. by rewrite E.
Qed.

Lemma told_by_app l1 l2 : told_by (l1 ++ l2) = told_by l1 ++ told_by l2.
Proof. apply omap_app. Qed.

Lemma told_by_cons w l ls : told_by ((w, l) :: ls) = (if told l then [w] else []) ++ told_by ls.
Proof. unfold told_by. cbn. by destruct (told l). Qed.

Lemma told_by_change l1 w l l' l2 :
  told l' = told l -> told_by (l1 ++ (w, l') :: l2) = told_by (l1 ++ (w, l) :: l2).
Proof. intros E. by rewrite !told_by_app, !told_by_cons, E. Qed.

Lemma told_by_drop l1 w l l2 : told_by (l1 ++ l2) `sublist_of` told_by (l1 ++ (w, l) :: l2).
Proof.
  rewrite !told_by_app, told_by_cons. apply sublist_app; [done|]. by apply sublist_inserts_l.
Qed.

Lemma woken_told c ls : told_by (woken c <$> ls) = told_by ls.
Proof.
  induction ls as [|[w l] ls IH]; [done|]. rewrite fmap_cons.
  assert (exists l', woken c (w, l) = (w, l') /\ told l' = told l) as (l' & -> & E).
  { destruct l; cbn; try (by eexists). case_bool_decide; by eexists. }
  by rewrite !told_by_cons, E, IH.
Qed.

(** * The invariant *)

(** Every condition is that of one instance. *)
Definition own_conditions (r : WorkflowInstances) : Prop :=
  forall id id' c, wi_wait r !! id = Some c -> wi_wait r !! id' = Some c -> id = id'.

(** The map finds the instances that are allocated and whose destructor has not
    begun, by their identifiers. *)
Record clients_inv e : Prop := {
  c_sys : inv names (sys e);
  c_registered id w : WorkflowInstances.wi (registered e) !! id = Some w <->
    exists x, instances (sys e) !! w = Some x /\ workflow_instance_id (wi x) = id /\ w ∉ removed e;
  c_removed w : w ∈ removed e -> w ∈ ending (sys e);
  c_nodup : NoDup (removed e);
  c_conditions : own_conditions (registered e);
  c_told w : w ∈ told_by (launchers e) -> w ∈ ending (sys e) /\ w ∉ removed e;
  c_once : NoDup (told_by (launchers e));
}.

Lemma ending_alive s w : inv names s -> w ∈ ending s -> is_Some (instances s !! w) /\ w ∉ (starting s).*1.
Proof. intros I Hw. by apply (l_ending _ _ _ _ _ (e_ledger _ _ I)) in Hw as (? & ? & _). Qed.

Lemma engine_step_registered s s' r (rm : list wi_ref) :
  inv names s -> system_step s s' -> allocated s' = allocated s ->
  (forall id w, WorkflowInstances.wi r !! id = Some w <->
     exists x, instances s !! w = Some x /\ workflow_instance_id (wi x) = id /\ w ∉ rm) ->
  forall id w, WorkflowInstances.wi r !! id = Some w <->
     exists x, instances s' !! w = Some x /\ workflow_instance_id (wi x) = id /\ w ∉ rm.
Proof.
  intros I St Ha Hr id w. rewrite Hr. assert (is_Some (instances s' !! w) <-> is_Some (instances s !! w)) as Hw.
  { rewrite <- !elem_of_dom. unfold allocated in Ha. by rewrite Ha. }
  split; intros (x & Hx & <- & Hn).
  - destruct (proj2 Hw) as [x' Hx']; [eauto|]. exists x'. split; [done|]. split; [|done]. apply (step_same s s' w x x' I St Hx Hx').
  - destruct (proj1 Hw) as [x' Hx']; [eauto|]. exists x'. split; [done|]. split; [|done].
    symmetry. apply (step_same s s' w x' x I St Hx' Hx).
Qed.

Lemma construct_clients e w o x :
  clients_inv e -> instances (sys e) !! w = None -> running_tasks (wi x) = 0 -> retrying_tasks (wi x) = 0 ->
  WorkflowInstances.wi (registered e) !! workflow_instance_id (wi x) = None ->
  clients_inv (mkEngine (set_instances (<[w := x]> (instances (sys e))) ((w, o) :: starting (sys e)) (ending (sys e)) (sys e))
                 (Add (workflow_instance_id (wi x)) w (registered e)) (removed e) (launchers e)).
Proof.
  intros [I Hr Hm Hnd Hc Hl Ho] Hn Hz1 Hz2 Hid. assert (w ∉ removed e) as Hw.
  { intros Hin%Hm%(ending_alive _ _ I). rewrite Hn in Hin. by destruct Hin as [[] _]. }
  split; cbn; try done; [by apply construct_inv|]. intros id u. destruct (decide (id = workflow_instance_id (wi x))) as [->|Hne].
  - rewrite lookup_insert_eq. split.
    + intros [= <-]. exists x. by rewrite lookup_insert_eq.
    + intros (y & Hy & E & Hu). destruct (decide (u = w)) as [->|Hne]; [done|]. rewrite lookup_insert_ne in Hy by done.
      assert (WorkflowInstances.wi (registered e) !! workflow_instance_id (wi x) = Some u) by (apply Hr; eauto). congruence.
  - rewrite lookup_insert_ne, Hr by done. split; intros (y & Hy & E & Hu); exists y; (split; [|done]).
    + rewrite lookup_insert_ne; [done|]. intros <-. congruence.
    + destruct (decide (u = w)) as [->|Hd]; [rewrite lookup_insert_eq in Hy; injection Hy as ->; congruence|].
      by rewrite lookup_insert_ne in Hy.
Qed.

Lemma Remove_wi id (r : WorkflowInstances) : WorkflowInstances.wi (snd (Remove id r)) = delete id (WorkflowInstances.wi r).
Proof. unfold Remove. cbn. by case_match. Qed.

Lemma Remove_wait id (r : WorkflowInstances) :
  fst (Remove id r) = wi_wait r !! id /\ wi_wait (snd (Remove id r)) = delete id (wi_wait r).
Proof.
  unfold Remove. cbn. destruct (wi_wait r !! id) eqn:E; [done|]. cbn. by rewrite delete_id.
Qed.

Lemma Remove_conditions id (r : WorkflowInstances) : own_conditions r -> own_conditions (snd (Remove id r)).
Proof.
  intros Hc i j c. rewrite (proj2 (Remove_wait id r)), !lookup_delete_Some. intros [_ Hi] [_ Hj]. by eapply Hc.
Qed.

Lemma do_remove_eq id s rm e :
  do_remove id s rm e = mkEngine s (snd (Remove id (registered e))) rm (woken (fst (Remove id (registered e))) <$> launchers e).
Proof. unfold do_remove. by destruct (Remove id (registered e)). Qed.

Lemma Wait_wi id c0 (r : WorkflowInstances) c r' : Wait id c0 r = Some (c, r') -> WorkflowInstances.wi r' = WorkflowInstances.wi r.
Proof. unfold Wait. intros E. by repeat case_match; simplify_eq/=. Qed.

(** [Wait] gives the instance a condition, and keeps those of the others. *)
Lemma Wait_wait id c0 (r : WorkflowInstances) c r' :
  (forall i, wi_wait r !! i <> Some c0) -> Wait id c0 r = Some (c, r') ->
  wi_wait r' !! id = Some c /\ (forall i c', wi_wait r !! i = Some c' -> wi_wait r' !! i = Some c') /\
  (own_conditions r -> own_conditions r').
Proof.
  intros Hf E. unfold Wait in E. case_match; [|done]. case_match; simplify_eq/=; [by split_and!|].
  split_and!.
  - apply lookup_insert_eq.
  - intros i c' Hi. rewrite lookup_insert_ne; [done|]. intros <-. congruence.
  - intros Hc i j d. cbn. rewrite !lookup_insert_Some. intros [[<- <-]|[? Hi]] [[<- E]|[? Hj]]; naive_solver.
Qed.

Lemma Wait_clients e id c0 c r ls :
  clients_inv e -> (forall i, wi_wait (registered e) !! i <> Some c0) -> Wait id c0 (registered e) = Some (c, r) ->
  told_by ls = told_by (launchers e) -> clients_inv (mkEngine (sys e) r (removed e) ls).
Proof.
  intros [I Hr Hm Hnd Hc Hl Ho] Hf E El. split; cbn; rewrite ?El; try done.
  - intros i w. by rewrite (Wait_wi _ _ _ _ _ E), Hr.
  - by apply (Wait_wait _ _ _ _ _ Hf E).
Qed.

(** The threads of the connections go on. *)
Lemma launchers_clients e ls :
  clients_inv e -> told_by ls `sublist_of` told_by (launchers e) -> clients_inv (mkEngine (sys e) (registered e) (removed e) ls).
Proof.
  intros [I Hr Hm Hnd Hc Hl Ho] Hs. split; cbn; try done.
  - intros w Hw. apply Hl. by eapply elem_of_sublist.
  - by eapply sublist_NoDup.
Qed.

Lemma remove_clients e w :
  clients_inv e -> w ∈ ending (sys e) -> w ∉ removed e -> w ∉ told_by (launchers e) ->
  clients_inv (do_remove (GetInstanceID (sys e) w) (sys e) (w :: removed e) e).
Proof.
  intros [I Hr Hm Hnd Hc Hl Ho] He Hw Hlw. rewrite do_remove_eq.
  destruct (ending_alive _ _ I He) as [[x Hx] _].
  assert (GetInstanceID (sys e) w = workflow_instance_id (wi x)) as -> by (unfold GetInstanceID; by rewrite Hx).
  split; cbn [sys registered removed launchers]; rewrite ?woken_told; try done.
  - intros id u. rewrite Remove_wi, lookup_delete_Some, Hr. split.
    + intros (Hne & y & Hy & Ey & Hu). exists y. split; [done|]. split; [done|].
      apply not_elem_of_cons. split; [|done]. intros ->. congruence.
    + intros (y & Hy & Ey & [Hne Hu]%not_elem_of_cons). split; [|eauto]. intros Eid'.
      assert (WorkflowInstances.wi (registered e) !! id = Some u) as E1 by (apply Hr; eauto).
      assert (WorkflowInstances.wi (registered e) !! id = Some w) as E2 by (apply Hr; eauto). congruence.
  - intros u [->|Hu]%elem_of_cons; [done|by apply Hm].
  - by constructor.
  - by apply Remove_conditions.
  - intros u Hu. destruct (Hl u Hu) as [H3 H4]. split; [done|]. apply not_elem_of_cons. split; [|done]. by intros ->.
Qed.

Lemma abandon_clients e c1 w o c2 x :
  clients_inv e -> starting (sys e) = c1 ++ (w, o) :: c2 -> instances (sys e) !! w = Some x ->
  clients_inv (do_remove (workflow_instance_id (wi x))
                 (set_instances (delete w (instances (sys e))) (c1 ++ c2) (ending (sys e)) (sys e)) (removed e) e).
Proof.
  intros [I Hr Hm Hnd Hc Hl Ho] Es Hx. rewrite do_remove_eq.
  assert (w ∉ ending (sys e)) as He by (intros [_ []]%(ending_alive _ _ I); rewrite Es, fmap_app; set_solver).
  assert (w ∉ removed e) as Hw by (by intros ?%Hm).
  split; cbn [sys registered removed launchers]; rewrite ?woken_told; try done; [by eapply abandon_inv| |by apply Remove_conditions].
  intros id u. rewrite Remove_wi, lookup_delete_Some, Hr. cbn. split.
  - intros (Hne & y & Hy & Ey & Hu). exists y. rewrite lookup_delete_Some. split_and!; try done. intros <-. congruence.
  - intros (y & [Hd Hy]%lookup_delete_Some & Ey & Hu). split; [|eauto]. intros Eid.
    assert (WorkflowInstances.wi (registered e) !! id = Some u) as E1 by (apply Hr; eauto).
    assert (WorkflowInstances.wi (registered e) !! id = Some w) as E2 by (apply Hr; eauto). congruence.
Qed.

Lemma delete_clients e r1 w r2 d1 d2 :
  clients_inv e -> removed e = r1 ++ w :: r2 -> ending (sys e) = d1 ++ w :: d2 ->
  clients_inv (mkEngine (set_instances (delete w (instances (sys e))) (starting (sys e)) (d1 ++ d2) (sys e))
                 (registered e) (r1 ++ r2) (launchers e)).
Proof.
  intros [I Hr Hm Hnd Hc Hl Ho] Er Ee. rewrite Er in *. pose proof Hnd as Hnd2. rewrite <- Permutation_middle in Hnd2.
  apply NoDup_cons in Hnd2 as [Hne Hnd2].
  assert (forall u, u <> w -> u ∈ ending (sys e) -> u ∈ d1 ++ d2) as Hend by (intros u Hu; rewrite Ee; set_solver).
  split; cbn; try done.
  - by apply delete_inv.
  - intros id u. rewrite Hr. split; intros (y & Hy & Ey & Hu).
    + assert (u <> w) as Hd by set_solver. exists y. rewrite lookup_delete_ne by done. set_solver.
    + apply lookup_delete_Some in Hy as [Hd Hy]. exists y. set_solver.
  - intros u Hu. apply Hend; [by intros ->|]. apply Hm. set_solver.
  - intros u Hu. destruct (Hl u Hu) as [H3 H4]. split; [apply Hend; [set_solver|done]|set_solver].
Qed.

Lemma engine_clients e s' ls :
  clients_inv e -> system_step (sys e) s' -> allocated s' = allocated (sys e) ->
  (forall w, w ∈ told_by ls -> w ∈ ending s' /\ w ∉ removed e) -> NoDup (told_by ls) ->
  clients_inv (mkEngine s' (registered e) (removed e) ls).
Proof.
  intros [I Hr Hm Hnd Hc Hl Ho] St Ha H3 H4. split; cbn; try done; [by eapply system_step_inv|by eapply engine_step_registered|].
  intros w Hw%Hm. by eapply step_ending.
Qed.

Lemma launch_clients e w s' synchronous :
  clients_inv e -> (w, New) ∈ starting (sys e) -> system_step (sys e) s' -> allocated s' = allocated (sys e) ->
  clients_inv (mkEngine s' (registered e) (removed e) ((w, Started (bool_decide (w ∈ ending s')) synchronous) :: launchers e)).
Proof.
  intros C Hw St Ha. pose proof C as [I Hr Hm Hnd Hc Hl Ho].
  assert (w ∉ ending (sys e)) as He.
  { intros [_ []]%(ending_alive _ _ I). apply list_elem_of_fmap. by exists (w, New). }
  apply engine_clients; try done.
  - intros u. rewrite told_by_cons. intros [Hu|Hu]%elem_of_app; [|destruct (Hl u Hu); split; [by eapply step_ending|done]].
    cbn in Hu. case_bool_decide as Hs; [|by apply not_elem_of_nil in Hu]. apply list_elem_of_singleton in Hu as ->.
    split; [done|]. by intros ?%Hm.
  - rewrite told_by_cons. cbn. case_bool_decide; [|done]. apply NoDup_cons. split; [|done]. by intros [? _]%Hl.
Qed.

Lemma step_clients sp e e' : clients_inv e -> step sp e e' -> clients_inv e'.
Proof.
  intros C St. pose proof C as [I Hr Hm Hnd Hc Hl Ho].
  destruct St as [e s' St Ha|e w o x Hn Hb H3 H4 Hid|e c1 w o c2 x ex x' Es Hx _|e w s' sy Hw St Ha Hst|e l1 w b l2 E _
                 |e l1 w b l2 f E _ Hf|e l1 w c b l2 _ E|e l1 w b l2 E _|e w Hw Hw2 Hw3|e r1 w r2 d1 d2 E1 E2|e id f c r Hf E].
  - apply engine_clients; try done. intros w Hw. destruct (Hl w Hw). split; [by eapply step_ending|done].
  - by eapply construct_clients.
  - by eapply abandon_clients.
  - by apply launch_clients.
  - apply launchers_clients; [done|]. rewrite E. by rewrite (told_by_change l1 w (Started b false)).
  - destruct (Wait _ f (registered e)) as [[c r]|] eqn:Ew.
    + eapply Wait_clients; [done|done|done|]. rewrite E. by apply told_by_change.
    + apply launchers_clients; [done|]. rewrite E. by rewrite (told_by_change l1 w (Started b true)).
  - apply launchers_clients; [done|]. rewrite E. by rewrite (told_by_change l1 w (Waiting c b)).
  - apply launchers_clients; [done|]. rewrite E. apply told_by_drop.
  - by apply remove_clients.
  - by apply delete_clients.
  - by eapply Wait_clients.
Qed.

(** The engine before the first instance. *)
Definition begins (new_Queue : string -> outcome Q) (pid_max : string) e : Prop :=
  SystemSafety.begins names new_Queue pid_max (sys e) /\ registered e = WorkflowInstances_new /\ removed e = [] /\ launchers e = [].

Lemma begins_clients new_Queue pid_max e : begins new_Queue pid_max e -> clients_inv e.
Proof.
  intros (B & Er & Em & El). split; rewrite ?Er, ?Em, ?El; try (by intros ? ?%not_elem_of_nil).
  - by eapply system_begins_inv.
  - intros id w. cbn. rewrite lookup_empty. split; [done|]. intros (x & Hx & _). by rewrite (b_instances _ _ _ _ B), lookup_empty in Hx.
  - constructor.
  - intros i j c. cbn. by rewrite lookup_empty.
  - constructor.
Qed.

Lemma steps_clients sp e0 e : clients_inv e0 -> rtc (step sp) e0 e -> clients_inv e.
Proof. intros C R. induction R; eauto using step_clients. Qed.

Lemma run_clients new_Queue pid_max e0 e : begins new_Queue pid_max e0 -> run e0 false e -> clients_inv e.
Proof. intros B%begins_clients R%clients_run_faultless. by eapply steps_clients. Qed.

(** * A launch that waits for the end of an instance that only itself deletes *)

(** The thread has been told of the end of the workflow, and waits, or is about to. *)
Definition stuck (w : wi_ref) e : Prop :=
  w ∈ told_by (launchers e) /\
  forall l, (w, l) ∈ launchers e -> told l = true ->
    l = Started true true \/
    exists c, l = Waiting c true /\ wi_wait (registered e) !! GetInstanceID (sys e) w = Some c.

(** An instance whose deletion has not begun is found by its identifier. *)
Lemma registered_here e w :
  clients_inv e -> is_Some (instances (sys e) !! w) -> w ∉ removed e ->
  WorkflowInstances.wi (registered e) !! GetInstanceID (sys e) w = Some w.
Proof. intros C [x Hx] Hw. apply (c_registered _ C). exists x. unfold GetInstanceID. by rewrite Hx. Qed.

Lemma stuck_alive w e : clients_inv e -> stuck w e -> is_Some (instances (sys e) !! w) /\ w ∉ removed e.
Proof.
  intros C [Ht _]. destruct (c_told _ C w Ht) as [He Hn]. split; [|done]. by apply (ending_alive _ _ (c_sys _ C)).
Qed.

(** The threads of other instances go on: this one stays where it is. *)
Lemma stuck_others w e s' r rm ls :
  stuck w e -> GetInstanceID s' w = GetInstanceID (sys e) w ->
  (forall c, wi_wait (registered e) !! GetInstanceID (sys e) w = Some c -> wi_wait r !! GetInstanceID (sys e) w = Some c) ->
  w ∈ told_by ls ->
  (forall l, (w, l) ∈ ls -> told l = true -> (w, l) ∈ launchers e) -> stuck w (mkEngine s' r rm ls).
Proof.
  intros [Ht Hs] Eid Hr Ht' Hls. split; [done|]. cbn. intros l Hin E. rewrite Eid.
  destruct (Hs l (Hls l Hin E) E) as [->|(c & -> & Hc)]; eauto.
Qed.

Lemma step_GetInstanceID s s' w :
  inv names s -> system_step s s' -> is_Some (instances s !! w) -> is_Some (instances s' !! w) ->
  GetInstanceID s' w = GetInstanceID s w.
Proof.
  intros I St [x Hx] [x' Hx']. unfold GetInstanceID. rewrite Hx, Hx'. apply (step_same s s' w x x' I St Hx Hx').
Qed.

(** One thread alone is told of the end of an instance. *)
Lemma told_once e l1 w l l2 l' :
  clients_inv e -> launchers e = l1 ++ (w, l) :: l2 -> told l = true -> (w, l') ∈ l1 ++ l2 -> told l' = false.
Proof.
  intros C E Et Hin. destruct (told l') eqn:Et'; [|done]. exfalso. pose proof (c_once _ C) as N.
  rewrite E, told_by_app, told_by_cons, Et in N. cbn in N. rewrite <- Permutation_middle in N.
  apply NoDup_cons in N as [N _]. apply N. rewrite <- told_by_app. apply elem_of_told_by. eauto.
Qed.

Lemma elem_of_middle {A} (x y : A) l1 l2 : x ∈ l1 ++ y :: l2 <-> x = y \/ x ∈ l1 ++ l2.
Proof. rewrite elem_of_app, elem_of_cons, elem_of_app. tauto. Qed.

(** The change of one thread that is not this one. *)
Lemma stuck_change w e r l1 u l l' l2 :
  stuck w e -> launchers e = l1 ++ (u, l) :: l2 -> told l' = told l -> told l = false \/ u <> w ->
  (forall i c, wi_wait (registered e) !! i = Some c -> wi_wait r !! i = Some c) ->
  stuck w (mkEngine (sys e) r (removed e) (l1 ++ (u, l') :: l2)).
Proof.
  intros Hs E Et Hu Hr. apply (stuck_others w e); [done|done|auto| |].
  - rewrite (told_by_change _ _ _ _ _ Et), <- E. apply Hs.
  - intros l0. rewrite E, !elem_of_middle. intros [[= -> ->]|Hin] E0; [|auto]. destruct Hu as [Hu|Hu]; [congruence|done].
Qed.

Lemma stuck_here w e l1 l l2 :
  stuck w e -> launchers e = l1 ++ (w, l) :: l2 -> told l = true ->
  l = Started true true \/ exists c, l = Waiting c true /\ wi_wait (registered e) !! GetInstanceID (sys e) w = Some c.
Proof. intros [_ Hs] E Et. apply Hs; [|done]. rewrite E. set_solver. Qed.

(** It waits for a broadcast that it alone would bring about. *)
Lemma stuck_waits w e l1 b l2 f :
  clients_inv e -> stuck w e -> launchers e = l1 ++ (w, Started b true) :: l2 -> b = true ->
  (forall i, wi_wait (registered e) !! i <> Some f) ->
  exists c r, Wait (GetInstanceID (sys e) w) f (registered e) = Some (c, r) /\
    stuck w (mkEngine (sys e) r (removed e) (l1 ++ (w, Waiting c b) :: l2)).
Proof.
  intros C Hs E -> Hf. destruct (stuck_alive _ _ C Hs) as [Ha Hn]. pose proof (registered_here _ _ C Ha Hn) as Hr.
  destruct (Wait (GetInstanceID (sys e) w) f (registered e)) as [[c r]|] eqn:Ew.
  2: { unfold Wait in Ew. rewrite Hr in Ew. by case_match. }
  exists c, r. split; [done|]. destruct (Wait_wait _ _ _ _ _ Hf Ew) as (Hc & _). split; cbn.
  - rewrite (told_by_change l1 w (Started true true)), <- E by done. apply Hs.
  - intros l. rewrite elem_of_middle. intros [[= ->]|Hin] Et; [eauto|].
    by rewrite (told_once _ _ _ _ _ _ C E eq_refl Hin) in Et.
Qed.

(** The removal of another instance wakes other threads. *)
Lemma stuck_remove w e id s' rm :
  stuck w e -> own_conditions (registered e) -> GetInstanceID s' w = GetInstanceID (sys e) w ->
  id <> GetInstanceID (sys e) w -> stuck w (do_remove id s' rm e).
Proof.
  intros [Ht Hs] Ho Eid Hne. rewrite do_remove_eq. destruct (Remove_wait id (registered e)) as [-> Hw].
  split; cbn; [by rewrite woken_told|]. rewrite Hw, Eid. intros l ([u l0] & E & Hin)%list_elem_of_fmap Et.
  destruct l0 as [b sy|c b|b]; cbn in E.
  - injection E as -> ->. destruct (Hs _ Hin Et) as [->|(c & Hl & _)]; [by left|done].
  - assert (w = u /\ b = true) as [-> ->] by (case_bool_decide; injection E as -> ->; by split).
    destruct (Hs _ Hin eq_refl) as [Hl|(c' & [= <-] & Hc)]; [done|].
    case_bool_decide as Hd; [destruct Hne; by eapply Ho|]. injection E as ->. right. exists c. split; [done|].
    by rewrite lookup_delete_ne.
  - injection E as -> ->. destruct (Hs _ Hin Et) as [?|(? & ? & _)]; done.
Qed.

Lemma identifiers_distinct e w u x :
  clients_inv e -> stuck w e -> instances (sys e) !! u = Some x -> u ∉ removed e -> u <> w ->
  workflow_instance_id (wi x) <> GetInstanceID (sys e) w.
Proof.
  intros C Hs Hu Hn Hne E. destruct (stuck_alive _ _ C Hs) as [Ha Hn'].
  pose proof (registered_here _ _ C Ha Hn') as E1. rewrite <- E in E1.
  assert (WorkflowInstances.wi (registered e) !! workflow_instance_id (wi x) = Some u) as E2 by (apply (c_registered _ C); eauto).
  congruence.
Qed.

Lemma stuck_engine w e s' ls :
  clients_inv e -> stuck w e -> system_step (sys e) s' -> allocated s' = allocated (sys e) ->
  w ∈ told_by ls -> (forall l, (w, l) ∈ ls -> told l = true -> (w, l) ∈ launchers e) ->
  stuck w (mkEngine s' (registered e) (removed e) ls).
Proof.
  intros C Hs St Ha H3 H4. destruct (stuck_alive _ _ C Hs) as [Hw _].
  apply (stuck_others w e); try done. apply step_GetInstanceID; [apply C|done|done|].
  apply elem_of_dom. unfold allocated in Ha. rewrite Ha. by apply elem_of_dom.
Qed.

Lemma stuck_delete w e r1 u r2 d :
  clients_inv e -> stuck w e -> removed e = r1 ++ u :: r2 ->
  stuck w (mkEngine (set_instances (delete u (instances (sys e))) (starting (sys e)) d (sys e))
             (registered e) (r1 ++ r2) (launchers e)).
Proof.
  intros C Hs Er. destruct (stuck_alive _ _ C Hs) as [_ Hn]. apply (stuck_others w e); try done; [|apply Hs].
  unfold GetInstanceID. cbn. rewrite lookup_delete_ne; [done|]. intros ->. apply Hn. rewrite Er. set_solver.
Qed.

Lemma step_stuck w e e' : clients_inv e -> stuck w e -> step false e e' -> stuck w e'.
Proof.
  intros C Hs St. destruct (stuck_alive _ _ C Hs) as [Ha Hn]. pose proof (c_sys _ C) as I.
  destruct St as [e s' St Hal|e u o x Hx Hb H3 H4 Hid|e c1 u o c2 x ex x' Es Hx _|e u s' sy Hu St Hal Hst|e l1 u b l2 E _
                 |e l1 u b l2 f E _ Hf|e l1 u c b l2 Hsp E|e l1 u b l2 E _|e u Hu Hu2 Hu3|e r1 u r2 d1 d2 E1 E2|e id f c r Hf E].
  - apply stuck_engine; try done. apply Hs.
  - apply (stuck_others w e); try done; [|apply Hs]. unfold GetInstanceID. cbn.
    rewrite lookup_insert_ne; [done|]. intros ->. rewrite Hx in Ha. by destruct Ha.
  - assert (u ∉ ending (sys e)) as He by (intros [_ []]%(ending_alive _ _ I); rewrite Es, fmap_app; set_solver).
    assert (u <> w) as Hne by (intros ->; apply He; apply (c_told _ C), Hs).
    apply stuck_remove; [done|apply C| |].
    + unfold GetInstanceID. cbn. by rewrite lookup_delete_ne.
    + eapply identifiers_distinct; [done|done|exact Hx| |done]. by intros ?%(c_removed _ C).
  - assert (w ∈ ending (sys e)) as Hw by apply (c_told _ C), Hs.
    assert (w <> u) as Hne.
    { intros ->. apply (ending_alive _ _ I) in Hw as [_ []]. apply list_elem_of_fmap. by exists (u, New). }
    apply stuck_engine; try done.
    + rewrite told_by_cons. apply elem_of_app. right. apply Hs.
    + intros l [[= ? ?]|Hl]%elem_of_cons _; [done|exact Hl].
  - apply (stuck_change w e _ _ _ (Started b false)); try done.
    destruct b; [right|by left]. intros ->. by destruct (stuck_here _ _ _ _ _ Hs E) as [?|(? & ? & _)].
  - destruct (decide (b = true /\ u = w)) as [[-> ->]|Hne].
    + destruct (stuck_waits _ _ _ _ _ f C Hs E eq_refl Hf) as (c & r & -> & Hs'). exact Hs'.
    + assert (b = false \/ u <> w) as Hd by (destruct b; [right; intros ->; by apply Hne|by left]).
      destruct (Wait _ f (registered e)) as [[c r]|] eqn:Ew.
      * apply (stuck_change w e _ _ _ (Started b true)); try done. by apply (Wait_wait _ _ _ _ _ Hf Ew).
      * by apply (stuck_change w e _ _ _ (Started b true)).
  - done.
  - assert (u = w -> b = false) as Hd.
    { intros ->. destruct b; [|done]. by destruct (stuck_here _ _ _ _ _ Hs E) as [?|(? & ? & _)]. }
    apply (stuck_others w e); try done.
    + pose proof (proj1 Hs) as Ht. rewrite E, told_by_app, told_by_cons in Ht. rewrite told_by_app.
      destruct b; cbn in Ht; [|done]. apply elem_of_app. apply elem_of_app in Ht as [Ht|[Ht|Ht]%elem_of_cons]; auto.
      by specialize (Hd (eq_sym Ht)).
    + intros l Hl _. rewrite E, elem_of_middle. by right.
  - assert (u <> w) as Hne by (intros ->; apply Hu3, Hs). destruct (ending_alive _ _ I Hu) as [[x Hx] _].
    apply stuck_remove; [done|apply C|done|]. unfold GetInstanceID at 1. rewrite Hx. by eapply identifiers_distinct.
  - by apply stuck_delete.
  - apply (stuck_others w e); try done; [|apply Hs]. by apply (Wait_wait _ _ _ _ _ Hf E).
Qed.

Lemma steps_stuck w e e' : clients_inv e -> stuck w e -> rtc (step false) e e' -> clients_inv e' /\ stuck w e'.
Proof.
  intros C Hs R. induction R as [|e1 e2 e3 St R IH]; [done|]. apply IH; [by eapply step_clients|by eapply step_stuck].
Qed.

(** The thread of a synchronous launch, when [Start] has returned. *)
Lemma stuck_begins w e : clients_inv e -> (w, Started true true) ∈ launchers e -> stuck w e.
Proof.
  intros C Hin. split; [apply elem_of_told_by; by eexists|]. intros l Hl Et. left.
  apply list_elem_of_split in Hin as (l1 & l2 & E). rewrite E, elem_of_middle in Hl.
  destruct Hl as [[= ->]|Hl]; [done|]. by rewrite (told_once _ _ _ _ _ _ C E eq_refl Hl) in Et.
Qed.

(** * Properties *)

(** C6: Whatever the instances, the connections, the main program and the
    destructors do in any order, as long as the engine meets no fault (a
    task put in a queue whose tail is wrong after a cancellation, a forker
    that finds no free identifier, a resumed task in an unknown queue or
    whose identifier is 0 or taken) and fewer than 2^32 tasks are running or
    wait for a retry: an identifier is found in the map of instances exactly
    when an instance with this identifier is allocated and its destructor
    has not begun, so that a cancellation, a savepoint or a query on the
    state reaches every running instance and never a deleted one. *)
Theorem clients_memory_safe new_Queue pid_max e0 e :
  begins new_Queue pid_max e0 -> run e0 false e ->
  (forall id w, WorkflowInstances.Cancel id (registered e) = Some w <->
     exists x, instances (sys e) !! w = Some x /\ workflow_instance_id (wi x) = id /\ w ∉ removed e) /\
  (forall w, w ∈ WorkflowInstances.RecordSavepoint (registered e) -> is_Some (instances (sys e) !! w) /\ w ∉ removed e) /\
  (forall w, w ∈ removed e -> is_Some (instances (sys e) !! w)).
Proof.
  intros B R. pose proof (run_clients _ _ _ _ B R) as [I Hr Hm Hnd Hc Hl Ho]. split_and!.
  - intros id w. apply Hr.
  - intros w (p & -> & Hp)%list_elem_of_fmap. rewrite merge_sort_Permutation in Hp. destruct p as [id u].
    apply elem_of_map_to_list in Hp. apply Hr in Hp as (x & Hx & _ & Hn). eauto.
  - intros w Hw. by apply (ending_alive _ _ I), Hm.
Qed.

(** C36: When Start tells the thread of a synchronous launch that the
    workflow has already ended, the thread waits for the end of an instance
    that only itself would delete after the wait: whatever the other threads
    do from then on, unless pthread_cond_wait returns without a broadcast,
    the instance stays registered, no broadcast wakes the thread, and the
    client gets no answer. *)
Theorem launch_sync_hangs new_Queue pid_max e0 e w :
  begins new_Queue pid_max e0 -> run e0 false e -> (w, Started true true) ∈ launchers e ->
  forall e', rtc (step false) e e' ->
  WorkflowInstances.Cancel (GetInstanceID (sys e') w) (registered e') = Some w /\
  (exists l, (w, l) ∈ launchers e' /\ told l = true) /\
  forall l, (w, l) ∈ launchers e' -> told l = true ->
    l = Started true true \/
    exists c, l = Waiting c true /\ wi_wait (registered e') !! GetInstanceID (sys e') w = Some c.
Proof.
  intros B R Hl e' R'. pose proof (run_clients _ _ _ _ B R) as C.
  destruct (steps_stuck w e e' C (stuck_begins _ _ C Hl) R') as [C' Hs]. split_and!.
  - destruct (stuck_alive _ _ C' Hs). by apply (registered_here e' w C').
  - apply elem_of_told_by, Hs.
  - apply Hs.
Qed.
End clients.

(** * A run *)

Section run.
Context {D : Type} `{Dom D} {Q : Type} `{QueueLaws Q, !QueueTasks Q, !QueueTasksLaws Q}.
Context (names : list string) (GetTask : string -> option Task) (format_time : Z -> string).
Context (engine_env : string -> option string) (configuration : Configuration.Configuration).
Context (built : origin -> world (D := D) -> Prop).
Implicit Types (s : System.system (D := D) (Q := Q)).

(** Actions that leave the set of instances as it is. *)
Fixpoint acts_within (l : list action) s : option (System.system (D := D) (Q := Q)) :=
  match l with
  | [] => Some s
  | a :: l =>
      s' ← act names GetTask format_time engine_env configuration a s;
      if bool_decide (allocated s' = allocated s) then acts_within l s' else None
  end.

Lemma acts_within_clients l s s' r rm la :
  inv names s -> acts_within l s = Some s' ->
  rtc (step names GetTask format_time engine_env configuration built true) (mkEngine s r rm la) (mkEngine s' r rm la).
Proof.
  revert s. induction l as [|a l IH]; intros s I E; cbn [acts_within] in E; [injection E as <-; apply rtc_refl|].
  destruct (act _ _ _ _ _ a s) as [s1|] eqn:Ea; [|done]. cbn in E. case_bool_decide as Ha; [|done].
  pose proof (act_sound _ _ _ _ _ built _ _ _ I Ea) as St. eapply rtc_l; [by apply cl_engine|].
  apply IH; [by eapply system_step_inv|exact E].
Qed.
End run.

Definition ex_client_step : engine (D := doc) (Q := Queue.Queue) -> engine -> Prop :=
  step ["default"%string] ex_GetTask ex_format_time ex_env Configuration_new ex_built true.
Definition ex_within : list action -> System.system (D := doc) (Q := Queue.Queue) -> option System.system :=
  acts_within ["default"%string] ex_GetTask ex_format_time ex_env Configuration_new.

(** The instance is constructed, and launched by a connection. *)
Definition ex_clients : engine (D := doc) (Q := Queue.Queue) := mkEngine ex_engine WorkflowInstances_new [] [].
Definition ex_map : WorkflowInstances := Add (workflow_instance_id (wi (ex_world ex_workflow))) 1 WorkflowInstances_new.
Definition ex_started : System.system (D := doc) (Q := Queue.Queue) := ex_run [AStart 1].
Definition ex_finished : System.system (D := doc) (Q := Queue.Queue) := default ex_started (ex_within (tail ex_first ++ ex_rest) ex_started).

Lemma ex_clients_begins : begins ["default"%string] ex_queue "3" ex_clients.
Proof. split; [exact ex_system_begins|done]. Qed.

Lemma ex_client_launched : rtc ex_client_step ex_clients (mkEngine ex_started ex_map [] [(1%positive, Started false false)]).
Proof.
  eapply rtc_l; [apply (cl_construct _ _ _ _ _ _ true ex_clients 1 New (ex_world ex_workflow)); done|].
  apply rtc_once.
  pose proof (cl_launch ["default"%string] ex_GetTask ex_format_time ex_env Configuration_new ex_built true
                (mkEngine ex_constructed ex_map [] []) 1 ex_started false) as L.
  assert (inv ["default"%string] ex_constructed) as I
    by (eapply system_step_inv; [by eapply system_begins_inv, ex_system_begins|apply ex_system_construct]).
  assert (bool_decide (1%positive ∈ ending ex_started) = false) as E by (vm_compute; reflexivity). rewrite E in L.
  apply L; cbn [sys].
  - by left.
  - apply (act_sound _ _ _ _ _ _ (AStart 1)); [exact I|]. vm_compute. reflexivity.
  - vm_compute. reflexivity.
  - vm_compute. by intros ?%not_elem_of_nil.
Qed.

(** The tasks run to their end while the connection has not gone on. *)
Lemma ex_client_finished : rtc ex_client_step ex_clients (mkEngine ex_finished ex_map [] [(1%positive, Started false false)]).
Proof.
  etransitivity; [exact ex_client_launched|]. apply (acts_within_clients _ _ _ _ _ _ (tail ex_first ++ ex_rest)).
  - pose proof (run_clients _ _ _ _ _ _ ex_queue "3" ex_clients _ ex_clients_begins (proj2 (clients_run_faultless _ _ _ _ _ _ _ _) ex_client_launched)) as C. exact (c_sys _ _ C).
  - vm_compute. reflexivity.
Qed.

Lemma ex_finished_ending : ending ex_finished = [1%positive].
Proof. vm_compute. reflexivity. Qed.

(** The gatherer deletes the instance. *)
Definition ex_deleted : engine (D := doc) (Q := Queue.Queue) :=
  mkEngine (set_instances (delete 1%positive (instances ex_finished)) (starting ex_finished) [] ex_finished)
    (snd (Remove (GetInstanceID ex_finished 1) ex_map)) [] [(1%positive, Started false false)].

Lemma ex_client_deleted : rtc ex_client_step ex_clients ex_deleted.
Proof.
  eapply rtc_r; [eapply rtc_r; [exact ex_client_finished|]|].
  - apply (cl_remove _ _ _ _ _ _ _ (mkEngine ex_finished _ _ _) 1); cbn [sys removed launchers].
    + rewrite ex_finished_ending. by left.
    + by intros ?%not_elem_of_nil.
    + by intros ?%not_elem_of_nil.
  - apply (cl_delete _ _ _ _ _ _ _ (mkEngine ex_finished _ _ _) [] 1 [] [] []); [done|exact ex_finished_ending].
Qed.

(** C35: A run of the engine exists where the instance that a query has
    launched ends and is deleted by the gatherer while the thread of the
    connection, which Start has told that the workflow had not ended, has
    not yet read the identifier of the instance from the pointer that it
    holds. *)
Theorem launch_reads_deleted :
  exists e w, rtc ex_client_step ex_clients e /\ (w, Started false false) ∈ launchers e /\ instances (sys e) !! w = None.
Proof. exists ex_deleted, 1%positive. split; [exact ex_client_deleted|]. split; [by left|]. apply lookup_delete_eq. Qed.

Lemma clients_memory_safe_witness :
  rtc ex_client_step ex_clients (mkEngine ex_finished ex_map [] [(1%positive, Started false false)]) /\
  exists id x, WorkflowInstances.Cancel id ex_map = Some 1%positive /\
    instances ex_finished !! 1%positive = Some x /\ workflow_instance_id (wi x) = id.
Proof.
  split; [exact ex_client_finished|]. exists (GetInstanceID ex_finished 1).
  assert (WorkflowInstances.Cancel (GetInstanceID ex_finished 1) ex_map = Some 1%positive) as E by (vm_compute; reflexivity).
  destruct (clients_memory_safe _ _ _ _ _ _ ex_queue "3" ex_clients _ ex_clients_begins
              (proj2 (clients_run_faultless _ _ _ _ _ _ _ _) ex_client_finished)) as (Hl & _).
  destruct (proj1 (Hl _ _) E) as (x & Hx & Hid & _). exists x. split_and!; [exact E|exact Hx|exact Hid].
Defined.

(** * A synchronous launch of an empty workflow *)

Definition ex_empty : doc := to_doc (Elem "workflow" [("name"%string, "empty"%string)] [Elem "subjobs" [] []]).
Definition ex_empty_built (o : origin) (x : world (D := doc)) : Prop := x = ex_world ex_empty.
Abbreviation ex_empty_step :=
  (step ["default"%string] ex_GetTask ex_format_time ex_env Configuration_new ex_empty_built).
Definition ex_empty_constructed : System.system (D := doc) (Q := Queue.Queue) :=
  set_instances (<[1%positive := ex_world ex_empty]> ∅) [(1%positive, New)] [] ex_engine.
Definition ex_empty_started : System.system (D := doc) (Q := Queue.Queue) :=
  default ex_engine (act ["default"%string] ex_GetTask ex_format_time ex_env Configuration_new (AStart 1) ex_empty_constructed).
Definition ex_told : engine (D := doc) (Q := Queue.Queue) :=
  mkEngine ex_empty_started ex_map [] [(1%positive, Started true true)].
(** The thread waits. *)
Definition ex_waits : engine (D := doc) (Q := Queue.Queue) :=
  mkEngine ex_empty_started (mkWorkflowInstances (WorkflowInstances.wi ex_map) (<[7 := 5%positive]> ∅)) []
    [(1%positive, Waiting 5 true)].

Lemma ex_told_reached : rtc (ex_empty_step true) ex_clients ex_told.
Proof.
  eapply rtc_l; [apply (cl_construct _ _ _ _ _ ex_empty_built true ex_clients 1 New (ex_world ex_empty)); done|].
  apply rtc_once.
  pose proof (cl_launch ["default"%string] ex_GetTask ex_format_time ex_env Configuration_new ex_empty_built true
                (mkEngine ex_empty_constructed ex_map [] []) 1 ex_empty_started true) as L.
  assert (inv ["default"%string] ex_empty_constructed) as I.
  { apply (construct_inv ["default"%string] ex_engine 1 New); try done. by eapply system_begins_inv, ex_system_begins. }
  assert (bool_decide (1%positive ∈ ending ex_empty_started) = true) as E by (vm_compute; reflexivity). rewrite E in L.
  apply L; cbn [sys].
  - by left.
  - apply (act_sound _ _ _ _ _ _ (AStart 1)); [exact I|]. vm_compute. reflexivity.
  - vm_compute. reflexivity.
  - vm_compute. by intros ?%not_elem_of_nil.
Qed.

Lemma ex_told_waits : rtc (ex_empty_step false) ex_told ex_waits.
Proof.
  apply rtc_once.
  pose proof (cl_waits ["default"%string] ex_GetTask ex_format_time ex_env Configuration_new ex_empty_built false
                ex_told [] 1 true [] 5 eq_refl) as L.
  assert (Wait (GetInstanceID (sys ex_told) 1) 5 (registered ex_told) =
    Some (5%positive, mkWorkflowInstances (WorkflowInstances.wi ex_map) (<[7 := 5%positive]> ∅))) as E by (vm_compute; reflexivity).
  rewrite E in L. apply L; [|done]. by apply is_some_check; vm_compute.
Qed.

Lemma launch_sync_hangs_witness :
  rtc (ex_empty_step false) ex_told ex_waits /\ WorkflowInstances.Cancel 7 (registered ex_waits) = Some 1%positive /\
  exists l, (1%positive, l) ∈ launchers ex_waits /\ told l = true.
Proof.
  split; [exact ex_told_waits|].
  destruct (launch_sync_hangs _ _ _ _ _ _ ex_queue "3" ex_clients ex_told 1 ex_clients_begins
              (proj2 (clients_run_faultless _ _ _ _ _ _ _ _) ex_told_reached) (list_elem_of_here _ _) _ ex_told_waits) as (H1 & H2 & _).
  split; [|exact H2].
  assert (GetInstanceID (sys ex_waits) 1 = 7) as E by (vm_compute; reflexivity). rewrite E in H1. exact H1.
Defined.
